(* ===== verification/_CoqProject ===== *)
-Q . S2P
Prelude.v
GoStrings.v
GoNet.v
GoNetFacts.v
GoNetPrint.v
Netutil.v
Types.v
DeepCopy.v
Kilonode.v
ValidationMesh.v
ValidationNode.v
Sha256.v
Naming.v
Builder.v
Kube.v
PeerReconciler.v
Rename.v
SharedKey.v
Registry.v
Controller.v
Requests.v
Convergence.v
Retry.v
Faults.v
Outage.v
Fleet.v
Churn.v
Steady.v
Bystanders.v
Restart.v
Mapper.v
Operator.v
Healing.v
Watches.v
Fingerprint.v
Crd.v
Startup.v
Life.v
