(* ===== verification/Prelude.v ===== *)
(** * kilo-clustermesh-operator: a verification library

    ** The program

    The operator keeps a full mesh of WireGuard peers between Kubernetes clusters
    that run Kilo. A [ClusterMesh] resource lists clusters, each with the networks
    its nodes may announce. For every ordered pair (source, target) of clusters the
    operator validates the nodes of the source, turns each valid one into a [Peer]
    and makes the target's set of peers equal to the desired one; it also validates
    the networks of all meshes, sweeps peers of vanished clusters and meshes, and
    restarts itself when the set of clusters changes.

    Data flows [Registry] (clients) -> [Controller.reconcile] -> [ValidationMesh]
    (networks) -> [ValidationNode] and [Kilonode] (nodes) -> [Builder] and [Naming]
    (peers) -> [PeerReconciler] (writes to a target cluster). [Startup] puts the
    process together; [Watches] decides which events lead to a reconcile.

    ** Files

    - [Prelude]: results, the state-passing effects of the model with the notation
      [let? x := m catch e => h; k] for Go's error returns, loop rules, tactics.
    - [GoStrings], [GoNet]: the functions of Go's [strings], [strconv], [sort],
      [net] and [net/netip] that the operator calls, written out on bytes.
      [GoNetFacts] gives networks their meaning as bit prefixes; [GoNetPrint]
      proves that printing an address and parsing it gives the address back.
    - [Sha256]: [crypto/sha256] and [encoding/hex].
    - [Netutil]: internal/netutil/cidr.go.
    - [Types]: api/v1alpha1/clustermesh_types.go and pkg/kilo/v1alpha1/types.go.
    - [DeepCopy]: the zz_generated.deepcopy.go of both API packages, over a heap.
    - [Kilonode]: internal/kilonode (annotations.go, endpoint.go, discovered.go).
    - [ValidationMesh], [ValidationNode]: internal/validation/mesh.go and node.go.
    - [Naming], [Builder]: internal/peer/naming.go and builder.go.
    - [Kube]: the API server as an interface, the classes [PeerAPI] (operations)
      and [PeerAPILaws] (what Kubernetes documents: reads may be stale, writes use
      optimistic concurrency, a write may take effect although its reply is an
      error). [Kube.Memory] is an executable server that satisfies the laws.
    - [PeerReconciler]: internal/peer/reconciler.go, against [PeerAPI]. [Rename]:
      what it does with a node that comes back under another name. [SharedKey]: what
      it does with a node that two meshes list.
    - [Registry]: internal/multicluster/registry.go and client.go, and the merging
      of cluster entries in cmd/main.go.
    - [Controller]: internal/controller/clustermesh_controller.go, against
      [PeerAPI] and [ControllerAPI].
    - [Requests]: the same code on servers of which almost nothing is assumed, with a
      record of what is read and what is written, and a program logic for it.
    - [Convergence]: what a whole reconcile achieves when nothing disturbs it,
      proved from the components. [Retry]: what attempts leave behind when calls
      fail, and that repeating them is enough. [Faults]: an executable server that
      fails by a script, an instance of [Retry]'s assumptions. [Outage]: a reconcile
      while some clusters refuse to list their peers. [Fleet]: several meshes whose
      reconciles follow one another. [Churn]: one mesh whose specification and nodes
      change between reconciles. [Steady]: reconciles of a converged mesh and of one
      that is being deleted. [Bystanders]: a reconcile during which others write.
    - [Restart]: internal/restart (watcher.go, trigger.go) and the mapper reset of
      internal/multicluster/mapper.go.
    - [Mapper]: the proxy methods of mapper.go and the interleavings of lookups and
      resets.
    - [Operator]: the outer [Reconcile] of the controller, which combines
      [Controller], [Registry] and the mapper reset of [Restart]. The mappers are
      shared objects of the world (class [MapperStore]). [Healing]: [Operator] on
      clusters whose mappers hold old discovery data, and the witnesses of [Outage].
    - [Watches]: [SetupWithManager] of both controllers; controller-runtime's
      predicates are the class [PredicateAPI] with its documented laws.
    - [Crd]: internal/crd/install.go, against a clock, a ticker and an API server
      whose requests fail when their context is past its deadline ([CrdLaws]).
    - [Startup]: the rest of cmd/main.go: flags, options of the manager and [run].
    - [Fingerprint]: the JSON text of the references determines them. [Life]: the
      change watcher at work, from start-up to restart, as a step relation over
      [ComputeFingerprint], [secretToClusterMesh] and the watcher's [Reconcile]; the
      steps of the environment are changes of meshes and Secrets with their events.

    Each Go function is a definition of the same name; a loop body that is long
    enough is a definition of its own ([reconcileOne] is the body of the loop of
    [reconcileDesired]). A Go [(value, error)] pair is a [result]; a joined error is
    the list of its parts. Effects are functions from a world to a reply and a new
    world ([ST]). Go maps are [gmap]s, and where the code ranges over one and the
    order can show, the order is an operation of the interface that may return any
    permutation.

    ** What is shown

    - Networks: [CIDROverlaps] and [CIDRContains] decide intersection and inclusion
      of the address sets of two networks; [HostRoute] prints a network of exactly
      one address and is read back.
    - Nodes: [ValidateNode] accepts exactly the eligible nodes; duplicates of a
      WireGuard address are rejected whatever their textual form; a resolved
      endpoint always parses; a valid node always gives a peer, and a node without an
      endpoint is valid.
    - Peers: names are DNS-1123 names of at most 253 bytes, stable, and
      [Name_unique] says exactly when two are equal; the AllowedIPs of
      a peer are exactly the routes the specification asks for; every allowed
      network of a cluster is announced by some peer.
    - Reconciliation: [ReconcilePeers] reaches the desired set, leaves a reconciled
      cluster alone, and never damages a peer of another owner, whatever errors,
      stale reads and iteration orders occur; [DeleteStaleSourceClusters] deletes
      exactly the stale peers; a whole [reconcile] never touches a peer that the
      operator does not manage, and writes no peer while networks overlap.
    - Interference ([Requests.reconcile_requests_justified]): whoever else writes to
      the servers, at any moment, and whatever they reply, each write a reconcile
      requests is justified by what it has read before.
    - The whole mesh ([Convergence.reconcile_converges]): when clusters answer, reads
      are current and nobody else writes, one reconcile succeeds and every cluster
      holds exactly the peers of every other one. The abstract specification is
      [wanted], the peers a target should hold of a source. A reconcile of a
      converged mesh writes nothing ([reconcile_idempotent]); one of a mesh that is
      being deleted removes the peers between the clusters its spec still lists, and
      no others ([reconcile_deletes_exactly]).
    - Company ([Bystanders.reconcile_converges_among_others]): the same holds while
      others create, change and delete unlabelled peers of their own before every
      request, as long as they keep away from the generated names and from the keys
      of the mesh. The run is compared with one on a view of the servers that shows
      the operator's peers only; the view satisfies the laws of [Kube], so that
      [Convergence] applies to it, and a two-run logic shows that the code cannot
      tell the two apart.
    - Liveness ([Retry.reconcile_eventually_converges]): whatever calls fail, replies
      are lost or reads are stale, every attempt asks to be repeated, and the first
      one after the failures have ceased converges.
    - Several meshes ([Fleet.fleet_converges]): in whatever order their reconciles
      follow one another, no mesh undoes what another has reached. One mesh whose
      configuration changes ([Churn.churn_converges]): the last reconcile leaves what
      the last configuration wants.
    - Outages ([Outage.reconcile_stops_at_outage]): how far a reconcile gets when some
      clusters refuse.
    - Events ([Watches]): which node events enqueue which meshes, and that an event
      that enqueues nothing does not matter, but for two cases: the handler could not
      list the meshes, or the update changes PodCIDRs or addresses alone
      ([node_event_complete]); the same for Secrets and the fingerprint, but for the
      first case ([secret_event_complete]).
    - Recovery ([Operator]): an error that carries a NoKindMatchError resets the
      mappers of all clusters, no other outcome does; lookups after a reset use
      data discovered after it, however goroutines interleave ([Mapper]). Together
      ([Healing.Reconcile_self_heals]): a mesh that meets old discovery data has
      converged after two requests.
    - Start-up ([Startup]): the manager is started only when everything is in place;
      options survive the command line; the installation of the CRD ends, and its
      result tells what happened ([Crd.InstallOrUpdate_returns]).
    - Restarts ([Life.quiet_registry_current]): if nothing changes during start-up, a
      process that has handled its events was built from the clusters, Secrets and
      versions that are there now, unless a Secret event was dropped or two texts
      have the same SHA-256 sum.
    - Deep copies ([DeepCopy]) are complete and share nothing with the original.
    - Configuration: one unreachable cluster does not keep the others out of the
      registry; the first entry of a name wins; the fingerprint does not depend on
      the order in which meshes are listed when names are unique.
    - Limits of the code. Proved in general: the peer of a renamed node is dropped
      ([Rename.rename_drops_key]); the routes of a node that two meshes list come and
      go with their reconciles ([SharedKey.merged_routes_flap]); one cluster that
      refuses stops the mesh ([Outage]); meshes of one name in two namespaces never
      settle ([Fleet.same_name_meshes_never_settle]); a deletion leaves the peers of
      clusters that refuse ([Steady.deletion_abandons_outage]) and those of clusters
      that the spec no longer lists ([Steady.reconcile_deletes_exactly]); a changed
      node address reaches no watch ([Watches.node_address_update_unnoticed]). Proved
      on a concrete run: a fingerprint that changes with the list order, a mesh created
      during start-up that the registry misses, a rotated Secret whose event is lost
      ([Life.Cached.rotation_missed]).

    ** Bounds

    Recursion is structural where the code's is. The remaining loops take fuel, and
    the bound is one the input cannot exceed: decoding runes (one step per byte),
    parsing an IPv6 address (one step per group, at most eight), printing one (one
    step per group), counting the ones of a mask byte (eight), printing a number (one
    step per digit), hashing (one step per block, the fuel is the padded length), and
    the wait of [Crd.waitForCRD], where [maxPolls] is the timeout over the interval;
    [InstallOrUpdate_returns] derives from the ticker and the deadline that the loop
    has ended by then.
    Integers are [Z]; parsers check the widths the code checks (16 bits for ports,
    8 for bytes).

    ** Parameters

    The API servers, the construction of clients, the kubeconfig parser, the JSON
    decoder of discovered endpoints, the clock, [sort.Slice] on equal elements and
    the order of map iteration are class operations or arguments; what is relied on
    is a law of a class or a hypothesis of the theorem, and every such theorem has
    a witness on a concrete instance.

    ** What is not modelled

    Logs, events, metrics and signals, the decoding of the embedded CRD manifest, and
    the deployment files. The registration of types with the scheme is a list of calls
    into apimachinery whose effect is documented for the caller only. The manager,
    its caches and its work queues belong to controller-runtime: what is modelled is
    what they are given, and for the work queue the result that asks for a retry.

    ** Further work

    Convergence against writers that contend for the peers of the mesh itself, where
    [Requests] shows what is asked for and not what is reached; the validation rules
    of the CRD schema. *)

From Stdlib Require Export ZArith Lia.
From stdpp Require Export base tactics list strings gmap sets sorting option.

#[export] Set Default Goal Selector "!".
#[export] Set Warnings "-clear-no-such-hyp".
#[global] Arguments String.append !_ _ / : simpl nomatch.

(** ** Results: Go's [(value, error)] pairs *)

(** A fallible Go function returns either a value or a non-nil error. *)
Inductive result (E A : Type) : Type :=
| Ok (a : A)
| Err (e : E).
Arguments Ok {E A} a.
Arguments Err {E A} e.

#[export] Instance result_ret E : MRet (result E) := fun A a => Ok a.
#[export] Instance result_bind E : MBind (result E) := fun A B f m =>
  match m with Ok a => f a | Err e => Err e end.
#[export] Instance result_fmap E : FMap (result E) := fun A B f m =>
  match m with Ok a => Ok (f a) | Err e => Err e end.

(** [errors.Wrap]: the error is replaced, the value kept. *)
Definition wrap {E F A} (f : E -> F) (m : result E A) : result F A :=
  match m with Ok a => Ok a | Err e => Err (f e) end.

Definition is_ok {E A} (m : result E A) : bool :=
  match m with Ok _ => true | Err _ => false end.

Lemma result_bind_Ok {E A B} (m : result E A) (f : A -> result E B) b :
  m ≫= f = Ok b <-> exists a, m = Ok a /\ f a = Ok b.
Proof.
  destruct m as [a|e]; simpl; split.
  - by exists a.
  - by intros (? & [= <-] & ?).
  - done.
  - by intros (? & ? & _).
Qed.

Lemma wrap_Ok {E F A} (f : E -> F) (m : result E A) a :
  wrap f m = Ok a <-> m = Ok a.
Proof. destruct m; simpl; naive_solver. Qed.

(** ** Effects: explicit state passing over a world [W] *)

(** Facts about the effects of single operations. *)
Create HintDb effects.

Definition ST (W A : Type) : Type := W -> A * W.

#[export] Instance ST_ret W : MRet (ST W) := fun A a w => (a, w).
#[export] Instance ST_bind W : MBind (ST W) := fun A B f m w =>
  let '(a, w') := m w in f a w'.

(** How a sequence of effects runs. *)
Lemma st_bind_run {W A B} (m : ST W A) (f : A -> ST W B) w : (m ≫= f) w = f (m w).1 (m w).2.
Proof. unfold mbind, ST_bind. by destruct (m w). Qed.

Lemma st_ret_run {W A} (a : A) (w : W) : (mret a : ST W A) w = (a, w).
Proof. done. Qed.

(** Go's [x, err := m; if err != nil { return h }; k]. *)
Declare Scope go_scope.
Delimit Scope go_scope with go.
Notation "'let?' x := m 'catch' e '=>' h ; k" :=
  (mbind (fun r => match r with Err e => h | Ok x => k end) m)
  (at level 10, x strict pattern, m at level 100, e name, h at level 100, k at level 200,
   format "let?  x  :=  m  catch  e  =>  h ;  '/' k") : go_scope.

(** Runs the effects at the head of a sequence. *)
Ltac st_run := cbn [fst snd]; rewrite ?st_bind_run, ?st_ret_run; cbn [fst snd].

(** A Go [for range] loop that accumulates values while changing the world. *)
Fixpoint st_collect {W A B} (f : A -> ST W (list B)) (l : list A) : ST W (list B) :=
  match l with
  | [] => mret []
  | x :: l' => bs ← f x; cs ← st_collect f l'; mret (bs ++ cs)
  end.

(** A Go [for range] loop run for its effects. *)
Fixpoint st_iter {W A} (f : A -> ST W unit) (l : list A) : ST W unit :=
  match l with
  | [] => mret tt
  | x :: l' => _ ← f x; st_iter f l'
  end.

(** Rule for loops: an invariant of the world kept by every iteration is kept
    by the loop. *)
Lemma st_collect_inv {W A B} (I : W -> Prop) (f : A -> ST W (list B)) l w :
  (forall x w, x ∈ l -> I w -> I (f x w).2) -> I w -> I (st_collect f l w).2.
Proof.
  revert w; induction l as [|x l IH]; intros w Hf HI; [done|].
  simpl. unfold mbind, ST_bind.
  pose proof (Hf x w ltac:(left) HI) as Hx.
  destruct (f x w) as [bs w1]; simpl in *.
  specialize (IH w1 (fun y w' Hy => Hf y w' (list_elem_of_further _ _ _ Hy)) Hx).
  by destruct (st_collect f l w1).
Qed.

Lemma st_iter_inv {W A} (I : W -> Prop) (f : A -> ST W unit) l w :
  (forall x w, x ∈ l -> I w -> I (f x w).2) -> I w -> I (st_iter f l w).2.
Proof.
  revert w; induction l as [|x l IH]; intros w Hf HI; [done|].
  simpl. unfold mbind, ST_bind.
  pose proof (Hf x w ltac:(left) HI) as Hx.
  destruct (f x w) as [[] w1]; simpl in *.
  apply IH; [|done]. intros y w' Hy. apply Hf. by right.
Qed.

(** A loop whose iterations do nothing does nothing. *)
Lemma st_collect_idle {W A B} (f : A -> ST W (list B)) l w :
  (forall x, x ∈ l -> f x w = ([], w)) -> st_collect f l w = ([], w).
Proof.
  induction l as [|x l IH]; intros Hf; [done|]. cbn [st_collect]. rewrite st_bind_run, Hf by left.
  cbn [fst snd]. rewrite st_bind_run, IH; [done|]. intros y Hy. apply Hf. by right.
Qed.

(** ** Lists *)

Lemma Forall_elem {A} (P : A -> Prop) l : Forall P l <-> forall x, x ∈ l -> P x.
Proof.
  rewrite List.Forall_forall. split; intros H x Hx; apply H; by apply list_elem_of_In.
Qed.

(** A duplicate-free concatenation has duplicate-free parts. *)
Lemma NoDup_fmap_bind_part {A B D} (g : B -> D) (f : A -> list B) l x :
  NoDup (g <$> (l ≫= f)) -> x ∈ l -> NoDup (g <$> f x).
Proof.
  intros Hnd (l1 & l2 & ->)%list_elem_of_split. revert Hnd. rewrite bind_app, fmap_app. cbn [mbind list_bind].
  rewrite fmap_app. intros (_ & _ & (? & _)%list.NoDup_app)%list.NoDup_app. done.
Qed.

(** Elements of a list whose images are all different are told apart by them. *)
Lemma NoDup_fmap_inj {A B} (f : A -> B) l x y : NoDup (f <$> l) -> x ∈ l -> y ∈ l -> f x = f y -> x = y.
Proof.
  intros Hnd [i Hi]%list_elem_of_lookup [j Hj]%list_elem_of_lookup E.
  assert (i = j) as ->; [|congruence].
  eapply (NoDup_lookup _ _ _ (f x) Hnd); rewrite list_lookup_fmap, ?Hi, ?Hj; simpl; by rewrite ?E.
Qed.
