(* ===== verification/GoStrings.v ===== *)
(** * Go's [strings], [strconv] and [sort] functions used by the operator

    A Go [string] is a sequence of bytes: it is modelled by Rocq's [string],
    whose characters are the 256 [ascii] values. Integers are [Z].  *)

From Stdlib Require Import Ascii String Sorted.
From S2P Require Import Prelude.
Open Scope Z_scope.

(** ** Bytes *)

Definition byte_of (c : ascii) : Z := Z.of_N (N_of_ascii c).

Definition is_digit (c : ascii) : bool := (48 <=? byte_of c) && (byte_of c <=? 57).

(** ** Searching and slicing *)

Module Str.

(** [strings.IndexByte(s, c) >= 0]. *)
Fixpoint contains (c : ascii) (s : string) : bool :=
  match s with
  | EmptyString => false
  | String d s' => if decide (c = d) then true else contains c s'
  end.

(** [strings.Cut(s, c)] for a one-byte separator: around the first [c]. *)
Fixpoint cut (c : ascii) (s : string) : option (string * string) :=
  match s with
  | EmptyString => None
  | String d s' =>
      if decide (c = d) then Some (EmptyString, s')
      else match cut c s' with
           | Some (a, b) => Some (String d a, b)
           | None => None
           end
  end.

(** [i := strings.LastIndex(s, c)] with [s[:i]] and [s[i+1:]]; [None] is
    [i < 0]. *)
Fixpoint cut_last (c : ascii) (s : string) : option (string * string) :=
  match s with
  | EmptyString => None
  | String d s' =>
      match cut_last c s' with
      | Some (a, b) => Some (String d a, b)
      | None => if decide (c = d) then Some (EmptyString, s') else None
      end
  end.

(** [strings.TrimLeft(s, cutset)], the cutset as a predicate on bytes. *)
Fixpoint trim_left (p : ascii -> bool) (s : string) : string :=
  match s with
  | EmptyString => EmptyString
  | String c s' => if p c then trim_left p s' else s
  end.

(** [strings.TrimRight(s, cutset)]. *)
Fixpoint trim_right (p : ascii -> bool) (s : string) : string :=
  match s with
  | EmptyString => EmptyString
  | String c s' =>
      match trim_right p s' with
      | EmptyString => if p c then EmptyString else String c EmptyString
      | t => String c t
      end
  end.

(** [strings.Trim(s, cutset)]. *)
Definition trim (p : ascii -> bool) (s : string) : string := trim_right p (trim_left p s).

(** [s[:n]]. *)
Fixpoint take (n : nat) (s : string) : string :=
  match n, s with
  | S n', String c s' => String c (take n' s')
  | _, _ => EmptyString
  end.

(** Every byte of [s] satisfies [p]. *)
Fixpoint forallb (p : ascii -> bool) (s : string) : bool :=
  match s with
  | EmptyString => true
  | String c s' => p c && forallb p s'
  end.

Definition head_ok (p : ascii -> bool) (s : string) : bool :=
  match s with EmptyString => true | String c _ => p c end.

Fixpoint last_ok (p : ascii -> bool) (s : string) : bool :=
  match s with
  | EmptyString => true
  | String c EmptyString => p c
  | String _ s' => last_ok p s'
  end.

(** *** Lemmas *)

Lemma app_assoc (a b c : string) : (a +:+ b) +:+ c = a +:+ (b +:+ c).
Proof. induction a as [|x a IH]; simpl; f_equal; auto. Qed.

Lemma app_nil_r (a : string) : a +:+ "" = a.
Proof. induction a as [|x a IH]; simpl; f_equal; auto. Qed.

Lemma length_app (a b : string) :
  String.length (a +:+ b) = (String.length a + String.length b)%nat.
Proof. induction a as [|x a IH]; simpl; f_equal; auto. Qed.

Lemma app_inj_l (a b c : string) : a +:+ b = a +:+ c -> b = c.
Proof. induction a as [|x a IH]; simpl; [done|]. intros [=]; auto. Qed.

Lemma contains_app c a b : contains c (a +:+ b) = contains c a || contains c b.
Proof. induction a as [|x a IH]; simpl; [done|]. by case_decide. Qed.

Lemma forallb_app p a b : forallb p (a +:+ b) = forallb p a && forallb p b.
Proof. induction a as [|x a IH]; simpl; [done|]. by rewrite IH, andb_assoc. Qed.

Lemma cut_Some c s a b :
  cut c s = Some (a, b) <-> s = a +:+ String c b /\ contains c a = false.
Proof.
  revert a b; induction s as [|d s IH]; intros a b; simpl.
  - split; [done|]. intros [H _]. by destruct a.
  - case_decide as Hd; subst.
    + split; [intros [=]; by subst|]. intros [H Hc].
      destruct a as [|x a]; simplify_eq/=; [done|]. by case_decide.
    + destruct (cut c s) as [[a' b']|] eqn:E.
      * split.
        -- intros [=]; subst. destruct (proj1 (IH a' b) eq_refl) as [-> Hc].
           simpl. by rewrite decide_False.
        -- intros [H Hc]. destruct a as [|x a]; simplify_eq/=.
           rewrite decide_False in Hc by done.
           assert (Some (a', b') = Some (a, b)) as [=] by (by apply IH). by subst.
      * split; [done|]. intros [H Hc]. destruct a as [|x a]; simplify_eq/=.
        rewrite decide_False in Hc by done.
        assert (None = Some (a, b)) by (by apply IH). done.
Qed.

Lemma cut_last_None c s : cut_last c s = None <-> contains c s = false.
Proof.
  induction s as [|d s IH]; simpl; [done|].
  destruct (cut_last c s) as [[a b]|] eqn:E.
  - split; [done|]. case_decide; [done|]. intros Hc. by apply IH in Hc.
  - case_decide; [done|]. split; [by intros _; apply IH|done].
Qed.

Lemma cut_last_Some c s a b :
  cut_last c s = Some (a, b) <-> s = a +:+ String c b /\ contains c b = false.
Proof.
  revert a b; induction s as [|d s IH]; intros a b; simpl.
  - split; [done|]. intros [H _]. by destruct a.
  - destruct (cut_last c s) as [[a' b']|] eqn:E.
    + destruct (proj1 (IH a' b') eq_refl) as [-> Hb'].
      split; [intros [=]; by subst|]. intros [H Hb].
      destruct a as [|x a]; injection H as -> H.
      * exfalso. rewrite <- H, contains_app in Hb. simpl in Hb.
        by rewrite decide_True, orb_true_r in Hb.
      * assert (Some (a', b') = Some (a, b)) as [=] by (apply IH; by rewrite H).
        by subst.
    + apply cut_last_None in E. case_decide as Hd; subst.
      * split; [intros [=]; by subst|]. intros [H Hb].
        destruct a as [|x a]; simplify_eq/=; [done|].
        rewrite contains_app in E. simpl in E.
        by rewrite decide_True, orb_true_r in E.
      * split; [done|]. intros [H Hb].
        destruct a as [|x a]; simplify_eq/=.
        rewrite contains_app in E. simpl in E.
        by rewrite decide_True, orb_true_r in E.
Qed.

Lemma contains_forallb c p s : forallb p s = true -> p c = false -> contains c s = false.
Proof.
  induction s as [|d s IH]; simpl; [done|].
  intros [Hd Hs]%andb_prop Hc. case_decide; [congruence|auto].
Qed.

Lemma forallb_take p n s : forallb p s = true -> forallb p (take n s) = true.
Proof.
  revert n; induction s as [|c s IH]; intros [|n]; simpl; try done.
  intros [-> ?]%andb_prop. simpl. auto.
Qed.

Lemma length_take n s : (String.length (take n s) <= n)%nat.
Proof. revert s; induction n as [|n IH]; intros [|c s]; simpl; try specialize (IH s); lia. Qed.

Lemma head_ok_take p n s : head_ok p s = true -> head_ok p (take n s) = true.
Proof. by destruct n, s. Qed.

Lemma trim_left_forallb q p s : forallb q s = true -> forallb q (trim_left p s) = true.
Proof.
  induction s as [|c s IH]; simpl; [done|]. intros [Hc Hs]%andb_prop.
  destruct (p c); [auto|]. simpl. by rewrite Hc.
Qed.

Lemma trim_left_head p s : head_ok (fun c => negb (p c)) (trim_left p s) = true.
Proof. induction s as [|c s IH]; simpl; [done|]. by destruct (p c) eqn:E; [|simpl; rewrite E]. Qed.

Lemma trim_left_id p s : head_ok (fun c => negb (p c)) s = true -> trim_left p s = s.
Proof. destruct s as [|c s]; simpl; [done|]. by destruct (p c). Qed.

Lemma trim_right_String p c s :
  trim_right p (String c s) =
    if decide (trim_right p s = EmptyString)
    then (if p c then EmptyString else String c EmptyString)
    else String c (trim_right p s).
Proof. simpl. by destruct (trim_right p s). Qed.

Lemma trim_right_forallb q p s : forallb q s = true -> forallb q (trim_right p s) = true.
Proof.
  induction s as [|c s IH]; [done|]. rewrite trim_right_String. simpl.
  intros [Hc Hs]%andb_prop. case_decide.
  - destruct (p c); simpl; [done|by rewrite Hc].
  - simpl. by rewrite Hc, IH.
Qed.

Lemma trim_right_head q p s : head_ok q s = true -> head_ok q (trim_right p s) = true.
Proof.
  destruct s as [|c s]; [done|]. rewrite trim_right_String.
  case_decide; [by destruct (p c)|done].
Qed.

Lemma trim_right_last p s : last_ok (fun c => negb (p c)) (trim_right p s) = true.
Proof.
  induction s as [|c s IH]; [done|]. rewrite trim_right_String. case_decide.
  - destruct (p c) eqn:E; [done|]. simpl. by rewrite E.
  - by destruct (trim_right p s).
Qed.

Lemma trim_right_id p s : last_ok (fun c => negb (p c)) s = true -> trim_right p s = s.
Proof.
  induction s as [|c s IH]; [done|]. rewrite trim_right_String.
  destruct s as [|d s]; simpl; [by destruct (p c)|]. intros H.
  change (last_ok (fun c => negb (p c)) (String d s) = true) in H.
  simpl in IH. rewrite IH; [done|]. by destruct s.
Qed.

Lemma trim_right_length p s : (String.length (trim_right p s) <= String.length s)%nat.
Proof.
  induction s as [|c s IH]; [done|]. rewrite trim_right_String. simpl.
  case_decide; [destruct (p c); simpl|simpl]; lia.
Qed.

Lemma trim_left_length p s : (String.length (trim_left p s) <= String.length s)%nat.
Proof. induction s as [|c s IH]; simpl; [done|]. destruct (p c); simpl; lia. Qed.

Lemma last_ok_app p a b : b <> EmptyString -> last_ok p (a +:+ b) = last_ok p b.
Proof.
  intros Hb. induction a as [|c a IH]; [done|]. simpl.
  destruct (a +:+ b) eqn:E; [|done]. by destruct a, b.
Qed.

Lemma head_ok_app p a b :
  head_ok p (a +:+ b) = if decide (a = EmptyString) then head_ok p b else head_ok p a.
Proof. by destruct a. Qed.

Lemma last_ok_forallb p s : forallb p s = true -> last_ok p s = true.
Proof.
  induction s as [|c s IH]; [done|]. simpl. intros [Hc Hs]%andb_prop.
  destruct s; [done|auto].
Qed.

Lemma head_ok_forallb p s : forallb p s = true -> head_ok p s = true.
Proof. destruct s; simpl; [done|]. by intros [? _]%andb_prop. Qed.

End Str.

(** ** [strconv] *)

(** The loop of [strconv.ParseUint(s, 10, bits)]: a non-digit is a syntax
    error, a value above [maxVal] a range error; both are [None]. *)
Fixpoint parse_uint_loop (maxVal n : Z) (s : string) : option Z :=
  match s with
  | EmptyString => Some n
  | String c s' =>
      if is_digit c then
        let n1 := n * 10 + (byte_of c - 48) in
        if maxVal <? n1 then None else parse_uint_loop maxVal n1 s'
      else None
  end.

Definition ParseUint (s : string) (bits : Z) : option Z :=
  match s with
  | EmptyString => None
  | _ => parse_uint_loop (2 ^ bits - 1) 0 s
  end.

Definition digit_char (d : Z) : ascii := ascii_of_N (Z.to_N (48 + d)).

(** [strconv.FormatUint(n, 10)] and [strconv.Itoa(n)] for [n >= 0]: the digits
    are produced from the right. The fuel is a bound on their number. *)
Fixpoint format_uint_loop (fuel : nat) (n : Z) (acc : string) : string :=
  match fuel with
  | O => acc
  | S f =>
      let acc' := String (digit_char (n mod 10)) acc in
      if n <? 10 then acc' else format_uint_loop f (n / 10) acc'
  end.

Definition FormatUint (n : Z) : string := format_uint_loop (S (Z.to_nat (Z.log2 n))) n "".

Lemma byte_of_range c : 0 <= byte_of c < 256.
Proof. unfold byte_of. pose proof (N_ascii_bounded c). lia. Qed.

Lemma byte_of_digit d : 0 <= d < 10 -> byte_of (digit_char d) = 48 + d.
Proof. intros Hd. unfold byte_of, digit_char. rewrite N_ascii_embedding; lia. Qed.

Lemma is_digit_char d : 0 <= d < 10 -> is_digit (digit_char d) = true.
Proof. intros Hd. unfold is_digit. rewrite byte_of_digit by done. lia. Qed.

Lemma parse_uint_loop_bound maxVal n s v :
  0 <= n <= maxVal -> parse_uint_loop maxVal n s = Some v -> 0 <= v <= maxVal.
Proof.
  revert n; induction s as [|c s IH]; intros n Hn; simpl; [intros [=]; lia|].
  unfold is_digit. destruct (_ && _) eqn:Hd; [|done].
  destruct (maxVal <? _) eqn:Hm; [done|]. apply IH. lia.
Qed.

Lemma parse_uint_loop_mono m m' n s v :
  m <= m' -> parse_uint_loop m n s = Some v -> parse_uint_loop m' n s = Some v.
Proof.
  intros Hm. revert n; induction s as [|c s IH]; intros n; simpl; [done|].
  destruct (is_digit c); [|done].
  destruct (m <? _) eqn:E; [done|]. destruct (m' <? _) eqn:E'; [lia|]. apply IH.
Qed.

Lemma ParseUint_bound s bits v : 0 <= bits -> ParseUint s bits = Some v -> 0 <= v < 2 ^ bits.
Proof.
  intros Hb. unfold ParseUint. destruct s; [done|]. intros H.
  apply parse_uint_loop_bound in H; lia.
Qed.

Lemma ParseUint_mono s b b' v :
  0 <= b <= b' -> ParseUint s b = Some v -> ParseUint s b' = Some v.
Proof.
  intros Hb. unfold ParseUint. destruct s; [done|].
  apply parse_uint_loop_mono. pose proof (Z.pow_le_mono_r 2 b b'). lia.
Qed.

Lemma ParseUint_digits s bits v : ParseUint s bits = Some v -> Str.forallb is_digit s = true.
Proof.
  unfold ParseUint. destruct s as [|c s]; [done|]. generalize (String c s) 0.
  clear c s. intros s. generalize (2 ^ bits - 1) as m. intros m.
  induction s as [|c s IH]; intros n; simpl; [done|].
  destruct (is_digit c); [|done]. destruct (_ <? _); [done|]. apply IH.
Qed.

Lemma parse_format_loop maxVal fuel n acc :
  0 <= n <= maxVal -> n < 2 ^ Z.of_nat fuel ->
  parse_uint_loop maxVal 0 (format_uint_loop fuel n acc) = parse_uint_loop maxVal n acc.
Proof.
  revert n acc; induction fuel as [|fuel IH]; intros n acc Hn Hf.
  - assert (n = 0) as -> by (change (2 ^ Z.of_nat 0) with 1 in Hf; lia). done.
  - cbn [format_uint_loop].
    pose proof (Z.div_mod n 10 ltac:(lia)). pose proof (Z.mod_pos_bound n 10 ltac:(lia)).
    assert (Hstep : forall q, q = n / 10 ->
      parse_uint_loop maxVal q (String (digit_char (n mod 10)) acc) = parse_uint_loop maxVal n acc).
    { intros q ->. cbn [parse_uint_loop]. rewrite is_digit_char, byte_of_digit by lia.
      replace (n / 10 * 10 + (48 + n mod 10 - 48)) with n by lia.
      by rewrite (proj2 (Z.ltb_ge _ _)) by lia. }
    destruct (Z.ltb_spec n 10).
    + apply Hstep. by rewrite Z.div_small by lia.
    + rewrite IH; [by apply Hstep|lia|].
      rewrite Nat2Z.inj_succ, Z.pow_succ_r in Hf by lia. nia.
Qed.

(** Printing a number and parsing it back at any width that holds it. *)
Lemma ParseUint_FormatUint n bits :
  0 <= bits -> 0 <= n < 2 ^ bits -> ParseUint (FormatUint n) bits = Some n.
Proof.
  intros Hb Hn. unfold ParseUint, FormatUint.
  destruct (format_uint_loop _ n "") eqn:E.
  - exfalso. cbn [format_uint_loop] in E. destruct (n <? 10); [done|].
    assert (Hne : forall f m acc, acc <> ""%string -> format_uint_loop f m acc <> ""%string).
    { induction f as [|f IH]; intros m acc Hacc; simpl; [done|].
      destruct (_ <? _); [done|]. by apply IH. }
    by eapply Hne in E.
  - rewrite <- E, parse_format_loop; [done|lia|].
    rewrite Nat2Z.inj_succ, Z2Nat.id by apply Z.log2_nonneg.
    destruct (Z.eq_dec n 0) as [->|]; [done|]. apply Z.log2_spec. lia.
Qed.

(** ** [sort.Strings] and the order on strings *)

(** Go's [a <= b] and [a < b] on strings: bytewise lexicographic order. *)
Definition str_le (a b : string) : Prop := String.compare a b <> Gt.
Definition str_ltb (a b : string) : bool :=
  match String.compare a b with Lt => true | _ => false end.

#[export] Instance str_le_dec : RelDecision str_le.
Proof. intros a b. unfold str_le. destruct (String.compare a b); (by left) || right; naive_solver. Defined.

Lemma str_compare_cons a s b t :
  String.compare (String a s) (String b t) =
    match Z.compare (byte_of a) (byte_of b) with
    | Eq => String.compare s t | Lt => Lt | Gt => Gt
    end.
Proof. simpl. unfold Ascii.compare, byte_of. by rewrite N2Z.inj_compare. Qed.

Lemma byte_of_inj a b : byte_of a = byte_of b -> a = b.
Proof.
  unfold byte_of. intros H%N2Z.inj.
  by rewrite <- (ascii_N_embedding a), H, ascii_N_embedding.
Qed.

Lemma str_compare_antisym a b : String.compare a b = CompOpp (String.compare b a).
Proof.
  revert b; induction a as [|x a IH]; intros [|y b]; try done.
  rewrite !str_compare_cons, (Z.compare_antisym (byte_of y)), IH.
  by destruct (Z.compare _ _).
Qed.

Lemma str_compare_eq a b : String.compare a b = Eq <-> a = b.
Proof.
  revert b; induction a as [|x a IH]; intros [|y b]; try done.
  rewrite str_compare_cons. destruct (Z.compare_spec (byte_of x) (byte_of y)) as [E|E|E].
  - apply byte_of_inj in E as ->. rewrite IH. split; [by intros ->|by intros [=]].
  - split; [done|]. intros [=]; subst; lia.
  - split; [done|]. intros [=]; subst; lia.
Qed.

#[export] Instance str_le_total : Total str_le.
Proof.
  intros a b. unfold str_le. rewrite (str_compare_antisym b a).
  destruct (String.compare a b); simpl; naive_solver.
Qed.

#[export] Instance str_le_antisymm : AntiSymm (=) str_le.
Proof.
  intros a b. unfold str_le. rewrite (str_compare_antisym b a).
  destruct (String.compare a b) eqn:E; simpl; try done. by apply str_compare_eq in E.
Qed.

#[export] Instance str_le_trans : Transitive str_le.
Proof.
  intros a. unfold str_le. induction a as [|x a IH]; intros [|y b] [|z c]; try done.
  rewrite !str_compare_cons. intros Hab Hbc.
  destruct (Z.compare_spec (byte_of x) (byte_of y)), (Z.compare_spec (byte_of y) (byte_of z)),
    (Z.compare_spec (byte_of x) (byte_of z)); try done; try lia. by apply (IH b).
Qed.

#[export] Instance str_le_refl : Reflexive str_le.
Proof. intros a. by destruct (str_le_total a a). Qed.

Lemma str_ltb_le a b : str_ltb a b = false <-> str_le b a.
Proof.
  unfold str_ltb, str_le. rewrite (str_compare_antisym b a).
  destruct (String.compare a b); simpl; naive_solver.
Qed.

Definition sort_Strings (l : list string) : list string := merge_sort str_le l.

Lemma sort_Strings_perm l : sort_Strings l ≡ₚ l.
Proof. apply merge_sort_Permutation. Qed.

Lemma sort_Strings_sorted l : Sorted str_le (sort_Strings l).
Proof. apply Sorted_merge_sort. apply _. Qed.

(** Sorting forgets exactly the order. *)
Lemma sort_Strings_eq a b : sort_Strings a = sort_Strings b <-> a ≡ₚ b.
Proof.
  split; intros H.
  - by rewrite <- (sort_Strings_perm a), H, sort_Strings_perm.
  - apply (Sorted_unique str_le); try apply sort_Strings_sorted.
    by rewrite !sort_Strings_perm.
Qed.
