(* ===== verification/GoNet.v ===== *)
(** * Go's [net] and [net/netip] functions used by the operator

    [net.IP] and [net.IPMask] are byte slices: lists of [Z] between 0 and 255,
    of length 4 or 16. [nil] is [None] where a function can return it.
    Addresses with an IPv6 zone are not represented: both callers of
    [netip.ParseAddr] ([net.ParseIP] and [net.ParseCIDR]) reject them. *)

From Stdlib Require Import Ascii String.
From S2P Require Import Prelude GoStrings.
Open Scope Z_scope.

Definition bytes_ok (l : list Z) : Prop := Forall (fun b => 0 <= b < 256) l.

(** ** Addresses *)

Definition v4InV6Prefix : list Z := replicate 10 0 ++ [255; 255].

(** [func (ip IP) To4() IP] *)
Definition To4 (ip : list Z) : option (list Z) :=
  if decide (length ip = 4%nat) then Some ip
  else if decide (length ip = 16%nat /\ take 12 ip = v4InV6Prefix)
       then Some (drop 12 ip) else None.

(** [func (ip IP) IsLoopback() bool] *)
Definition IsLoopback (ip : list Z) : bool :=
  match To4 ip with
  | Some ip4 => bool_decide (ip4 !! 0%nat = Some 127)
  | None => bool_decide (ip = replicate 15 0 ++ [1])
  end.

(** [func (ip IP) IsLinkLocalUnicast() bool] *)
Definition IsLinkLocalUnicast (ip : list Z) : bool :=
  match To4 ip with
  | Some ip4 => bool_decide (take 2 ip4 = [169; 254])
  | None =>
      match ip with
      | b0 :: b1 :: _ =>
          bool_decide (length ip = 16%nat) && (b0 =? 254) && (Z.land b1 192 =? 128)
      | _ => false
      end
  end.

(** ** Parsing addresses ([netip.ParseAddr]) *)

(** [parseIPv4Fields]: [val] and [digLen] describe the octet being read, [acc]
    the octets already stored. A dot is refused at the start, at the end and
    after a dot, that is when [digLen = 0] or nothing follows it. *)
Fixpoint parseIPv4Fields (s : string) (val digLen : Z) (acc : list Z) : option (list Z) :=
  match s with
  | EmptyString => if decide (length acc < 3)%nat then None else Some (acc ++ [val])
  | String c s' =>
      if is_digit c then
        if (digLen =? 1) && (val =? 0) then None
        else let val' := val * 10 + (byte_of c - 48) in
             if 255 <? val' then None else parseIPv4Fields s' val' (digLen + 1) acc
      else if decide (c = "."%char) then
        if (digLen =? 0) || bool_decide (s' = EmptyString) then None
        else if decide (length acc = 3)%nat then None
        else parseIPv4Fields s' 0 0 (acc ++ [val])
      else None
  end.

Definition hex_val (c : ascii) : option Z :=
  let b := byte_of c in
  if (48 <=? b) && (b <=? 57) then Some (b - 48)
  else if (97 <=? b) && (b <=? 102) then Some (b - 97 + 10)
  else if (65 <=? b) && (b <=? 70) then Some (b - 65 + 10)
  else None.

(** The inner loop of [parseIPv6]: reads hex digits; [None] when the group has
    more than four digits or does not fit 16 bits. Returns the value, the
    number of digits read and the rest. *)
Fixpoint hex_group (s : string) (off : nat) (acc : Z) : option (Z * nat * string) :=
  match s with
  | EmptyString => Some (acc, off, s)
  | String c s' =>
      match hex_val c with
      | None => Some (acc, off, s)
      | Some d =>
          let acc' := acc * 16 + d in
          if decide (3 < off)%nat then None
          else if 65535 <? acc' then None
          else hex_group s' (S off) acc'
      end
  end.

(** The outer loop of [parseIPv6]. [ip] holds the bytes stored so far ([i] is
    its length), [ell] the position of the ellipsis; the result is the state in
    which the loop is left. Each iteration stores at least two bytes and the
    loop stops at sixteen, so eight units of fuel are enough. *)
Fixpoint parseIPv6_loop (fuel : nat) (ip : list Z) (ell : option nat) (s : string)
    : option (list Z * option nat * string) :=
  match fuel with
  | O => Some (ip, ell, s)
  | S f =>
      match hex_group s 0 0 with
      | None => None
      | Some (acc, off, rest) =>
          if decide (off = 0%nat) then None
          else match rest with
          | EmptyString => Some (ip ++ [Z.shiftr acc 8; Z.land acc 255], ell, EmptyString)
          | String c rest1 =>
              if decide (c = "."%char) then
                if bool_decide (ell = None) && bool_decide (length ip <> 12%nat) then None
                else if decide (16 < length ip + 4)%nat then None
                else match parseIPv4Fields s 0 0 [] with
                     | None => None
                     | Some v4 => Some (ip ++ v4, ell, EmptyString)
                     end
              else
                let ip' := ip ++ [Z.shiftr acc 8; Z.land acc 255] in
                if decide (c <> ":"%char) then None
                else match rest1 with
                | EmptyString => None
                | String c1 rest2 =>
                    if decide (c1 = ":"%char) then
                      match ell with
                      | Some _ => None
                      | None =>
                          match rest2 with
                          | EmptyString => Some (ip', Some (length ip'), EmptyString)
                          | _ => if decide (length ip' < 16)%nat
                                 then parseIPv6_loop f ip' (Some (length ip')) rest2
                                 else Some (ip', Some (length ip'), rest2)
                          end
                      end
                    else if decide (length ip' < 16)%nat
                         then parseIPv6_loop f ip' ell rest1
                         else Some (ip', ell, rest1)
                end
          end
      end
  end.

(** The end of [parseIPv6]: the whole string must be used, a short address
    needs an ellipsis to expand, a full one must not have one. *)
Definition parseIPv6_end (st : list Z * option nat * string) : option (list Z) :=
  let '(ip, ell, rest) := st in
  if decide (rest <> EmptyString) then None
  else if decide (length ip < 16)%nat then
    match ell with
    | None => None
    | Some e => Some (take e ip ++ replicate (16 - length ip) 0 ++ drop e ip)
    end
  else match ell with Some _ => None | None => Some ip end.

(** [parseIPv6], for inputs without a zone. *)
Definition parseIPv6 (s : string) : option (list Z) :=
  let start :=
    match s with
    | String c1 (String c2 s') =>
        if decide (c1 = ":"%char /\ c2 = ":"%char) then (Some 0%nat, s') else (None, s)
    | _ => (None, s)
    end in
  match start with
  | (Some _, EmptyString) => Some (replicate 16 0)
  | (ell0, s0) => parseIPv6_loop 8 [] ell0 s0 ≫= parseIPv6_end
  end.

Inductive Addr : Type :=
| Addr4 (b : list Z)
| Addr6 (b : list Z).

Fixpoint first_sep (s : string) : option ascii :=
  match s with
  | EmptyString => None
  | String c s' =>
      if decide (c = "."%char \/ c = ":"%char \/ c = "%"%char) then Some c else first_sep s'
  end.

(** [netip.ParseAddr(s)] with [Zone() == ""] required. *)
Definition ParseAddr (s : string) : option Addr :=
  match first_sep s with
  | Some c =>
      if decide (c = "."%char) then Addr4 <$> parseIPv4Fields s 0 0 []
      else if decide (c = ":"%char) then
        if Str.contains "%"%char s then None else Addr6 <$> parseIPv6 s
      else None
  | None => None
  end.

Definition BitLen (a : Addr) : Z := match a with Addr4 _ => 32 | Addr6 _ => 128 end.

Definition As16 (a : Addr) : list Z :=
  match a with Addr4 b => v4InV6Prefix ++ b | Addr6 b => b end.

(** [net.ParseIP]; [None] is the [nil] IP. *)
Definition ParseIP (s : string) : option (list Z) := As16 <$> ParseAddr s.

(** ** Networks *)

Record IPNet : Type := mkIPNet { net_IP : list Z; net_Mask : list Z }.

(** The loop of [net.CIDRMask(ones, bits)], [l] being [bits / 8]. *)
Fixpoint cidr_mask (l : nat) (n : Z) : list Z :=
  match l with
  | O => []
  | S l' => if 8 <=? n then 255 :: cidr_mask l' (n - 8)
            else Z.lxor 255 (Z.shiftr 255 n) :: cidr_mask l' 0
  end.

(** [func (ip IP) Mask(mask IPMask) IP]; [None] is the [nil] result. *)
Definition IP_Mask (ip mask : list Z) : option (list Z) :=
  let mask := if decide (length mask = 16%nat /\ length ip = 4%nat /\ take 12 mask = replicate 12 255)
              then drop 12 mask else mask in
  let ip := if decide (length mask = 4%nat /\ length ip = 16%nat /\ take 12 ip = v4InV6Prefix)
            then drop 12 ip else ip in
  if decide (length ip = length mask) then Some (zip_with Z.land ip mask) else None.

(** [dtoi] of a string that must be consumed entirely: at least one digit, and
    every intermediate value below [big] = 0xFFFFFF. *)
Fixpoint dtoi_loop (n : Z) (s : string) : option Z :=
  match s with
  | EmptyString => Some n
  | String c s' =>
      if is_digit c then
        let n' := n * 10 + (byte_of c - 48) in
        if 16777215 <=? n' then None else dtoi_loop n' s'
      else None
  end.
Definition dtoi (s : string) : option Z :=
  match s with EmptyString => None | _ => dtoi_loop 0 s end.

(** [net.ParseCIDR]: the address as written and the masked network. *)
Definition ParseCIDR (s : string) : option (list Z * IPNet) :=
  match Str.cut "/"%char s with
  | None => None
  | Some (addr, mask) =>
      match ParseAddr addr, dtoi mask with
      | Some ipAddr, Some n =>
          if BitLen ipAddr <? n then None
          else
            let m := cidr_mask (Z.to_nat (BitLen ipAddr / 8)) n in
            match IP_Mask (As16 ipAddr) m with
            | Some nip => Some (As16 ipAddr, mkIPNet nip m)
            | None => None
            end
      | _, _ => None
      end
  end.

(** [networkNumberAndMask]; [None] is [(nil, nil)]. *)
Definition networkNumberAndMask (n : IPNet) : option (list Z * list Z) :=
  let oip := match To4 (net_IP n) with
             | Some ip => Some ip
             | None => if decide (length (net_IP n) = 16%nat) then Some (net_IP n) else None
             end in
  match oip with
  | None => None
  | Some ip =>
      if decide (length (net_Mask n) = 4%nat) then
        if decide (length ip = 4%nat) then Some (ip, net_Mask n) else None
      else if decide (length (net_Mask n) = 16%nat) then
        if decide (length ip = 4%nat) then Some (ip, drop 12 (net_Mask n))
        else Some (ip, net_Mask n)
      else None
  end.

(** The byte loop of [Contains]. *)
Fixpoint masked_eq (nn m ip : list Z) : bool :=
  match nn, m, ip with
  | a :: nn', k :: m', b :: ip' => (Z.land a k =? Z.land b k) && masked_eq nn' m' ip'
  | _, _, _ => true
  end.

(** [func (n *IPNet) Contains(ip IP) bool]. The slices [nil] of a malformed
    network have length 0, which no address has. *)
Definition Contains (n : IPNet) (ip : list Z) : bool :=
  let ip := match To4 ip with Some x => x | None => ip end in
  match networkNumberAndMask n with
  | Some (nn, m) => if decide (length ip = length nn) then masked_eq nn m ip else false
  | None => bool_decide (length ip = 0%nat)
  end.

(** [simpleMaskLength]: [None] is [-1]. *)
Fixpoint leading_ones (fuel : nat) (v : Z) : nat * Z :=
  match fuel with
  | O => (0%nat, v)
  | S f => if Z.land v 128 =? 0 then (0%nat, v)
           else let '(n, v') := leading_ones f (Z.land (Z.shiftl v 1) 255) in (S n, v')
  end.
Fixpoint simpleMaskLength (mask : list Z) : option Z :=
  match mask with
  | [] => Some 0
  | v :: rest =>
      if v =? 255 then (fun n => 8 + n) <$> simpleMaskLength rest
      else let '(n, v') := leading_ones 8 v in
           if (v' =? 0) && forallb (Z.eqb 0) rest then Some (Z.of_nat n) else None
  end.

(** [func (m IPMask) Size() (ones, bits int)]. *)
Definition Mask_Size (m : list Z) : Z * Z :=
  match simpleMaskLength m with
  | Some ones => (ones, Z.of_nat (length m) * 8)
  | None => (0, 0)
  end.

(** ** Printing addresses *)

Definition string4 (b : list Z) : string :=
  match b with
  | [b0; b1; b2; b3] =>
      FormatUint b0 +:+ "." +:+ FormatUint b1 +:+ "." +:+ FormatUint b2 +:+ "." +:+ FormatUint b3
  | _ => ""
  end.

Definition hex_digit (d : Z) : ascii :=
  if d <? 10 then ascii_of_N (Z.to_N (48 + d)) else ascii_of_N (Z.to_N (87 + d)).

(** [appendHex]: no leading zeros, lower case. *)
Definition hex16 (x : Z) : string :=
  (if 4096 <=? x then String (hex_digit (Z.shiftr x 12)) "" else "") +:+
  (if 256 <=? x then String (hex_digit (Z.land (Z.shiftr x 8) 15)) "" else "") +:+
  (if 16 <=? x then String (hex_digit (Z.land (Z.shiftr x 4) 15)) "" else "") +:+
  String (hex_digit (Z.land x 15)) "".

Fixpoint u16s (b : list Z) : list Z :=
  match b with
  | hi :: lo :: b' => Z.lor (Z.shiftl hi 8) lo :: u16s b'
  | _ => []
  end.

Fixpoint zero_run (g : list Z) : nat :=
  match g with
  | x :: g' => if x =? 0 then S (zero_run g') else 0%nat
  | [] => 0%nat
  end.

(** The first loop of [appendTo6]: the first longest run of at least two zero
    groups, as [(zeroStart, zeroEnd)]; [(255, 255)] when there is none. *)
Fixpoint best_run (i : nat) (g : list Z) (best : nat * nat) : nat * nat :=
  match g with
  | [] => best
  | _ :: g' =>
      let l := zero_run g in
      let best' := if decide (2 <= l /\ best.2 - best.1 < l)%nat then (i, i + l)%nat else best in
      best_run (S i) g' best'
  end.

(** The second loop of [appendTo6]. *)
Fixpoint print6 (fuel : nat) (i : nat) (g : list Z) (z : nat * nat) : string :=
  match fuel with
  | O => ""
  | S f =>
      if decide (8 <= i)%nat then ""
      else if decide (i = z.1) then
        "::" +:+ (if decide (8 <= z.2)%nat then ""
                  else hex16 (default 0 (g !! z.2)) +:+ print6 f (S z.2) g z)
      else (if decide (0 < i)%nat then ":" else "") +:+
           hex16 (default 0 (g !! i)) +:+ print6 f (S i) g z
  end.

Definition string6 (b : list Z) : string :=
  let g := u16s b in print6 8 0 g (best_run 0 g (255, 255)%nat).

Definition hex_bytes (b : list Z) : string :=
  foldr (fun x s => String (hex_digit (Z.shiftr x 4)) (String (hex_digit (Z.land x 15)) s)) "" b.

(** [func (ip IP) String() string] *)
Definition IP_String (ip : list Z) : string :=
  if decide (length ip = 0%nat) then "<nil>"
  else if decide (length ip <> 4%nat /\ length ip <> 16%nat) then "?" +:+ hex_bytes ip
  else match To4 ip with
       | Some p4 => string4 p4
       | None => string6 ip
       end.

(** ** Host and port *)

(** [net.SplitHostPort]: the port starts after the last colon; a bracketed
    host must end just before it; stray brackets and colons are errors. *)
Definition SplitHostPort (hostport : string) : option (string * string) :=
  match Str.cut_last ":"%char hostport with
  | None => None
  | Some (before, port) =>
      match hostport with
      | String c rest =>
          if decide (c = "["%char) then
            match Str.cut "]"%char rest with
            | None => None
            | Some (host, after) =>
                (* end + 1 = i: the text before the last colon is "[host]" *)
                if decide (before = "[" +:+ host +:+ "]") then
                  if Str.contains "["%char rest then None
                  else if Str.contains "]"%char (":" +:+ port) then None
                  else Some (host, port)
                else None
            end
          else if Str.contains ":"%char before then None
          else if Str.contains "["%char hostport then None
          else if Str.contains "]"%char hostport then None
          else Some (before, port)
      | EmptyString => None
      end
  end.

(** [net.JoinHostPort]: a host with a colon is an IPv6 literal. *)
Definition JoinHostPort (host port : string) : string :=
  if Str.contains ":"%char host then "[" +:+ host +:+ "]:" +:+ port
  else host +:+ ":" +:+ port.
