(* ===== verification/GoNetFacts.v ===== *)
(** * A bit-level theory of Go's networks

    A network is abstracted to an address family (the length of its network
    number) and a list of bits, its prefix; an address belongs to it when it is
    of the same family and its bits start with that prefix. [Contains_spec]
    shows that the byte-and-mask loop of [IPNet.Contains] implements this. *)

From Stdlib Require Import Ascii String Btauto.
From S2P Require Import Prelude GoStrings GoNet.
Open Scope Z_scope.

(** ** Bits, most significant first *)

Definition byte_bits (b : Z) : list bool :=
  [Z.testbit b 7; Z.testbit b 6; Z.testbit b 5; Z.testbit b 4;
   Z.testbit b 3; Z.testbit b 2; Z.testbit b 1; Z.testbit b 0].

Definition bits (l : list Z) : list bool := l ≫= byte_bits.

Lemma bits_cons a l : bits (a :: l) = byte_bits a ++ bits l.
Proof. done. Qed.

Lemma length_bits l : length (bits l) = (8 * length l)%nat.
Proof. induction l as [|a l IH]; [done|]. rewrite bits_cons, length_app, IH. simpl. lia. Qed.

(** [bit_cases k]: the eight positions of a byte, and the positions above. *)
Ltac bit_cases k :=
  let H := fresh in
  assert (k = 0 \/ k = 1 \/ k = 2 \/ k = 3 \/ k = 4 \/ k = 5 \/ k = 6 \/ k = 7 \/ 8 <= k) as H by lia;
  destruct H as [->|[->|[->|[->|[->|[->|[->|[->|H]]]]]]]].

Lemma testbit_high b k : 0 <= b < 256 -> 8 <= k -> Z.testbit b k = false.
Proof.
  intros Hb Hk. destruct (Z.eq_dec b 0) as [->|]; [apply Z.bits_0|].
  apply Z.bits_above_log2; [lia|].
  assert (Z.log2 b < 8); [apply Z.log2_lt_pow2; lia|lia].
Qed.

Lemma byte_bits_inj a b :
  0 <= a < 256 -> 0 <= b < 256 -> byte_bits a = byte_bits b -> a = b.
Proof.
  intros Ha Hb [=]. apply Z.bits_inj'. intros k Hk.
  bit_cases k; try done. by rewrite !testbit_high.
Qed.

Lemma bits_inj a b :
  bytes_ok a -> bytes_ok b -> length a = length b -> bits a = bits b -> a = b.
Proof.
  revert b; induction a as [|x a IH]; intros [|y b] Ha Hb Hl; try done.
  rewrite !bits_cons. intros H.
  apply Forall_cons_1 in Ha as [? ?]; apply Forall_cons_1 in Hb as [? ?].
  apply app_inj_1 in H as [E1 E2]; [|done].
  f_equal; [by apply byte_bits_inj|]. apply IH; auto.
Qed.

(** The bits of the mask byte that keeps the [p] high bits. *)
Lemma mask_byte_testbit p k :
  0 <= p < 8 -> 0 <= k -> Z.testbit (Z.lxor 255 (Z.shiftr 255 p)) k = (8 - p <=? k) && (k <? 8).
Proof.
  intros Hp Hk.
  assert (p = 0 \/ p = 1 \/ p = 2 \/ p = 3 \/ p = 4 \/ p = 5 \/ p = 6 \/ p = 7) as Hcases by lia.
  destruct Hcases as [->|[->|[->|[->|[->|[->|[->| ->]]]]]]]; bit_cases k; try reflexivity;
    (rewrite (proj2 (Z.ltb_ge k 8)), andb_false_r by lia;
     apply testbit_high; [vm_compute; split; congruence|lia]).
Qed.

Lemma byte_bits_lookup b k :
  byte_bits b !! k = if decide (k < 8)%nat then Some (Z.testbit b (7 - Z.of_nat k)) else None.
Proof. do 8 (destruct k as [|k]; [done|]). done. Qed.

(** Two bytes agree under that mask when they agree on the [p] high bits. *)
Lemma land_mask_bits p a b :
  0 <= p < 8 ->
  Z.land a (Z.lxor 255 (Z.shiftr 255 p)) = Z.land b (Z.lxor 255 (Z.shiftr 255 p)) <->
  take (Z.to_nat p) (byte_bits a) = take (Z.to_nat p) (byte_bits b).
Proof.
  intros Hp. split; intros H.
  - apply list_eq. intros k. destruct (decide (k < Z.to_nat p)%nat).
    + rewrite !lookup_take_lt, !byte_bits_lookup by done. case_decide; [|done]. f_equal.
      assert (Hk := f_equal (fun z => Z.testbit z (7 - Z.of_nat k)) H). simpl in Hk.
      rewrite !Z.land_spec, mask_byte_testbit in Hk by lia.
      rewrite (proj2 (Z.leb_le _ _)), (proj2 (Z.ltb_lt _ _)), !andb_true_r in Hk by lia. done.
    + by rewrite !lookup_take_ge by lia.
  - apply Z.bits_inj'. intros k Hk. rewrite !Z.land_spec, mask_byte_testbit by lia.
    destruct (Z.leb_spec (8 - p) k), (Z.ltb_spec k 8); simpl; rewrite ?andb_false_r; try done.
    rewrite !andb_true_r. assert (Hl := f_equal (.!! Z.to_nat (7 - k)) H). simpl in Hl.
    rewrite !lookup_take_lt, !byte_bits_lookup in Hl by lia.
    rewrite !decide_True in Hl by lia.
    replace (7 - Z.of_nat (Z.to_nat (7 - k))) with k in Hl by lia. congruence.
Qed.

Lemma masked_eq_zero nn ip l : masked_eq nn (cidr_mask l 0) ip = true.
Proof.
  revert nn ip; induction l as [|l IH]; intros [|a nn] [|b ip]; try done; simpl.
  change (Z.lxor 255 (Z.shiftr 255 0)) with 0. rewrite !Z.land_0_r. by rewrite IH.
Qed.

Lemma take_bits_8 a l p :
  8 <= p -> take (Z.to_nat p) (bits (a :: l)) = byte_bits a ++ take (Z.to_nat (p - 8)) (bits l).
Proof.
  intros Hp. rewrite bits_cons, take_app. f_equal.
  - by rewrite take_ge by (simpl; lia).
  - f_equal. simpl. lia.
Qed.

Lemma take_bits_lt a l p :
  0 <= p < 8 -> take (Z.to_nat p) (bits (a :: l)) = take (Z.to_nat p) (byte_bits a).
Proof. intros Hp. rewrite bits_cons, take_app_le; [done|simpl; lia]. Qed.

(** The byte loop with a prefix mask compares exactly the prefix bits. *)
Lemma masked_eq_bits nn ip l p :
  bytes_ok nn -> bytes_ok ip -> length nn = l -> length ip = l -> 0 <= p ->
  masked_eq nn (cidr_mask l p) ip = true <->
  take (Z.to_nat p) (bits nn) = take (Z.to_nat p) (bits ip).
Proof.
  revert nn ip p; induction l as [|l IH]; intros [|a nn] [|b ip] p Ha Hb Hla Hlb Hp; try done.
  apply Forall_cons_1 in Ha as [Ha1 Ha2]; apply Forall_cons_1 in Hb as [Hb1 Hb2].
  cbn [cidr_mask]. destruct (Z.leb_spec 8 p).
  - rewrite !take_bits_8 by done. cbn [masked_eq].
    change 255 with (Z.ones 8). rewrite !Z.land_ones, !Z.mod_small by lia.
    rewrite andb_true_iff, Z.eqb_eq, IH by (auto; simpl in *; lia).
    split; [intros [-> ->]; done|]. intros Heq.
    apply app_inj_1 in Heq as [E1 E2]; [|done]. split; [|done]. by apply byte_bits_inj.
  - rewrite !take_bits_lt by lia. cbn [masked_eq].
    rewrite masked_eq_zero, andb_true_r, Z.eqb_eq. apply land_mask_bits. lia.
Qed.

(** ** Prefix masks *)

Lemma length_cidr_mask l p : length (cidr_mask l p) = l.
Proof. revert p; induction l as [|l IH]; intros p; [done|]. simpl. destruct (8 <=? p); simpl; by rewrite IH. Qed.

Lemma mask_byte_eq p m :
  0 <= p < 8 -> m = Z.lxor 255 (Z.shiftr 255 p) ->
  0 <= m < 255 /\ leading_ones 8 m = (Z.to_nat p, 0).
Proof.
  intros Hp ->.
  assert (p = 0 \/ p = 1 \/ p = 2 \/ p = 3 \/ p = 4 \/ p = 5 \/ p = 6 \/ p = 7) as Hcases by lia.
  destruct Hcases as [->|[->|[->|[->|[->|[->|[->| ->]]]]]]]; vm_compute; repeat split; congruence.
Qed.

Lemma drop_cidr_mask i l p :
  8 * Z.of_nat i <= p -> (i <= l)%nat ->
  drop i (cidr_mask l p) = cidr_mask (l - i) (p - 8 * Z.of_nat i).
Proof.
  revert l p; induction i as [|i IH]; intros l p Hp Hl.
  - change (8 * Z.of_nat 0) with 0. by rewrite Nat.sub_0_r, Z.sub_0_r.
  - destruct l as [|l]; [lia|]. cbn [cidr_mask].
    rewrite (proj2 (Z.leb_le 8 p)) by lia. simpl. rewrite IH by lia. f_equal. lia.
Qed.

Lemma cidr_mask_255 i l p :
  0 <= p -> cidr_mask l p !! i = Some 255 -> 8 * (Z.of_nat i + 1) <= p.
Proof.
  revert l p; induction i as [|i IH]; intros [|l] p Hp; try done;
    cbn [cidr_mask]; destruct (Z.leb_spec 8 p); simpl.
  - lia.
  - intros [= E]. destruct (mask_byte_eq p 255) as [? _]; lia || done.
  - intros E. apply IH in E; lia.
  - intros E. apply IH in E; lia.
Qed.

Lemma cidr_mask_zero l : cidr_mask l 0 = replicate l 0.
Proof. induction l as [|l IH]; [done|]. simpl. by rewrite IH. Qed.

Lemma simpleMaskLength_cidr_mask l p :
  0 <= p <= 8 * Z.of_nat l -> simpleMaskLength (cidr_mask l p) = Some p.
Proof.
  revert p; induction l as [|l IH]; intros p Hp; [simpl; f_equal; lia|].
  cbn [cidr_mask]. destruct (Z.leb_spec 8 p).
  - simpl. rewrite IH by lia. simpl. f_equal. lia.
  - cbn [simpleMaskLength]. destruct (mask_byte_eq p _ ltac:(lia) eq_refl) as [? ->].
    rewrite (proj2 (Z.eqb_neq _ _)) by lia. rewrite cidr_mask_zero. cbn [Z.eqb andb].
    assert (forallb (Z.eqb 0) (replicate l 0) = true) as -> by (clear; by induction l).
    f_equal. lia.
Qed.

(** A masked byte list is its prefix followed by zero bits. *)
Definition masked (nn : list Z) (q : Z) : Prop :=
  zip_with Z.land nn (cidr_mask (length nn) q) = nn.

Lemma replicate_bits l : bits (replicate l 0) = replicate (8 * l) false.
Proof.
  induction l as [|l IH]; [done|].
  change (replicate (S l) 0) with (0 :: replicate l 0). rewrite bits_cons, IH.
  by replace (8 * S l)%nat with (8 + 8 * l)%nat by lia.
Qed.

Lemma byte_bits_masked a q :
  0 <= q < 8 -> Z.land a (Z.lxor 255 (Z.shiftr 255 q)) = a ->
  byte_bits a = take (Z.to_nat q) (byte_bits a) ++ replicate (8 - Z.to_nat q) false.
Proof.
  intros Hq Ha. apply list_eq. intros k.
  destruct (decide (k < Z.to_nat q)%nat).
  { rewrite lookup_app_l by (rewrite length_take; simpl; lia). by rewrite lookup_take_lt. }
  rewrite lookup_app_r by (rewrite length_take; simpl; lia).
  rewrite length_take, byte_bits_lookup.
  assert (Hlen : length (byte_bits a) = 8%nat) by done. rewrite Hlen.
  destruct (decide (k < 8)%nat).
  - rewrite lookup_replicate_2 by lia. f_equal.
    rewrite <- Ha, Z.land_spec, mask_byte_testbit by lia.
    rewrite (proj2 (Z.leb_gt (8 - q) _)) by lia. by rewrite andb_false_r.
  - rewrite lookup_ge_None_2; [done|]. rewrite length_replicate. lia.
Qed.

Lemma bits_masked nn q :
  bytes_ok nn -> 0 <= q <= 8 * Z.of_nat (length nn) -> masked nn q ->
  bits nn = take (Z.to_nat q) (bits nn) ++ replicate (8 * length nn - Z.to_nat q) false.
Proof.
  unfold masked. revert q; induction nn as [|a nn IH]; intros q Hok Hq.
  { intros _. by destruct (Z.to_nat q). }
  apply Forall_cons_1 in Hok as [Ha Hok]. cbn [length cidr_mask].
  destruct (Z.leb_spec 8 q); cbn [zip_with]; intros [= Ea Enn].
  - rewrite take_bits_8 by done. rewrite bits_cons.
    rewrite (IH (q - 8)) at 1; [|done|simpl in Hq; lia|done].
    rewrite <- (assoc_L (++)). do 3 f_equal. lia.
  - rewrite take_bits_lt by lia. rewrite bits_cons.
    rewrite (byte_bits_masked a q) at 1 by (lia || done). rewrite <- (assoc_L (++)). f_equal.
    assert (nn = replicate (length nn) 0) as ->.
    { rewrite <- Enn at 1. rewrite cidr_mask_zero. clear.
      induction nn as [|x nn IH]; [done|]. simpl. by rewrite Z.land_0_r, IH. }
    rewrite replicate_bits, length_replicate, <- replicate_add. f_equal. lia.
Qed.

(** ** Well-formed addresses and networks *)

Definition ip_ok (ip : list Z) : Prop :=
  bytes_ok ip /\ (length ip = 4%nat \/ length ip = 16%nat).

(** The representation used for comparison: 4 bytes for IPv4 and for
    IPv4-mapped IPv6 addresses, 16 bytes for the others. *)
Definition norm (ip : list Z) : list Z := default ip (To4 ip).

(** What [ParseCIDR] returns: a prefix mask and a network number with no host
    bits, both 4 or 16 bytes long. *)
Record wf_net (n : IPNet) : Prop := {
  wf_ip : ip_ok (net_IP n);
  wf_mask : exists p, net_Mask n = cidr_mask (length (net_IP n)) p
                      /\ 0 <= p <= 8 * Z.of_nat (length (net_IP n));
  wf_masked : zip_with Z.land (net_IP n) (net_Mask n) = net_IP n;
}.

(** The abstraction of a network: its normalised number and its prefix. *)
Definition net_plen (n : IPNet) : Z :=
  match networkNumberAndMask n with Some (_, m) => (Mask_Size m).1 | None => 0 end.
Definition net_prefix (n : IPNet) : list bool :=
  take (Z.to_nat (net_plen n)) (bits (norm (net_IP n))).

(** An address is in a network: same family, and the prefix agrees. *)
Definition in_net (n : IPNet) (ip : list Z) : Prop :=
  length (norm ip) = length (norm (net_IP n)) /\ net_prefix n `prefix_of` bits (norm ip).

Lemma bytes_ok_drop k l : bytes_ok l -> bytes_ok (drop k l).
Proof. apply Forall_drop. Qed.

Lemma ip_ok_norm ip : ip_ok ip -> ip_ok (norm ip).
Proof.
  intros [Hb Hl]. unfold norm, To4. case_decide; [by split|].
  case_decide as H2; [|by split]. simpl. split; [by apply bytes_ok_drop|].
  left. rewrite length_drop. lia.
Qed.

Lemma cidr_mask_bytes l p : 0 <= p -> bytes_ok (cidr_mask l p).
Proof.
  revert p; induction l as [|l IH]; intros p Hp; [constructor|]. cbn [cidr_mask].
  destruct (Z.leb_spec 8 p); constructor; try (apply IH; lia); [lia|].
  destruct (mask_byte_eq p _ ltac:(lia) eq_refl). lia.
Qed.

Lemma land_255 b : 0 <= b < 256 -> Z.land 255 b = b.
Proof. intros Hb. rewrite Z.land_comm. change 255 with (Z.ones 8). rewrite Z.land_ones, Z.mod_small; lia. Qed.

(** An IPv4-mapped network number survives its mask only when the mask covers
    the 96 bits of the mapping prefix. *)
Lemma mapped_plen ip p :
  0 <= p -> take 12 ip = v4InV6Prefix ->
  zip_with Z.land ip (cidr_mask (length ip) p) = ip -> 96 <= p.
Proof.
  intros Hp Hv Hz.
  assert (H11 : ip !! 11%nat = Some 255) by (rewrite <- (take_drop 12 ip), Hv; done).
  assert (Hz11 := f_equal (.!! 11%nat) Hz). simpl in Hz11.
  rewrite lookup_zip_with, H11 in Hz11. simpl in Hz11.
  destruct (cidr_mask _ p !! 11%nat) as [m|] eqn:Em; [|done]. simpl in Hz11.
  assert (0 <= m < 256).
  { exact (proj1 (Forall_lookup _ _) (cidr_mask_bytes (length ip) p Hp) _ _ Em). }
  injection Hz11 as Hm. rewrite land_255 in Hm by done. subst m.
  apply cidr_mask_255 in Em; lia.
Qed.

(** Normal form of a well-formed network. *)
Lemma wf_net_number n :
  wf_net n -> exists q,
    networkNumberAndMask n =
      Some (norm (net_IP n), cidr_mask (length (norm (net_IP n))) q) /\
    0 <= q <= 8 * Z.of_nat (length (norm (net_IP n))) /\ masked (norm (net_IP n)) q /\
    net_Mask n = cidr_mask (length (net_IP n))
                   (q + 8 * (Z.of_nat (length (net_IP n)) - Z.of_nat (length (norm (net_IP n))))).
Proof.
  intros [[Hb Hl] (p & Hm & Hp) Hz].
  rewrite Hm in Hz. unfold masked, norm, networkNumberAndMask, To4. rewrite Hm, length_cidr_mask.
  destruct (decide (length (net_IP n) = 4%nat)) as [H4|H4].
  { exists p. cbn [default from_option]. rewrite !decide_True by done.
    split; [done|]. split; [done|]. split; [done|]. by rewrite Z.sub_diag, Z.add_0_r. }
  destruct Hl as [?|H16]; [done|].
  destruct (decide (length (net_IP n) = 16%nat /\ take 12 (net_IP n) = v4InV6Prefix)) as [[_ Hv]|Hv];
    cbn [default from_option id].
  - pose proof (mapped_plen (net_IP n) p ltac:(lia) Hv Hz) as H96.
    exists (p - 96). rewrite length_drop, H16 in *.
    rewrite !decide_True by lia.
    rewrite drop_cidr_mask by lia. split; [done|]. split; [lia|].
    change (p - 96) with (p - 8 * Z.of_nat 12).
    rewrite <- (drop_cidr_mask 12 16) by lia. rewrite <- zip_with_drop, Hz.
    split; [done|]. f_equal. lia.
  - exists p. rewrite !(decide_True _ _ H16). rewrite !(decide_False (P := length (net_IP n) = 4%nat)) by done.
    split; [done|]. split; [done|]. split; [done|]. by rewrite Z.sub_diag, Z.add_0_r.
Qed.

Lemma wf_net_normal n :
  wf_net n -> exists q,
    networkNumberAndMask n =
      Some (norm (net_IP n), cidr_mask (length (norm (net_IP n))) q) /\
    net_plen n = q /\ 0 <= q <= 8 * Z.of_nat (length (norm (net_IP n))) /\
    masked (norm (net_IP n)) q.
Proof.
  intros (q & Hn & Hq & Hmq & _)%wf_net_number. exists q. repeat split; try done; try lia.
  unfold net_plen. rewrite Hn. unfold Mask_Size. by rewrite simpleMaskLength_cidr_mask.
Qed.

Lemma take_prefix_of {A} k (a b : list A) :
  length a = length b -> take k a `prefix_of` b <-> take k a = take k b.
Proof.
  intros Hl. split.
  - intros [c Hc]. rewrite Hc. rewrite take_app, take_take, Nat.min_id.
    rewrite length_take. destruct (decide (k <= length a)%nat).
    + by rewrite Nat.min_l, Nat.sub_diag, take_0, app_nil_r by done.
    + rewrite (take_ge a) in * by lia. rewrite Hc, length_app in Hl.
      assert (c = []) as -> by (destruct c; [done|simpl in Hl; lia]). by rewrite take_nil, app_nil_r.
  - intros ->. by exists (drop k b); rewrite take_drop.
Qed.

(** [IPNet.Contains] decides membership in the abstract network. *)
Lemma Contains_spec n ip : wf_net n -> ip_ok ip -> Contains n ip = true <-> in_net n ip.
Proof.
  intros Hn Hip. destruct (wf_net_normal n Hn) as (q & HN & Hq & Hr & _).
  unfold Contains, in_net, net_prefix. rewrite HN, Hq. fold (default ip (To4 ip)). fold (norm ip).
  assert (Hnip : norm ip = match To4 ip with Some x => x | None => ip end) by done.
  rewrite <- Hnip. case_decide as Hl; [|by split; [done|intros [? _]]].
  destruct (ip_ok_norm _ Hip) as [Hb _]. destruct (ip_ok_norm _ (wf_ip n Hn)) as [Hb' _].
  rewrite masked_eq_bits by (done || lia).
  rewrite take_prefix_of by (rewrite !length_bits; lia).
  split; [by intros|by intros [_ ?]].
Qed.

Lemma in_net_self n : in_net n (net_IP n).
Proof. split; [done|]. apply prefix_take. Qed.

(** ** The parsers return well-formed values *)

Lemma byte_ok_app a b : bytes_ok (a ++ b) <-> bytes_ok a /\ bytes_ok b.
Proof. apply Forall_app. Qed.

Lemma bytes_ok_1 v : 0 <= v < 256 -> bytes_ok [v].
Proof. intros. by apply Forall_singleton. Qed.

Lemma parseIPv4Fields_ok s val digLen acc l :
  bytes_ok acc -> (length acc <= 3)%nat -> 0 <= val < 256 ->
  parseIPv4Fields s val digLen acc = Some l -> bytes_ok l /\ length l = 4%nat.
Proof.
  revert val digLen acc; induction s as [|c s IH]; intros val digLen acc Ha Hl Hv; simpl.
  - case_decide; [done|]. intros [= <-]. split; [|rewrite length_app; simpl; lia].
    apply byte_ok_app. split; [done|]. by apply bytes_ok_1.
  - destruct (is_digit c) eqn:Hd.
    + destruct (_ && _); [done|]. destruct (Z.ltb_spec 255 (val * 10 + (byte_of c - 48))); [done|].
      apply IH; try done. unfold is_digit in Hd. lia.
    + case_decide; [|done]. destruct (_ || _); [done|]. case_decide; [done|].
      apply IH; [|rewrite length_app; simpl; lia|lia].
      apply byte_ok_app. split; [done|]. by apply bytes_ok_1.
Qed.

Lemma hex_val_range c d : hex_val c = Some d -> 0 <= d < 16.
Proof.
  unfold hex_val. intros H.
  destruct ((48 <=? byte_of c) && (byte_of c <=? 57)) eqn:?; [injection H; lia|].
  destruct ((97 <=? byte_of c) && (byte_of c <=? 102)) eqn:?; [injection H; lia|].
  destruct ((65 <=? byte_of c) && (byte_of c <=? 70)) eqn:?; [injection H; lia|done].
Qed.

Lemma hex_group_range s off acc v n rest :
  0 <= acc < 65536 -> hex_group s off acc = Some (v, n, rest) -> 0 <= v < 65536.
Proof.
  revert off acc; induction s as [|c s IH]; intros off acc Ha; simpl; [by intros [= <- _ _]|].
  destruct (hex_val c) as [d|] eqn:Hd; [|by intros [= <- _ _]].
  apply hex_val_range in Hd. case_decide; [done|].
  destruct (Z.ltb_spec 65535 (acc * 16 + d)); [done|]. apply IH. lia.
Qed.

Lemma u16_bytes v : 0 <= v < 65536 -> bytes_ok [Z.shiftr v 8; Z.land v 255].
Proof.
  intros Hv. change 255 with (Z.ones 8). rewrite Z.land_ones, Z.shiftr_div_pow2 by lia.
  change (2 ^ 8) with 256. pose proof (Z.mod_pos_bound v 256). repeat constructor; try lia.
  - apply Z.div_pos; lia.
  - apply Z.div_lt_upper_bound; lia.
Qed.

Lemma parseIPv6_loop_ok fuel ip ell s ip' ell' rest :
  bytes_ok ip -> (length ip < 16)%nat -> Nat.Even (length ip) ->
  parseIPv6_loop fuel ip ell s = Some (ip', ell', rest) ->
  bytes_ok ip' /\ (length ip' <= 16)%nat.
Proof.
  revert ip ell s; induction fuel as [|f IH]; intros ip ell s Hb Hl He; simpl.
  { intros [= <- <- <-]. split; [done|lia]. }
  destruct (hex_group s 0 0) as [[[acc off] r]|] eqn:Hg; [|done].
  apply hex_group_range in Hg; [|lia].
  assert (Hb2 : bytes_ok (ip ++ [Z.shiftr acc 8; Z.land acc 255]))
    by (apply byte_ok_app; split; [done|by apply u16_bytes]).
  assert (Hl2 : (length (ip ++ [Z.shiftr acc 8; Z.land acc 255]) <= 16)%nat)
    by (rewrite length_app; simpl; destruct He; lia).
  assert (He2 : Nat.Even (length (ip ++ [Z.shiftr acc 8; Z.land acc 255])))
    by (rewrite length_app; destruct He as [k ?]; exists (S k); simpl; lia).
  revert Hb2 Hl2 He2. generalize (ip ++ [Z.shiftr acc 8; Z.land acc 255]). intros ip2 Hb2 Hl2 He2.
  repeat first [case_decide | case_match]; try done; intros H'; simplify_eq;
    try (split; [done|lia]); try (eapply IH; eassumption).
  all: match goal with E : parseIPv4Fields _ _ _ _ = _ |- _ =>
    apply parseIPv4Fields_ok in E as [? ?]; [|constructor|simpl; lia|lia] end.
  all: split; [by apply byte_ok_app|rewrite length_app; lia].
Qed.

Lemma bytes_ok_zeros k : bytes_ok (replicate k 0).
Proof. apply Forall_replicate. lia. Qed.

Lemma parseIPv6_end_ok ell0 s0 l :
  parseIPv6_loop 8 [] ell0 s0 ≫= parseIPv6_end = Some l -> bytes_ok l /\ length l = 16%nat.
Proof.
  destruct (parseIPv6_loop 8 [] ell0 s0) as [[[ip ell] rest]|] eqn:E; [|done].
  apply parseIPv6_loop_ok in E as [Hb Hl]; [|constructor|simpl; lia|by exists 0%nat].
  simpl. case_decide; [done|]. case_decide.
  - destruct ell as [e|]; [|done]. intros [= <-]. split.
    + rewrite !byte_ok_app. split; [by apply Forall_take|]. split; [apply bytes_ok_zeros|by apply Forall_drop].
    + rewrite !length_app, length_replicate, length_take, length_drop. lia.
  - destruct ell; [done|]. intros [= <-]. split; [done|lia].
Qed.

Lemma parseIPv6_ok s l : parseIPv6 s = Some l -> bytes_ok l /\ length l = 16%nat.
Proof.
  unfold parseIPv6.
  set (start := match s with String c1 _ => _ | _ => _ end). destruct start as [ell0 s0].
  destruct ell0 as [e|]; [|by apply parseIPv6_end_ok].
  destruct s0; [|by apply parseIPv6_end_ok].
  intros H. assert (l = replicate 16 0) as -> by congruence. split; [apply bytes_ok_zeros|done].
Qed.

Definition addr_ok (a : Addr) : Prop :=
  match a with
  | Addr4 b => bytes_ok b /\ length b = 4%nat
  | Addr6 b => bytes_ok b /\ length b = 16%nat
  end.

Lemma ParseAddr_ok s a : ParseAddr s = Some a -> addr_ok a.
Proof.
  unfold ParseAddr. destruct (first_sep s); [|done]. case_decide.
  - destruct (parseIPv4Fields s 0 0 []) eqn:E; [|done]. intros [= <-].
    apply parseIPv4Fields_ok in E; [done|constructor|simpl; lia|lia].
  - case_decide; [|done]. destruct (Str.contains _ _); [done|].
    destruct (parseIPv6 s) eqn:E; [|done]. intros [= <-]. by apply parseIPv6_ok in E.
Qed.

Lemma As16_ok a : addr_ok a -> bytes_ok (As16 a) /\ length (As16 a) = 16%nat.
Proof.
  destruct a as [b|b]; intros [Hb Hl]; [|done]. simpl. split.
  - do 12 (constructor; [lia|]). done.
  - simpl. lia.
Qed.

Lemma ParseIP_ok s ip : ParseIP s = Some ip -> ip_ok ip.
Proof.
  unfold ParseIP. destruct (ParseAddr s) as [a|] eqn:E; [|done]. intros [= <-].
  apply ParseAddr_ok, As16_ok in E as [? ?]. split; [done|by right].
Qed.

Lemma dtoi_loop_nonneg m s n : 0 <= m -> dtoi_loop m s = Some n -> 0 <= n.
Proof.
  revert m; induction s as [|c s IH]; intros m Hm; simpl; [intros [= <-]; lia|].
  destruct (is_digit c) eqn:Hd; [|done]. destruct (_ <=? _); [done|]. apply IH.
  unfold is_digit in Hd. lia.
Qed.

Lemma dtoi_nonneg s n : dtoi s = Some n -> 0 <= n.
Proof. unfold dtoi. destruct s; [done|]. by apply dtoi_loop_nonneg. Qed.

Lemma byte_by_bits b :
  (forall k, 8 <= k -> Z.testbit b k = false) -> 0 <= b < 256.
Proof.
  intros Hk. assert (Z.land b (Z.ones 8) = b) as <-.
  { apply Z.bits_inj'. intros k ?. rewrite Z.land_spec, Z.testbit_ones_nonneg by lia.
    destruct (Z.ltb_spec k 8); [by rewrite andb_true_r|]. rewrite Hk by done. done. }
  rewrite Z.land_ones by lia. apply Z.mod_pos_bound. lia.
Qed.

Lemma byte_land a k : 0 <= a < 256 -> 0 <= Z.land a k < 256.
Proof. intros Ha. apply byte_by_bits. intros i Hi. by rewrite Z.land_spec, (testbit_high a). Qed.

Lemma bytes_ok_land a m : bytes_ok a -> bytes_ok (zip_with Z.land a m).
Proof.
  intros Ha. revert m; induction Ha as [|x a Hx _ IH]; intros [|k m]; try constructor; [|apply IH].
  by apply byte_land.
Qed.

Lemma zip_land_idemp a m : zip_with Z.land (zip_with Z.land a m) m = zip_with Z.land a m.
Proof.
  revert m; induction a as [|x a IH]; intros [|k m]; try done. simpl.
  by rewrite <- Z.land_assoc, Z.land_diag, IH.
Qed.

(** [mask_net b p]: what [ParseCIDR] stores for the address bytes [b]. *)
Lemma mask_net_wf b p :
  ip_ok b -> 0 <= p <= 8 * Z.of_nat (length b) ->
  wf_net (mkIPNet (zip_with Z.land b (cidr_mask (length b) p)) (cidr_mask (length b) p)).
Proof.
  intros [Hb Hl] Hp.
  assert (Hlen : length (zip_with Z.land b (cidr_mask (length b) p)) = length b)
    by (rewrite length_zip_with, length_cidr_mask; lia).
  split; simpl; rewrite ?Hlen.
  - split; [by apply bytes_ok_land|by rewrite Hlen].
  - by exists p.
  - apply zip_land_idemp.
Qed.

Lemma IP_Mask_4in16 b m :
  length b = 4%nat -> length m = 4%nat ->
  IP_Mask (v4InV6Prefix ++ b) m = Some (zip_with Z.land b m).
Proof.
  intros Hb Hm. unfold IP_Mask.
  destruct (decide (length m = 16%nat /\ _)) as [[? _]|_]; [lia|].
  destruct (decide (length m = 4%nat /\ _)) as [_|Hn].
  - change (drop 12 (v4InV6Prefix ++ b)) with b. by rewrite decide_True by lia.
  - destruct Hn. repeat split; [done|simpl; lia].
Qed.

Lemma IP_Mask_16 ip m :
  length ip = 16%nat -> length m = 16%nat -> IP_Mask ip m = Some (zip_with Z.land ip m).
Proof.
  intros Hi Hm. unfold IP_Mask.
  destruct (decide (length m = 16%nat /\ _)) as [(_ & ? & _)|_]; [lia|].
  destruct (decide (length m = 4%nat /\ _)) as [(? & _)|_]; [lia|].
  by rewrite decide_True by lia.
Qed.

Definition addr_bytes (a : Addr) : list Z := match a with Addr4 b | Addr6 b => b end.

(** The network of an address and a prefix length. *)
Definition mask_net (a : Addr) (p : Z) : IPNet :=
  let m := cidr_mask (length (addr_bytes a)) p in
  mkIPNet (zip_with Z.land (addr_bytes a) m) m.

Lemma IP_Mask_As16 a p :
  addr_ok a -> IP_Mask (As16 a) (cidr_mask (Z.to_nat (BitLen a / 8)) p) = Some (net_IP (mask_net a p)) /\
  cidr_mask (Z.to_nat (BitLen a / 8)) p = net_Mask (mask_net a p).
Proof.
  destruct a as [b|b]; intros [Hb Hl]; unfold mask_net; cbn [BitLen As16 addr_bytes net_IP net_Mask]; rewrite Hl.
  - change (Z.to_nat (32 / 8)) with 4%nat.
    by rewrite IP_Mask_4in16 by (done || apply length_cidr_mask).
  - change (Z.to_nat (128 / 8)) with 16%nat.
    by rewrite IP_Mask_16 by (done || apply length_cidr_mask).
Qed.

Lemma ParseCIDR_intro s addr mask a p :
  Str.cut "/"%char s = Some (addr, mask) -> ParseAddr addr = Some a -> dtoi mask = Some p ->
  p <= BitLen a -> ParseCIDR s = Some (As16 a, mask_net a p).
Proof.
  intros Hc Ha Hd Hp. unfold ParseCIDR. rewrite Hc, Ha, Hd, (proj2 (Z.ltb_ge _ _)) by done.
  destruct (IP_Mask_As16 a p (ParseAddr_ok _ _ Ha)) as [-> ->]. by destruct (mask_net a p).
Qed.

Lemma ParseCIDR_inv s ip n :
  ParseCIDR s = Some (ip, n) -> exists addr mask a p,
    Str.cut "/"%char s = Some (addr, mask) /\ ParseAddr addr = Some a /\ dtoi mask = Some p /\
    0 <= p <= BitLen a /\ ip = As16 a /\ n = mask_net a p.
Proof.
  intros H'. pose proof H' as Hs. unfold ParseCIDR in H'.
  destruct (Str.cut _ s) as [[addr mask]|] eqn:Ec; [|done].
  destruct (ParseAddr addr) as [a|] eqn:Ea; [|done].
  destruct (dtoi mask) as [p|] eqn:Ed; [|done].
  destruct (Z.ltb_spec (BitLen a) p); [done|]. clear H'.
  pose proof (dtoi_nonneg _ _ Ed).
  rewrite (ParseCIDR_intro s addr mask a p) in Hs by done.
  exists addr, mask, a, p. do 3 (split; [done|]). split; [lia|].
  by apply (inj Some), pair_eq in Hs as [-> ->].
Qed.

(** [ParseCIDR] returns a 16-byte address and a well-formed network. *)
Lemma ParseCIDR_ok s ip n : ParseCIDR s = Some (ip, n) -> ip_ok ip /\ wf_net n.
Proof.
  intros (addr & mask & a & p & _ & Ha & _ & Hp & -> & ->)%ParseCIDR_inv.
  apply ParseAddr_ok in Ha. destruct (As16_ok _ Ha) as [? ?].
  split; [split; [done|by right]|].
  destruct a as [b|b]; destruct Ha as [Hb Hl]; simpl in Hp;
    (apply mask_net_wf; cbn [addr_bytes]; [split; [done|rewrite Hl; auto]|rewrite Hl; lia]).
Qed.

(** ** Printing and parsing IPv4 addresses *)

Lemma FormatUint_digits n : 0 <= n -> Str.forallb is_digit (FormatUint n) = true.
Proof.
  intros Hn. eapply (ParseUint_digits _ (n + 1) n). apply ParseUint_FormatUint; [lia|].
  pose proof (Z.pow_gt_lin_r 2 (n + 1)). lia.
Qed.

Lemma FormatUint_nonempty n : 0 <= n -> FormatUint n <> EmptyString.
Proof.
  intros Hn E. assert (ParseUint (FormatUint n) (n + 1) = Some n) as H.
  { apply ParseUint_FormatUint; [lia|]. pose proof (Z.pow_gt_lin_r 2 (n + 1)). lia. }
  by rewrite E in H.
Qed.

Lemma FormatUint_contains c n : 0 <= n -> is_digit c = false -> Str.contains c (FormatUint n) = false.
Proof. intros Hn Hc. by apply (Str.contains_forallb c is_digit); [apply FormatUint_digits|]. Qed.

Lemma parse_octets :
  Forall (fun v => exists d, 0 < d /\ forall rest acc,
    parseIPv4Fields (FormatUint v +:+ rest) 0 0 acc = parseIPv4Fields rest v d acc) (seqZ 0 256).
Proof.
  let l := eval vm_compute in (seqZ 0 256) in change (seqZ 0 256) with l.
  repeat (constructor; [eexists; split; [|intros; reflexivity]; lia|]). constructor.
Qed.

Lemma parse_octet v rest acc :
  0 <= v < 256 -> exists d, 0 < d /\
    parseIPv4Fields (FormatUint v +:+ rest) 0 0 acc = parseIPv4Fields rest v d acc.
Proof.
  intros Hv. assert (Hin : v ∈ seqZ 0 256) by (apply elem_of_seqZ; lia).
  apply list_elem_of_In in Hin.
  destruct (proj1 (List.Forall_forall _ _) parse_octets v Hin) as (d & ? & H). by exists d.
Qed.

Lemma parse_dot s v d acc :
  0 < d -> s <> EmptyString -> (length acc < 3)%nat ->
  parseIPv4Fields ("." +:+ s) v d acc = parseIPv4Fields s 0 0 (acc ++ [v]).
Proof.
  intros Hd Hs Hl. cbn [String.append parseIPv4Fields].
  change (is_digit ".") with false. cbn [andb]. rewrite decide_True by done.
  rewrite (proj2 (Z.eqb_neq d 0)), bool_decide_false, decide_False by (done || lia). done.
Qed.

Lemma app_nonempty_l (a b : string) : a <> EmptyString -> a +:+ b <> EmptyString.
Proof. by destruct a. Qed.

Lemma parse_string4 b :
  bytes_ok b -> length b = 4%nat -> parseIPv4Fields (string4 b) 0 0 [] = Some b.
Proof.
  intros Hb Hl. destruct b as [|b0 [|b1 [|b2 [|b3 [|]]]]]; try done.
  apply Forall_cons_1 in Hb as [H0 Hb]. apply Forall_cons_1 in Hb as [H1 Hb].
  apply Forall_cons_1 in Hb as [H2 Hb]. apply Forall_cons_1 in Hb as [H3 _]. cbn [string4].
  destruct (parse_octet b0 ("." +:+ FormatUint b1 +:+ "." +:+ FormatUint b2 +:+ "." +:+ FormatUint b3) [] H0) as (d0 & Hd0 & ->).
  rewrite parse_dot by (done || simpl; try lia; apply app_nonempty_l, FormatUint_nonempty; lia).
  destruct (parse_octet b1 ("." +:+ FormatUint b2 +:+ "." +:+ FormatUint b3) ([] ++ [b0]) H1) as (d1 & Hd1 & ->).
  rewrite parse_dot by (done || simpl; try lia; apply app_nonempty_l, FormatUint_nonempty; lia).
  destruct (parse_octet b2 ("." +:+ FormatUint b3) (([] ++ [b0]) ++ [b1]) H2) as (d2 & Hd2 & ->).
  rewrite parse_dot by (done || simpl; try lia; apply FormatUint_nonempty; lia).
  rewrite <- (Str.app_nil_r (FormatUint b3)).
  destruct (parse_octet b3 "" ((([] ++ [b0]) ++ [b1]) ++ [b2]) H3) as (d3 & Hd3 & ->). done.
Qed.

Lemma first_sep_digits s t : Str.forallb is_digit s = true -> first_sep (s +:+ String "." t) = Some "."%char.
Proof.
  induction s as [|c s IH]; simpl; [done|]. intros [Hc Hs]%andb_prop.
  case_decide as Hd; [|auto]. destruct Hd as [->|[->| ->]]; done.
Qed.

Lemma ParseAddr_string4 b :
  bytes_ok b -> length b = 4%nat -> ParseAddr (string4 b) = Some (Addr4 b).
Proof.
  intros Hb Hl. unfold ParseAddr. assert (Hf : first_sep (string4 b) = Some "."%char).
  { destruct b as [|b0 [|b1 [|b2 [|b3 [|]]]]]; try done. apply first_sep_digits, FormatUint_digits.
    apply Forall_cons_1 in Hb as [? _]. lia. }
  by rewrite Hf, decide_True, parse_string4.
Qed.

Lemma contains_string4 c b :
  bytes_ok b -> is_digit c = false -> c <> "."%char -> Str.contains c (string4 b) = false.
Proof.
  intros Hb Hc Hd. destruct b as [|b0 [|b1 [|b2 [|b3 [|]]]]]; try done.
  apply Forall_cons_1 in Hb as [H0 Hb]. apply Forall_cons_1 in Hb as [H1 Hb].
  apply Forall_cons_1 in Hb as [H2 Hb]. apply Forall_cons_1 in Hb as [H3 _]. cbn [string4].
  assert (Hdot : Str.contains c "." = false) by (simpl; by rewrite decide_False).
  by rewrite !Str.contains_app, !FormatUint_contains, Hdot by (done || lia).
Qed.
