(* ===== verification/GoNetPrint.v ===== *)
(** * Printing an address and parsing it back

    [IP.String] followed by [netip.ParseAddr] gives the address again, for the
    dotted IPv4 form and for the compressed IPv6 form. *)

From Stdlib Require Import Ascii String.
From S2P Require Import Prelude GoStrings GoNet GoNetFacts.
Open Scope Z_scope.

(** ** One group of hex digits *)

Definition group_bytes (x : Z) : list Z := [Z.shiftr x 8; Z.land x 255].

Lemma hex_val_digit d : 0 <= d < 16 -> hex_val (hex_digit d) = Some d.
Proof.
  intros Hd. assert (Hin : d ∈ seqZ 0 16) by (apply elem_of_seqZ; lia). revert d Hin Hd.
  let l := eval vm_compute in (seqZ 0 16) in change (seqZ 0 16) with l.
  intros d Hin _. repeat (apply elem_of_cons in Hin as [->|Hin]; [reflexivity|]).
  by apply not_elem_of_nil in Hin.
Qed.

Lemma hex_digit_not d c : 0 <= d < 16 -> hex_val c = None -> hex_digit d <> c.
Proof. intros Hd Hc <-. by rewrite hex_val_digit in Hc. Qed.

Definition ends_group (rest : string) : Prop :=
  match rest with EmptyString => True | String c _ => hex_val c = None end.

Lemma hex_group_stop off acc rest :
  ends_group rest -> hex_group rest off acc = Some (acc, off, rest).
Proof. destruct rest as [|c rest]; [done|]. simpl. by intros ->. Qed.

Lemma hex_group_digit d off acc rest :
  0 <= d < 16 -> (off <= 3)%nat -> 0 <= acc * 16 + d < 65536 ->
  hex_group (String (hex_digit d) rest) off acc = hex_group rest (S off) (acc * 16 + d).
Proof.
  intros Hd Ho Ha. cbn [hex_group]. rewrite hex_val_digit by done.
  rewrite decide_False by lia. by rewrite (proj2 (Z.ltb_ge _ _)) by lia.
Qed.

Lemma nibble_range x k : 0 <= x -> 0 <= k -> 0 <= Z.land (Z.shiftr x k) 15 < 16.
Proof.
  intros. change 15 with (Z.ones 4). rewrite Z.land_ones by lia. apply Z.mod_pos_bound. lia.
Qed.

Lemma nibbles x : 0 <= x < 65536 ->
  Z.shiftr x 12 = x / 4096 /\ Z.land (Z.shiftr x 8) 15 = x / 256 mod 16 /\
  Z.land (Z.shiftr x 4) 15 = x / 16 mod 16 /\ Z.land x 15 = x mod 16.
Proof.
  intros Hx. change 15 with (Z.ones 4). rewrite !Z.land_ones, !Z.shiftr_div_pow2 by lia. done.
Qed.

(** [read_digits k x]: run [hex_group] over the [k] digits of [x]. *)
Ltac read_digits k x :=
  exists k; split; [lia|]; rewrite ?(proj2 (Z.leb_le _ x)) by lia; cbn [String.append];
  rewrite !hex_group_digit by (Z.to_euclidean_division_equations; lia);
  rewrite hex_group_stop by done; do 3 f_equal; Z.to_euclidean_division_equations; lia.

Lemma hex_group_hex16 x rest :
  0 <= x < 65536 -> ends_group rest ->
  exists k, (0 < k)%nat /\ hex_group (hex16 x +:+ rest) 0 0 = Some (x, k, rest).
Proof.
  intros Hx Hr. unfold hex16. destruct (nibbles x Hx) as (E3 & E2 & E1 & E0).
  rewrite E3, E2, E1, E0.
  destruct (Z.leb_spec 4096 x); [|destruct (Z.leb_spec 256 x); [|destruct (Z.leb_spec 16 x)]].
  - read_digits 4%nat x.
  - read_digits 3%nat x.
  - read_digits 2%nat x.
  - read_digits 1%nat x.
Qed.

(** A group starts with a hex digit. *)
Lemma hex16_cons x : 0 <= x < 65536 -> exists d s, 0 <= d < 16 /\ hex16 x = String (hex_digit d) s.
Proof.
  intros Hx. unfold hex16. destruct (nibbles x Hx) as (E3 & E2 & E1 & E0). rewrite E3, E2, E1, E0.
  destruct (Z.leb_spec 4096 x); [|destruct (Z.leb_spec 256 x); [|destruct (Z.leb_spec 16 x)]];
    cbn [String.append]; do 2 eexists; (split; [|reflexivity]);
    Z.to_euclidean_division_equations; lia.
Qed.

(** ** Sequences of groups *)

Definition groups_ok (g : list Z) : Prop := Forall (fun x => 0 <= x < 65536) g.

Definition group_list_bytes (g : list Z) : list Z := g ≫= group_bytes.

Fixpoint join6 (g : list Z) : string :=
  match g with
  | [] => ""
  | [x] => hex16 x
  | x :: g' => hex16 x +:+ ":" +:+ join6 g'
  end.

Lemma length_group_list_bytes g : length (group_list_bytes g) = (2 * length g)%nat.
Proof.
  induction g as [|x g IH]; [done|]. change (group_list_bytes (x :: g)) with (group_bytes x ++ group_list_bytes g).
  rewrite length_app, IH. simpl. lia.
Qed.

Lemma join6_cons x y g : join6 (x :: y :: g) = hex16 x +:+ ":" +:+ join6 (y :: g).
Proof. done. Qed.

Lemma join6_head x g s :
  0 <= x < 65536 -> exists d t, 0 <= d < 16 /\ join6 (x :: g) +:+ s = String (hex_digit d) t.
Proof.
  intros Hx. destruct (hex16_cons x Hx) as (d & t & Hd & E).
  destruct g as [|y g]; [|rewrite join6_cons]; simpl; rewrite E; simpl; by eauto.
Qed.

Lemma sep_char_hex : hex_val ":" = None /\ hex_val "." = None.
Proof. done. Qed.

(** One iteration that reads a group followed by a single colon. *)
Lemma loop_group_colon f ip ell x d t :
  0 <= x < 65536 -> 0 <= d < 16 -> (length ip + 2 < 16)%nat ->
  parseIPv6_loop (S f) ip ell (hex16 x +:+ ":" +:+ String (hex_digit d) t) =
  parseIPv6_loop f (ip ++ group_bytes x) ell (String (hex_digit d) t).
Proof.
  intros Hx Hd Hl.
  destruct (hex_group_hex16 x (":" +:+ String (hex_digit d) t) Hx (proj1 sep_char_hex)) as (k & Hk & Hg).
  cbn [parseIPv6_loop]. rewrite Hg, decide_False by lia. cbn [String.append].
  rewrite (decide_False (P := _ = "."%char)) by done.
  rewrite (decide_False (P := _ <> _)) by (intros H; by apply H).
  rewrite (decide_False (P := hex_digit d = _)) by (by apply hex_digit_not).
  by rewrite decide_True by (rewrite length_app; simpl; lia).
Qed.

Lemma loop_group_end f ip ell x :
  0 <= x < 65536 ->
  parseIPv6_loop (S f) ip ell (hex16 x) = Some (ip ++ group_bytes x, ell, EmptyString).
Proof.
  intros Hx. destruct (hex_group_hex16 x "" Hx I) as (k & Hk & Hg).
  rewrite Str.app_nil_r in Hg. cbn [parseIPv6_loop]. by rewrite Hg, decide_False by lia.
Qed.

(** One iteration that reads a group followed by the ellipsis. *)
Lemma loop_group_ellipsis f ip x s :
  0 <= x < 65536 -> (length ip + 2 < 16)%nat ->
  parseIPv6_loop (S f) ip None (hex16 x +:+ "::" +:+ s) =
  let ip' := ip ++ group_bytes x in
  match s with
  | EmptyString => Some (ip', Some (length ip'), EmptyString)
  | _ => parseIPv6_loop f ip' (Some (length ip')) s
  end.
Proof.
  intros Hx Hl. destruct (hex_group_hex16 x ("::" +:+ s) Hx (proj1 sep_char_hex)) as (k & Hk & Hg).
  cbn [parseIPv6_loop]. rewrite Hg, decide_False by lia. cbn [String.append].
  rewrite (decide_False (P := _ = "."%char)) by done.
  rewrite (decide_False (P := _ <> _)) by (intros H; by apply H).
  rewrite (decide_True (P := _ = ":"%char)) by done. destruct s; [done|].
  by rewrite decide_True by (rewrite length_app; simpl; lia).
Qed.

Lemma loop_join6 g f ip ell :
  groups_ok g -> g <> [] -> (length g <= f)%nat -> (length ip + 2 * length g <= 16)%nat ->
  parseIPv6_loop f ip ell (join6 g) = Some (ip ++ group_list_bytes g, ell, EmptyString).
Proof.
  revert f ip; induction g as [|x g IH]; intros f ip Hg Hne Hf Hl; [done|].
  apply Forall_cons_1 in Hg as [Hx Hg]. destruct f as [|f]; [simpl in Hf; lia|].
  destruct g as [|y g]; [by apply loop_group_end|].
  rewrite join6_cons. apply Forall_cons_1 in Hg as Hg'. destruct Hg' as [Hy _].
  destruct (join6_head y g "" Hy) as (d & t & Hd & E). rewrite Str.app_nil_r in E.
  simpl in Hl, Hf. rewrite E, loop_group_colon, <- E by (done || lia).
  rewrite IH; [|done|done|simpl; lia|rewrite length_app; simpl; lia].
  by rewrite <- (assoc_L (++)).
Qed.

Lemma loop_join6_ellipsis g f ip s :
  groups_ok g -> g <> [] -> (length g <= f)%nat -> (length ip + 2 * length g < 16)%nat ->
  parseIPv6_loop f ip None (join6 g +:+ "::" +:+ s) =
  let ip' := ip ++ group_list_bytes g in
  match s with
  | EmptyString => Some (ip', Some (length ip'), EmptyString)
  | _ => parseIPv6_loop (f - length g) ip' (Some (length ip')) s
  end.
Proof.
  revert f ip; induction g as [|x g IH]; intros f ip Hg Hne Hf Hl; [done|].
  apply Forall_cons_1 in Hg as [Hx Hg]. destruct f as [|f]; [simpl in Hf; lia|].
  destruct g as [|y g].
  { simpl in Hl. change (join6 [x]) with (hex16 x).
    rewrite loop_group_ellipsis by (done || lia). cbv zeta.
    by replace (S f - length [x])%nat with f by (simpl; lia). }
  rewrite join6_cons, !Str.app_assoc. apply Forall_cons_1 in Hg as Hg'. destruct Hg' as [Hy _].
  destruct (join6_head y g ("::" +:+ s) Hy) as (d & t & Hd & E).
  simpl in Hl, Hf. rewrite E, loop_group_colon, <- E by (done || lia).
  rewrite IH; [|done|done|simpl; lia|rewrite length_app; simpl; lia].
  cbv zeta. by rewrite <- (assoc_L (++)).
Qed.

(** ** The printer *)

Lemma join6_drop g i x :
  g !! i = Some x ->
  join6 (drop i g) = hex16 x +:+ (if decide (S i < length g)%nat then ":" +:+ join6 (drop (S i) g) else "").
Proof.
  intros Hx. pose proof (lookup_lt_Some _ _ _ Hx). rewrite (drop_S _ _ _ Hx).
  case_decide as Hd.
  - destruct (lookup_lt_is_Some_2 g (S i) Hd) as [y Hy]. by rewrite (drop_S _ _ _ Hy).
  - rewrite (drop_ge g (S i)) by lia. simpl. by rewrite Str.app_nil_r.
Qed.

Lemma print6_S f i g z :
  print6 (S f) i g z =
    if decide (8 <= i)%nat then ""
    else if decide (i = z.1) then
      "::" +:+ (if decide (8 <= z.2)%nat then ""
                else hex16 (default 0 (g !! z.2)) +:+ print6 f (S z.2) g z)
    else (if decide (0 < i)%nat then ":" else "") +:+
         hex16 (default 0 (g !! i)) +:+ print6 f (S i) g z.
Proof. done. Qed.

(** The second loop past the compressed run, or without one. *)
Lemma print6_after f i g z :
  length g = 8%nat -> (z.1 < i \/ 8 <= z.1)%nat -> (8 <= f + i)%nat -> (0 < i)%nat ->
  print6 f i g z = if decide (i < 8)%nat then ":" +:+ join6 (drop i g) else "".
Proof.
  intros Hg Hz. revert i Hz; induction f as [|f IH]; intros i Hz Hf Hi.
  { by rewrite decide_False by lia. }
  rewrite print6_S.
  destruct (decide (8 <= i)%nat); [by rewrite decide_False by lia|].
  rewrite decide_False, (decide_True (P := (0 < i)%nat)), (decide_True (P := (i < 8)%nat)) by lia.
  destruct (lookup_lt_is_Some_2 g i ltac:(lia)) as [x Hx].
  rewrite (join6_drop g i x Hx), Hx, Hg. simpl default. by rewrite IH by lia.
Qed.

Lemma print6_none g : length g = 8%nat -> print6 8 0 g (255, 255)%nat = join6 g.
Proof.
  intros Hg. rewrite print6_S, !decide_False by (simpl; lia).
  destruct (lookup_lt_is_Some_2 g 0 ltac:(lia)) as [x Hx]. rewrite Hx.
  rewrite <- (drop_0 g) at 2. rewrite (join6_drop g 0 x Hx), Hg. simpl default.
  by rewrite print6_after by (simpl; lia).
Qed.

Lemma take_drop_cons {A} (g : list A) i n x :
  g !! i = Some x -> take (S n) (drop i g) = x :: take n (drop (S i) g).
Proof. intros Hx. by rewrite (drop_S _ _ _ Hx). Qed.

(** The second loop up to the compressed run. *)
Lemma print6_before f i g zs ze :
  length g = 8%nat -> (zs < ze <= 8)%nat -> (i <= zs)%nat -> (8 <= f + i)%nat ->
  print6 f i g (zs, ze) =
    (if decide (0 < i < zs)%nat then ":" else "") +:+
    join6 (take (zs - i) (drop i g)) +:+ "::" +:+ join6 (drop ze g).
Proof.
  intros Hg Hz. revert i; induction f as [|f IH]; intros i Hi Hf; [lia|].
  rewrite print6_S, decide_False by lia. simpl fst; simpl snd. case_decide as E; [subst zs|].
  - rewrite Nat.sub_diag, take_0, (decide_False (P := (0 < i < i)%nat)) by lia. simpl. do 2 f_equal.
    destruct (decide (8 <= ze)%nat); [by rewrite drop_ge by lia|].
    destruct (lookup_lt_is_Some_2 g ze ltac:(lia)) as [x Hx].
    rewrite (join6_drop g ze x Hx), Hx, Hg. simpl default. by rewrite print6_after by (simpl; lia).
  - destruct (lookup_lt_is_Some_2 g i ltac:(lia)) as [x Hx]. rewrite Hx. simpl default.
    rewrite IH by lia. replace (zs - i)%nat with (S (zs - S i)) by lia.
    rewrite (take_drop_cons g i _ x Hx).
    f_equal; [by repeat case_decide; try lia|].
    destruct (decide (S i < zs)%nat) as [Hlt|Hge].
    + rewrite decide_True by lia. replace (zs - S i)%nat with (S (zs - S (S i))) by lia.
      destruct (lookup_lt_is_Some_2 g (S i) ltac:(lia)) as [y Hy].
      rewrite (take_drop_cons g (S i) _ y Hy), join6_cons. by rewrite !Str.app_assoc.
    + rewrite decide_False by lia. by replace (zs - S i)%nat with 0%nat by lia.
Qed.

Lemma print6_run g zs ze :
  length g = 8%nat -> (zs < ze <= 8)%nat ->
  print6 8 0 g (zs, ze) = join6 (take zs g) +:+ "::" +:+ join6 (drop ze g).
Proof.
  intros Hg Hz. rewrite print6_before by (done || lia).
  rewrite decide_False by lia. by rewrite Nat.sub_0_r, drop_0.
Qed.

(** The run the printer compresses lies in the address and holds zeros. *)
Definition run_ok (g : list Z) (z : nat * nat) : Prop :=
  z = (255, 255)%nat \/
  (z.1 < z.2 <= length g)%nat /\ forall k, (z.1 <= k < z.2)%nat -> g !! k = Some 0.

Lemma zero_run_lookup g k : (k < zero_run g)%nat -> g !! k = Some 0.
Proof.
  revert k; induction g as [|x g IH]; intros k; simpl; [lia|].
  destruct (Z.eqb_spec x 0) as [->|]; [|lia]. destruct k as [|k]; [done|]. intros. apply IH. lia.
Qed.

Lemma zero_run_length g : (zero_run g <= length g)%nat.
Proof. induction g as [|x g IH]; simpl; [lia|]. destruct (x =? 0); lia. Qed.

Lemma best_run_ok G i best :
  run_ok G best -> run_ok G (best_run i (drop i G) best).
Proof.
  intros Hb. remember (drop i G) as g eqn:Hg. revert i best Hg Hb.
  induction g as [|x g IH]; intros i best Hg Hb; [done|]. cbn [best_run]. apply IH.
  { apply (f_equal (drop 1)) in Hg. by rewrite drop_drop, Nat.add_1_r in Hg. }
  rewrite Hg. case_decide as Hl; [|done]. right. cbn [fst snd].
  pose proof (zero_run_length (drop i G)) as Hlen. rewrite length_drop in Hlen.
  split; [lia|]. intros k Hk. replace k with (i + (k - i))%nat by lia.
  rewrite <- lookup_drop. apply zero_run_lookup. lia.
Qed.

(** ** Bytes and groups *)

Lemma u16_split hi lo :
  0 <= hi < 256 -> 0 <= lo < 256 ->
  group_bytes (Z.lor (Z.shiftl hi 8) lo) = [hi; lo] /\ 0 <= Z.lor (Z.shiftl hi 8) lo < 65536.
Proof.
  intros Hh Hlo.
  assert (E1 : Z.shiftr (Z.lor (Z.shiftl hi 8) lo) 8 = hi).
  { rewrite Z.shiftr_lor, Z.shiftr_shiftl_l by lia. rewrite (Z.shiftr_div_pow2 lo) by lia.
    rewrite Z.div_small by (change (2 ^ 8) with 256; lia). simpl. rewrite Z.lor_0_r. apply Z.shiftl_0_r. }
  assert (E2 : Z.land (Z.lor (Z.shiftl hi 8) lo) 255 = lo).
  { rewrite Z.land_lor_distr_l. change 255 with (Z.ones 8). rewrite !Z.land_ones by lia.
    rewrite Z.shiftl_mul_pow2, Z.mod_mul, Z.mod_small by (change (2 ^ 8) with 256; lia). done. }
  unfold group_bytes. rewrite E1, E2. split; [done|].
  revert E1 E2. generalize (Z.lor (Z.shiftl hi 8) lo). intros x E1 E2.
  change 255 with (Z.ones 8) in E2. rewrite Z.land_ones in E2 by lia. rewrite Z.shiftr_div_pow2 in E1 by lia.
  change (2 ^ 8) with 256 in *. pose proof (Z.div_mod x 256). lia.
Qed.

Lemma u16s_ok n b :
  bytes_ok b -> length b = (2 * n)%nat ->
  groups_ok (u16s b) /\ length (u16s b) = n /\ group_list_bytes (u16s b) = b.
Proof.
  revert b; induction n as [|n IH]; intros b Hb Hl.
  { destruct b; [|done]. repeat split. constructor. }
  destruct b as [|hi [|lo b]]; simpl in Hl; try lia.
  apply Forall_cons_1 in Hb as [Hh Hb]. apply Forall_cons_1 in Hb as [Hlo Hb].
  destruct (IH b Hb ltac:(lia)) as (IH1 & IH2 & IH3).
  destruct (u16_split hi lo Hh Hlo) as [E Hr]. cbn [u16s]. repeat split.
  - by constructor.
  - simpl. by rewrite IH2.
  - change (group_list_bytes (?x :: ?g)) with (group_bytes x ++ group_list_bytes g).
    unfold group_list_bytes in *. cbn [mbind list_bind]. by rewrite E, IH3.
Qed.

(** ** Round trip *)

Lemma glb_app a b : group_list_bytes (a ++ b) = group_list_bytes a ++ group_list_bytes b.
Proof. apply bind_app. Qed.

Lemma glb_zeros n : group_list_bytes (replicate n 0) = replicate (2 * n) 0.
Proof.
  induction n as [|n IH]; [done|]. change (replicate (S n) 0) with ([0] ++ replicate n 0).
  rewrite glb_app, IH. by replace (2 * S n)%nat with (2 + 2 * n)%nat by lia.
Qed.

Lemma run_split g zs ze :
  (zs < ze <= length g)%nat -> (forall k, (zs <= k < ze)%nat -> g !! k = Some 0) ->
  g = take zs g ++ replicate (ze - zs) 0 ++ drop ze g.
Proof.
  intros Hz H0. rewrite <- (take_drop zs g) at 1. f_equal.
  rewrite <- (take_drop (ze - zs) (drop zs g)) at 1. rewrite drop_drop.
  replace (zs + (ze - zs))%nat with ze by lia. f_equal.
  apply list_eq. intros k. destruct (decide (k < ze - zs)%nat).
  - rewrite lookup_take_lt, lookup_drop, lookup_replicate_2 by done. apply H0. lia.
  - rewrite !lookup_ge_None_2; [done|rewrite length_replicate; lia|rewrite length_take; lia].
Qed.

Lemma parseIPv6_no_ellipsis s d t :
  0 <= d < 16 -> s = String (hex_digit d) t ->
  parseIPv6 s = parseIPv6_loop 8 [] None s ≫= parseIPv6_end.
Proof.
  intros Hd ->. unfold parseIPv6. destruct t as [|c t]; [done|].
  rewrite decide_False; [done|]. intros [H _]. by apply (hex_digit_not d ":") in H.
Qed.

Lemma groups_ok_take n g : groups_ok g -> groups_ok (take n g).
Proof. apply Forall_take. Qed.
Lemma groups_ok_drop n g : groups_ok g -> groups_ok (drop n g).
Proof. apply Forall_drop. Qed.

(** A compressed run at [zs, ze) is expanded where it was. *)
Lemma parse_run_end g zs ze :
  length g = 8%nat -> (zs < ze <= 8)%nat -> (forall k, (zs <= k < ze)%nat -> g !! k = Some 0) ->
  parseIPv6_end (group_list_bytes (take zs g) ++ group_list_bytes (drop ze g), Some (2 * zs)%nat, EmptyString)
  = Some (group_list_bytes g).
Proof.
  intros Hg Hz H0. assert (L1 : length (group_list_bytes (take zs g)) = (2 * zs)%nat)
    by (rewrite length_group_list_bytes, length_take; lia).
  assert (L2 : length (group_list_bytes (drop ze g)) = (2 * (8 - ze))%nat)
    by (rewrite length_group_list_bytes, length_drop; lia).
  cbn [parseIPv6_end]. rewrite decide_False by (intros H; by apply H).
  rewrite length_app, L1, L2, decide_True by lia.
  rewrite take_app_length', drop_app_length' by done. f_equal.
  rewrite (run_split g zs ze) at 3 by (rewrite ?Hg; done || lia).
  rewrite !glb_app, glb_zeros. do 3 f_equal. lia.
Qed.

Lemma parse_join6_run g zs ze :
  groups_ok g -> length g = 8%nat -> (zs < ze <= 8)%nat ->
  (forall k, (zs <= k < ze)%nat -> g !! k = Some 0) ->
  parseIPv6 (join6 (take zs g) +:+ "::" +:+ join6 (drop ze g)) = Some (group_list_bytes g).
Proof.
  intros Hok Hg Hz H0. pose proof (parse_run_end g zs ze Hg Hz H0) as Hend.
  assert (Hk : forall f ip ell, drop ze g <> [] -> (8 - ze <= f)%nat -> (length ip + 2 * (8 - ze) <= 16)%nat ->
    parseIPv6_loop f ip ell (join6 (drop ze g)) = Some (ip ++ group_list_bytes (drop ze g), ell, EmptyString)).
  { intros. apply loop_join6; [by apply groups_ok_drop|done|rewrite length_drop; lia..]. }
  destruct zs as [|zs].
  - change (join6 (take 0 g)) with "". cbn [String.append]. unfold parseIPv6. rewrite decide_True by done.
    destruct (drop ze g) as [|y g'] eqn:Ed.
    + f_equal. assert (ze = 8)%nat as -> by (apply (f_equal length) in Ed; rewrite length_drop in Ed; simpl in Ed; lia).
      rewrite (run_split g 0 8), glb_app, glb_app, glb_zeros by (done || lia). by rewrite Ed.
    + assert (groups_ok (y :: g')) as [Hy _]%Forall_cons_1 by (rewrite <- Ed; by apply groups_ok_drop).
      destruct (join6_head y g' "" Hy) as (d & t & _ & E). rewrite Str.app_nil_r in E.
      rewrite E, <- E, Hk by (done || simpl; lia). exact Hend.
  - destruct g as [|x g]; [done|]. apply Forall_cons_1 in Hok as Hok'. destruct Hok' as [Hx _].
    destruct (join6_head x (take zs g) ("::" +:+ join6 (drop ze (x :: g))) Hx) as (d & t & Hd & E).
    rewrite (parseIPv6_no_ellipsis _ d t) by done.
    change (take (S zs) (x :: g)) with (x :: take zs g) in *.
    assert (Hlen : length (x :: take zs g) = S zs) by (simpl in *; rewrite length_take; lia).
    rewrite loop_join6_ellipsis;
      [|by apply (groups_ok_take (S zs)) in Hok|done|lia|simpl length at 1; lia].
    cbv zeta. rewrite app_nil_l, length_group_list_bytes, Hlen.
    destruct (drop ze (x :: g)) as [|y g'] eqn:Ed.
    + cbn [join6 mbind option_bind]. by rewrite app_nil_r in Hend.
    + assert (groups_ok (y :: g')) as [Hy _]%Forall_cons_1 by (rewrite <- Ed; by apply groups_ok_drop).
      destruct (join6_head y g' "" Hy) as (d' & t' & _ & E'). rewrite Str.app_nil_r in E'.
      rewrite E', <- E', Hk; [exact Hend|done|lia|rewrite length_group_list_bytes; lia].
Qed.

Lemma string6_cases b :
  bytes_ok b -> length b = 16%nat ->
  string6 b = join6 (u16s b) \/
  exists zs ze, (zs < ze <= 8)%nat /\ (forall k, (zs <= k < ze)%nat -> u16s b !! k = Some 0) /\
    string6 b = join6 (take zs (u16s b)) +:+ "::" +:+ join6 (drop ze (u16s b)).
Proof.
  intros Hb Hl. destruct (u16s_ok 8 b Hb Hl) as (_ & Hlen & _).
  unfold string6. destruct (best_run_ok (u16s b) 0 (255, 255)%nat) as [E|[Hz H0]]; [by left| |].
  - rewrite drop_0 in E. left. rewrite E. by apply print6_none.
  - rewrite drop_0 in *. right. revert Hz H0.
    destruct (best_run 0 (u16s b) (255, 255)%nat) as [zs ze]. cbn [fst snd]. rewrite Hlen. intros Hz H0.
    exists zs, ze. split; [done|]. split; [done|]. by apply print6_run.
Qed.

Lemma parse_string6 b : bytes_ok b -> length b = 16%nat -> parseIPv6 (string6 b) = Some b.
Proof.
  intros Hb Hl. destruct (u16s_ok 8 b Hb Hl) as (Hok & Hlen & Hglb).
  destruct (string6_cases b Hb Hl) as [->|(zs & ze & Hz & H0 & ->)].
  - destruct (u16s b) as [|x g] eqn:E; [done|]. apply Forall_cons_1 in Hok as Hok'. destruct Hok' as [Hx _].
    destruct (join6_head x g "" Hx) as (d & t & Hd & Eh). rewrite Str.app_nil_r in Eh.
    rewrite (parseIPv6_no_ellipsis _ d t), loop_join6 by (done || rewrite Hlen; simpl; lia).
    cbn [mbind option_bind]. rewrite app_nil_l, Hglb. cbn [parseIPv6_end].
    rewrite decide_False by (intros H; by apply H). by rewrite decide_False by lia.
  - rewrite parse_join6_run by done. by rewrite Hglb.
Qed.

(** The characters of a printed IPv6 address. *)
Definition v6_char (c : ascii) : bool :=
  match hex_val c with Some _ => true | None => bool_decide (c = ":"%char) end.

Lemma hex16_chars x : 0 <= x < 65536 -> Str.forallb v6_char (hex16 x) = true.
Proof.
  intros Hx. unfold hex16. destruct (nibbles x Hx) as (E3 & E2 & E1 & E0). rewrite E3, E2, E1, E0.
  assert (Hd : forall d, 0 <= d < 16 -> Str.forallb v6_char (String (hex_digit d) "") = true).
  { intros d Hd. simpl. unfold v6_char. by rewrite hex_val_digit. }
  rewrite !Str.forallb_app.
  do 3 (apply andb_true_intro; split; [case_match; [|done]; apply Hd; Z.to_euclidean_division_equations; lia|]).
  apply Hd. Z.to_euclidean_division_equations; lia.
Qed.

Lemma join6_chars g : groups_ok g -> Str.forallb v6_char (join6 g) = true.
Proof.
  induction g as [|x g IH]; [done|]. intros [Hx Hg]%Forall_cons_1.
  destruct g as [|y g]; [by apply hex16_chars|]. rewrite join6_cons, !Str.forallb_app.
  by rewrite hex16_chars, IH.
Qed.

Lemma string6_chars b : bytes_ok b -> length b = 16%nat -> Str.forallb v6_char (string6 b) = true.
Proof.
  intros Hb Hl. destruct (u16s_ok 8 b Hb Hl) as (Hok & _ & _).
  destruct (string6_cases b Hb Hl) as [->|(zs & ze & Hz & H0 & ->)]; [by apply join6_chars|].
  rewrite !Str.forallb_app, !join6_chars by (by apply groups_ok_take || by apply groups_ok_drop). done.
Qed.

Lemma string6_colon b : bytes_ok b -> length b = 16%nat -> Str.contains ":" (string6 b) = true.
Proof.
  intros Hb Hl. destruct (u16s_ok 8 b Hb Hl) as (Hok & Hlen & _).
  destruct (string6_cases b Hb Hl) as [->|(zs & ze & Hz & H0 & ->)].
  - destruct (u16s b) as [|x [|y g]]; [done|done|]. rewrite join6_cons, !Str.contains_app.
    by rewrite orb_true_r.
  - by rewrite !Str.contains_app, orb_true_r.
Qed.

Lemma first_sep_v6 s :
  Str.forallb v6_char s = true -> Str.contains ":" s = true -> first_sep s = Some ":"%char.
Proof.
  induction s as [|c s IH]; [done|]. simpl. intros [Hc Hs]%andb_prop Hcol.
  destruct (decide (c = "."%char \/ c = ":"%char \/ c = "%"%char)) as [Hd|Hd].
  - destruct Hd as [->|[->| ->]]; [by vm_compute in Hc|done|by vm_compute in Hc].
  - rewrite decide_False in Hcol by (intros <-; tauto). auto.
Qed.

Lemma ParseAddr_string6 b :
  bytes_ok b -> length b = 16%nat -> ParseAddr (string6 b) = Some (Addr6 b).
Proof.
  intros Hb Hl. unfold ParseAddr.
  rewrite first_sep_v6 by (by apply string6_chars || by apply string6_colon).
  rewrite decide_False, decide_True by done.
  rewrite (Str.contains_forallb "%" v6_char) by (by apply string6_chars || done).
  by rewrite parse_string6.
Qed.

(** [IP.String] of a valid address parses back to the address, up to the
    representation of IPv4. *)
Definition addr_of (ip : list Z) : Addr :=
  match To4 ip with Some b => Addr4 b | None => Addr6 ip end.

Lemma addr_of_ok ip : ip_ok ip -> addr_ok (addr_of ip).
Proof.
  intros Hip. pose proof (ip_ok_norm ip Hip) as [Hb Hl]. unfold addr_of, norm in *.
  destruct (To4 ip) as [b|] eqn:E; simpl in *.
  - split; [done|]. unfold To4 in E. repeat case_decide; simplify_eq; [done|].
    rewrite length_drop. lia.
  - split; [done|]. unfold To4 in E. repeat case_decide; try done. lia.
Qed.

Lemma ParseAddr_IP_String ip : ip_ok ip -> ParseAddr (IP_String ip) = Some (addr_of ip).
Proof.
  intros Hip. pose proof (addr_of_ok ip Hip) as Hok. destruct Hip as [Hb Hl].
  unfold IP_String. rewrite decide_False by lia. rewrite decide_False by lia.
  unfold addr_of in *. destruct (To4 ip) as [b|].
  - destruct Hok. by apply ParseAddr_string4.
  - destruct Hok. by apply ParseAddr_string6.
Qed.

Lemma IP_String_no_slash ip : ip_ok ip -> Str.contains "/" (IP_String ip) = false.
Proof.
  intros Hip. pose proof (addr_of_ok ip Hip) as Hok. destruct Hip as [Hb Hl].
  unfold IP_String. rewrite decide_False by lia. rewrite decide_False by lia.
  unfold addr_of in *. destruct (To4 ip) as [b|]; destruct Hok.
  - by apply contains_string4.
  - by apply (Str.contains_forallb "/" v6_char); [apply string6_chars|].
Qed.

(** ** The characters of a parsable address *)

Definition ip_char (c : ascii) : bool := v6_char c || bool_decide (c = "."%char).

Lemma is_digit_hex c : is_digit c = true -> ip_char c = true.
Proof. unfold ip_char, v6_char, hex_val, is_digit. by intros ->. Qed.

Lemma parseIPv4Fields_chars s val digLen acc l :
  parseIPv4Fields s val digLen acc = Some l -> Str.forallb ip_char s = true.
Proof.
  revert val digLen acc; induction s as [|c s IH]; intros val digLen acc; [done|]. simpl.
  destruct (is_digit c) eqn:Hd.
  - rewrite is_digit_hex by done. destruct (_ && _); [done|]. destruct (_ <? _); [done|]. apply IH.
  - case_decide as Hc; [subst c|done]. destruct (_ || _); [done|]. case_decide; [done|]. apply IH.
Qed.

Lemma hex_group_chars s off acc v n rest :
  hex_group s off acc = Some (v, n, rest) -> exists pre, s = pre +:+ rest /\ Str.forallb ip_char pre = true.
Proof.
  revert off acc; induction s as [|c s IH]; intros off acc; simpl; [intros [= <- <- <-]; by exists ""|].
  destruct (hex_val c) as [d|] eqn:Hd; [|intros [= <- <- <-]; by exists ""].
  case_decide; [done|]. destruct (_ <? _); [done|]. intros (pre & -> & Hpre)%IH.
  exists (String c pre). split; [done|]. simpl. unfold ip_char at 1, v6_char. by rewrite Hd, Hpre.
Qed.

Lemma parseIPv6_loop_chars fuel ip ell s ip' ell' :
  parseIPv6_loop fuel ip ell s = Some (ip', ell', EmptyString) -> Str.forallb ip_char s = true.
Proof.
  revert ip ell s; induction fuel as [|f IH]; intros ip ell s; simpl; [by intros [= _ _ ->]|].
  destruct (hex_group s 0 0) as [[[acc off] r]|] eqn:Hg; [|done].
  apply hex_group_chars in Hg as (pre & -> & Hpre). rewrite Str.forallb_app, Hpre. cbn [andb].
  case_decide; [done|]. destruct r as [|c r]; [done|]. case_decide as Hdot.
  { destruct (_ && _); [done|]. case_decide; [done|].
    destruct (parseIPv4Fields _ 0 0 []) eqn:E4; [|done]. intros _.
    apply parseIPv4Fields_chars in E4. by rewrite Str.forallb_app, Hpre in E4. }
  case_decide as Hcol; [done|]. subst c. cbn [Str.forallb].
  change (ip_char ":") with true. cbn [andb].
  destruct r as [|c1 r]; [done|]. case_decide as Hc1.
  - subst c1. destruct ell; [done|]. cbn [Str.forallb]. change (ip_char ":") with true. cbn [andb].
    destruct r as [|c2 r]; [done|]. case_decide; [by apply IH|done].
  - case_decide; [by apply IH|done].
Qed.

Lemma parseIPv6_chars s l : parseIPv6 s = Some l -> Str.forallb ip_char s = true.
Proof.
  assert (Hgo : forall ell s, parseIPv6_loop 8 [] ell s ≫= parseIPv6_end = Some l -> Str.forallb ip_char s = true).
  { clear s. intros ell s. destruct (parseIPv6_loop 8 [] ell s) as [[[ip ell'] rest]|] eqn:E; [|done].
    cbn [mbind option_bind parseIPv6_end]. case_decide as Hr; [done|]. subst rest.
    intros _. by apply parseIPv6_loop_chars in E. }
  unfold parseIPv6. destruct s as [|c1 [|c2 s]]; [by apply Hgo|by apply Hgo|].
  case_decide as Hc; [|by apply Hgo]. destruct Hc as [-> ->]. cbn [Str.forallb].
  change (ip_char ":") with true. cbn [andb]. destruct s; [done|]. by apply Hgo.
Qed.

Lemma ParseIP_chars s ip : ParseIP s = Some ip -> Str.forallb ip_char s = true.
Proof.
  unfold ParseIP, ParseAddr. destruct (first_sep s); [|done]. case_decide.
  - destruct (parseIPv4Fields s 0 0 []) eqn:E; [|done]. intros _. by apply parseIPv4Fields_chars in E.
  - case_decide; [|done]. destruct (Str.contains _ _); [done|].
    destruct (parseIPv6 s) eqn:E; [|done]. intros _. by apply parseIPv6_chars in E.
Qed.

Lemma ParseIP_nonempty s ip : ParseIP s = Some ip -> s <> EmptyString.
Proof. by intros H ->. Qed.

(** ** Host and port *)

(** [SplitHostPort] undoes [JoinHostPort] when host and port hold no bracket and
    the port no colon. *)
Lemma Split_JoinHostPort h p :
  Str.contains "[" h = false -> Str.contains "]" h = false ->
  Str.contains ":" p = false -> Str.contains "[" p = false -> Str.contains "]" p = false ->
  SplitHostPort (JoinHostPort h p) = Some (h, p).
Proof.
  intros Ho Hc Pc Po Pb. unfold JoinHostPort. destruct (Str.contains ":" h) eqn:Hcol.
  - unfold SplitHostPort.
    assert (Str.cut_last ":" ("[" +:+ h +:+ "]:" +:+ p) = Some ("[" +:+ h +:+ "]", p)) as ->.
    { apply Str.cut_last_Some. split; [|done]. cbn [String.append]. by rewrite Str.app_assoc. }
    cbn [String.append]. rewrite decide_True by done.
    assert (Str.cut "]" (h +:+ String "]" (String ":" p)) = Some (h, String ":" p)) as ->
      by (by apply Str.cut_Some).
    rewrite decide_True by done. rewrite Str.contains_app, Ho. cbn [orb Str.contains].
    rewrite !decide_False by done. by rewrite Po, Pb.
  - unfold SplitHostPort.
    assert (Str.cut_last ":" (h +:+ ":" +:+ p) = Some (h, p)) as -> by (by apply Str.cut_last_Some).
    rewrite !Str.contains_app, Ho, Hc, Hcol, Po, Pb. cbn [orb].
    destruct h as [|c h]; [done|]. cbn [String.append]. rewrite decide_False; [done|].
    by intros ->.
Qed.

Lemma Split_Join_ip s ip port :
  ParseIP s = Some ip -> 0 <= port ->
  SplitHostPort (JoinHostPort s (FormatUint port)) = Some (s, FormatUint port).
Proof.
  intros Hip Hp. pose proof (ParseIP_chars _ _ Hip) as Hch.
  apply Split_JoinHostPort; try (by apply FormatUint_contains); by apply (Str.contains_forallb _ ip_char).
Qed.
