(* ===== verification/Netutil.v ===== *)
(** * [internal/netutil/cidr.go]: CIDR parsing and comparison

    The operations on networks the validation and the peer builder rest on,
    with their meaning as sets of addresses. *)

From Stdlib Require Import Ascii String.
From S2P Require Import Prelude GoStrings GoNet GoNetFacts GoNetPrint.
Open Scope Z_scope.

(** The only error of the package: [invalid CIDR %q]. *)
Inductive cidr_error : Type := InvalidCIDR (s : string).

(** ** Operations *)

Definition ParseCIDR (s : string) : result cidr_error IPNet :=
  match GoNet.ParseCIDR s with
  | Some (_, network) => Ok network
  | None => Err (InvalidCIDR s)
  end.

(** The last address of a network. Networks from [ParseCIDR] have a mask as
    long as their address, so the Go index [n.Mask[i]] is in range. *)
Definition lastAddr (n : IPNet) : list Z :=
  zip_with (fun b m => Z.lor b (Z.lxor 255 m)) (net_IP n) (net_Mask n).

Definition CIDRContains (outer inner : IPNet) : bool :=
  if negb (Contains outer (net_IP inner)) then false
  else let lastIP := lastAddr inner in Contains outer lastIP.

Definition CIDROverlaps (a b : IPNet) : bool :=
  Contains a (net_IP b) || Contains b (net_IP a).

Definition IsHostRoute (n : IPNet) : bool :=
  let '(ones, bits) := Mask_Size (net_Mask n) in ones =? bits.

Definition ParseHostInCIDR (s : string) : result cidr_error (list Z * IPNet) :=
  match GoNet.ParseCIDR s with
  | Some (ip, network) => Ok (ip, network)
  | None => Err (InvalidCIDR s)
  end.

Definition HostRoute (ip : list Z) : string :=
  match To4 ip with
  | Some _ => IP_String ip +:+ "/32"
  | None => IP_String ip +:+ "/128"
  end.

(** ** Parsing *)

Lemma ParseCIDR_wf s n : ParseCIDR s = Ok n -> wf_net n.
Proof.
  unfold ParseCIDR. destruct (GoNet.ParseCIDR s) as [[ip m]|] eqn:E; [|done].
  intros [= <-]. by apply ParseCIDR_ok in E as [_ ?].
Qed.

Lemma ParseHostInCIDR_ok s ip n : ParseHostInCIDR s = Ok (ip, n) -> ip_ok ip /\ wf_net n.
Proof.
  unfold ParseHostInCIDR. destruct (GoNet.ParseCIDR s) as [[ip' m]|] eqn:E; [|done].
  intros [= <- <-]. by apply ParseCIDR_ok in E.
Qed.

Lemma ParseHostInCIDR_ParseCIDR s :
  ParseCIDR s = snd <$> ParseHostInCIDR s.
Proof. unfold ParseCIDR, ParseHostInCIDR. by destruct (GoNet.ParseCIDR s) as [[??]|]. Qed.

(** ** The last address *)

(** The byte [b | ^mask] sets the host bits. *)
Lemma byte_bits_last a q :
  0 <= a < 256 -> 0 <= q < 8 ->
  byte_bits (Z.lor a (Z.lxor 255 (Z.lxor 255 (Z.shiftr 255 q)))) =
  take (Z.to_nat q) (byte_bits a) ++ replicate (8 - Z.to_nat q) true.
Proof.
  intros Ha Hq. rewrite <- Z.lxor_assoc, Z.lxor_nilpotent, Z.lxor_0_l.
  apply list_eq. intros k. rewrite byte_bits_lookup.
  assert (Hlen : length (take (Z.to_nat q) (byte_bits a)) = Z.to_nat q)
    by (rewrite length_take; simpl; lia).
  assert (Hbit : forall i, 0 <= i < 8 -> Z.testbit (Z.shiftr 255 q) i = (i + q <? 8)).
  { intros i Hi. rewrite Z.shiftr_spec by lia. change 255 with (Z.ones 8).
    apply Z.testbit_ones_nonneg; lia. }
  destruct (decide (k < 8)%nat) as [Hk|Hk].
  - rewrite Z.lor_spec, Hbit by lia. destruct (decide (k < Z.to_nat q)%nat).
    + rewrite lookup_app_l, lookup_take_lt, byte_bits_lookup, decide_True by lia. f_equal.
      rewrite (proj2 (Z.ltb_ge _ _)) by lia. by rewrite orb_false_r.
    + rewrite lookup_app_r, lookup_replicate_2 by lia. f_equal.
      rewrite (proj2 (Z.ltb_lt _ _)) by lia. by rewrite orb_true_r.
  - rewrite lookup_ge_None_2; [done|]. rewrite length_app, Hlen, length_replicate. lia.
Qed.

Lemma bits_ones l :
  bytes_ok l ->
  bits (zip_with (fun b m => Z.lor b (Z.lxor 255 m)) l (cidr_mask (length l) 0)) =
  replicate (8 * length l) true.
Proof.
  induction 1 as [|a l Ha _ IH]; [done|]. cbn [length cidr_mask].
  rewrite (proj2 (Z.leb_gt 8 0)) by lia. cbn [zip_with]. rewrite bits_cons, IH.
  rewrite byte_bits_last by lia. change (Z.to_nat 0) with 0%nat. rewrite take_0.
  change ([] ++ replicate (8 - 0) true) with (replicate 8 true).
  rewrite <- replicate_add. f_equal. lia.
Qed.

Lemma bits_last nn q :
  bytes_ok nn -> 0 <= q <= 8 * Z.of_nat (length nn) ->
  bits (zip_with (fun b m => Z.lor b (Z.lxor 255 m)) nn (cidr_mask (length nn) q)) =
  take (Z.to_nat q) (bits nn) ++ replicate (8 * length nn - Z.to_nat q) true.
Proof.
  intros Hok. revert q; induction Hok as [|a nn Ha Hnn IH]; intros q Hq.
  { by destruct (Z.to_nat q). }
  cbn [length cidr_mask]. simpl length in Hq. destruct (Z.leb_spec 8 q); cbn [zip_with].
  - rewrite take_bits_8, bits_cons, IH by lia. rewrite <- (assoc_L (++)). f_equal.
    + by rewrite Z.lxor_nilpotent, Z.lor_0_r.
    + do 2 f_equal. lia.
  - rewrite take_bits_lt, bits_cons, bits_ones, byte_bits_last by (done || lia).
    rewrite <- (assoc_L (++)). f_equal. rewrite <- replicate_add. f_equal. lia.
Qed.

Lemma length_lastAddr n : wf_net n -> length (lastAddr n) = length (net_IP n).
Proof.
  intros Hn. destruct (wf_mask n Hn) as (p & Hm & _).
  unfold lastAddr. rewrite length_zip_with, Hm, length_cidr_mask. lia.
Qed.

Lemma byte_lor a k : 0 <= a < 256 -> 0 <= k < 256 -> 0 <= Z.lor a k < 256.
Proof. intros Ha Hk. apply byte_by_bits. intros i Hi. by rewrite Z.lor_spec, !testbit_high. Qed.

Lemma byte_lxor a k : 0 <= a < 256 -> 0 <= k < 256 -> 0 <= Z.lxor a k < 256.
Proof. intros Ha Hk. apply byte_by_bits. intros i Hi. by rewrite Z.lxor_spec, !testbit_high. Qed.

Lemma lastAddr_ok n : wf_net n -> ip_ok (lastAddr n).
Proof.
  intros Hn. destruct (wf_ip n Hn) as [Hb Hl]. destruct (wf_mask n Hn) as (p & Hm & Hp).
  split; [|by rewrite length_lastAddr]. unfold lastAddr. rewrite Hm.
  assert (Hk := cidr_mask_bytes (length (net_IP n)) p ltac:(lia)). revert Hk.
  generalize (cidr_mask (length (net_IP n)) p). clear -Hb.
  induction Hb as [|x l Hx _ IH]; intros [|k m] Hk; try constructor;
    apply Forall_cons_1 in Hk as [? ?]; [|by apply IH].
  apply byte_lor; [done|]. apply byte_lxor; [lia|done].
Qed.

Lemma norm_cases ip :
  ip_ok ip -> (norm ip = ip /\ (length ip = 4%nat \/ length (norm ip) = 16%nat)) \/
              (norm ip = drop 12 ip /\ length ip = 16%nat /\ take 12 ip = v4InV6Prefix).
Proof.
  intros [_ Hl]. unfold norm, To4. case_decide as H4; [left; auto|].
  destruct Hl as [|H16]; [done|]. case_decide as Hv; simpl; [right|left; auto].
  by destruct Hv.
Qed.

(** In its family, the last address is the prefix followed by ones. *)
Lemma bits_norm_last n :
  wf_net n -> length (norm (lastAddr n)) = length (norm (net_IP n)) ->
  bits (norm (lastAddr n)) =
    net_prefix n ++ replicate (8 * length (norm (net_IP n)) - Z.to_nat (net_plen n)) true.
Proof.
  intros Hn Hfam. destruct (wf_net_normal n Hn) as (q & HN & Hq & Hr & _).
  destruct (ip_ok_norm _ (wf_ip n Hn)) as [Hb _].
  unfold net_prefix. rewrite Hq, <- bits_last by done. f_equal.
  pose proof (length_lastAddr n Hn) as Hlen.
  unfold networkNumberAndMask in HN. destruct (wf_mask n Hn) as (p & Hm & _).
  destruct (norm_cases _ (wf_ip n Hn)) as [[Hnorm Hl]|(Hnorm & Hl & Hv)].
  - assert (norm (lastAddr n) = lastAddr n) as ->.
    { destruct (norm_cases _ (lastAddr_ok n Hn)) as [[? _]|(E & Hl' & _)]; [done|].
      rewrite E, length_drop, Hnorm in Hfam. lia. }
    rewrite Hnorm in *. unfold lastAddr. f_equal.
    assert (length (net_Mask n) = length (net_IP n)) by (rewrite Hm; apply length_cidr_mask).
    revert HN. repeat case_decide; repeat case_match; intros; simplify_eq; try done; lia.
  - assert (norm (lastAddr n) = drop 12 (lastAddr n)) as ->.
    { destruct (norm_cases _ (lastAddr_ok n Hn)) as [[E Hl']|(E & _)]; [|done].
      rewrite E, Hnorm, length_drop in Hfam. lia. }
    unfold lastAddr. rewrite zip_with_drop, <- Hnorm. f_equal.
    revert HN. rewrite Hm, length_cidr_mask. unfold To4.
    rewrite (decide_False (P := length (net_IP n) = 4%nat)) by lia.
    rewrite (decide_True (P := _ /\ _)) by done. rewrite decide_False by lia.
    rewrite decide_True by done. rewrite decide_True by (rewrite length_drop; lia).
    intros HN. by apply (inj Some), pair_eq in HN as [_ HN].
Qed.

(** ** Meaning of the comparisons *)

Lemma Contains_self n : wf_net n -> Contains n (net_IP n) = true.
Proof. intros Hn. apply Contains_spec; [done|apply (wf_ip n Hn)|apply in_net_self]. Qed.

(** Membership is inherited along prefixes. *)
Lemma in_net_mono a b ip :
  length (norm (net_IP a)) = length (norm (net_IP b)) ->
  net_prefix a `prefix_of` net_prefix b -> in_net b ip -> in_net a ip.
Proof. intros Hl Hp [Hl' Hp']. split; [congruence|]. by trans (net_prefix b). Qed.

Lemma net_prefix_number n : net_prefix n `prefix_of` bits (norm (net_IP n)).
Proof. apply prefix_take. Qed.

Lemma CIDROverlaps_common a b :
  wf_net a -> wf_net b ->
  CIDROverlaps a b = true <->
  exists ip, ip_ok ip /\ Contains a ip = true /\ Contains b ip = true.
Proof.
  intros Ha Hb. unfold CIDROverlaps. rewrite orb_true_iff. split.
  - intros [H|H]; [exists (net_IP b)|exists (net_IP a)];
      (split; [by apply wf_ip|]); auto using Contains_self.
  - intros (ip & Hip & H1 & H2). apply Contains_spec in H1 as [L1 P1]; [|done..].
    apply Contains_spec in H2 as [L2 P2]; [|done..].
    destruct (prefix_weak_total _ _ _ P1 P2) as [P|P]; [left|right];
      (apply Contains_spec; [done|by apply wf_ip|]).
    + apply (in_net_mono a b); [congruence|done|apply in_net_self].
    + apply (in_net_mono b a); [congruence|done|apply in_net_self].
Qed.

(** C28. [CIDROverlaps a b] is true exactly when some address belongs to both
    networks: the two "network address" tests decide the intersection of the
    address sets, for IPv4, IPv6 and IPv4-mapped networks alike. *)
Theorem CIDROverlaps_iff_common_address a b :
  wf_net a -> wf_net b ->
  CIDROverlaps a b = true <->
  exists ip, ip_ok ip /\ Contains a ip = true /\ Contains b ip = true.
Proof. apply CIDROverlaps_common. Qed.

(** A prefix of both the first and the last address of a block is a prefix of
    the block's own prefix. *)
Lemma prefix_of_zeros_ones (P Q : list bool) k :
  P `prefix_of` Q ++ replicate k false -> P `prefix_of` Q ++ replicate k true ->
  P `prefix_of` Q.
Proof.
  revert Q; induction P as [|x P IH]; intros Q H1 H2; [apply prefix_nil|].
  destruct Q as [|y Q]; simpl in *.
  - destruct k; simpl in *; [by apply prefix_nil_not in H1|].
    apply prefix_cons_inv_1 in H1, H2. congruence.
  - pose proof (prefix_cons_inv_1 _ _ _ _ H1) as ->. apply prefix_cons.
    apply IH; [by apply prefix_cons_inv_2 in H1|by apply prefix_cons_inv_2 in H2].
Qed.

(** When [CIDRContains outer inner] answers true, every address of [inner]
    is an address of [outer]: checking the first and the last address is
    sound. *)
Lemma CIDRContains_sound outer inner ip :
  wf_net outer -> wf_net inner -> ip_ok ip ->
  CIDRContains outer inner = true -> Contains inner ip = true -> Contains outer ip = true.
Proof.
  intros Ho Hi Hip HC Hin. unfold CIDRContains in HC.
  destruct (Contains outer (net_IP inner)) eqn:H1; [|done]. simpl in HC.
  apply Contains_spec in H1 as [L1 P1]; [|done|by apply wf_ip].
  apply Contains_spec in HC as [L2 P2]; [|done|by apply lastAddr_ok].
  apply Contains_spec in Hin; [|done..]. apply Contains_spec; [done..|].
  apply (in_net_mono outer inner); [congruence| |done].
  rewrite bits_norm_last in P2 by congruence.
  destruct (wf_net_normal inner Hi) as (q & _ & Hq & Hr & Hm).
  destruct (ip_ok_norm _ (wf_ip inner Hi)) as [Hb _].
  rewrite (bits_masked _ q) in P1 by done. rewrite <- Hq in P1.
  by apply (prefix_of_zeros_ones _ _ _ P1 P2).
Qed.

(** Conversely, when the last address of [inner] has the family of its first
    address, [CIDRContains] misses nothing: if every address of [inner] is in
    [outer], it answers true. *)
Lemma CIDRContains_complete outer inner :
  wf_net outer -> wf_net inner ->
  length (norm (lastAddr inner)) = length (norm (net_IP inner)) ->
  (forall ip, ip_ok ip -> Contains inner ip = true -> Contains outer ip = true) ->
  CIDRContains outer inner = true.
Proof.
  intros Ho Hi Hfam Hall. unfold CIDRContains.
  rewrite Hall; [|by apply wf_ip|by apply Contains_self]. simpl.
  apply Hall; [by apply lastAddr_ok|]. apply Contains_spec; [done|by apply lastAddr_ok|].
  split; [done|]. rewrite bits_norm_last by done. by apply prefix_app_r.
Qed.

(** C29. [CIDRContains] decides inclusion: a positive answer means that every address
    of [inner] is one of [outer], although only the first and the last are looked
    at; and when these two have the same family, inclusion gives a positive
    answer. *)
Theorem CIDRContains_subset outer inner :
  wf_net outer -> wf_net inner ->
  (CIDRContains outer inner = true -> forall ip, ip_ok ip -> Contains inner ip = true -> Contains outer ip = true) /\
  (length (norm (lastAddr inner)) = length (norm (net_IP inner)) ->
   (forall ip, ip_ok ip -> Contains inner ip = true -> Contains outer ip = true) -> CIDRContains outer inner = true).
Proof.
  intros Ho Hi. split; [intros HC ip Hip; by apply CIDRContains_sound|]. by apply CIDRContains_complete.
Qed.

(** The family condition of [CIDRContains_complete] cannot be dropped: "::/80" is not reported as
    contained in itself, because its last address ::ffff:ffff:ffff is read as the
    IPv4 address 255.255.255.255. *)
Theorem CIDRContains_mapped_boundary :
  exists n, ParseCIDR "::/80" = Ok n /\ CIDRContains n n = false /\ CIDROverlaps n n = true.
Proof. eexists. split; [vm_compute; reflexivity|]. by vm_compute. Qed.

(** ** Host routes *)

Lemma zip_land_full b : bytes_ok b -> zip_with Z.land b (cidr_mask (length b) (8 * Z.of_nat (length b))) = b.
Proof.
  induction 1 as [|x l Hx _ IH]; [done|]. cbn [length cidr_mask].
  rewrite (proj2 (Z.leb_le _ _)) by lia. cbn [zip_with].
  replace (8 * Z.of_nat (S (length l)) - 8) with (8 * Z.of_nat (length l)) by lia.
  by rewrite IH, Z.land_comm, land_255.
Qed.

Lemma norm_As16_addr_of ip : ip_ok ip -> norm (As16 (addr_of ip)) = norm ip.
Proof.
  intros Hip. pose proof (addr_of_ok ip Hip) as Hok. unfold addr_of, norm in *.
  destruct (To4 ip) as [b|] eqn:E; simpl; [|by rewrite E].
  destruct Hok as [_ Hl]. unfold To4. rewrite decide_False by (simpl; lia).
  rewrite decide_True by (split; [simpl; lia|done]). done.
Qed.

Lemma norm_addr_bytes ip : ip_ok ip -> norm (addr_bytes (addr_of ip)) = norm ip.
Proof.
  intros Hip. pose proof (addr_of_ok ip Hip) as Hok. unfold addr_of, norm in *.
  destruct (To4 ip) as [b|] eqn:E; simpl; [|by rewrite E].
  destruct Hok as [_ Hl]. unfold To4. by rewrite decide_True.
Qed.

(** A full mask makes a network of one address. *)
Lemma host_net_single n ip :
  wf_net n -> IsHostRoute n = true -> ip_ok ip ->
  Contains n ip = true <-> norm ip = norm (net_IP n).
Proof.
  intros Hn Hh Hip. rewrite Contains_spec by done.
  destruct (wf_net_number n Hn) as (q & HN & Hr & _ & Hm).
  destruct (wf_mask n Hn) as (p & Hm' & Hp). unfold IsHostRoute, Mask_Size in Hh.
  assert (Hle : (length (norm (net_IP n)) <= length (net_IP n))%nat)
    by (destruct (norm_cases _ (wf_ip n Hn)) as [[-> _]|[-> _]]; rewrite ?length_drop; lia).
  rewrite Hm, simpleMaskLength_cidr_mask, length_cidr_mask in Hh by lia. apply Z.eqb_eq in Hh.
  assert (Hpre : net_prefix n = bits (norm (net_IP n))).
  { unfold net_prefix, net_plen, Mask_Size. rewrite HN, simpleMaskLength_cidr_mask by done.
    apply take_ge. rewrite length_bits. simpl fst. lia. }
  unfold in_net. rewrite Hpre. split.
  - intros [Hl Hpr]. destruct (ip_ok_norm _ Hip), (ip_ok_norm _ (wf_ip n Hn)).
    apply bits_inj; [done|done|done|]. symmetry. apply prefix_length_eq; [done|].
    rewrite !length_bits. lia.
  - by intros ->.
Qed.

(** The network a host route parses to: the address itself under a full mask. *)
Lemma HostRoute_parse ip :
  ip_ok ip ->
  exists n, GoNet.ParseCIDR (HostRoute ip) = Some (As16 (addr_of ip), n) /\ wf_net n /\
    net_IP n = addr_bytes (addr_of ip) /\
    net_Mask n = cidr_mask (length (net_IP n)) (8 * Z.of_nat (length (net_IP n))).
Proof.
  intros Hip. pose proof (addr_of_ok ip Hip) as Hok.
  assert (Hs : exists m, HostRoute ip = IP_String ip +:+ String "/" m /\ dtoi m = Some (BitLen (addr_of ip))).
  { unfold HostRoute, addr_of. destruct (To4 ip); eexists; by split. }
  destruct Hs as (m & Hs & Hd). exists (mask_net (addr_of ip) (BitLen (addr_of ip))).
  assert (Hp : GoNet.ParseCIDR (HostRoute ip) =
    Some (As16 (addr_of ip), mask_net (addr_of ip) (BitLen (addr_of ip)))).
  { rewrite Hs. eapply ParseCIDR_intro; [|by apply ParseAddr_IP_String|done|done].
    apply Str.cut_Some. split; [done|by apply IP_String_no_slash]. }
  split; [done|]. apply ParseCIDR_ok in Hp as [_ Hwf]. split; [done|].
  assert (Hlen : BitLen (addr_of ip) = 8 * Z.of_nat (length (addr_bytes (addr_of ip))))
    by (destruct (addr_of ip); destruct Hok as [_ Hl]; simpl in *; rewrite Hl; done).
  assert (Hb : bytes_ok (addr_bytes (addr_of ip))) by (destruct (addr_of ip); by destruct Hok).
  unfold mask_net. cbn [net_IP net_Mask]. rewrite Hlen, zip_land_full by done. done.
Qed.

Lemma full_mask_last b :
  zip_with (fun b m => Z.lor b (Z.lxor 255 m)) b (cidr_mask (length b) (8 * Z.of_nat (length b))) = b.
Proof.
  induction b as [|x l IH]; [done|]. cbn [length cidr_mask].
  rewrite (proj2 (Z.leb_le _ _)) by lia. cbn [zip_with].
  replace (8 * Z.of_nat (S (length l)) - 8) with (8 * Z.of_nat (length l)) by lia.
  rewrite IH. change (Z.lxor 255 255) with 0. by rewrite Z.lor_0_r.
Qed.

(** [Contains] only sees the normalised address. *)
Lemma Contains_norm n a b : wf_net n -> ip_ok a -> ip_ok b -> norm a = norm b -> Contains n a = Contains n b.
Proof.
  intros Hn Ha Hb E. apply eq_true_iff_eq. rewrite !Contains_spec by done. unfold in_net. by rewrite E.
Qed.

(** A host route is inside a network exactly when its address is. *)
Lemma CIDRContains_HostRoute outer ip n :
  wf_net outer -> ip_ok ip -> ParseCIDR (HostRoute ip) = Ok n -> CIDRContains outer n = Contains outer ip.
Proof.
  intros Ho Hip Hn. destruct (HostRoute_parse ip Hip) as (n' & Hp & Hwf & HI & HM).
  unfold ParseCIDR in Hn. rewrite Hp in Hn. injection Hn as <-.
  unfold CIDRContains, lastAddr. rewrite HM, full_mask_last, HI.
  assert (E : Contains outer (addr_bytes (addr_of ip)) = Contains outer ip).
  { apply Contains_norm; [done|rewrite <- HI; by apply wf_ip|done|by apply norm_addr_bytes]. }
  rewrite E. by destruct (Contains outer ip).
Qed.

(** [HostRoute ip] is a CIDR string that parses back to [ip], and the network
    it denotes contains [ip] and no other address. Holds for IPv4, for IPv6 in
    every compressed form, and for IPv4-mapped addresses. *)
Theorem HostRoute_roundtrip ip :
  ip_ok ip ->
  exists n, ParseHostInCIDR (HostRoute ip) = Ok (As16 (addr_of ip), n) /\
    norm (As16 (addr_of ip)) = norm ip /\ IsHostRoute n = true /\
    forall ip', ip_ok ip' -> Contains n ip' = true <-> norm ip' = norm ip.
Proof.
  intros Hip. destruct (HostRoute_parse ip Hip) as (n & Hp & Hwf & HI & HM). exists n.
  split; [by unfold ParseHostInCIDR; rewrite Hp|]. split; [by apply norm_As16_addr_of|].
  assert (Hh : IsHostRoute n = true).
  { unfold IsHostRoute, Mask_Size. rewrite HM, simpleMaskLength_cidr_mask, length_cidr_mask by lia. lia. }
  split; [done|]. intros ip' Hip'. rewrite host_net_single by done.
  by rewrite HI, norm_addr_bytes.
Qed.

(** ** Concrete instances *)

Definition net_of (s : string) : IPNet :=
  match ParseCIDR s with Ok n => n | Err _ => mkIPNet [] [] end.

Lemma net_of_wf s : is_ok (ParseCIDR s) = true -> wf_net (net_of s).
Proof. unfold net_of. destruct (ParseCIDR s) eqn:E; [|done]. intros _. by eapply ParseCIDR_wf. Qed.

Lemma ip_of_ok s ip : ParseIP s = Some ip -> ip_ok ip.
Proof. apply ParseIP_ok. Qed.

Lemma CIDROverlaps_iff_common_address_witness :
  CIDROverlaps (net_of "10.0.0.0/8") (net_of "10.1.0.0/16") = true /\
  exists ip, ip_ok ip /\ Contains (net_of "10.0.0.0/8") ip = true /\ Contains (net_of "10.1.0.0/16") ip = true.
Proof.
  split; [reflexivity|]. apply CIDROverlaps_iff_common_address; [by apply net_of_wf..|reflexivity].
Defined.

Lemma CIDRContains_subset_witness :
  Contains (net_of "2001:db8::/32") (As16 (Addr6 (net_IP (net_of "2001:db8:1::5/128")))) = true /\
  CIDRContains (net_of "10.0.0.0/8") (net_of "10.0.0.0/8") = true.
Proof.
  split.
  - destruct (CIDRContains_subset (net_of "2001:db8::/32") (net_of "2001:db8:1::/48")) as [H _]; [by apply net_of_wf..|].
    apply H; [reflexivity| |reflexivity]. apply (ip_of_ok "2001:db8:1::5"). reflexivity.
  - destruct (CIDRContains_subset (net_of "10.0.0.0/8") (net_of "10.0.0.0/8")) as [_ H]; [by apply net_of_wf..|].
    apply H; [reflexivity|]. intros ip _ H'. exact H'.
Defined.

Lemma HostRoute_roundtrip_witness :
  exists n, ParseHostInCIDR (HostRoute (net_IP (net_of "fe80::1/128"))) =
              Ok (As16 (addr_of (net_IP (net_of "fe80::1/128"))), n) /\ IsHostRoute n = true.
Proof.
  destruct (HostRoute_roundtrip (net_IP (net_of "fe80::1/128"))) as (n & H1 & _ & H2 & _).
  - apply wf_ip. by apply net_of_wf.
  - exists n. split; [exact H1|exact H2].
Defined.
