(* ===== verification/Types.v ===== *)
(** * API types

    [api/v1alpha1/clustermesh_types.go] (the [ClusterMesh] resource),
    [pkg/kilo/v1alpha1/types.go] (Kilo's [Peer]) and the fields of the
    Kubernetes [Node] the operator reads. Record fields carry the Go field's
    name after the record's prefix. Integers are [Z]: [WireguardPort] is a
    [uint16], [Port] a [uint32], the keepalives are Go [int]s. *)

From Stdlib Require Import String.
From S2P Require Import Prelude.
Open Scope Z_scope.

(** ** ClusterMesh *)

Record SecretKeyRef : Type := mkSecretKeyRef {
  ref_Name : string;
  ref_Key : string;
}.

Record ClusterEntry : Type := mkClusterEntry {
  entry_Name : string;
  entry_Local : bool;
  entry_KubeconfigSecretRef : option SecretKeyRef;
  entry_AllowedNetworks : list string;
  entry_WireguardPort : Z;
  entry_PersistentKeepalive : Z;
}.

(** [func (c *ClusterEntry) AllCIDRs() []string] *)
Definition AllCIDRs (c : ClusterEntry) : list string := entry_AllowedNetworks c.

Record ClusterStatus : Type := mkClusterStatus {
  status_Name : string;
  status_RegisteredPeers : Z;
  status_SkippedNodes : Z;
}.

Inductive ConditionStatus : Type := ConditionTrue | ConditionFalse.

(** [metav1.Condition], without its transition time. *)
Record Condition : Type := mkCondition {
  cond_Type : string;
  cond_Status : ConditionStatus;
  cond_Reason : string;
  cond_Message : string;
  cond_ObservedGeneration : Z;
}.

(** [ClusterMesh] with the metadata the operator uses; [mesh_Deleting] is
    [!DeletionTimestamp.IsZero()]. *)
Record ClusterMesh : Type := mkClusterMesh {
  mesh_Namespace : string;
  mesh_Name : string;
  mesh_Generation : Z;
  mesh_Deleting : bool;
  mesh_Finalizers : list string;
  mesh_Clusters : list ClusterEntry;
  mesh_StatusClusters : list ClusterStatus;
  mesh_Conditions : list Condition;
}.

(** ** Peer *)

Record PeerEndpoint : Type := mkPeerEndpoint {
  ep_DNS : string;
  ep_IP : string;
  ep_Port : Z;
}.

Record PeerSpec : Type := mkPeerSpec {
  spec_AllowedIPs : list string;
  spec_Endpoint : option PeerEndpoint;
  spec_PersistentKeepalive : Z;
  spec_PresharedKey : string;
  spec_PublicKey : string;
}.

Record Peer : Type := mkPeer {
  peer_Name : string;
  peer_Labels : gmap string string;
  peer_ResourceVersion : string;
  peer_Spec : PeerSpec;
}.

(** ** Node (corev1): the fields the operator reads *)

Record NodeAddress : Type := mkNodeAddress {
  addr_Type : string;
  addr_Address : string;
}.

Definition NodeInternalIP : string := "InternalIP".
Definition NodeExternalIP : string := "ExternalIP".

Record Node : Type := mkNode {
  node_Name : string;
  node_Annotations : gmap string string;
  node_PodCIDRs : list string;
  node_Addresses : list NodeAddress;
}.

(** [node.Annotations[key]]: the zero value for a missing key. *)
Definition annotation (node : Node) (key : string) : string :=
  default EmptyString (node_Annotations node !! key).

#[export] Instance SecretKeyRef_eq_dec : EqDecision SecretKeyRef.
Proof. solve_decision. Defined.
#[export] Instance ClusterEntry_eq_dec : EqDecision ClusterEntry.
Proof. solve_decision. Defined.
#[export] Instance ConditionStatus_eq_dec : EqDecision ConditionStatus.
Proof. solve_decision. Defined.
#[export] Instance Condition_eq_dec : EqDecision Condition.
Proof. solve_decision. Defined.
#[export] Instance ClusterStatus_eq_dec : EqDecision ClusterStatus.
Proof. solve_decision. Defined.
#[export] Instance PeerEndpoint_eq_dec : EqDecision PeerEndpoint.
Proof. solve_decision. Defined.
#[export] Instance PeerSpec_eq_dec : EqDecision PeerSpec.
Proof. solve_decision. Defined.
#[export] Instance NodeAddress_eq_dec : EqDecision NodeAddress.
Proof. solve_decision. Defined.
#[export] Instance Peer_eq_dec : EqDecision Peer.
Proof. solve_decision. Defined.

(** Updates of one field, as the Go code assigns them. *)
Definition with_Spec (p : Peer) (s : PeerSpec) : Peer :=
  mkPeer (peer_Name p) (peer_Labels p) (peer_ResourceVersion p) s.
Definition with_AllowedIPs (p : Peer) (ips : list string) : Peer :=
  let s := peer_Spec p in
  with_Spec p (mkPeerSpec ips (spec_Endpoint s) (spec_PersistentKeepalive s)
                          (spec_PresharedKey s) (spec_PublicKey s)).
Definition with_Endpoint (p : Peer) (e : option PeerEndpoint) : Peer :=
  let s := peer_Spec p in
  with_Spec p (mkPeerSpec (spec_AllowedIPs s) e (spec_PersistentKeepalive s)
                          (spec_PresharedKey s) (spec_PublicKey s)).
Definition with_ResourceVersion (p : Peer) (rv : string) : Peer :=
  mkPeer (peer_Name p) (peer_Labels p) rv (peer_Spec p).
