(* ===== verification/DeepCopy.v ===== *)
(** * Generated deep copies

    [zz_generated.deepcopy.go] of the two API packages, over an explicit heap: a
    pointer or a slice is a location or nil, and copying a struct copies its
    pointers and slices as they are. The deep copies of the types of apimachinery
    (metadata, conditions) are parameters with the same contract. A slice is its
    backing array: slices that share part of an array do not occur. *)

From Stdlib Require Import String.
From S2P Require Import Prelude Types.
Open Scope Z_scope.

(** ** The heap *)

Abbreviation loc := nat.

(** A pointer, or a slice: nil or a location; [A] is the type behind it. *)
Record ref (A : Type) : Type := Ref { at_ : option loc }.
Arguments Ref {A} _.
Arguments at_ {A} _.

Section Heap.
Context {val : Type}.

Abbreviation heap := (gmap loc (list val)).

(** [new] and [make] with the given contents. *)
Definition alloc (vs : list val) : ST heap loc := fun h =>
  let l := fresh (dom h) in (l, <[l := vs]> h).
Definition load (l : loc) : ST heap (list val) := fun h => (default [] (h !! l), h).
Definition store (l : loc) (vs : list val) : ST heap unit := fun h => (tt, <[l := vs]> h).

(** A Go type that can be stored: how it is represented, and its zero value. *)
Class Cell (A : Type) : Type := {
  inj : A -> val;
  prj : val -> option A;
  zero : A;
  prj_inj a : prj (inj a) = Some a;
}.

(** A type with a deep copy: [view] reads a value in full (or finds a dangling
    pointer), [foot] is the set of locations it reaches, [copyInto] the Go method
    applied to [*out]. *)
Class Copier (A : Type) : Type := {
  view_of : Type;
  copyInto : A -> ST heap A;
  view : heap -> A -> option view_of;
  foot : heap -> A -> gset loc;
}.
Arguments view_of A {_}.

(** The contract: a full, fresh copy; nothing that existed is changed. *)
Class CopierLaws (A : Type) `{Copier A} : Prop := {
  view_local h h' a v : view h a = Some v -> (forall l, l ∈ foot h a -> h' !! l = h !! l) ->
    view h' a = Some v /\ foot h' a = foot h a;
  foot_dom h a v : view h a = Some v -> foot h a ⊆ dom h;
  copy_fresh h a v a' h' : view h a = Some v -> copyInto a h = (a', h') ->
    h ⊆ h' /\ view h' a' = Some v /\ foot h' a' ## dom h;
}.

Lemma view_grows `{CopierLaws A} h h' a v :
  view h a = Some v -> h ⊆ h' -> view h' a = Some v /\ foot h' a = foot h a.
Proof.
  intros Hv Hs. apply (view_local h); [done|]. intros l Hl. apply (foot_dom h a v Hv) in Hl.
  apply elem_of_dom in Hl as [vs E]. rewrite E. by eapply lookup_weaken.
Qed.

(** ** Plain values *)

(** Types without pointers: [*out = *in]. *)
Definition plainCopier (A : Type) : Copier A :=
  {| view_of := A; copyInto a := mret a; view _ a := Some a; foot _ _ := ∅ |}.

Lemma plainLaws A : @CopierLaws A (plainCopier A).
Proof.
  split; cbn.
  - done.
  - intros h a v _. set_solver.
  - intros h a v a' h' E [= <- <-]. split; [done|]. split; [done|]. set_solver.
Qed.

(** ** Structs *)

(** A struct [A] whose pointers, slices and nested structs make up a [B]. *)
Definition structCopier {A B} `{Copier B} (parts : A -> B) (rebuild : A -> B -> A) (erase : A -> A) : Copier A :=
  {| view_of := (A * view_of B)%type;
     copyInto a := b ← copyInto (parts a); mret (rebuild a b);
     view h a := v ← view h (parts a); Some (erase a, v);
     foot h a := foot h (parts a) |}.

Lemma structLaws {A B} `{CopierLaws B} (parts : A -> B) (rebuild : A -> B -> A) (erase : A -> A) :
  (forall a b, parts (rebuild a b) = b) -> (forall a b, erase (rebuild a b) = erase a) ->
  @CopierLaws A (structCopier parts rebuild erase).
Proof.
  intros Hp He. split; cbn.
  - intros h h' a v (u & Hu & [= <-])%bind_Some Hl. destruct (view_local h h' (parts a) u Hu Hl) as [-> ->]. done.
  - intros h a v (u & Hu & _)%bind_Some. by eapply foot_dom.
  - intros h a v a' h' (u & Hu & [= <-])%bind_Some. rewrite st_bind_run. destruct (copyInto (parts a) h) as [b h1] eqn:E.
    cbn. intros [= <- <-]. destruct (copy_fresh h (parts a) u b h1 Hu E) as (H1 & H2 & H3).
    rewrite Hp, H2. cbn. by rewrite He.
Qed.

(** A struct's deep copy written out in full. *)
Definition written {A} (f : A -> ST heap A) (K : Copier A) : Copier A :=
  {| view_of := view_of A; copyInto := f; view := view; foot := foot |}.

Lemma writtenLaws {A} (f : A -> ST heap A) (K : Copier A) :
  CopierLaws A -> (forall a h, f a h = copyInto a h) -> @CopierLaws A (written f K).
Proof.
  intros [L1 L2 L3] Hf. split; [exact L1|exact L2|]. intros h a v a' h' Hv E. cbn in E. rewrite Hf in E. by apply (L3 h a v).
Qed.

#[export] Instance pairCopier {A B} `{Copier A} `{Copier B} : Copier (A * B) :=
  {| view_of := (view_of A * view_of B)%type;
     copyInto p := a ← copyInto p.1; b ← copyInto p.2; mret (a, b);
     view h p := u ← view h p.1; v ← view h p.2; Some (u, v);
     foot h p := foot h p.1 ∪ foot h p.2 |}.

#[export] Instance pairLaws {A B} `{CopierLaws A} `{CopierLaws B} : CopierLaws (A * B).
Proof.
  split; cbn.
  - intros h h' [a b] v. cbn. intros (u & Hu & (u' & Hu' & [= <-])%bind_Some)%bind_Some Hl.
    destruct (view_local h h' a u Hu) as [-> ->]; [set_solver|].
    destruct (view_local h h' b u' Hu') as [-> ->]; [set_solver|]. done.
  - intros h [a b] v. cbn. intros (u & Hu & (u' & Hu' & _)%bind_Some)%bind_Some.
    apply foot_dom in Hu, Hu'. set_solver.
  - intros h [a b] v p h'. cbn. intros (u & Hu & (u' & Hu' & [= <-])%bind_Some)%bind_Some.
    rewrite !st_bind_run. destruct (copyInto a h) as [a' h1] eqn:E1. cbn [fst snd].
    destruct (copyInto b h1) as [b' h2] eqn:E2. cbn [fst snd]. intros [= <- <-]. cbn [fst snd].
    destruct (copy_fresh h a u a' h1 Hu E1) as (S1 & V1 & F1).
    destruct (view_grows h h1 b u' Hu' S1) as [V2 _].
    destruct (copy_fresh h1 b u' b' h2 V2 E2) as (S2 & V3 & F2).
    destruct (view_grows h1 h2 a' u V1 S2) as [-> F3]. cbn. rewrite V3. cbn. split; [by etransitivity|]. split; [done|].
    rewrite F3. apply subseteq_dom in S1. set_solver.
Qed.

(** ** Pointers and slices *)

Section Refs.
Context {A : Type} `{Cell A} `{CopierLaws A}.

Definition readCell (h : heap) (v : val) : option (view_of A) := a ← prj v; view h a.
Definition footCell (h : heap) (v : val) : gset loc := match prj v with Some a => foot h a | None => ∅ end.

Definition viewRef (h : heap) (r : ref A) : option (option (list (view_of A))) :=
  match at_ r with
  | None => Some None
  | Some l => vs ← h !! l; Some <$> mapM (readCell h) vs
  end.
Definition footRef (h : heap) (r : ref A) : gset loc :=
  match at_ r with
  | None => ∅
  | Some l => {[l]} ∪ ⋃ (footCell h <$> default [] (h !! l))
  end.

(** The loop that calls [DeepCopyInto] for each element, writing into [out[i]]. *)
Fixpoint copyLoop (out : loc) (i : nat) (vs : list val) : ST heap unit :=
  match vs with
  | [] => mret tt
  | v :: rest =>
      match prj v with
      | None => mret tt
      | Some a =>
          a' ← copyInto a;
          arr ← load out;
          _ ← store out (<[i := inj a']> arr);
          copyLoop out (S i) rest
      end
  end.

(** A field that is not nil: [make] an array of zero values and fill it. A pointer
    is an array of length one. *)
Definition copyRef (r : ref A) : ST heap (ref A) :=
  match at_ r with
  | None => mret (Ref None)
  | Some l =>
      vs ← load l;
      out ← alloc (replicate (length vs) (inj zero));
      _ ← copyLoop out 0 vs;
      mret (Ref (Some out))
  end.

#[export] Instance refCopier : Copier (ref A) :=
  {| view_of := option (list (view_of A)); copyInto := copyRef; view := viewRef; foot := footRef |}.

Lemma readCells_local h h' vs us :
  mapM (readCell h) vs = Some us -> (forall l, l ∈ ⋃ (footCell h <$> vs) -> h' !! l = h !! l) ->
  mapM (readCell h') vs = Some us /\ footCell h' <$> vs = footCell h <$> vs.
Proof.
  revert us; induction vs as [|v vs IH]; intros us Hv Hl; cbn in *; [done|].
  apply bind_Some in Hv as (u & Hu & (us' & Hus & [= <-])%bind_Some). unfold readCell in Hu.
  destruct (prj v) as [a|] eqn:Ea; [|done]. cbn in Hu.
  destruct (view_local h h' a u Hu) as [E1 E2]; [intros l H'; apply Hl; unfold footCell at 1; rewrite Ea; set_solver|].
  destruct (IH us' Hus) as [E3 E4]; [intros l H'; apply Hl; set_solver|].
  assert (R : readCell h' v = Some u) by (unfold readCell; by rewrite Ea).
  assert (G : footCell h' v = footCell h v) by (unfold footCell; by rewrite Ea).
  rewrite R, E3, G. cbn. by rewrite E4.
Qed.

Lemma readCells_dom h vs us : mapM (readCell h) vs = Some us -> ⋃ (footCell h <$> vs) ⊆ dom h.
Proof.
  revert us; induction vs as [|v vs IH]; intros us Hv; cbn in *; [set_solver|].
  apply bind_Some in Hv as (u & Hu & (us' & Hus & [= <-])%bind_Some). apply IH in Hus. unfold readCell in Hu.
  unfold footCell at 1. destruct (prj v) as [a|]; [|done]. apply foot_dom in Hu. set_solver.
Qed.

Lemma readCells_grows h h' vs us :
  mapM (readCell h) vs = Some us -> h ⊆ h' ->
  mapM (readCell h') vs = Some us /\ footCell h' <$> vs = footCell h <$> vs.
Proof.
  intros Hv Hs. apply readCells_local; [done|]. intros l Hl. apply (readCells_dom h vs us Hv) in Hl.
  apply elem_of_dom in Hl as [w E]. rewrite E. by eapply lookup_weaken.
Qed.

(** The part of the new array that is filled: a fresh copy. *)
Record filled (h0 : heap) (out : loc) (h : heap) (done : list val) (us : list (view_of A)) : Prop := {
  fill_old : h0 ⊆ h;
  fill_view : mapM (readCell h) done = Some us;
  fill_fresh : ⋃ (footCell h <$> done) ## dom h0;
  fill_apart : out ∉ ⋃ (footCell h <$> done);
}.

Lemma filled_step h0 out h done us a u a' h1 arr :
  out ∉ dom h0 -> out ∈ dom h -> filled h0 out h done us -> view h a = Some u -> copyInto a h = (a', h1) ->
  filled h0 out (<[out := arr]> h1) (done ++ [inj a']) (us ++ [u]) /\ h1 !! out = h !! out.
Proof.
  intros Ho Hd [F1 F2 F3 F4] Hu E. destruct (copy_fresh h a u a' h1 Hu E) as (S1 & V1 & D1).
  destruct (readCells_grows h h1 done us F2 S1) as [V2 E2].
  assert (Ha : out ∉ foot h1 a') by set_solver.
  assert (Hne : forall l, l <> out -> <[out := arr]> h1 !! l = h1 !! l) by (intros l Hl; by rewrite lookup_insert_ne).
  destruct (readCells_local h1 (<[out := arr]> h1) done us V2) as [V3 E3].
  { intros l Hl. apply Hne. intros ->. by rewrite E2 in Hl. }
  destruct (view_local h1 (<[out := arr]> h1) a' u V1) as [V4 E4].
  { intros l Hl. apply Hne. by intros ->. }
  assert (Hfeet : footCell (<[out := arr]> h1) <$> (done ++ [inj a']) = (footCell h <$> done) ++ [foot h1 a']).
  { rewrite fmap_app, E3, E2. cbn. unfold footCell at 2. by rewrite prj_inj, E4. }
  split.
  - constructor.
    + apply insert_subseteq_r; [by apply not_elem_of_dom|by transitivity h].
    + apply mapM_Some, Forall2_app; [by apply mapM_Some|]. constructor; [|constructor]. unfold readCell. by rewrite prj_inj.
    + rewrite Hfeet, union_list_app. apply subseteq_dom in F1. cbn. set_solver.
    + rewrite Hfeet, union_list_app. cbn. set_solver.
  - apply elem_of_dom in Hd as [w Ew]. rewrite Ew. by eapply lookup_weaken.
Qed.

Lemma copyLoop_filled h0 out vs us :
  out ∉ dom h0 -> mapM (readCell h0) vs = Some us ->
  forall i h done us0, length done = i -> filled h0 out h done us0 ->
    h !! out = Some (done ++ replicate (length vs) (inj zero)) ->
    let h' := (copyLoop out i vs h).2 in
    exists done', h' !! out = Some done' /\ filled h0 out h' done' (us0 ++ us).
Proof.
  intros Ho. revert us; induction vs as [|v vs IH]; intros us Hvs i h done us0 Hi HF Hout; cbn in *.
  { injection Hvs as <-. exists done. rewrite !app_nil_r in *. done. }
  apply bind_Some in Hvs as (u & Hu & (us' & Hus & [= <-])%bind_Some). unfold readCell in Hu.
  destruct (prj v) as [a|]; [|done]. cbn in Hu.
  destruct (view_grows h0 h a u Hu (fill_old _ _ _ _ _ HF)) as [Va _].
  rewrite !st_bind_run. destruct (copyInto a h) as [a' h1] eqn:E. cbn [fst snd load store].
  set (arr := <[i := inj a']> (default [] (h1 !! out))).
  destruct (filled_step h0 out h done us0 a u a' h1 arr) as [HF' E1]; [done|by apply elem_of_dom|done..|].
  destruct (IH us' Hus (S i) (<[out := arr]> h1) (done ++ [inj a']) (us0 ++ [u])) as (done' & Hd' & HF2).
  - rewrite length_app. cbn. lia.
  - done.
  - rewrite lookup_insert_eq. f_equal. unfold arr. rewrite E1, Hout. cbn. subst i.
    rewrite <- (Nat.add_0_r (length done)), insert_app_r. cbn. by rewrite <- app_assoc.
  - exists done'. split; [done|]. by rewrite <- app_assoc in HF2.
Qed.

#[export] Instance refLaws : CopierLaws (ref A).
Proof.
  split; cbn; unfold viewRef, footRef.
  - intros h h' [[l|]] v; cbn; [|done]. intros (vs & Hl & (us & Hus & ->)%fmap_Some)%bind_Some Hag.
    rewrite Hl in Hag. cbn in Hag. rewrite (Hag l), Hl by set_solver. cbn.
    destruct (readCells_local h h' vs us Hus) as [-> ->]; [|done]. intros l' H'. apply Hag. set_solver.
  - intros h [[l|]] v; cbn; [|set_solver]. intros (vs & Hl & (us & Hus & _)%fmap_Some)%bind_Some.
    rewrite Hl. cbn. apply readCells_dom in Hus. apply elem_of_dom_2 in Hl. set_solver.
  - intros h [[l|]] v r' h'; cbn; unfold copyRef; cbn [at_].
    2:{ intros [= <-] [= <- <-]. split; [done|]. split; [done|]. set_solver. }
    intros (vs & Hl & (us & Hus & ->)%fmap_Some)%bind_Some. rewrite !st_bind_run. cbn [load alloc fst snd]. rewrite Hl. cbn [default].
    set (out := fresh (dom h)). assert (Ho : out ∉ dom h) by apply is_fresh. set (h1 := <[out := _]> h).
    destruct (copyLoop_filled h out vs us Ho Hus 0 h1 [] []) as (pre & Hd & HF); [done| |by apply lookup_insert_eq|].
    { constructor; [by apply insert_subseteq, not_elem_of_dom|done|set_solver..]. }
    intros [= <- <-]. cbn [at_]. destruct HF as [F1 F2 F3 F4]. split; [done|]. rewrite Hd. cbn. rewrite F2. split; [done|].
    cbn. set_solver.
Qed.

End Refs.

End Heap.

Arguments view_of {val} A {_}.
Arguments Cell val A : clear implicits.
Arguments Copier val A : clear implicits.
Arguments CopierLaws val A {_}.

(** ** The Go types *)

(** [OM], [LM], [CD]: ObjectMeta, ListMeta and Condition; [X]: what else their
    pointers reach. *)
Record TypeMeta : Type := mkTypeMeta { tm_Kind : string; tm_APIVersion : string }.

Record goClusterEntry : Type := mkGoClusterEntry {
  ge_Name : string;
  ge_Local : bool;
  ge_KubeconfigSecretRef : ref SecretKeyRef;
  ge_AllowedNetworks : ref string;
  ge_WireguardPort : Z;
  ge_PersistentKeepalive : Z;
}.
Record goClusterMeshSpec : Type := mkGoClusterMeshSpec { gs_Clusters : ref goClusterEntry }.

Record DNSOrIP : Type := mkDNSOrIP { dns_DNS : string; dns_IP : string }.
Record goPeerEndpoint : Type := mkGoPeerEndpoint { gpe_DNSOrIP : DNSOrIP; gpe_Port : Z }.
Record goPeerSpec : Type := mkGoPeerSpec {
  gps_AllowedIPs : ref string;
  gps_Endpoint : ref goPeerEndpoint;
  gps_PersistentKeepalive : Z;
  gps_PresharedKey : string;
  gps_PublicKey : string;
}.

Record goClusterMeshStatus (CD : Type) : Type := mkGoClusterMeshStatus {
  gst_Clusters : ref ClusterStatus;
  gst_Conditions : ref CD;
}.
Arguments mkGoClusterMeshStatus {CD} _ _.
Arguments gst_Clusters {CD} _.
Arguments gst_Conditions {CD} _.

Record goClusterMesh (OM CD : Type) : Type := mkGoClusterMesh {
  gm_TypeMeta : TypeMeta;
  gm_ObjectMeta : OM;
  gm_Spec : goClusterMeshSpec;
  gm_Status : goClusterMeshStatus CD;
}.
Arguments mkGoClusterMesh {OM CD} _ _ _ _.
Arguments gm_TypeMeta {OM CD} _.
Arguments gm_ObjectMeta {OM CD} _.
Arguments gm_Spec {OM CD} _.
Arguments gm_Status {OM CD} _.

Record goPeer (OM : Type) : Type := mkGoPeer {
  gp_TypeMeta : TypeMeta;
  gp_ObjectMeta : OM;
  gp_Spec : goPeerSpec;
}.
Arguments mkGoPeer {OM} _ _ _.
Arguments gp_TypeMeta {OM} _.
Arguments gp_ObjectMeta {OM} _.
Arguments gp_Spec {OM} _.

(** A list type with items [T]. *)
Record goList (LM T : Type) : Type := mkGoList {
  gl_TypeMeta : TypeMeta;
  gl_ListMeta : LM;
  gl_Items : ref T;
}.
Arguments mkGoList {LM T} _ _ _.
Arguments gl_TypeMeta {LM T} _.
Arguments gl_ListMeta {LM T} _.
Arguments gl_Items {LM T} _.

(** What the heap holds. *)
Inductive goVal (OM LM CD X : Type) : Type :=
| VString (s : string)
| VSecretKeyRef (r : SecretKeyRef)
| VClusterEntry (e : goClusterEntry)
| VClusterMeshSpec (s : goClusterMeshSpec)
| VClusterStatus (s : ClusterStatus)
| VCondition (c : CD)
| VClusterMeshStatus (s : goClusterMeshStatus CD)
| VClusterMesh (m : goClusterMesh OM CD)
| VClusterMeshList (l : goList LM (goClusterMesh OM CD))
| VDNSOrIP (d : DNSOrIP)
| VPeerEndpoint (e : goPeerEndpoint)
| VPeerSpec (s : goPeerSpec)
| VPeer (p : goPeer OM)
| VPeerList (l : goList LM (goPeer OM))
| VOther (x : X).
Arguments VString {OM LM CD X} s.
Arguments VSecretKeyRef {OM LM CD X} r.
Arguments VClusterEntry {OM LM CD X} e.
Arguments VClusterMeshSpec {OM LM CD X} s.
Arguments VClusterStatus {OM LM CD X} s.
Arguments VCondition {OM LM CD X} c.
Arguments VClusterMeshStatus {OM LM CD X} s.
Arguments VClusterMesh {OM LM CD X} m.
Arguments VClusterMeshList {OM LM CD X} l.
Arguments VDNSOrIP {OM LM CD X} d.
Arguments VPeerEndpoint {OM LM CD X} e.
Arguments VPeerSpec {OM LM CD X} s.
Arguments VPeer {OM LM CD X} p.
Arguments VPeerList {OM LM CD X} l.
Arguments VOther {OM LM CD X} x.

Section Cells.
Context {OM LM CD X : Type} `{Inhabited OM} `{Inhabited LM} `{Inhabited CD}.
Abbreviation gv := (goVal OM LM CD X).

#[export] Instance string_cell : Cell gv string :=
  {| inj := VString; prj v := match v with VString a => Some a | _ => None end; zero := ""; prj_inj _ := eq_refl |}.
#[export] Instance SecretKeyRef_cell : Cell gv SecretKeyRef :=
  {| inj := VSecretKeyRef; prj v := match v with VSecretKeyRef a => Some a | _ => None end;
     zero := mkSecretKeyRef "" ""; prj_inj _ := eq_refl |}.
#[export] Instance ClusterEntry_cell : Cell gv goClusterEntry :=
  {| inj := VClusterEntry; prj v := match v with VClusterEntry a => Some a | _ => None end;
     zero := mkGoClusterEntry "" false (Ref None) (Ref None) 0 0; prj_inj _ := eq_refl |}.
#[export] Instance ClusterMeshSpec_cell : Cell gv goClusterMeshSpec :=
  {| inj := VClusterMeshSpec; prj v := match v with VClusterMeshSpec a => Some a | _ => None end;
     zero := mkGoClusterMeshSpec (Ref None); prj_inj _ := eq_refl |}.
#[export] Instance ClusterStatus_cell : Cell gv ClusterStatus :=
  {| inj := VClusterStatus; prj v := match v with VClusterStatus a => Some a | _ => None end;
     zero := mkClusterStatus "" 0 0; prj_inj _ := eq_refl |}.
#[export] Instance Condition_cell : Cell gv CD :=
  {| inj := VCondition; prj v := match v with VCondition a => Some a | _ => None end; zero := inhabitant; prj_inj _ := eq_refl |}.
#[export] Instance ClusterMeshStatus_cell : Cell gv (goClusterMeshStatus CD) :=
  {| inj := VClusterMeshStatus; prj v := match v with VClusterMeshStatus a => Some a | _ => None end;
     zero := mkGoClusterMeshStatus (Ref None) (Ref None); prj_inj _ := eq_refl |}.
#[export] Instance ClusterMesh_cell : Cell gv (goClusterMesh OM CD) :=
  {| inj := VClusterMesh; prj v := match v with VClusterMesh a => Some a | _ => None end;
     zero := mkGoClusterMesh (mkTypeMeta "" "") inhabitant (mkGoClusterMeshSpec (Ref None))
               (mkGoClusterMeshStatus (Ref None) (Ref None)); prj_inj _ := eq_refl |}.
#[export] Instance ClusterMeshList_cell : Cell gv (goList LM (goClusterMesh OM CD)) :=
  {| inj := VClusterMeshList; prj v := match v with VClusterMeshList a => Some a | _ => None end;
     zero := mkGoList (mkTypeMeta "" "") inhabitant (Ref None); prj_inj _ := eq_refl |}.
#[export] Instance DNSOrIP_cell : Cell gv DNSOrIP :=
  {| inj := VDNSOrIP; prj v := match v with VDNSOrIP a => Some a | _ => None end;
     zero := mkDNSOrIP "" ""; prj_inj _ := eq_refl |}.
#[export] Instance PeerEndpoint_cell : Cell gv goPeerEndpoint :=
  {| inj := VPeerEndpoint; prj v := match v with VPeerEndpoint a => Some a | _ => None end;
     zero := mkGoPeerEndpoint (mkDNSOrIP "" "") 0; prj_inj _ := eq_refl |}.
#[export] Instance PeerSpec_cell : Cell gv goPeerSpec :=
  {| inj := VPeerSpec; prj v := match v with VPeerSpec a => Some a | _ => None end;
     zero := mkGoPeerSpec (Ref None) (Ref None) 0 "" ""; prj_inj _ := eq_refl |}.
#[export] Instance Peer_cell : Cell gv (goPeer OM) :=
  {| inj := VPeer; prj v := match v with VPeer a => Some a | _ => None end;
     zero := mkGoPeer (mkTypeMeta "" "") inhabitant (mkGoPeerSpec (Ref None) (Ref None) 0 "" ""); prj_inj _ := eq_refl |}.
#[export] Instance PeerList_cell : Cell gv (goList LM (goPeer OM)) :=
  {| inj := VPeerList; prj v := match v with VPeerList a => Some a | _ => None end;
     zero := mkGoList (mkTypeMeta "" "") inhabitant (Ref None); prj_inj _ := eq_refl |}.

End Cells.

(** ** The generated methods *)

(** The laws of a struct, from those of its parts. *)
Ltac struct_laws f :=
  apply writtenLaws; [apply structLaws; [first [by intros ? [] | by intros ? [? []]]|done]|];
  let a := fresh in let h := fresh in intros a h; unfold f; cbn; rewrite !st_bind_run; reflexivity.

Section Generated.
Context {OM LM CD X : Type} `{Inhabited OM} `{Inhabited LM} `{Inhabited CD}.
Abbreviation gv := (goVal OM LM CD X).
Abbreviation gheap := (gmap loc (list gv)).
(** apimachinery's deep copies. *)
Context `{omC : !Copier gv OM} `{lmC : !Copier gv LM} `{cdC : !Copier gv CD}.
Context `{omL : !CopierLaws gv OM} `{lmL : !CopierLaws gv LM} `{cdL : !CopierLaws gv CD}.

#[local] Instance string_copier : Copier gv string := plainCopier string.
#[local] Instance string_laws : CopierLaws gv string := plainLaws string.

(** [SecretKeyRef], [ClusterStatus], [DNSOrIP], [PeerEndpoint]: no pointers. *)
Definition SecretKeyRef_DeepCopyInto (in_ : SecretKeyRef) : ST gheap SecretKeyRef := mret in_.
Definition ClusterStatus_DeepCopyInto (in_ : ClusterStatus) : ST gheap ClusterStatus := mret in_.
Definition DNSOrIP_DeepCopyInto (in_ : DNSOrIP) : ST gheap DNSOrIP := mret in_.
Definition PeerEndpoint_DeepCopyInto (in_ : goPeerEndpoint) : ST gheap goPeerEndpoint :=
  mret (mkGoPeerEndpoint (gpe_DNSOrIP in_) (gpe_Port in_)).

#[export] Instance SecretKeyRef_copier : Copier gv SecretKeyRef :=
  {| copyInto := SecretKeyRef_DeepCopyInto; view _ a := Some a; foot _ _ := ∅ |}.
#[export] Instance SecretKeyRef_laws : CopierLaws gv SecretKeyRef := plainLaws SecretKeyRef.
#[export] Instance ClusterStatus_copier : Copier gv ClusterStatus :=
  {| copyInto := ClusterStatus_DeepCopyInto; view _ a := Some a; foot _ _ := ∅ |}.
#[export] Instance ClusterStatus_laws : CopierLaws gv ClusterStatus := plainLaws ClusterStatus.
#[export] Instance DNSOrIP_copier : Copier gv DNSOrIP :=
  {| copyInto := DNSOrIP_DeepCopyInto; view _ a := Some a; foot _ _ := ∅ |}.
#[export] Instance DNSOrIP_laws : CopierLaws gv DNSOrIP := plainLaws DNSOrIP.
#[export] Instance PeerEndpoint_copier : Copier gv goPeerEndpoint :=
  {| copyInto := PeerEndpoint_DeepCopyInto; view _ a := Some a; foot _ _ := ∅ |}.
#[export] Instance PeerEndpoint_laws : CopierLaws gv goPeerEndpoint.
Proof.
  destruct (plainLaws (val := gv) goPeerEndpoint) as [L1 L2 L3]. split; [exact L1|exact L2|].
  intros h [d p] v a' h' E [= <- <-]. by apply (L3 h (mkGoPeerEndpoint d p) v).
Qed.

Definition ClusterEntry_DeepCopyInto (in_ : goClusterEntry) : ST gheap goClusterEntry :=
  KubeconfigSecretRef ← copyRef (ge_KubeconfigSecretRef in_);
  AllowedNetworks ← copyRef (ge_AllowedNetworks in_);
  mret (mkGoClusterEntry (ge_Name in_) (ge_Local in_) KubeconfigSecretRef AllowedNetworks
          (ge_WireguardPort in_) (ge_PersistentKeepalive in_)).

Definition ClusterEntry_with (e : goClusterEntry) (b : ref SecretKeyRef * ref string) : goClusterEntry :=
  mkGoClusterEntry (ge_Name e) (ge_Local e) b.1 b.2 (ge_WireguardPort e) (ge_PersistentKeepalive e).
#[export] Instance ClusterEntry_copier : Copier gv goClusterEntry :=
  written ClusterEntry_DeepCopyInto (structCopier (fun e => (ge_KubeconfigSecretRef e, ge_AllowedNetworks e))
    ClusterEntry_with (fun e => ClusterEntry_with e (Ref None, Ref None))).
#[export] Instance ClusterEntry_laws : CopierLaws gv goClusterEntry.
Proof. struct_laws ClusterEntry_DeepCopyInto. Qed.

Definition ClusterMeshSpec_DeepCopyInto (in_ : goClusterMeshSpec) : ST gheap goClusterMeshSpec :=
  Clusters ← copyRef (gs_Clusters in_);
  mret (mkGoClusterMeshSpec Clusters).
#[export] Instance ClusterMeshSpec_copier : Copier gv goClusterMeshSpec :=
  written ClusterMeshSpec_DeepCopyInto
    (structCopier gs_Clusters (fun _ b => mkGoClusterMeshSpec b) (fun _ => mkGoClusterMeshSpec (Ref None))).
#[export] Instance ClusterMeshSpec_laws : CopierLaws gv goClusterMeshSpec.
Proof. struct_laws ClusterMeshSpec_DeepCopyInto. Qed.

Definition ClusterMeshStatus_DeepCopyInto (in_ : goClusterMeshStatus CD) : ST gheap (goClusterMeshStatus CD) :=
  Clusters ← copyRef (gst_Clusters in_);
  Conditions ← copyRef (gst_Conditions in_);
  mret (mkGoClusterMeshStatus Clusters Conditions).
#[export] Instance ClusterMeshStatus_copier : Copier gv (goClusterMeshStatus CD) :=
  written ClusterMeshStatus_DeepCopyInto
    (structCopier (fun s => (gst_Clusters s, gst_Conditions s)) (fun _ b => mkGoClusterMeshStatus b.1 b.2)
       (fun _ => mkGoClusterMeshStatus (Ref None) (Ref None))).
#[export] Instance ClusterMeshStatus_laws : CopierLaws gv (goClusterMeshStatus CD).
Proof. struct_laws ClusterMeshStatus_DeepCopyInto. Qed.

Definition ClusterMesh_DeepCopyInto (in_ : goClusterMesh OM CD) : ST gheap (goClusterMesh OM CD) :=
  ObjectMeta ← copyInto (gm_ObjectMeta in_);
  Spec ← ClusterMeshSpec_DeepCopyInto (gm_Spec in_);
  Status ← ClusterMeshStatus_DeepCopyInto (gm_Status in_);
  mret (mkGoClusterMesh (gm_TypeMeta in_) ObjectMeta Spec Status).
#[export] Instance ClusterMesh_copier : Copier gv (goClusterMesh OM CD) :=
  written ClusterMesh_DeepCopyInto
    (structCopier (fun m => (gm_ObjectMeta m, (gm_Spec m, gm_Status m)))
       (fun m b => mkGoClusterMesh (gm_TypeMeta m) b.1 b.2.1 b.2.2)
       (fun m => mkGoClusterMesh (gm_TypeMeta m) inhabitant (mkGoClusterMeshSpec (Ref None))
                   (mkGoClusterMeshStatus (Ref None) (Ref None)))).
#[export] Instance ClusterMesh_laws : CopierLaws gv (goClusterMesh OM CD).
Proof. struct_laws ClusterMesh_DeepCopyInto. Qed.

Definition PeerSpec_DeepCopyInto (in_ : goPeerSpec) : ST gheap goPeerSpec :=
  AllowedIPs ← copyRef (gps_AllowedIPs in_);
  Endpoint ← copyRef (gps_Endpoint in_);
  mret (mkGoPeerSpec AllowedIPs Endpoint (gps_PersistentKeepalive in_) (gps_PresharedKey in_) (gps_PublicKey in_)).
Definition PeerSpec_with (s : goPeerSpec) (b : ref string * ref goPeerEndpoint) : goPeerSpec :=
  mkGoPeerSpec b.1 b.2 (gps_PersistentKeepalive s) (gps_PresharedKey s) (gps_PublicKey s).
#[export] Instance PeerSpec_copier : Copier gv goPeerSpec :=
  written PeerSpec_DeepCopyInto
    (structCopier (fun s => (gps_AllowedIPs s, gps_Endpoint s)) PeerSpec_with
       (fun s => PeerSpec_with s (Ref None, Ref None))).
#[export] Instance PeerSpec_laws : CopierLaws gv goPeerSpec.
Proof. struct_laws PeerSpec_DeepCopyInto. Qed.

Definition Peer_DeepCopyInto (in_ : goPeer OM) : ST gheap (goPeer OM) :=
  ObjectMeta ← copyInto (gp_ObjectMeta in_);
  Spec ← PeerSpec_DeepCopyInto (gp_Spec in_);
  mret (mkGoPeer (gp_TypeMeta in_) ObjectMeta Spec).
#[export] Instance Peer_copier : Copier gv (goPeer OM) :=
  written Peer_DeepCopyInto
    (structCopier (fun p => (gp_ObjectMeta p, gp_Spec p)) (fun p b => mkGoPeer (gp_TypeMeta p) b.1 b.2)
       (fun p => mkGoPeer (gp_TypeMeta p) inhabitant (mkGoPeerSpec (Ref None) (Ref None) 0 "" ""))).
#[export] Instance Peer_laws : CopierLaws gv (goPeer OM).
Proof. struct_laws Peer_DeepCopyInto. Qed.

(** [ClusterMeshList] and [PeerList]. *)
Definition ClusterMeshList_DeepCopyInto (in_ : goList LM (goClusterMesh OM CD)) : ST gheap (goList LM (goClusterMesh OM CD)) :=
  ListMeta ← copyInto (gl_ListMeta in_);
  Items ← copyRef (gl_Items in_);
  mret (mkGoList (gl_TypeMeta in_) ListMeta Items).
Definition PeerList_DeepCopyInto (in_ : goList LM (goPeer OM)) : ST gheap (goList LM (goPeer OM)) :=
  ListMeta ← copyInto (gl_ListMeta in_);
  Items ← copyRef (gl_Items in_);
  mret (mkGoList (gl_TypeMeta in_) ListMeta Items).

Definition list_parts {T} (l : goList LM T) : LM * ref T := (gl_ListMeta l, gl_Items l).
Definition list_with {T} (l : goList LM T) (b : LM * ref T) : goList LM T := mkGoList (gl_TypeMeta l) b.1 b.2.
#[export] Instance ClusterMeshList_copier : Copier gv (goList LM (goClusterMesh OM CD)) :=
  written ClusterMeshList_DeepCopyInto (structCopier list_parts list_with (fun l => list_with l (inhabitant, Ref None))).
#[export] Instance ClusterMeshList_laws : CopierLaws gv (goList LM (goClusterMesh OM CD)).
Proof. struct_laws ClusterMeshList_DeepCopyInto. Qed.
#[export] Instance PeerList_copier : Copier gv (goList LM (goPeer OM)) :=
  written PeerList_DeepCopyInto (structCopier list_parts list_with (fun l => list_with l (inhabitant, Ref None))).
#[export] Instance PeerList_laws : CopierLaws gv (goList LM (goPeer OM)).
Proof. struct_laws PeerList_DeepCopyInto. Qed.

(** [DeepCopy] of a pointer: nil stays nil; otherwise [new], then [DeepCopyInto]. *)
Definition DeepCopy {T} `{!Cell gv T} `{!Copier gv T} (in_ : ref T) : ST gheap (ref T) := copyRef in_.

(** [DeepCopyObject]: a nil interface for a nil pointer. *)
Definition DeepCopyObject {T} `{!Cell gv T} `{!Copier gv T} (in_ : ref T) : ST gheap (option (ref T)) :=
  c ← DeepCopy in_;
  mret (match at_ c with None => None | Some _ => Some c end).

(** The methods of each type. *)
Definition ClusterEntry_DeepCopy (in_ : ref goClusterEntry) : ST gheap (ref goClusterEntry) := DeepCopy in_.
Definition ClusterMesh_DeepCopy (in_ : ref (goClusterMesh OM CD)) : ST gheap (ref (goClusterMesh OM CD)) := DeepCopy in_.
Definition ClusterMeshList_DeepCopy (in_ : ref (goList LM (goClusterMesh OM CD))) : ST gheap (ref (goList LM (goClusterMesh OM CD))) := DeepCopy in_.
Definition ClusterMeshSpec_DeepCopy (in_ : ref goClusterMeshSpec) : ST gheap (ref goClusterMeshSpec) := DeepCopy in_.
Definition ClusterMeshStatus_DeepCopy (in_ : ref (goClusterMeshStatus CD)) : ST gheap (ref (goClusterMeshStatus CD)) := DeepCopy in_.
Definition ClusterStatus_DeepCopy (in_ : ref ClusterStatus) : ST gheap (ref ClusterStatus) := DeepCopy in_.
Definition SecretKeyRef_DeepCopy (in_ : ref SecretKeyRef) : ST gheap (ref SecretKeyRef) := DeepCopy in_.
Definition DNSOrIP_DeepCopy (in_ : ref DNSOrIP) : ST gheap (ref DNSOrIP) := DeepCopy in_.
Definition Peer_DeepCopy (in_ : ref (goPeer OM)) : ST gheap (ref (goPeer OM)) := DeepCopy in_.
Definition PeerEndpoint_DeepCopy (in_ : ref goPeerEndpoint) : ST gheap (ref goPeerEndpoint) := DeepCopy in_.
Definition PeerList_DeepCopy (in_ : ref (goList LM (goPeer OM))) : ST gheap (ref (goList LM (goPeer OM))) := DeepCopy in_.
Definition PeerSpec_DeepCopy (in_ : ref goPeerSpec) : ST gheap (ref goPeerSpec) := DeepCopy in_.
Definition ClusterMesh_DeepCopyObject (in_ : ref (goClusterMesh OM CD)) : ST gheap (option (ref (goClusterMesh OM CD))) := DeepCopyObject in_.
Definition ClusterMeshList_DeepCopyObject (in_ : ref (goList LM (goClusterMesh OM CD))) : ST gheap (option (ref (goList LM (goClusterMesh OM CD)))) := DeepCopyObject in_.
Definition Peer_DeepCopyObject (in_ : ref (goPeer OM)) : ST gheap (option (ref (goPeer OM))) := DeepCopyObject in_.
Definition PeerList_DeepCopyObject (in_ : ref (goList LM (goPeer OM))) : ST gheap (option (ref (goList LM (goPeer OM)))) := DeepCopyObject in_.

(** ** Independence *)

(** [h'] differs from [h] at most in [L]. *)
Definition writes_in (L : gset loc) (h h' : gheap) : Prop := forall l, l ∉ L -> h' !! l = h !! l.

Lemma copy_independent {T} `{!Cell gv T} `{!Copier gv T} `{!CopierLaws gv T} (p : ref T) h v p' h1 :
  view h p = Some v -> DeepCopy p h = (p', h1) ->
  view h1 p = Some v /\ view h1 p' = Some v /\
  (forall h2, writes_in (foot h1 p') h1 h2 -> view h2 p = Some v) /\
  (forall h2, writes_in (foot h1 p) h1 h2 -> view h2 p' = Some v).
Proof.
  intros Hv E. destruct (copy_fresh h p v p' h1 Hv E) as (S1 & V1 & D1).
  destruct (view_grows h h1 p v Hv S1) as [V2 F2]. pose proof (foot_dom h p v Hv) as Hd.
  do 2 (split; [done|]). split; intros h2 Hw.
  - apply (view_local h1 h2 p v V2). intros l Hl. apply Hw. set_solver.
  - apply (view_local h1 h2 p' v V1). intros l Hl. apply Hw. set_solver.
Qed.

(** C21. A deep copy of a ClusterMesh is complete and independent: it reads the same
    as the original, in every field, list and pointer; the original is unchanged;
    and whatever is later written to anything reachable from the one does not show
    in the other. Copying nil gives nil. *)
Theorem ClusterMesh_DeepCopy_independent (p : ref (goClusterMesh OM CD)) h v p' h1 :
  view h p = Some v -> ClusterMesh_DeepCopy p h = (p', h1) ->
  view h1 p = Some v /\ view h1 p' = Some v /\
  (forall h2, writes_in (foot h1 p') h1 h2 -> view h2 p = Some v) /\
  (forall h2, writes_in (foot h1 p) h1 h2 -> view h2 p' = Some v).
Proof. apply copy_independent. Qed.

(** The same of a Peer, which the reconciler copies before it changes the
    endpoint or the allowed IPs of a peer it has listed or built. *)
Theorem Peer_DeepCopy_independent (p : ref (goPeer OM)) h v p' h1 :
  view h p = Some v -> Peer_DeepCopy p h = (p', h1) ->
  view h1 p = Some v /\ view h1 p' = Some v /\
  (forall h2, writes_in (foot h1 p') h1 h2 -> view h2 p = Some v) /\
  (forall h2, writes_in (foot h1 p) h1 h2 -> view h2 p' = Some v).
Proof. apply copy_independent. Qed.

End Generated.

(** ** A concrete mesh and a concrete peer *)

Module Sample.

(** Metadata reduced to a list of finalizers; conditions to their
    status. *)
Abbreviation val := (goVal (ref string) unit bool Empty_set).
#[export] Instance ref_inhabited A : Inhabited (ref A) := populate (Ref None).
#[export] Instance text_copier : Copier val string := plainCopier string.
#[export] Instance text_laws : CopierLaws val string := plainLaws string.
#[export] Instance bool_copier : Copier val bool := plainCopier bool.
#[export] Instance bool_laws : CopierLaws val bool := plainLaws bool.
#[export] Instance unit_copier : Copier val unit := plainCopier unit.
#[export] Instance unit_laws : CopierLaws val unit := plainLaws unit.
(** Strings in lists of strings are stored as strings. *)
#[export] Instance text_cell : Cell val string := string_cell.
#[export] Instance meta_copier : Copier val (ref string) := refCopier.
#[export] Instance meta_laws : CopierLaws val (ref string) := refLaws.

Definition memory : gmap nat (list val) :=
  <[0%nat := [VString "kilo-clustermesh.io/cleanup"]]> (
  <[1%nat := [VString "10.1.0.0/16"; VString "100.1.0.0/16"]]> (
  <[2%nat := [VSecretKeyRef (mkSecretKeyRef "admin" "value")]]> (
  <[3%nat := [VClusterEntry (mkGoClusterEntry "a" false (Ref (Some 2%nat)) (Ref (Some 1%nat)) 51820 0)]]> (
  <[4%nat := [VClusterMesh (mkGoClusterMesh (mkTypeMeta "ClusterMesh" "v1") (Ref (Some 0%nat))
     (mkGoClusterMeshSpec (Ref (Some 3%nat))) (mkGoClusterMeshStatus (Ref None) (Ref None)))]]> (
  <[5%nat := [VPeerEndpoint (mkGoPeerEndpoint (mkDNSOrIP "" "192.0.2.1") 51820)]]>
  {[6%nat := [VPeer (mkGoPeer (mkTypeMeta "Peer" "v1") (Ref None)
     (mkGoPeerSpec (Ref (Some 1%nat)) (Ref (Some 5%nat)) 0 "" "key"))]]}))))).

Definition mesh : ref (goClusterMesh (ref string) bool) := Ref (Some 4%nat).
Definition peer : ref (goPeer (ref string)) := Ref (Some 6%nat).
Definition mesh_copy : ref (goClusterMesh (ref string) bool) * gmap nat (list val) := ClusterMesh_DeepCopy mesh memory.
Definition peer_copy : ref (goPeer (ref string)) * gmap nat (list val) := Peer_DeepCopy peer memory.

End Sample.
Import Sample.

Lemma ClusterMesh_DeepCopy_independent_witness :
  is_Some (view Sample.memory Sample.mesh) /\
  view Sample.mesh_copy.2 Sample.mesh_copy.1 = view Sample.memory Sample.mesh.
Proof.
  destruct (view Sample.memory Sample.mesh) as [v|] eqn:E; [|vm_compute in E; discriminate E]. split; [by eexists|].
  destruct (ClusterMesh_DeepCopy_independent Sample.mesh Sample.memory v Sample.mesh_copy.1 Sample.mesh_copy.2 E) as (_ & H & _);
    [vm_compute; reflexivity|exact H].
Defined.

Lemma Peer_DeepCopy_independent_witness :
  is_Some (view Sample.memory Sample.peer) /\
  view Sample.peer_copy.2 Sample.peer_copy.1 = view Sample.memory Sample.peer.
Proof.
  destruct (view Sample.memory Sample.peer) as [v|] eqn:E; [|vm_compute in E; discriminate E]. split; [by eexists|].
  destruct (Peer_DeepCopy_independent Sample.peer Sample.memory v Sample.peer_copy.1 Sample.peer_copy.2 E) as (_ & H & _);
    [vm_compute; reflexivity|exact H].
Defined.
