(* ===== verification/Kilonode.v ===== *)
(** * [internal/kilonode]: node annotations and endpoint resolution *)

From Stdlib Require Import Ascii String.
From S2P Require Import Prelude GoStrings GoNet GoNetFacts GoNetPrint Types.
Open Scope Z_scope.

(** ** [annotations.go], [discovered.go]: annotation keys *)

Definition AnnotationWireguardIP : string := "kilo.squat.ai/wireguard-ip".
Definition AnnotationPublicKey : string := "kilo.squat.ai/key".
Definition AnnotationForceEndpoint : string := "kilo.squat.ai/force-endpoint".
Definition AnnotationClustermeshEndpoint : string := "kilo.squat.ai/clustermesh-endpoint".
Definition AnnotationLocation : string := "kilo.squat.ai/location".
Definition AnnotationDiscoveredEndpoints : string := "kilo.squat.ai/discovered-endpoints".

(** ** [endpoint.go] *)

Definition DefaultWireguardPort : Z := 51820.

Inductive hostport_error : Type :=
| NotHostPort
| HostEmpty
| PortInvalid (portStr : string)
| PortZero.

(** [annotation %q on node %q has invalid value %q] *)
Inductive endpoint_error : Type :=
| AnnotationInvalid (annotation node val : string) (cause : hostport_error).

Definition validateHostPort (s : string) : result hostport_error unit :=
  match SplitHostPort s with
  | None => Err NotHostPort
  | Some (host, portStr) =>
      if decide (host = "") then Err HostEmpty
      else match ParseUint portStr 16 with
           | None => Err (PortInvalid portStr)
           | Some port => if port =? 0 then Err PortZero else Ok tt
           end
  end.

(** The scan of [resolveFromExternalIPs]: an IPv4 address returns at once, the
    first IPv6 address is remembered in [firstIPv6]. *)
Fixpoint scanExternalIPs (addresses : list NodeAddress) (portStr firstIPv6 : string)
    : option string :=
  match addresses with
  | [] => if decide (firstIPv6 <> "") then Some (JoinHostPort firstIPv6 portStr) else None
  | addr :: rest =>
      if decide (addr_Type addr <> NodeExternalIP) then scanExternalIPs rest portStr firstIPv6
      else match ParseIP (addr_Address addr) with
           | None => scanExternalIPs rest portStr firstIPv6
           | Some parsedIP =>
               match To4 parsedIP with
               | Some _ => Some (JoinHostPort (addr_Address addr) portStr)
               | None =>
                   scanExternalIPs rest portStr
                     (if decide (firstIPv6 = "") then addr_Address addr else firstIPv6)
               end
           end
  end.

Definition resolveFromExternalIPs (addresses : list NodeAddress) (port : Z) : option string :=
  scanExternalIPs addresses (FormatUint port) "".

(** [Ok (Some e)] is [(e, true, nil)], [Ok None] is [("", false, nil)] and
    [Err e] is [("", false, err)]. *)
Definition ResolveEndpoint (node : Node) (fallbackPort : Z)
    : result endpoint_error (option string) :=
  let fromAnnotation key val :=
    match validateHostPort val with
    | Err e => Err (AnnotationInvalid key (node_Name node) val e)
    | Ok _ => Ok (Some val)
    end in
  let val1 := annotation node AnnotationClustermeshEndpoint in
  if decide (val1 <> "") then fromAnnotation AnnotationClustermeshEndpoint val1
  else
    let val2 := annotation node AnnotationForceEndpoint in
    if decide (val2 <> "") then fromAnnotation AnnotationForceEndpoint val2
    else
      let port := if fallbackPort =? 0 then DefaultWireguardPort else fallbackPort in
      Ok (resolveFromExternalIPs (node_Addresses node) port).

(** *** Properties *)

(** A usable WireGuard endpoint: ["host:port"] with a host and a port in
    1..65535. *)
Definition valid_endpoint (ep : string) : Prop :=
  exists host portStr port,
    SplitHostPort ep = Some (host, portStr) /\ host <> "" /\
    ParseUint portStr 16 = Some port /\ 1 <= port <= 65535.

Lemma validateHostPort_iff s : validateHostPort s = Ok tt <-> valid_endpoint s.
Proof.
  unfold validateHostPort, valid_endpoint.
  destruct (SplitHostPort s) as [[host portStr]|]; [|split; [done|by intros (? & ? & ? & ? & _)]].
  case_decide as Hh.
  { split; [done|]. intros (h & ps & p & [= <- <-] & Hne & _). by destruct Hne. }
  destruct (ParseUint portStr 16) as [port|] eqn:Ep.
  2:{ split; [done|]. intros (h & ps & p & [= <- <-] & _ & Hp & _). congruence. }
  pose proof (ParseUint_bound _ 16 _ ltac:(lia) Ep) as Hb. change (2 ^ 16) with 65536 in Hb.
  destruct (Z.eqb_spec port 0) as [->|].
  - split; [done|]. intros (h & ps & p & [= <- <-] & _ & Hp & Hr). rewrite Ep in Hp. injection Hp. lia.
  - split; [|done]. intros _. exists host, portStr, port. repeat split; (done || lia).
Qed.

(** The address an endpoint is synthesised from: the first [ExternalIP] that is
    an IPv4 address, otherwise the first that is an IPv6 address. *)
Definition external (want4 : bool) (a : NodeAddress) : bool :=
  bool_decide (addr_Type a = NodeExternalIP) &&
  match ParseIP (addr_Address a) with
  | None => false
  | Some ip => eqb want4 (match To4 ip with Some _ => true | None => false end)
  end.

Definition preferred (addresses : list NodeAddress) : option NodeAddress :=
  match List.find (external true) addresses with
  | Some a => Some a
  | None => List.find (external false) addresses
  end.

Lemma scanExternalIPs_spec addrs portStr v6 :
  scanExternalIPs addrs portStr v6 =
  match List.find (external true) addrs with
  | Some a => Some (JoinHostPort (addr_Address a) portStr)
  | None => if decide (v6 <> "") then Some (JoinHostPort v6 portStr)
            else (fun a => JoinHostPort (addr_Address a) portStr) <$> List.find (external false) addrs
  end.
Proof.
  revert v6; induction addrs as [|a addrs IH]; intros v6; simpl; [done|].
  unfold external at 1 3. destruct (decide (addr_Type a = NodeExternalIP)) as [E|E].
  - rewrite (bool_decide_true _ E). rewrite decide_False by (intros H; by apply H). cbn [andb].
    destruct (ParseIP (addr_Address a)) as [ip|] eqn:Hip; [|apply IH].
    destruct (To4 ip); [done|]. cbn [eqb]. rewrite IH.
    destruct (List.find (external true) addrs); [done|].
    apply ParseIP_nonempty in Hip. destruct (decide (v6 = "")) as [->|Hv]; [|by rewrite !decide_True].
    by rewrite decide_True, decide_False by (done || intros H; by apply H).
  - rewrite (bool_decide_false _ E), decide_True by done. cbn [andb]. apply IH.
Qed.

Lemma resolveFromExternalIPs_preferred addrs port :
  resolveFromExternalIPs addrs port =
  (fun a => JoinHostPort (addr_Address a) (FormatUint port)) <$> preferred addrs.
Proof.
  unfold resolveFromExternalIPs, preferred. rewrite scanExternalIPs_spec.
  destruct (List.find (external true) addrs); [done|]. by rewrite decide_False by (intros H; by apply H).
Qed.

(** The endpoint synthesised from [Node.Status.Addresses] uses the first
    parsable IPv4 [ExternalIP], and only without one the first IPv6 one, whatever
    the order of the address list; other address types and unparsable addresses
    are ignored. *)
Theorem resolveFromExternalIPs_prefers_ipv4 addrs port :
  resolveFromExternalIPs addrs port =
  (fun a => JoinHostPort (addr_Address a) (FormatUint port)) <$> preferred addrs.
Proof. apply resolveFromExternalIPs_preferred. Qed.

Lemma preferred_parses addrs a :
  preferred addrs = Some a -> exists ip, ParseIP (addr_Address a) = Some ip.
Proof.
  assert (Hf : forall b, List.find (external b) addrs = Some a -> exists ip, ParseIP (addr_Address a) = Some ip).
  { intros b [_ Hb]%List.find_some. unfold external in Hb. apply andb_prop in Hb as [_ Hb].
    destruct (ParseIP (addr_Address a)) as [ip|]; [by exists ip|done]. }
  unfold preferred. destruct (List.find (external true) addrs) eqn:E; [intros [= <-]|]; eauto.
Qed.

Lemma ResolveEndpoint_sound node fallbackPort ep :
  0 <= fallbackPort < 65536 ->
  ResolveEndpoint node fallbackPort = Ok (Some ep) -> valid_endpoint ep.
Proof.
  intros Hp. unfold ResolveEndpoint.
  case_decide.
  { destruct (validateHostPort _) as [[]|] eqn:E; [|done]. intros [= <-]. by apply validateHostPort_iff. }
  case_decide.
  { destruct (validateHostPort _) as [[]|] eqn:E; [|done]. intros [= <-]. by apply validateHostPort_iff. }
  set (port := if fallbackPort =? 0 then _ else _).
  assert (Hport : 1 <= port <= 65535).
  { unfold port, DefaultWireguardPort. destruct (Z.eqb_spec fallbackPort 0); lia. }
  rewrite resolveFromExternalIPs_preferred.
  destruct (preferred _) as [a|] eqn:Ea; [|done]. intros [= <-].
  apply preferred_parses in Ea as [ip Hip].
  exists (addr_Address a), (FormatUint port), port.
  split; [by eapply Split_Join_ip; [done|lia]|]. split; [by eapply ParseIP_nonempty|].
  split; [|done]. apply ParseUint_FormatUint; [lia|]. change (2 ^ 16) with 65536. lia.
Qed.

(** C32. Whatever source it comes from, an endpoint returned by [ResolveEndpoint]
    is a well-formed ["host:port"] with a non-empty host and a port between 1 and
    65535, for every [uint16] fallback port (0 included, which becomes 51820). *)
Theorem ResolveEndpoint_valid node fallbackPort ep :
  0 <= fallbackPort < 65536 ->
  ResolveEndpoint node fallbackPort = Ok (Some ep) -> valid_endpoint ep.
Proof. apply ResolveEndpoint_sound. Qed.

(** The annotation that decides, if one is set. *)
Definition winning_annotation (node : Node) : string :=
  if decide (annotation node AnnotationClustermeshEndpoint <> "")
  then annotation node AnnotationClustermeshEndpoint
  else annotation node AnnotationForceEndpoint.

(** The annotations have strict priority: [ResolveEndpoint] fails exactly
    when the winning annotation is set and malformed, and then no lower source is
    tried; when it is set and well formed it is returned verbatim. *)
Theorem ResolveEndpoint_annotation_strict node fallbackPort :
  winning_annotation node <> "" ->
  (valid_endpoint (winning_annotation node) ->
     ResolveEndpoint node fallbackPort = Ok (Some (winning_annotation node))) /\
  (~ valid_endpoint (winning_annotation node) ->
     is_ok (ResolveEndpoint node fallbackPort) = false).
Proof.
  unfold winning_annotation, ResolveEndpoint. intros Hw. rewrite <- !validateHostPort_iff.
  case_decide; [|rewrite decide_True by done];
    (destruct (validateHostPort _) as [[]|] eqn:E; split; intros H'; [done|by destruct H'|done|done]).
Qed.

(** ** [discovered.go] *)

Record discoveredEndpointEntry : Type := mkDiscovered {
  disc_IP : string;
  disc_Port : Z;
}.

Section Discovered.
(** [json.Unmarshal] of an annotation into the map of entries: [None] when the
    text is malformed, otherwise the entries in the order the [range] loop
    visits them. *)
Context (unmarshal : string -> option (list (string * discoveredEndpointEntry))).

(** The guards of the inner loop: a non-empty IP, a positive port, an IP that
    parses and is neither loopback nor link-local. *)
Definition usableEntry (entry : discoveredEndpointEntry) : bool :=
  if decide (disc_IP entry = "" \/ disc_Port entry <= 0) then false
  else match ParseIP (disc_IP entry) with
       | None => false
       | Some ip => negb (IsLoopback ip || IsLinkLocalUnicast ip)
       end.

(** One entry: the first occurrence of a key wins. *)
Definition recordEntry (res : gmap string string) (kv : string * discoveredEndpointEntry)
    : gmap string string :=
  let '(pubKey, entry) := kv in
  if usableEntry entry then
    match res !! pubKey with
    | Some _ => res
    | None => <[pubKey := JoinHostPort (disc_IP entry) (FormatUint (disc_Port entry))]> res
    end
  else res.

(** One node: no annotation and a malformed one contribute nothing. *)
Definition recordNode (res : gmap string string) (node : Node) : gmap string string :=
  let raw := annotation node AnnotationDiscoveredEndpoints in
  if decide (raw = "") then res
  else match unmarshal raw with
       | None => res
       | Some entries => foldl recordEntry res entries
       end.

Definition DiscoveredEndpointsByKey {E} (nodeList : result E (list Node))
    : result E (gmap string string) :=
  match nodeList with
  | Err e => Err e
  | Ok nodes => Ok (foldl recordNode ∅ nodes)
  end.

(** Where the endpoint of a key can come from. *)
Definition observed (nodes : list Node) (pubKey ep : string) : Prop :=
  exists node entries entry,
    node ∈ nodes /\ unmarshal (annotation node AnnotationDiscoveredEndpoints) = Some entries /\
    (pubKey, entry) ∈ entries /\ usableEntry entry = true /\
    ep = JoinHostPort (disc_IP entry) (FormatUint (disc_Port entry)).

Lemma recordEntries_from entries res k ep :
  foldl recordEntry res entries !! k = Some ep ->
  res !! k = Some ep \/
  exists entry, (k, entry) ∈ entries /\ usableEntry entry = true /\
    ep = JoinHostPort (disc_IP entry) (FormatUint (disc_Port entry)).
Proof.
  revert res; induction entries as [|[k' e] entries IH]; intros res; simpl; [by left|].
  intros [H|(entry & Hin & Hu & ->)]%IH; [|right; exists entry; by repeat split; [right|..]].
  revert H. destruct (usableEntry e) eqn:Hu; [|by left].
  destruct (res !! k') eqn:Hk; [by left|]. rewrite lookup_insert. case_decide; [|by left].
  intros [= <-]. subst k'. right. exists e. by repeat split; [left|..].
Qed.

Lemma recordNodes_from nodes res k ep :
  foldl recordNode res nodes !! k = Some ep -> res !! k = Some ep \/ observed nodes k ep.
Proof.
  revert res; induction nodes as [|node nodes IH]; intros res; simpl; [by left|].
  intros [H|(n & es & e & Hin & Hrest)]%IH; [|right; exists n, es, e; by split; [right|]].
  revert H. unfold recordNode. case_decide; [by left|].
  destruct (unmarshal _) as [es|] eqn:Hes; [|by left].
  intros [?|(e & Hin & Hu & ->)]%recordEntries_from; [by left|].
  right. exists node, es, e. by repeat split; [left|..].
Qed.

Lemma recordEntry_keeps kv res k ep : res !! k = Some ep -> recordEntry res kv !! k = Some ep.
Proof.
  destruct kv as [k' e]. simpl. intros Hk. destruct (usableEntry e); [|done].
  destruct (res !! k') eqn:Hk'; [done|]. rewrite lookup_insert_ne; [done|congruence].
Qed.

Lemma recordEntries_keeps entries res k ep :
  res !! k = Some ep -> foldl recordEntry res entries !! k = Some ep.
Proof. revert res; induction entries; intros res Hk; simpl; auto using recordEntry_keeps. Qed.

Lemma recordNode_keeps node res k ep : res !! k = Some ep -> recordNode res node !! k = Some ep.
Proof.
  intros Hk. unfold recordNode. case_decide; [done|]. destruct (unmarshal _); [|done].
  by apply recordEntries_keeps.
Qed.

Lemma recordNodes_keeps nodes res k ep :
  res !! k = Some ep -> foldl recordNode res nodes !! k = Some ep.
Proof. revert res; induction nodes; intros res Hk; simpl; auto using recordNode_keeps. Qed.

Lemma recordEntries_hit entries res k e :
  (k, e) ∈ entries -> usableEntry e = true -> is_Some (foldl recordEntry res entries !! k).
Proof.
  intros Hin Hu. revert res; induction entries as [|kv entries IH]; intros res; simpl.
  { by apply not_elem_of_nil in Hin. }
  apply elem_of_cons in Hin as [<-|Hin]; [|by apply IH].
  destruct (res !! k) as [ep|] eqn:Hk.
  - exists ep. by apply recordEntries_keeps, recordEntry_keeps.
  - eexists. apply recordEntries_keeps. simpl. rewrite Hu, Hk. apply lookup_insert_eq.
Qed.

Lemma recordNodes_hit nodes res k ep :
  observed nodes k ep -> unmarshal "" = None -> is_Some (foldl recordNode res nodes !! k).
Proof.
  intros (node & es & e & Hin & Hes & He & Hu & _) Hempty. revert res.
  induction nodes as [|n nodes IH]; intros res; simpl; [by apply not_elem_of_nil in Hin|].
  apply elem_of_cons in Hin as [<-|Hin]; [|by apply IH].
  assert (is_Some (recordNode res node !! k)) as [ep' Hk].
  { unfold recordNode. rewrite decide_False by congruence. rewrite Hes. by eapply recordEntries_hit. }
  exists ep'. by apply recordNodes_keeps.
Qed.

(** The discovered map holds exactly what was observed: a key is present iff
    some node's annotation has a usable entry for it, and its endpoint splits back
    into the IP and port of such an entry, an IP that parses and is neither
    loopback nor link-local. The empty text is not JSON. *)
Theorem DiscoveredEndpointsByKey_observed {E} nodes (m : gmap string string) k :
  unmarshal "" = None ->
  DiscoveredEndpointsByKey (E := E) (Ok nodes) = Ok m ->
  (is_Some (m !! k) <-> exists ep, observed nodes k ep) /\
  forall ep, m !! k = Some ep -> observed nodes k ep /\
    exists entry ip, 0 < disc_Port entry /\
      SplitHostPort ep = Some (disc_IP entry, FormatUint (disc_Port entry)) /\
      ParseIP (disc_IP entry) = Some ip /\ IsLoopback ip = false /\ IsLinkLocalUnicast ip = false.
Proof.
  intros Hempty [= <-].
  assert (Hfrom : forall ep, foldl recordNode ∅ nodes !! k = Some ep -> observed nodes k ep).
  { intros ep [H|H]%recordNodes_from; [by rewrite lookup_empty in H|done]. }
  split; [split; [intros [ep Hep]; by eauto|intros [ep Hep]; by eapply recordNodes_hit]|].
  intros ep Hk. pose proof (Hfrom ep Hk) as Hobs. split; [done|].
  destruct Hobs as (node & es & entry & _ & _ & _ & Hu & ->).
  unfold usableEntry in Hu. case_decide as Hg; [done|].
  destruct (ParseIP (disc_IP entry)) as [ip|] eqn:Hip; [|done].
  apply negb_true_iff, orb_false_iff in Hu as [H1 H2].
  exists entry, ip. split; [lia|]. split; [by eapply Split_Join_ip; [done|lia]|]. done.
Qed.

End Discovered.

(** ** Concrete instances *)

Definition example_node : Node :=
  mkNode "node-1"
    (<[AnnotationWireguardIP := "100.64.0.1/16"]> (<[AnnotationPublicKey := "K1"]> {[AnnotationForceEndpoint := "vpn.example.org:51820"]}))
    ["10.0.1.0/24"] [mkNodeAddress NodeInternalIP "192.168.0.10"; mkNodeAddress NodeExternalIP "203.0.113.7"].

Lemma ResolveEndpoint_valid_witness : valid_endpoint "vpn.example.org:51820".
Proof. apply (ResolveEndpoint_valid example_node 51820); [lia|reflexivity]. Defined.

Lemma ResolveEndpoint_annotation_strict_witness :
  ResolveEndpoint example_node 51820 = Ok (Some (winning_annotation example_node)).
Proof.
  apply (ResolveEndpoint_annotation_strict example_node 51820).
  - vm_compute. discriminate.
  - apply validateHostPort_iff. reflexivity.
Defined.

(** A reader of one fixed annotation. *)
Definition example_unmarshal (s : string) : option (list (string * discoveredEndpointEntry)) :=
  if decide (s = "") then None else Some [("K1", mkDiscovered "198.51.100.9" 40000)].

Definition discovering_node : Node := mkNode "gw" {[AnnotationDiscoveredEndpoints := "{...}"]} [] [].

Lemma DiscoveredEndpointsByKey_observed_witness :
  exists m, DiscoveredEndpointsByKey (E := unit) example_unmarshal (Ok [discovering_node]) = Ok m /\
    is_Some (m !! "K1") /\ exists ep, observed example_unmarshal [discovering_node] "K1" ep.
Proof.
  eexists. split; [reflexivity|].
  assert (Hs : is_Some (foldl (recordNode example_unmarshal) ∅ [discovering_node] !! "K1")) by (eexists; reflexivity).
  split; [exact Hs|].
  apply (DiscoveredEndpointsByKey_observed example_unmarshal (E := unit) [discovering_node]
    (foldl (recordNode example_unmarshal) ∅ [discovering_node]) "K1"); [reflexivity|reflexivity|exact Hs].
Defined.
