(* ===== verification/ValidationMesh.v ===== *)
(** * [internal/validation/mesh.go]: mesh-level CIDR validation *)

From Stdlib Require Import String.
From S2P Require Import Prelude GoStrings GoNet GoNetFacts Netutil Types.
Open Scope Z_scope.

Record parsedCIDR : Type := mkParsedCIDR {
  pc_cluster : string;
  pc_raw : string;
  pc_net : IPNet;
}.

Inductive mesh_error : Type :=
| BadClusterCIDR (cluster : string) (cause : cidr_error)
| ClusterOverlap (cidrA cidrB : parsedCIDR)
| MeshOverlap (meshA : string) (cidrA : parsedCIDR) (meshB : string) (cidrB : parsedCIDR)
| InMesh (mesh : string) (cause : mesh_error).

(** ** Operations *)

(** The inner loop of [parseClusters]: the CIDRs of one cluster. *)
Fixpoint parseRaws (cluster : string) (raws : list string) : result mesh_error (list parsedCIDR) :=
  match raws with
  | [] => Ok []
  | raw :: rest =>
      match Netutil.ParseCIDR raw with
      | Err e => Err (BadClusterCIDR cluster e)
      | Ok parsed =>
          match parseRaws cluster rest with
          | Err e => Err e
          | Ok l => Ok (mkParsedCIDR cluster raw parsed :: l)
          end
      end
  end.

Fixpoint parseClusters (clusters : list ClusterEntry) : result mesh_error (list parsedCIDR) :=
  match clusters with
  | [] => Ok []
  | c :: rest =>
      match parseRaws (entry_Name c) (AllCIDRs c) with
      | Err e => Err e
      | Ok l => match parseClusters rest with Err e => Err e | Ok l' => Ok (l ++ l') end
      end
  end.

(** [for ... { if err != nil { return err } }]: the first error of a loop. *)
Fixpoint firstErr {A E} (f : A -> option E) (l : list A) : option E :=
  match l with
  | [] => None
  | x :: l' => match f x with Some e => Some e | None => firstErr f l' end
  end.

(** The loop over [j] for a fixed [i]. *)
Definition checkPair (meshA meshB : string) (cidrA cidrB : parsedCIDR) : option mesh_error :=
  let crossMesh := bool_decide (meshA <> "" /\ meshA <> meshB) in
  if crossMesh && bool_decide (pc_cluster cidrA = pc_cluster cidrB) then None
  else if negb (CIDROverlaps (pc_net cidrA) (pc_net cidrB)) then None
  else if decide (meshA <> "" /\ meshA <> meshB) then Some (MeshOverlap meshA cidrA meshB cidrB)
  else Some (ClusterOverlap cidrA cidrB).

(** [None] is a nil error. *)
Fixpoint checkOverlaps (cidrs : list parsedCIDR) (meshA meshB : string) : option mesh_error :=
  match cidrs with
  | [] => None
  | cidrA :: rest =>
      match firstErr (checkPair meshA meshB cidrA) rest with
      | Some e => Some e
      | None => checkOverlaps rest meshA meshB
      end
  end.

Definition ValidateClusterNetworks (clusters : list ClusterEntry) : option mesh_error :=
  match parseClusters clusters with
  | Err e => Some e
  | Ok cidrs => checkOverlaps cidrs "" ""
  end.

(** The second loop of [ValidateMeshNetworks]: [perMesh], with the mesh names. *)
Fixpoint parseMeshes (meshes : list ClusterMesh) : result mesh_error (list (string * list parsedCIDR)) :=
  match meshes with
  | [] => Ok []
  | m :: rest =>
      match parseClusters (mesh_Clusters m) with
      | Err e => Err (InMesh (mesh_Name m) e)
      | Ok cidrs =>
          match parseMeshes rest with Err e => Err e | Ok l => Ok ((mesh_Name m, cidrs) :: l) end
      end
  end.

(** The third loop: every pair [i < j] of meshes. [append(perMesh[i], ...)] never
    changes the first [len(perMesh[i])] elements, so it is a concatenation. *)
Fixpoint checkMeshPairs (perMesh : list (string * list parsedCIDR)) : option mesh_error :=
  match perMesh with
  | [] => None
  | (nameI, cidrsI) :: rest =>
      match firstErr (fun '(nameJ, cidrsJ) => checkOverlaps (cidrsI ++ cidrsJ) nameI nameJ) rest with
      | Some e => Some e
      | None => checkMeshPairs rest
      end
  end.

Definition ValidateMeshNetworks (meshes : list ClusterMesh) : option mesh_error :=
  match firstErr (fun m => InMesh (mesh_Name m) <$> ValidateClusterNetworks (mesh_Clusters m)) meshes with
  | Some e => Some e
  | None =>
      match parseMeshes meshes with
      | Err e => Some e
      | Ok perMesh => checkMeshPairs perMesh
      end
  end.

(** ** Meaning *)

(** No address belongs to both networks. *)
Definition disjoint (a b : IPNet) : Prop :=
  forall ip, ip_ok ip -> ~ (Contains a ip = true /\ Contains b ip = true).

Definition pc_wf (c : parsedCIDR) : Prop := Netutil.ParseCIDR (pc_raw c) = Ok (pc_net c).

Lemma pc_wf_net c : pc_wf c -> wf_net (pc_net c).
Proof. apply ParseCIDR_wf. Qed.

Lemma overlaps_false_disjoint a b :
  wf_net a -> wf_net b -> CIDROverlaps a b = false <-> disjoint a b.
Proof.
  intros Ha Hb. unfold disjoint. rewrite <- not_true_iff_false, CIDROverlaps_common by done.
  split; [intros H ip Hip Hc; apply H; by exists ip|]. intros H (ip & Hip & Hc). by apply (H ip).
Qed.

Lemma firstErr_None {A E} (f : A -> option E) l : firstErr f l = None <-> forall x, x ∈ l -> f x = None.
Proof.
  induction l as [|x l IH]; simpl.
  - split; [intros _ x Hx; by apply not_elem_of_nil in Hx|done].
  - destruct (f x) eqn:E1.
    + split; [done|]. intros H. rewrite H in E1 by left. done.
    + rewrite IH. split; [|intros H y Hy; apply H; by right].
      intros H y [->|Hy]%elem_of_cons; auto.
Qed.

Lemma firstErr_Some {A E} (f : A -> option E) l e :
  firstErr f l = Some e -> exists x, x ∈ l /\ f x = Some e.
Proof.
  induction l as [|x l IH]; simpl; [done|]. destruct (f x) eqn:E1.
  - intros [= <-]. exists x. by split; [left|].
  - intros (y & Hy & Hf)%IH. exists y. by split; [right|].
Qed.

(** What [parseClusters] returns: one entry per CIDR, in order, each parsed. *)
Lemma parseRaws_Ok cluster raws l :
  parseRaws cluster raws = Ok l ->
  Forall pc_wf l /\ pc_raw <$> l = raws /\ Forall (fun c => pc_cluster c = cluster) l.
Proof.
  revert l; induction raws as [|raw raws IH]; intros l; simpl; [intros [= <-]; by repeat constructor|].
  destruct (Netutil.ParseCIDR raw) as [n|] eqn:E; [|done].
  destruct (parseRaws cluster raws) as [l'|]; [|done]. intros [= <-].
  destruct (IH l' eq_refl) as (? & Hr & ?). repeat split.
  - by constructor.
  - by rewrite fmap_cons, Hr.
  - by constructor.
Qed.

(** [c] is the parsed form of a CIDR of one of the clusters. *)
Definition cidr_of (clusters : list ClusterEntry) (c : parsedCIDR) : Prop :=
  pc_wf c /\ exists e, e ∈ clusters /\ entry_Name e = pc_cluster c /\ pc_raw c ∈ AllCIDRs e.

Lemma parseClusters_Ok clusters l :
  parseClusters clusters = Ok l ->
  Forall (cidr_of clusters) l /\
  forall e raw, e ∈ clusters -> raw ∈ AllCIDRs e ->
    exists c, c ∈ l /\ pc_wf c /\ pc_cluster c = entry_Name e /\ pc_raw c = raw.
Proof.
  revert l; induction clusters as [|e clusters IH]; intros l; simpl.
  { intros [= <-]. split; [constructor|]. intros ? ? H. by apply not_elem_of_nil in H. }
  destruct (parseRaws _ _) as [l1|] eqn:E1; [|done].
  destruct (parseClusters clusters) as [l2|]; [|done]. intros [= <-].
  apply parseRaws_Ok in E1 as (Hw & Hr & Hc). destruct (IH l2 eq_refl) as [IH1 IH2]. split.
  - apply Forall_app. split.
    + apply Forall_elem. intros c Hin.
      rewrite Forall_elem in Hw, Hc. split; [by apply Hw|].
      exists e. split; [left|]. split; [symmetry; by apply Hc|].
      rewrite <- Hr. by apply list_elem_of_fmap_2.
    + rewrite Forall_elem in IH1 |- *. intros c [? (e' & ? & ?)]%IH1. split; [done|].
      exists e'. by split; [right|].
  - intros e' raw [->|He]%elem_of_cons Hraw.
    + rewrite <- Hr in Hraw. apply list_elem_of_fmap_1 in Hraw as (c & -> & Hin).
      rewrite Forall_elem in Hw, Hc. exists c. repeat split; auto. apply elem_of_app. by left.
    + destruct (IH2 e' raw He Hraw) as (c & ? & ? & ? & ?). exists c. repeat split; auto.
      apply elem_of_app. by right.
Qed.

(** The pairwise loop: no pair of positions is reported. *)
Definition pairs_ok (P : parsedCIDR -> parsedCIDR -> Prop) (l : list parsedCIDR) : Prop :=
  forall i j a b, l !! i = Some a -> l !! j = Some b -> (i < j)%nat -> P a b.

Lemma pairs_ok_cons P a l : pairs_ok P (a :: l) <-> (forall b, b ∈ l -> P a b) /\ pairs_ok P l.
Proof.
  split.
  - intros H. split.
    + intros b [j Hj]%list_elem_of_lookup. apply (H 0%nat (S j)); [done|done|lia].
    + intros i j x y Hi Hj Hij. apply (H (S i) (S j)); [done|done|lia].
  - intros [Ha Hl] [|i] [|j] x y Hi Hj Hij; simpl in *; try lia.
    + injection Hi as <-. apply Ha. by eapply list_elem_of_lookup_2.
    + apply (Hl i j); [done|done|lia].
Qed.

Lemma checkOverlaps_None l A B :
  checkOverlaps l A B = None <-> pairs_ok (fun a b => checkPair A B a b = None) l.
Proof.
  induction l as [|a l IH]; simpl; [split; [by intros _ ? ?|done]|].
  rewrite pairs_ok_cons, <- IH, <- firstErr_None.
  destruct (firstErr _ l); naive_solver.
Qed.

Lemma checkPair_None A B a b :
  pc_wf a -> pc_wf b ->
  checkPair A B a b = None <->
  (A <> "" /\ A <> B /\ pc_cluster a = pc_cluster b) \/ disjoint (pc_net a) (pc_net b).
Proof.
  intros Ha%pc_wf_net Hb%pc_wf_net. unfold checkPair. rewrite <- overlaps_false_disjoint by done.
  destruct (decide (A <> "" /\ A <> B)) as [HAB|HAB].
  - rewrite (bool_decide_true _ HAB). cbn [andb].
    destruct (decide (pc_cluster a = pc_cluster b)) as [E|E];
      [rewrite (bool_decide_true _ E)|rewrite (bool_decide_false _ E)];
      destruct (CIDROverlaps _ _); simpl; naive_solver.
  - rewrite (bool_decide_false _ HAB). cbn [andb]. destruct (CIDROverlaps _ _); simpl; naive_solver.
Qed.

Lemma checkOverlaps_wf_None l A B :
  Forall pc_wf l ->
  checkOverlaps l A B = None <->
  pairs_ok (fun a b => (A <> "" /\ A <> B /\ pc_cluster a = pc_cluster b) \/
                       disjoint (pc_net a) (pc_net b)) l.
Proof.
  intros Hw. rewrite checkOverlaps_None. rewrite Forall_elem in Hw.
  split; intros H i j a b Hi Hj Hij; specialize (H i j a b Hi Hj Hij);
    by apply checkPair_None in H || apply checkPair_None;
    eauto using list_elem_of_lookup_2.
Qed.

Lemma cluster_networks_ok clusters :
  ValidateClusterNetworks clusters = None <->
  exists cidrs, parseClusters clusters = Ok cidrs /\
    pairs_ok (fun a b => disjoint (pc_net a) (pc_net b)) cidrs.
Proof.
  unfold ValidateClusterNetworks. destruct (parseClusters clusters) as [l|] eqn:E.
  - assert (Hw : Forall pc_wf l).
    { apply parseClusters_Ok in E as [H _]. rewrite Forall_elem in H |- *. intros c Hc. by apply H. }
    rewrite checkOverlaps_wf_None by done. split.
    + intros H. exists l. split; [done|]. intros i j a b Hi Hj Hij.
      by destruct (H i j a b Hi Hj Hij) as [[? _]|?].
    + intros (l' & [= <-] & H) i j a b Hi Hj Hij. right. eauto.
  - split; [done|]. by intros (? & ? & _).
Qed.

(** [ValidateClusterNetworks] accepts a mesh exactly when every CIDR of every
    cluster parses and any two CIDRs at different positions of the flattened list,
    of the same cluster or of two clusters, share no address. *)
Theorem ValidateClusterNetworks_disjoint clusters :
  ValidateClusterNetworks clusters = None <->
  exists cidrs, parseClusters clusters = Ok cidrs /\
    forall i j a b, cidrs !! i = Some a -> cidrs !! j = Some b -> (i < j)%nat ->
      disjoint (pc_net a) (pc_net b).
Proof. apply cluster_networks_ok. Qed.

Lemma pairs_ok_app P l1 l2 :
  pairs_ok P (l1 ++ l2) <-> pairs_ok P l1 /\ pairs_ok P l2 /\ forall a b, a ∈ l1 -> b ∈ l2 -> P a b.
Proof.
  induction l1 as [|x l1 IH]; simpl.
  - split; [|by intros (_ & ? & _)]. intros H. split; [by intros ? ?|]. split; [done|].
    intros a b Ha. by apply not_elem_of_nil in Ha.
  - rewrite !pairs_ok_cons, IH. setoid_rewrite elem_of_app. setoid_rewrite elem_of_cons.
    split; [|naive_solver]. intros (H1 & H2 & H3 & H4). repeat split; auto.
    intros a b [->|Ha] Hb; auto.
Qed.

(** Two meshes agree: clusters of different names share no address. *)
Definition meshes_compatible (m1 m2 : ClusterMesh) : Prop :=
  forall e1 e2 r1 r2 n1 n2,
    e1 ∈ mesh_Clusters m1 -> e2 ∈ mesh_Clusters m2 -> entry_Name e1 <> entry_Name e2 ->
    r1 ∈ AllCIDRs e1 -> r2 ∈ AllCIDRs e2 ->
    Netutil.ParseCIDR r1 = Ok n1 -> Netutil.ParseCIDR r2 = Ok n2 -> disjoint n1 n2.

Lemma check_two_meshes m1 m2 l1 l2 :
  ValidateClusterNetworks (mesh_Clusters m1) = None ->
  ValidateClusterNetworks (mesh_Clusters m2) = None ->
  parseClusters (mesh_Clusters m1) = Ok l1 -> parseClusters (mesh_Clusters m2) = Ok l2 ->
  mesh_Name m1 <> "" -> mesh_Name m1 <> mesh_Name m2 ->
  checkOverlaps (l1 ++ l2) (mesh_Name m1) (mesh_Name m2) = None <-> meshes_compatible m1 m2.
Proof.
  intros (l1' & Hp1 & Hd1)%cluster_networks_ok (l2' & Hp2 & Hd2)%cluster_networks_ok E1 E2 Hn1 Hn12.
  rewrite E1 in Hp1; injection Hp1 as <-. rewrite E2 in Hp2; injection Hp2 as <-.
  apply parseClusters_Ok in E1 as [W1 F1]. apply parseClusters_Ok in E2 as [W2 F2].
  rewrite Forall_elem in W1, W2. rewrite checkOverlaps_wf_None.
  2:{ apply Forall_elem. intros c [Hc|Hc]%elem_of_app; [by apply W1|by apply W2]. }
  rewrite pairs_ok_app. split.
  - intros (_ & _ & H) e1 e2 r1 r2 n1 n2 He1 He2 Hne Hr1 Hr2 P1 P2.
    destruct (F1 e1 r1 He1 Hr1) as (c1 & Hc1 & Hw1 & Hcl1 & Hraw1).
    destruct (F2 e2 r2 He2 Hr2) as (c2 & Hc2 & Hw2 & Hcl2 & Hraw2).
    unfold pc_wf in Hw1, Hw2. rewrite Hraw1, P1 in Hw1. rewrite Hraw2, P2 in Hw2.
    injection Hw1 as ->. injection Hw2 as ->.
    destruct (H c1 c2 Hc1 Hc2) as [(_ & _ & ?)|?]; [congruence|done].
  - intros H. split; [|split]; [intros i j a b Hi Hj Hij; right; eauto..|].
    intros a b Ha Hb. destruct (decide (pc_cluster a = pc_cluster b)); [by left|right].
    destruct (W1 a Ha) as (Hwa & e1 & He1 & Hn & Hr1). destruct (W2 b Hb) as (Hwb & e2 & He2 & Hn' & Hr2).
    eapply (H e1 e2); eauto; congruence.
Qed.

Lemma parseMeshes_Ok meshes :
  (forall m, m ∈ meshes -> ValidateClusterNetworks (mesh_Clusters m) = None) ->
  exists l, parseMeshes meshes = Ok l /\
    Forall2 (fun m p => p.1 = mesh_Name m /\ parseClusters (mesh_Clusters m) = Ok p.2) meshes l.
Proof.
  induction meshes as [|m meshes IH]; intros H; simpl; [by exists []; split; [|constructor]|].
  destruct (proj1 (cluster_networks_ok _) (H m ltac:(left))) as (l & El & _). rewrite El.
  destruct IH as (l' & -> & HF); [intros m' Hm'; apply H; by right|].
  eexists. split; [done|]. by constructor.
Qed.

Lemma checkMeshPairs_None meshes l :
  (forall m, m ∈ meshes -> ValidateClusterNetworks (mesh_Clusters m) = None /\ mesh_Name m <> "") ->
  NoDup (mesh_Name <$> meshes) ->
  Forall2 (fun m p => p.1 = mesh_Name m /\ parseClusters (mesh_Clusters m) = Ok p.2) meshes l ->
  checkMeshPairs l = None <->
  forall i j m1 m2, meshes !! i = Some m1 -> meshes !! j = Some m2 -> (i < j)%nat -> meshes_compatible m1 m2.
Proof.
  intros Hv Hnd HF. induction HF as [|m [n c] meshes l [Hn Hc] HF IH]; [by split; [intros _ ? ?|]|].
  simpl in *. subst n. apply list.NoDup_cons in Hnd as [Hnot Hnd].
  assert (Hhead : firstErr (fun '(nameJ, cidrsJ) => checkOverlaps (c ++ cidrsJ) (mesh_Name m) nameJ) l = None <->
                  forall m2, m2 ∈ meshes -> meshes_compatible m m2).
  { rewrite firstErr_None. clear IH. destruct (Hv m ltac:(left)) as [Hvm Hnm]. split.
    - intros H m2 [j Hj]%list_elem_of_lookup.
      destruct (Forall2_lookup_l _ _ _ _ _ HF Hj) as ([n2 c2] & Hlj & [Hn2 Hc2]). simpl in Hn2, Hc2. subst n2.
      destruct (Hv m2) as [Hvm2 _]; [right; by eapply list_elem_of_lookup_2|].
      eapply check_two_meshes; eauto; [|by apply (H (_, _)); eapply list_elem_of_lookup_2].
      intros E. apply Hnot. rewrite E. by eapply list_elem_of_fmap_2, list_elem_of_lookup_2.
    - intros H [n2 c2] [j Hj]%list_elem_of_lookup.
      destruct (Forall2_lookup_r _ _ _ _ _ HF Hj) as (m2 & Hmj & [Hn2 Hc2]). simpl in *. subst n2.
      destruct (Hv m2) as [Hvm2 _]; [right; by eapply list_elem_of_lookup_2|].
      apply check_two_meshes; eauto; [|by eapply H, list_elem_of_lookup_2].
      intros E. apply Hnot. rewrite E. by eapply list_elem_of_fmap_2, list_elem_of_lookup_2. }
  destruct (firstErr _ l) as [e|].
  - split; [done|]. intros H. exfalso. assert (Hx : Some e = None); [|discriminate Hx].
    apply Hhead. intros m2 [j Hj]%list_elem_of_lookup. apply (H 0%nat (S j)); [done|done|lia].
  - rewrite IH by (done || intros m' Hm'; apply Hv; by right). split.
    + intros H [|i] [|j] m1 m2 Hi Hj Hij; simpl in *; try lia.
      * injection Hi as <-. apply (proj1 Hhead eq_refl). by eapply list_elem_of_lookup_2.
      * apply (H i j); [done|done|lia].
    + intros H i j m1 m2 Hi Hj Hij. apply (H (S i) (S j)); [done|done|lia].
Qed.

(** C25. [ValidateMeshNetworks] accepts a set of meshes, listed under distinct
    non-empty names, exactly when each mesh is accepted by itself and, across two
    meshes, clusters of different names share no address. Clusters of the same
    name, a hub listed in several meshes, are exempt, as the comment of
    [checkOverlaps] asks; docs/troubleshooting.md and docs/configuration.md say
    instead that any network of two meshes is reported as an overlap. *)
Theorem ValidateMeshNetworks_compatible meshes :
  NoDup (mesh_Name <$> meshes) -> (forall m, m ∈ meshes -> mesh_Name m <> "") ->
  ValidateMeshNetworks meshes = None <->
  (forall m, m ∈ meshes -> ValidateClusterNetworks (mesh_Clusters m) = None) /\
  forall i j m1 m2, meshes !! i = Some m1 -> meshes !! j = Some m2 -> (i < j)%nat ->
    meshes_compatible m1 m2.
Proof.
  intros Hnd Hne. unfold ValidateMeshNetworks.
  assert (H1 : firstErr (fun m => InMesh (mesh_Name m) <$> ValidateClusterNetworks (mesh_Clusters m)) meshes = None
          <-> forall m, m ∈ meshes -> ValidateClusterNetworks (mesh_Clusters m) = None).
  { rewrite firstErr_None. split; intros H m Hm; specialize (H m Hm); by destruct (ValidateClusterNetworks _). }
  destruct (firstErr _ meshes) as [e|].
  - split; [done|]. intros [H _]. apply H1 in H. done.
  - pose proof (proj1 H1 eq_refl) as Hall. destruct (parseMeshes_Ok meshes Hall) as (l & -> & HF).
    rewrite (checkMeshPairs_None meshes l) by (done || auto). split; [done|]. by intros [_ ?].
Qed.

(** ** Concrete instances *)

Definition example_entry (name cidr : string) : ClusterEntry := mkClusterEntry name false None [cidr] 51820 0.
Definition example_mesh (name : string) (entries : list ClusterEntry) : ClusterMesh :=
  mkClusterMesh "ns" name 1 false [] entries [] [].
Definition example_meshes : list ClusterMesh :=
  [example_mesh "m1" [example_entry "hub" "10.0.0.0/16"; example_entry "a" "10.1.0.0/16"];
   example_mesh "m2" [example_entry "hub" "10.0.0.0/16"; example_entry "b" "10.2.0.0/16"]].

Lemma ValidateMeshNetworks_compatible_witness :
  ValidateMeshNetworks example_meshes = None /\
  forall m1 m2, example_meshes !! 0%nat = Some m1 -> example_meshes !! 1%nat = Some m2 -> meshes_compatible m1 m2.
Proof.
  assert (Hv : ValidateMeshNetworks example_meshes = None) by reflexivity. split; [exact Hv|].
  intros m1 m2 H1 H2. apply ValidateMeshNetworks_compatible in Hv as [_ Hc].
  - apply (Hc 0%nat 1%nat); [exact H1|exact H2|lia].
  - apply (bool_decide_unpack (NoDup (mesh_Name <$> example_meshes))). reflexivity.
  - intros m Hm. cbn in Hm. repeat (apply elem_of_cons in Hm as [->|Hm]; [discriminate|]). by apply not_elem_of_nil in Hm.
Defined.
