(* ===== verification/ValidationNode.v ===== *)
(** * [internal/validation/node.go]: node eligibility

    [ValidateNode] with its four checks and [FindDuplicateWGIPs]. A Go result
    [(true, reason, message)] is [Some reason], [(false, "", "")] is [None];
    the human-readable message is not kept. *)

From Stdlib Require Import String.
From S2P Require Import Prelude GoStrings GoNet GoNetFacts GoNetPrint Netutil Types Kilonode.
Open Scope Z_scope.

(** ** Skip reasons *)

(** The Go type is a string; [OtherReason] stands for every string that is not
    one of the nine constants (the empty reason of a node that passes, or a
    reason added later). *)
Inductive NodeSkipReason : Type :=
| ReasonNoPodCIDR
| ReasonPodCIDROutOfRange
| ReasonNoWireguardIP
| ReasonWGIPInvalid
| ReasonWGIPOutOfRange
| ReasonWGIPDuplicate
| ReasonNoPublicKey
| ReasonNoEndpoint
| ReasonEndpointInvalid
| OtherReason (s : string).

#[export] Instance NodeSkipReason_eq_dec : EqDecision NodeSkipReason.
Proof. solve_decision. Defined.

Definition IsTransient (reason : NodeSkipReason) : bool :=
  match reason with
  | ReasonNoPodCIDR | ReasonNoWireguardIP | ReasonNoPublicKey | ReasonNoEndpoint => true
  | ReasonPodCIDROutOfRange | ReasonWGIPInvalid | ReasonWGIPOutOfRange
  | ReasonWGIPDuplicate | ReasonEndpointInvalid => false
  | OtherReason _ => false
  end.

(** ** Checks *)

(** The loop over [entry.AllowedNetworks] shared by the two range checks:
    entries that do not parse are skipped, the first hit ends the loop. *)
Fixpoint anyNetwork (hit : IPNet -> bool) (networks : list string) : bool :=
  match networks with
  | [] => false
  | networkStr :: rest =>
      match Netutil.ParseCIDR networkStr with
      | Err _ => anyNetwork hit rest
      | Ok network => if hit network then true else anyNetwork hit rest
      end
  end.

Definition validatePodCIDR (node : Node) (entry : ClusterEntry) : option NodeSkipReason :=
  match node_PodCIDRs node with
  | [] => Some ReasonNoPodCIDR
  | first :: _ =>
      match Netutil.ParseCIDR first with
      | Err _ => Some ReasonNoPodCIDR
      | Ok nodeCIDR =>
          if anyNetwork (fun clusterCIDR => CIDRContains clusterCIDR nodeCIDR) (entry_AllowedNetworks entry)
          then None else Some ReasonPodCIDROutOfRange
      end
  end.

Definition validateWireguardIP (node : Node) (entry : ClusterEntry) : option NodeSkipReason :=
  let wgIP := annotation node AnnotationWireguardIP in
  if decide (wgIP = "") then Some ReasonNoWireguardIP
  else
    match ParseHostInCIDR wgIP with
    | Err _ => Some ReasonWGIPInvalid
    | Ok (hostIP, _) =>
        if anyNetwork (fun network => Contains network hostIP) (entry_AllowedNetworks entry)
        then None else Some ReasonWGIPOutOfRange
    end.

Definition validatePublicKey (node : Node) : option NodeSkipReason :=
  if decide (annotation node AnnotationPublicKey = "") then Some ReasonNoPublicKey else None.

Definition validateEndpoint (node : Node) (entry : ClusterEntry) : option NodeSkipReason :=
  match ResolveEndpoint node (entry_WireguardPort entry) with
  | Err _ => Some ReasonEndpointInvalid
  | Ok _ => None
  end.

Definition ValidateNode (node : Node) (entry : ClusterEntry) : option NodeSkipReason :=
  match validatePodCIDR node entry with
  | Some reason => Some reason
  | None =>
      match validateWireguardIP node entry with
      | Some reason => Some reason
      | None =>
          match validatePublicKey node with
          | Some reason => Some reason
          | None => validateEndpoint node entry
          end
      end
  end.

(** ** Duplicate WireGuard addresses *)

Definition normalizeWGIPKey (wgIP : string) : string :=
  match ParseHostInCIDR wgIP with
  | Err _ => wgIP
  | Ok (hostIP, _) => IP_String hostIP
  end.

(** One iteration of [FindDuplicateWGIPs]: the maps [seen] and [duplicates]. *)
Definition findDuplicateStep (st : gmap string string * gmap string NodeSkipReason) (node : Node)
    : gmap string string * gmap string NodeSkipReason :=
  let '(seen, duplicates) := st in
  let wgIP := annotation node AnnotationWireguardIP in
  if decide (wgIP = "") then (seen, duplicates)
  else
    let key := normalizeWGIPKey wgIP in
    match seen !! key with
    | Some _ => (seen, <[node_Name node := ReasonWGIPDuplicate]> duplicates)
    | None => (<[key := node_Name node]> seen, duplicates)
    end.

Definition FindDuplicateWGIPs (nodes : list Node) : gmap string NodeSkipReason :=
  (foldl findDuplicateStep (∅, ∅) nodes).2.

(** ** Properties of [ValidateNode] *)

Lemma anyNetwork_true hit networks :
  anyNetwork hit networks = true <->
  exists raw net, raw ∈ networks /\ Netutil.ParseCIDR raw = Ok net /\ hit net = true.
Proof.
  induction networks as [|r rs IH]; simpl.
  - split; [done|]. intros (? & ? & H & _). by apply not_elem_of_nil in H.
  - setoid_rewrite elem_of_cons. destruct (Netutil.ParseCIDR r) as [n|] eqn:E.
    + destruct (hit n) eqn:Hh; [split; [|done]; intros _; exists r, n; auto|].
      rewrite IH. split; [naive_solver|]. intros (raw & net & [->|?] & ? & ?); [congruence|eauto].
    + rewrite IH. split; [naive_solver|]. intros (raw & net & [->|?] & ? & ?); [congruence|eauto].
Qed.

(** What makes a node eligible. *)
Record eligible (node : Node) (entry : ClusterEntry) : Prop := {
  el_pod : exists first rest podNet, node_PodCIDRs node = first :: rest /\
    Netutil.ParseCIDR first = Ok podNet /\
    exists raw net, raw ∈ entry_AllowedNetworks entry /\ Netutil.ParseCIDR raw = Ok net /\
                    CIDRContains net podNet = true;
  el_wg : exists hostIP wgNet, ParseHostInCIDR (annotation node AnnotationWireguardIP) = Ok (hostIP, wgNet) /\
    exists raw net, raw ∈ entry_AllowedNetworks entry /\ Netutil.ParseCIDR raw = Ok net /\
                    Contains net hostIP = true;
  el_key : annotation node AnnotationPublicKey <> "";
  (* no endpoint annotation at all is in order: a roaming peer *)
  el_ep : winning_annotation node <> "" -> valid_endpoint (winning_annotation node);
}.

(** Resolution only fails on an endpoint annotation. *)
Lemma ResolveEndpoint_resolves node port :
  (winning_annotation node <> "" -> valid_endpoint (winning_annotation node)) <->
  exists ep, ResolveEndpoint node port = Ok ep.
Proof.
  unfold winning_annotation, ResolveEndpoint. rewrite <- validateHostPort_iff.
  case_decide as H1; [|case_decide as H2].
  - destruct (validateHostPort _) as [[]|]; [split; eauto|]. split; [by intros H; discriminate (H H1)|by intros [? ?]].
  - destruct (validateHostPort _) as [[]|]; [split; eauto|]. split; [by intros H; discriminate (H H2)|by intros [? ?]].
  - split; [eauto|]. intros _ H. by destruct H2.
Qed.

Lemma validatePodCIDR_None node entry :
  validatePodCIDR node entry = None <->
  exists first rest podNet, node_PodCIDRs node = first :: rest /\
    Netutil.ParseCIDR first = Ok podNet /\
    exists raw net, raw ∈ entry_AllowedNetworks entry /\ Netutil.ParseCIDR raw = Ok net /\
                    CIDRContains net podNet = true.
Proof.
  unfold validatePodCIDR. destruct (node_PodCIDRs node) as [|f r]; [split; [done|by intros (? & ? & ? & ? & _)]|].
  destruct (Netutil.ParseCIDR f) as [pn|] eqn:E;
    [|split; [done|]; intros (? & ? & ? & [= <- <-] & ? & _); congruence].
  pose proof (anyNetwork_true (fun c => CIDRContains c pn) (entry_AllowedNetworks entry)) as H.
  destruct (anyNetwork _ _).
  - split; [|done]. intros _. exists f, r, pn. split; [done|]. split; [done|]. by apply H.
  - split; [done|]. intros (f' & r' & pn' & [= <- <-] & E' & Hx).
    rewrite E in E'. injection E' as <-. by apply H in Hx.
Qed.

Lemma validateWireguardIP_None node entry :
  validateWireguardIP node entry = None <->
  exists hostIP wgNet, ParseHostInCIDR (annotation node AnnotationWireguardIP) = Ok (hostIP, wgNet) /\
    exists raw net, raw ∈ entry_AllowedNetworks entry /\ Netutil.ParseCIDR raw = Ok net /\
                    Contains net hostIP = true.
Proof.
  unfold validateWireguardIP. case_decide as Hw; [rewrite Hw; split; [done|]; by intros (? & ? & ? & _)|].
  destruct (ParseHostInCIDR _) as [[ip wn]|] eqn:E; [|split; [done|by intros (? & ? & ? & _)]].
  pose proof (anyNetwork_true (fun c => Contains c ip) (entry_AllowedNetworks entry)) as H.
  destruct (anyNetwork _ _).
  - split; [|done]. intros _. exists ip, wn. split; [done|]. by apply H.
  - split; [done|]. intros (ip' & wn' & [= <- <-] & Hx). by apply H in Hx.
Qed.

Lemma ValidateNode_None node entry : ValidateNode node entry = None <-> eligible node entry.
Proof.
  unfold ValidateNode.
  pose proof (validatePodCIDR_None node entry) as H1. pose proof (validateWireguardIP_None node entry) as H2.
  destruct (validatePodCIDR node entry) as [r|].
  { split; [done|]. intros [Hp _ _ _]. by apply H1 in Hp. }
  destruct (validateWireguardIP node entry) as [r|].
  { split; [done|]. intros [_ Hw _ _]. by apply H2 in Hw. }
  unfold validatePublicKey, validateEndpoint. case_decide; [split; [done|by intros []]|].
  destruct (ResolveEndpoint _ _) as [ep|] eqn:E.
  - split; [|done]. intros _. constructor; [by apply H1|by apply H2|done|].
    apply (ResolveEndpoint_resolves node (entry_WireguardPort entry)). eauto.
  - split; [done|]. intros [_ _ _ Hep]. apply (ResolveEndpoint_resolves node (entry_WireguardPort entry)) in Hep as [ep Hep]. congruence.
Qed.

(** C26. [ValidateNode] accepts a node exactly when: its first PodCIDR parses and
    is reported contained in an AllowedNetworks entry; its WireGuard annotation
    parses, with any prefix length, to a host address inside an AllowedNetworks
    entry; it has a public key; and the endpoint annotation that takes precedence, if
    the node has one, is ["host:port"]. AllowedNetworks entries that do not parse are
    ignored. A node without any endpoint is accepted, as a roaming peer: no node is
    ever skipped for having none, although the documents say so. *)
Theorem ValidateNode_accepts_iff_eligible node entry :
  (ValidateNode node entry = None <-> eligible node entry) /\
  ValidateNode node entry <> Some ReasonNoEndpoint.
Proof.
  split; [apply ValidateNode_None|]. unfold ValidateNode, validatePodCIDR, validateWireguardIP, validatePublicKey, validateEndpoint.
  destruct (node_PodCIDRs node) as [|f r]; [done|]. destruct (Netutil.ParseCIDR f) as [pn|]; [|done].
  destruct (anyNetwork (fun c => CIDRContains c pn) _); [|done]. case_decide; [done|].
  destruct (ParseHostInCIDR _) as [[ip wn]|]; [|done]. destruct (anyNetwork _ _); [|done].
  case_decide; [done|]. by destruct (ResolveEndpoint _ _).
Qed.

(** Something a later reconcile may find: a node controller or the Kilo daemon
    has not written it yet. *)
Definition bootstrap_pending (node : Node) : Prop :=
  node_PodCIDRs node = [] \/
  annotation node AnnotationWireguardIP = "" \/
  annotation node AnnotationPublicKey = "".

(** The retry decision is right for nodes that carry a parsable PodCIDR (or
    none): a skip reason is transient exactly when the check stopped at data that
    is still missing. A reason classified as permanent is therefore never caused
    by missing data, and no transient reason hides a malformed value. *)
Theorem IsTransient_iff_missing_data node entry reason :
  (forall first rest, node_PodCIDRs node = first :: rest -> is_ok (Netutil.ParseCIDR first) = true) ->
  ValidateNode node entry = Some reason ->
  (IsTransient reason = true -> bootstrap_pending node) /\
  (IsTransient reason = false ->
     node_PodCIDRs node <> [] /\
     (reason = ReasonPodCIDROutOfRange \/
      annotation node AnnotationWireguardIP <> "" /\
        (reason = ReasonWGIPInvalid \/ reason = ReasonWGIPOutOfRange \/
         annotation node AnnotationPublicKey <> "" /\ reason = ReasonEndpointInvalid))).
Proof.
  intros Hpod. unfold ValidateNode, validatePodCIDR, validateWireguardIP, validatePublicKey,
    validateEndpoint, bootstrap_pending.
  destruct (node_PodCIDRs node) as [|f r]; [intros [= <-]; split; intros ?; solve [done|auto 12]|].
  specialize (Hpod f r eq_refl). destruct (Netutil.ParseCIDR f) as [pn|]; [|done].
  destruct (anyNetwork (fun c => CIDRContains c pn) _); [|intros [= <-]; split; intros ?; solve [done|auto 12]].
  case_decide; [intros [= <-]; split; intros ?; solve [done|auto 12]|].
  destruct (ParseHostInCIDR _) as [[ip wn]|]; [|intros [= <-]; split; intros ?; solve [done|auto 12]].
  destruct (anyNetwork _ _); [|intros [= <-]; split; intros ?; solve [done|auto 12]].
  case_decide; [intros [= <-]; split; intros ?; solve [done|auto 12]|].
  destruct (ResolveEndpoint _ _); [done|]. intros [= <-]; split; intros ?; solve [done|auto 12].
Qed.

(** ** Properties of [FindDuplicateWGIPs] *)

(** The deduplication key of a node, if it has a WireGuard annotation. *)
Definition wg_key (node : Node) : option string :=
  let wgIP := annotation node AnnotationWireguardIP in
  if decide (wgIP = "") then None else Some (normalizeWGIPKey wgIP).

Lemma findDuplicateStep_key st node :
  findDuplicateStep st node =
  match wg_key node with
  | None => st
  | Some key => match st.1 !! key with
                | Some _ => (st.1, <[node_Name node := ReasonWGIPDuplicate]> st.2)
                | None => (<[key := node_Name node]> st.1, st.2)
                end
  end.
Proof. destruct st as [s d]. unfold findDuplicateStep, wg_key. by case_decide. Qed.

(** The loop invariant: [seen] holds the keys of the nodes visited. *)
Lemma findDuplicate_seen nodes st k :
  is_Some ((foldl findDuplicateStep st nodes).1 !! k) <->
  is_Some (st.1 !! k) \/ exists n, n ∈ nodes /\ wg_key n = Some k.
Proof.
  revert st; induction nodes as [|n nodes IH]; intros st; simpl.
  - split; [by left|]. intros [?|(? & H & _)]; [done|by apply not_elem_of_nil in H].
  - rewrite IH, findDuplicateStep_key. setoid_rewrite elem_of_cons.
    destruct (wg_key n) as [key|] eqn:Ek; [|naive_solver].
    destruct (st.1 !! key) eqn:Es; simpl; [|rewrite lookup_insert_is_Some'; naive_solver].
    split; [naive_solver|]. intros [?|(n' & [->|?] & ?)]; simplify_eq; eauto.
Qed.

(** A name enters [duplicates] when its node's key was seen before. *)
Lemma findDuplicate_dups nodes st x :
  is_Some ((foldl findDuplicateStep st nodes).2 !! x) <->
  is_Some (st.2 !! x) \/
  exists i n k, nodes !! i = Some n /\ node_Name n = x /\ wg_key n = Some k /\
    (is_Some (st.1 !! k) \/ exists i' n', (i' < i)%nat /\ nodes !! i' = Some n' /\ wg_key n' = Some k).
Proof.
  induction nodes as [|n nodes IH] using rev_ind; simpl.
  { split; [by left|]. by intros [?|(? & ? & ? & ? & _)]. }
  rewrite foldl_snoc, findDuplicateStep_key.
  pose proof (findDuplicate_seen nodes st) as Hseen.
  set (st' := foldl findDuplicateStep st nodes) in *.
  assert (Hold : forall Q, (is_Some (st.2 !! x) \/ exists i n k, nodes !! i = Some n /\ node_Name n = x /\
      wg_key n = Some k /\ (is_Some (st.1 !! k) \/ exists i' n', (i' < i)%nat /\ nodes !! i' = Some n' /\ wg_key n' = Some k)) \/ Q <->
      is_Some (st'.2 !! x) \/ Q) by (intros Q; by rewrite IH).
  assert (Hsnoc : is_Some (st.2 !! x) \/
    (exists i m k, (nodes ++ [n]) !! i = Some m /\ node_Name m = x /\ wg_key m = Some k /\
      (is_Some (st.1 !! k) \/ exists i' n', (i' < i)%nat /\ (nodes ++ [n]) !! i' = Some n' /\ wg_key n' = Some k)) <->
    is_Some (st'.2 !! x) \/ (node_Name n = x /\ exists k, wg_key n = Some k /\ is_Some (st'.1 !! k))).
  { rewrite <- Hold. clear Hold IH. split.
    - intros [?|(i & m & k & Hi & Hx & Hk & Hc)]; [by do 2 left|].
      assert (Hc' : is_Some (st.1 !! k) \/ exists i' n', (i' < i)%nat /\ nodes !! i' = Some n' /\ wg_key n' = Some k).
      { destruct Hc as [?|(i' & n' & Hlt & Hi' & Hk')]; [by left|right]. exists i', n'. split; [done|]. split; [|done].
        apply lookup_app_Some in Hi' as [?|[Hge Hi']]; [done|]. apply lookup_lt_Some in Hi.
        rewrite length_app in Hi. simpl in Hi. lia. }
      apply lookup_app_Some in Hi as [Hi|[Hge Hi]].
      + left; right. by exists i, m, k.
      + apply list_lookup_singleton_Some in Hi as [_ <-]. right. split; [done|]. exists k. split; [done|].
        apply Hseen. destruct Hc' as [?|(i' & n' & _ & Hi' & ?)]; [by left|right].
        exists n'. split; [by eapply list_elem_of_lookup_2|done].
    - intros [[?|(i & m & k & Hi & Hx & Hk & Hc)]|(Hx & k & Hk & Hs)]; [by left|right..].
      + exists i, m, k. split; [by apply lookup_app_l_Some|]. do 2 (split; [done|]).
        destruct Hc as [?|(i' & n' & ? & ? & ?)]; [by left|right]. exists i', n'. auto using lookup_app_l_Some.
      + exists (length nodes), n, k. split; [by apply list_lookup_middle|]. do 2 (split; [done|]).
        apply Hseen in Hs as [?|(n' & [i' Hi']%list_elem_of_lookup & ?)]; [by left|right].
        exists i', n'. split; [by eapply lookup_lt_Some|]. by split; [apply lookup_app_l_Some|]. }
  rewrite Hsnoc. clear -st'. destruct (wg_key n) as [k|]; [|naive_solver].
  destruct (st'.1 !! k) eqn:E; simpl.
  - rewrite lookup_insert_is_Some'. naive_solver.
  - split; [by left|]. intros [?|(_ & k' & [= <-] & [? ?])]; [done|]. congruence.
Qed.

Lemma findDuplicate_reason nodes st x r :
  (forall y q, st.2 !! y = Some q -> q = ReasonWGIPDuplicate) ->
  (foldl findDuplicateStep st nodes).2 !! x = Some r -> r = ReasonWGIPDuplicate.
Proof.
  revert st; induction nodes as [|n nodes IH]; intros st Hst; simpl; [by apply Hst|].
  apply IH. rewrite findDuplicateStep_key. destruct (wg_key n); [|done].
  destruct (st.1 !! _); simpl; [|done]. intros y q. rewrite lookup_insert_Some. naive_solver.
Qed.

Lemma FindDuplicateWGIPs_spec nodes x r :
  FindDuplicateWGIPs nodes !! x = Some r <->
  r = ReasonWGIPDuplicate /\
  exists i j a b k, (i < j)%nat /\ nodes !! i = Some a /\ nodes !! j = Some b /\ node_Name b = x /\
    wg_key a = Some k /\ wg_key b = Some k.
Proof.
  pose proof (findDuplicate_dups nodes (∅, ∅) x) as H. unfold FindDuplicateWGIPs. simpl in H.
  split.
  - intros Hx. split; [by eapply (findDuplicate_reason nodes (∅, ∅)); [|done]|].
    destruct (proj1 H (ex_intro _ _ Hx)) as [Hn|(j & b & k & Hj & Hb & Hkb & [Hn|(i & a & Hij & Hi & Hka)])].
    + rewrite lookup_empty in Hn. by destruct Hn.
    + rewrite lookup_empty in Hn. by destruct Hn.
    + by exists i, j, a, b, k.
  - intros (-> & i & j & a & b & k & Hij & Hi & Hj & Hb & Hka & Hkb).
    destruct (proj2 H) as [q Hq].
    { right. exists j, b, k. do 3 (split; [done|]). right. by exists i, a. }
    rewrite Hq. f_equal. by eapply (findDuplicate_reason nodes (∅, ∅)); [|done].
Qed.

(** Among nodes listed under distinct names, [FindDuplicateWGIPs] reports a
    node exactly when an earlier node of the list has the same WireGuard key: the
    first node of each key is kept, all later ones are reported, and a node
    without the annotation is never reported. *)
Theorem FindDuplicateWGIPs_keeps_first nodes j b :
  NoDup (node_Name <$> nodes) -> nodes !! j = Some b ->
  FindDuplicateWGIPs nodes !! node_Name b = Some ReasonWGIPDuplicate <->
  exists i a k, (i < j)%nat /\ nodes !! i = Some a /\ wg_key a = Some k /\ wg_key b = Some k.
Proof.
  intros Hnd Hj. rewrite FindDuplicateWGIPs_spec. split; [|naive_solver].
  intros (_ & i & j' & a & b' & k & Hij & Hi & Hj' & Hn & Hka & Hkb).
  assert (j' = j) as ->.
  { eapply (NoDup_lookup _ _ _ (node_Name b) Hnd); rewrite list_lookup_fmap; [by rewrite Hj'; simpl; f_equal|by rewrite Hj]. }
  rewrite Hj in Hj'. injection Hj' as <-. by exists i, a, k.
Qed.

Lemma length_To4 ip b : (length ip = 4 \/ length ip = 16)%nat -> To4 ip = Some b -> length b = 4%nat.
Proof. unfold To4. intros Hl H. repeat case_decide; simplify_eq; [done|]. rewrite length_drop. lia. Qed.

Lemma IP_String_inj a b : ip_ok a -> ip_ok b -> IP_String a = IP_String b <-> norm a = norm b.
Proof.
  intros Ha Hb. split; intros H.
  - pose proof (ParseAddr_IP_String a Ha) as Ea. rewrite H, ParseAddr_IP_String in Ea by done.
    injection Ea as E. rewrite <- (norm_As16_addr_of a), <- (norm_As16_addr_of b) by done. by rewrite E.
  - unfold norm in H. destruct Ha as [_ La], Hb as [_ Lb]. unfold IP_String.
    rewrite !decide_False by lia.
    destruct (To4 a) as [a4|] eqn:Ea, (To4 b) as [b4|] eqn:Eb; simpl in H; [by subst| | |by subst].
    + exfalso. apply length_To4 in Ea; [|lia]. unfold To4 in Eb. rewrite decide_True in Eb by congruence. done.
    + exfalso. apply length_To4 in Eb; [|lia]. unfold To4 in Ea. rewrite decide_True in Ea by congruence. done.
Qed.

Lemma same_host_duplicate nodes i j a b ipA netA ipB netB :
  (i < j)%nat -> nodes !! i = Some a -> nodes !! j = Some b ->
  ParseHostInCIDR (annotation a AnnotationWireguardIP) = Ok (ipA, netA) ->
  ParseHostInCIDR (annotation b AnnotationWireguardIP) = Ok (ipB, netB) ->
  norm ipA = norm ipB ->
  FindDuplicateWGIPs nodes !! node_Name b = Some ReasonWGIPDuplicate.
Proof.
  intros Hij Hi Hj Ha Hb Hn. apply FindDuplicateWGIPs_spec. split; [done|].
  exists i, j, a, b, (IP_String ipA). do 4 (split; [done|]).
  assert (Hk : forall n ip net, ParseHostInCIDR (annotation n AnnotationWireguardIP) = Ok (ip, net) ->
    wg_key n = Some (IP_String ip)).
  { intros n ip net H. unfold wg_key, normalizeWGIPKey. rewrite H.
    rewrite decide_False; [done|]. intros E. by rewrite E in H. }
  rewrite (Hk a ipA netA), (Hk b ipB netB) by done. split; [done|].
  f_equal. apply IP_String_inj;
    [by apply (ParseHostInCIDR_ok _ _ _ Hb)|by apply (ParseHostInCIDR_ok _ _ _ Ha)|done].
Qed.

(** Two nodes whose WireGuard annotations denote the same host address, with
    the same or with different prefix lengths and in any textual form, do not both
    survive: the later one is reported as a duplicate. *)
Theorem FindDuplicateWGIPs_same_host nodes i j a b ipA netA ipB netB :
  (i < j)%nat -> nodes !! i = Some a -> nodes !! j = Some b ->
  ParseHostInCIDR (annotation a AnnotationWireguardIP) = Ok (ipA, netA) ->
  ParseHostInCIDR (annotation b AnnotationWireguardIP) = Ok (ipB, netB) ->
  norm ipA = norm ipB ->
  FindDuplicateWGIPs nodes !! node_Name b = Some ReasonWGIPDuplicate.
Proof. apply same_host_duplicate. Qed.

(** A malformed annotation can collide with a valid one, although the
    comments of [FindDuplicateWGIPs] and [normalizeWGIPKey] exclude it: "10.4.0.1"
    is not a CIDR, yet its key is the key of "10.4.0.1/32", so a healthy node listed
    after the malformed one is reported as a duplicate. *)
Theorem malformed_annotation_evicts_valid_node (bad good : Node) :
  annotation bad AnnotationWireguardIP = "10.4.0.1" ->
  annotation good AnnotationWireguardIP = "10.4.0.1/32" ->
  is_ok (ParseHostInCIDR (annotation bad AnnotationWireguardIP)) = false /\
  is_ok (ParseHostInCIDR (annotation good AnnotationWireguardIP)) = true /\
  FindDuplicateWGIPs [bad; good] !! node_Name good = Some ReasonWGIPDuplicate.
Proof.
  intros Hb Hg. rewrite Hb, Hg. split; [by vm_compute|]. split; [by vm_compute|].
  apply FindDuplicateWGIPs_spec. split; [done|]. exists 0%nat, 1%nat, bad, good, "10.4.0.1".
  do 4 (split; [done || lia|]). unfold wg_key. rewrite Hb, Hg. by vm_compute.
Qed.

(** ** Concrete instances *)

Definition wg_node (name wg : string) : Node :=
  mkNode name (<[AnnotationWireguardIP := wg]> {[AnnotationPublicKey := name]}) ["10.0.1.0/24"] [].
Definition example_nodes : list Node := [wg_node "n1" "10.4.0.1/16"; wg_node "n2" "10.4.0.2/16"; wg_node "n3" "10.4.0.1/32"].

Lemma FindDuplicateWGIPs_keeps_first_witness :
  exists i a k, (i < 2)%nat /\ example_nodes !! i = Some a /\ wg_key a = Some k /\ wg_key (wg_node "n3" "10.4.0.1/32") = Some k.
Proof.
  apply (FindDuplicateWGIPs_keeps_first example_nodes 2 (wg_node "n3" "10.4.0.1/32")).
  - apply (bool_decide_unpack (NoDup (node_Name <$> example_nodes))). reflexivity.
  - reflexivity.
  - reflexivity.
Defined.

Lemma FindDuplicateWGIPs_same_host_witness :
  FindDuplicateWGIPs example_nodes !! "n3" = Some ReasonWGIPDuplicate.
Proof.
  apply (FindDuplicateWGIPs_same_host example_nodes 0 2 (wg_node "n1" "10.4.0.1/16") (wg_node "n3" "10.4.0.1/32")
    [0;0;0;0;0;0;0;0;0;0;255;255;10;4;0;1] (net_of "10.4.0.0/16")
    [0;0;0;0;0;0;0;0;0;0;255;255;10;4;0;1] (net_of "10.4.0.1/32")); [lia|reflexivity..].
Defined.
