(* ===== verification/Sha256.v ===== *)
(** * [crypto/sha256] and [encoding/hex]

    The hash of the Go standard library that long peer names end in, written
    out on 32-bit words so that names are computed, not assumed. Words are [Z]
    in 0..2^32-1; bytes are [Z] in 0..255. *)

From Stdlib Require Import Ascii String.
From S2P Require Import Prelude GoStrings GoNet.
Open Scope Z_scope.

Definition word (x : Z) : Z := Z.land x (2 ^ 32 - 1).
Definition rotr (x n : Z) : Z := Z.lor (Z.shiftr x n) (word (Z.shiftl x (32 - n))).

(** The constants are derived as the standard derives them (FIPS 180-4, 4.2.2
    and 5.3.3): the first 32 bits of the fractional parts of the cube roots of
    the first 64 primes, and of the square roots of the first 8. The test
    vectors below fix them to the tables Go carries. *)
Definition primes (bound : Z) : list Z :=
  filter (fun p => forallb (fun d => negb (p mod d =? 0)) (seqZ 2 (Z.sqrt p - 1)))
    (seqZ 2 (bound - 1)).

(** The integer cube root, one bit at a time from bit [n - 1] down. *)
Fixpoint cube_root (n : nat) (x r : Z) : Z :=
  match n with
  | O => r
  | S n' =>
      let r' := r + 2 ^ Z.of_nat n' in
      cube_root n' x (if r' * r' * r' <=? x then r' else r)
  end.

Definition K256 : list Z :=
  Eval vm_compute in (fun p => word (cube_root 36 (p * 2 ^ 96) 0)) <$> primes 311.

Definition H256 : list Z :=
  Eval vm_compute in (fun p => word (Z.sqrt (p * 2 ^ 64))) <$> primes 19.

Definition be32 (w : Z) : list Z :=
  [Z.land (Z.shiftr w 24) 255; Z.land (Z.shiftr w 16) 255; Z.land (Z.shiftr w 8) 255; Z.land w 255].

(** The message schedule, kept newest first. *)
Fixpoint schedule (n : nat) (w : list Z) : list Z :=
  match n with
  | O => w
  | S n' =>
      let at_ i := nth i w 0 in
      let s0 := let x := at_ 14%nat in Z.lxor (Z.lxor (rotr x 7) (rotr x 18)) (Z.shiftr x 3) in
      let s1 := let x := at_ 1%nat in Z.lxor (Z.lxor (rotr x 17) (rotr x 19)) (Z.shiftr x 10) in
      schedule n' (word (at_ 15%nat + s0 + at_ 6%nat + s1) :: w)
  end.

Definition round (st : list Z) (kw : Z * Z) : list Z :=
  match st with
  | [a; b; c; d; e; f; g; h] =>
      let S1 := Z.lxor (Z.lxor (rotr e 6) (rotr e 11)) (rotr e 25) in
      let ch := Z.lxor (Z.land e f) (Z.land (Z.lxor e (2 ^ 32 - 1)) g) in
      let t1 := word (h + S1 + ch + kw.1 + kw.2) in
      let S0 := Z.lxor (Z.lxor (rotr a 2) (rotr a 13)) (rotr a 22) in
      let maj := Z.lxor (Z.lxor (Z.land a b) (Z.land a c)) (Z.land b c) in
      let t2 := word (S0 + maj) in
      [word (t1 + t2); a; b; c; word (d + t1); e; f; g]
  | _ => st
  end.

Fixpoint words_of (bs : list Z) : list Z :=
  match bs with
  | a :: b :: c :: d :: rest =>
      (Z.shiftl a 24 + Z.shiftl b 16 + Z.shiftl c 8 + d) :: words_of rest
  | _ => []
  end.

Definition compress (st : list Z) (block : list Z) : list Z :=
  let w := rev (schedule 48 (rev (words_of block))) in
  zip_with (fun x y => word (x + y)) st (foldl round st (zip K256 w)).

Fixpoint blocks (fuel : nat) (st : list Z) (msg : list Z) : list Z :=
  match fuel with
  | O => st
  | S f => if decide (msg = []) then st else blocks f (compress st (take 64 msg)) (drop 64 msg)
  end.

Definition pad (msg : list Z) : list Z :=
  let n := length msg in
  let zeros := Z.to_nat ((55 - Z.of_nat n) mod 64) in
  let bits := 8 * Z.of_nat n in
  msg ++ [128] ++ replicate zeros 0 ++ be32 (Z.shiftr bits 32) ++ be32 (word bits).

(** Every block is 64 bytes, so the padded length bounds the iterations. *)
Definition Sum256 (msg : list Z) : list Z :=
  let m := pad msg in blocks (length m) H256 m ≫= be32.

Fixpoint bytes_of_string (s : string) : list Z :=
  match s with EmptyString => [] | String c s' => byte_of c :: bytes_of_string s' end.

Definition hex_byte (b : Z) : string :=
  String (hex_digit (Z.shiftr b 4)) (String (hex_digit (Z.land b 15)) EmptyString).
Fixpoint EncodeToString (bs : list Z) : string :=
  match bs with [] => EmptyString | b :: bs' => hex_byte b +:+ EncodeToString bs' end.

(** Published test vectors. *)
Example Sum256_abc :
  EncodeToString (Sum256 (bytes_of_string "abc")) =
  "ba7816bf8f01cfea414140de5dae2223b00361a396177a9cb410ff61f20015ad"%string.
Proof. by vm_compute. Qed.
Example Sum256_two_blocks :
  EncodeToString (Sum256 (bytes_of_string "abcdbcdecdefdefgefghfghighijhijkijkljklmklmnlmnomnopnopq")) =
  "248d6a61d20638b8e5c026930c3e6039a33ce45964ff2167f6ecedd419db06c1"%string.
Proof. by vm_compute. Qed.

(** ** Shape of the output *)

Definition is_byte (b : Z) : Prop := 0 <= b < 256.

Lemma land255_byte x : is_byte (Z.land x 255).
Proof. unfold is_byte. change 255 with (Z.ones 8). rewrite Z.land_ones by lia. apply Z.mod_pos_bound. lia. Qed.

Lemma be32_bytes w : Forall is_byte (be32 w).
Proof. repeat constructor; apply land255_byte. Qed.

Lemma Sum256_bytes msg : Forall is_byte (Sum256 msg).
Proof.
  unfold Sum256. apply Forall_bind. generalize (blocks (length (pad msg)) H256 (pad msg)).
  intros l. apply Forall_true. apply be32_bytes.
Qed.

Lemma round_length st kw : length (round st kw) = length st.
Proof. unfold round. do 8 (destruct st as [|? st]; [done|]). by destruct st. Qed.

Lemma rounds_length kws st : length (foldl round st kws) = length st.
Proof. revert st; induction kws as [|kw kws IH]; intros st; simpl; [done|]. by rewrite IH, round_length. Qed.

Lemma compress_length st block : length (compress st block) = length st.
Proof. unfold compress. rewrite length_zip_with, rounds_length. lia. Qed.

Lemma blocks_length fuel st msg : length (blocks fuel st msg) = length st.
Proof.
  revert st msg; induction fuel as [|f IH]; intros st msg; simpl; [done|].
  case_decide; [done|]. by rewrite IH, compress_length.
Qed.

Lemma bind_be32_length l : length (l ≫= be32) = (4 * length l)%nat.
Proof. induction l as [|w l IH]; [done|]. rewrite bind_cons, length_app, IH. simpl. lia. Qed.

Lemma Sum256_length msg : length (Sum256 msg) = 32%nat.
Proof. unfold Sum256. by rewrite bind_be32_length, blocks_length. Qed.

Lemma EncodeToString_length bs : String.length (EncodeToString bs) = (2 * length bs)%nat.
Proof. induction bs as [|b bs IH]; simpl; [done|]. rewrite IH. lia. Qed.

Lemma hex_digit_inj a b : 0 <= a < 16 -> 0 <= b < 16 -> hex_digit a = hex_digit b -> a = b.
Proof.
  intros Ha Hb H.
  assert (forallb (fun x => forallb (fun y => implb (bool_decide (hex_digit x = hex_digit y)) (x =? y))
    (seqZ 0 16)) (seqZ 0 16) = true) as E by by vm_compute.
  rewrite List.forallb_forall in E. specialize (E a). rewrite <- list_elem_of_In, elem_of_seqZ in E.
  specialize (E ltac:(lia)). rewrite List.forallb_forall in E. specialize (E b).
  rewrite <- list_elem_of_In, elem_of_seqZ in E. specialize (E ltac:(lia)).
  rewrite bool_decide_true in E by done. by apply Z.eqb_eq.
Qed.

Lemma nibble_hi b : is_byte b -> 0 <= Z.shiftr b 4 < 16.
Proof. unfold is_byte. intros H. rewrite Z.shiftr_div_pow2 by lia. split; [apply Z.div_pos; lia|apply Z.div_lt_upper_bound; lia]. Qed.

Lemma nibble_lo b : 0 <= Z.land b 15 < 16.
Proof. change 15 with (Z.ones 4). rewrite Z.land_ones by lia. apply Z.mod_pos_bound. lia. Qed.

(** [hex.EncodeToString] is injective on bytes. *)
Lemma EncodeToString_inj a b :
  Forall is_byte a -> Forall is_byte b -> EncodeToString a = EncodeToString b -> a = b.
Proof.
  intros Ha; revert b; induction Ha as [|x a Hx Ha IH]; intros b Hb; destruct Hb as [|y b Hy Hb]; [done..|].
  simpl. intros [= E1 E2 E3]. apply hex_digit_inj in E1; [|by apply nibble_hi..].
  apply hex_digit_inj in E2; [|apply nibble_lo..]. f_equal; [|by apply IH].
  rewrite (Z.div_mod x 16), (Z.div_mod y 16) by lia.
  change 15 with (Z.ones 4) in E2. rewrite !Z.land_ones in E2 by lia.
  rewrite !Z.shiftr_div_pow2 in E1 by lia. change (2 ^ 4) with 16 in *. congruence.
Qed.
