(* ===== verification/Naming.v ===== *)
(** * [internal/peer/naming.go]: names and labels of generated peers *)

From Stdlib Require Import Ascii String.
From S2P Require Import Prelude GoStrings GoNet Sha256 Types.
Open Scope Z_scope.

Definition LabelMesh : string := "kilo-clustermesh.io/mesh".
Definition LabelSourceCluster : string := "kilo-clustermesh.io/source-cluster".
Definition maxNameLength : nat := 253.

(** ** Runes: Go iterates over a string by UTF-8 code points *)

Definition RuneError : Z := 0xFFFD.

Definition cont (lo hi b : Z) : bool := (lo <=? b) && (b <=? hi).

(** [utf8.DecodeRuneInString]: the rune and its width; an invalid encoding is
    one byte wide. *)
Definition DecodeRune (s : list Z) : Z * nat :=
  match s with
  | [] => (RuneError, 0%nat)
  | b0 :: s1 =>
      if b0 <? 0x80 then (b0, 1%nat)
      else
        match s1 with
        | b1 :: s2 =>
            if cont 0xC2 0xDF b0 then
              if cont 0x80 0xBF b1 then (Z.lor (Z.shiftl (Z.land b0 31) 6) (Z.land b1 63), 2%nat)
              else (RuneError, 1%nat)
            else
              match s2 with
              | b2 :: s3 =>
                  if cont 0xE0 0xEF b0 then
                    let lo := if b0 =? 0xE0 then 0xA0 else 0x80 in
                    let hi := if b0 =? 0xED then 0x9F else 0xBF in
                    if cont lo hi b1 && cont 0x80 0xBF b2
                    then (Z.lor (Z.lor (Z.shiftl (Z.land b0 15) 12) (Z.shiftl (Z.land b1 63) 6)) (Z.land b2 63), 3%nat)
                    else (RuneError, 1%nat)
                  else
                    match s3 with
                    | b3 :: _ =>
                        if cont 0xF0 0xF4 b0 then
                          let lo := if b0 =? 0xF0 then 0x90 else 0x80 in
                          let hi := if b0 =? 0xF4 then 0x8F else 0xBF in
                          if cont lo hi b1 && cont 0x80 0xBF b2 && cont 0x80 0xBF b3
                          then (Z.lor (Z.lor (Z.shiftl (Z.land b0 7) 18) (Z.shiftl (Z.land b1 63) 12))
                                      (Z.lor (Z.shiftl (Z.land b2 63) 6) (Z.land b3 63)), 4%nat)
                          else (RuneError, 1%nat)
                        else (RuneError, 1%nat)
                    | [] => (RuneError, 1%nat)
                    end
              | [] => (RuneError, 1%nat)
              end
        | [] => (RuneError, 1%nat)
        end
  end.

(** The runes of a string; every step consumes at least one byte, so the
    number of bytes is enough fuel. *)
Fixpoint runes_loop (fuel : nat) (s : list Z) : list Z :=
  match fuel with
  | O => []
  | S f => if decide (s = []) then []
           else let '(r, w) := DecodeRune s in r :: runes_loop f (drop w s)
  end.
Definition runes (s : string) : list Z :=
  let bs := bytes_of_string s in runes_loop (length bs) bs.

(** [unicode.ToLower], up to the runes outside ASCII: U+0130 and the Kelvin sign
    U+212A are the only ones whose lower case is an ASCII letter; every other
    rune above 127 has a lower case above 127 and is left alone here, since the
    sanitiser maps it to a dash either way. *)
Definition ToLower (r : Z) : Z :=
  if (65 <=? r) && (r <=? 90) then r + 32
  else if r =? 0x130 then 105
  else if r =? 0x212A then 107
  else r.

(** ** [sanitizeDNS] *)

(** [r >= 'a' && r <= 'z', r >= '0' && r <= '9', r == '.', r == '-'] *)
Definition dns_rune (r : Z) : bool :=
  ((97 <=? r) && (r <=? 122)) || ((48 <=? r) && (r <=? 57)) || (r =? 46) || (r =? 45).

Definition sanitizeRune (r : Z) : ascii :=
  if dns_rune r then ascii_of_N (Z.to_N r) else "-"%char.

(** The cutset ["-."] of the trims. *)
Definition dash_dot (c : ascii) : bool := bool_decide (c = "-"%char) || bool_decide (c = "."%char).

Fixpoint string_of (l : list ascii) : string :=
  match l with [] => EmptyString | c :: l' => String c (string_of l') end.

Definition sanitizeDNS (input : string) : string :=
  let lowered := ToLower <$> runes input in
  let bld := string_of (sanitizeRune <$> lowered) in
  let result := Str.trim_left dash_dot bld in
  Str.trim_right dash_dot result.

(** ** [Name], [Labels], [OrphanSelector] *)

Definition rawName (meshName sourceCluster nodeName : string) : string :=
  meshName +:+ "--" +:+ sourceCluster +:+ "--" +:+ nodeName.

Definition nameHash (raw : string) : string := EncodeToString (take 8 (Sum256 (bytes_of_string raw))).

Definition Name (meshName sourceCluster nodeName : string) : string :=
  let raw := rawName meshName sourceCluster nodeName in
  let sanitized := sanitizeDNS raw in
  if decide (String.length sanitized <= maxNameLength)%nat then sanitized
  else
    let hashStr := nameHash raw in
    let truncated := Str.trim_right dash_dot (Str.take (maxNameLength - 17) sanitized) in
    truncated +:+ "-" +:+ hashStr.

Definition Labels (meshName sourceCluster : string) : gmap string string :=
  <[LabelMesh := meshName]> (<[LabelSourceCluster := sourceCluster]> ∅).

(** [labels.SelectorFromSet(set).Matches]: every pair of the set is a label. *)
Definition OrphanSelector (meshName sourceCluster : string) (labels : gmap string string) : bool :=
  bool_decide (labels !! LabelMesh = Some meshName /\ labels !! LabelSourceCluster = Some sourceCluster).

Lemma OrphanSelector_spec m c ls : OrphanSelector m c ls = true <-> Labels m c ⊆ ls.
Proof.
  unfold OrphanSelector, Labels. rewrite bool_decide_eq_true. split.
  - intros [H1 H2]. apply insert_subseteq_l; [done|]. apply insert_subseteq_l; [done|]. apply map_empty_subseteq.
  - intros H. split; eapply lookup_weaken; [|done| |done].
    + by rewrite lookup_insert.
    + rewrite lookup_insert_ne by done. by rewrite lookup_insert.
Qed.

Example Name_example : Name "Prod_Mesh" "eu-1" "node.A" = "prod-mesh--eu-1--node.a".
Proof. by vm_compute. Qed.

(** ** DNS-1123 *)

Definition dns_char (c : ascii) : bool := dns_rune (byte_of c).
Definition alnum (c : ascii) : bool := dns_char c && negb (dash_dot c).

(** Every dot has an alphanumeric character on both sides. *)
Fixpoint dots_ok (s : string) : bool :=
  match s with
  | String c s' =>
      match s' with
      | String d _ => (negb (bool_decide (c = "."%char)) || alnum d) &&
                      (negb (bool_decide (d = "."%char)) || alnum c)
      | EmptyString => true
      end && dots_ok s'
  | EmptyString => true
  end.

(** A DNS-1123 subdomain without its length bound: labels of [a-z0-9-] that
    start and end with an alphanumeric character, separated by single dots. *)
Definition dns_subdomain (s : string) : bool :=
  negb (bool_decide (s = "")) && Str.forallb dns_char s && Str.head_ok alnum s &&
  Str.last_ok alnum s && dots_ok s.

Lemma dns_rune_ascii r : dns_rune r = true -> byte_of (ascii_of_N (Z.to_N r)) = r.
Proof.
  unfold dns_rune, byte_of. intros H. rewrite N_ascii_embedding.
  - rewrite Z2N.id; [done|]. lia.
  - lia.
Qed.

Lemma sanitizeRune_char r : dns_char (sanitizeRune r) = true.
Proof.
  unfold sanitizeRune. destruct (dns_rune r) eqn:E; [|done].
  unfold dns_char. by rewrite dns_rune_ascii.
Qed.

Lemma sanitized_chars l : Str.forallb dns_char (string_of (sanitizeRune <$> l)) = true.
Proof. induction l as [|r l IH]; simpl; [done|]. by rewrite sanitizeRune_char. Qed.

Lemma forallb_and p q s :
  Str.forallb (fun c => p c && q c) s = Str.forallb p s && Str.forallb q s.
Proof. induction s as [|c s IH]; simpl; [done|]. rewrite IH. destruct (p c), (q c), (Str.forallb p s); done. Qed.

Lemma head_alnum s :
  Str.forallb dns_char s = true -> Str.head_ok (fun c => negb (dash_dot c)) s = true ->
  Str.head_ok alnum s = true.
Proof. destruct s as [|c s]; simpl; [done|]. unfold alnum. intros [-> _]%andb_prop ->. done. Qed.

Lemma last_alnum s :
  Str.forallb dns_char s = true -> Str.last_ok (fun c => negb (dash_dot c)) s = true ->
  Str.last_ok alnum s = true.
Proof.
  induction s as [|c s IH]; [done|]. intros [Hc Hs]%andb_prop. destruct s as [|d s].
  - simpl. unfold alnum. by rewrite Hc.
  - intros H. apply IH; [done|exact H].
Qed.

Lemma sanitizeDNS_shape s :
  Str.forallb dns_char (sanitizeDNS s) = true /\ Str.head_ok alnum (sanitizeDNS s) = true /\
  Str.last_ok alnum (sanitizeDNS s) = true.
Proof.
  unfold sanitizeDNS. set (b := string_of _).
  assert (Hb : Str.forallb dns_char b = true) by apply sanitized_chars.
  assert (Hc : Str.forallb dns_char (Str.trim_right dash_dot (Str.trim_left dash_dot b)) = true)
    by by apply Str.trim_right_forallb, Str.trim_left_forallb.
  split; [done|]. split.
  - apply head_alnum; [done|]. apply Str.trim_right_head, Str.trim_left_head.
  - apply last_alnum; [done|]. apply Str.trim_right_last.
Qed.

Lemma hex_digit_alnum d : 0 <= d < 16 -> alnum (hex_digit d) = true.
Proof.
  intros Hd. assert (E : forallb (fun x => alnum (hex_digit x)) (seqZ 0 16) = true) by by vm_compute.
  rewrite List.forallb_forall in E. apply E. apply list_elem_of_In, elem_of_seqZ. lia.
Qed.

Lemma EncodeToString_alnum bs : Forall is_byte bs -> Str.forallb alnum (EncodeToString bs) = true.
Proof.
  induction 1 as [|b bs Hb _ IH]; simpl; [done|].
  by rewrite !hex_digit_alnum by (apply nibble_lo || by apply nibble_hi).
Qed.

Lemma nameHash_shape raw :
  Str.forallb alnum (nameHash raw) = true /\ String.length (nameHash raw) = 16%nat.
Proof.
  unfold nameHash. split.
  - apply EncodeToString_alnum, Forall_take, Sum256_bytes.
  - rewrite EncodeToString_length, length_take, Sum256_length. done.
Qed.

Lemma forallb_alnum_dns s : Str.forallb alnum s = true -> Str.forallb dns_char s = true.
Proof. unfold alnum. rewrite forallb_and. by intros [? _]%andb_prop. Qed.

Lemma nonempty_length s n : String.length s = S n -> s <> "".
Proof. by destruct s. Qed.

(** ** Shape of names *)

Lemma trim_right_nonempty p s : s <> "" -> Str.head_ok (fun c => negb (p c)) s = true -> Str.trim_right p s <> "".
Proof.
  destruct s as [|c s]; [done|]. intros _ H. rewrite Str.trim_right_String. simpl in H.
  by case_decide; [destruct (p c)|].
Qed.

Lemma head_alnum_cut s : Str.head_ok alnum s = true -> Str.head_ok (fun c => negb (dash_dot c)) s = true.
Proof. destruct s; simpl; [done|]. by intros [_ ?]%andb_prop. Qed.

Lemma last_alnum_cut s : Str.last_ok alnum s = true -> Str.last_ok (fun c => negb (dash_dot c)) s = true.
Proof.
  induction s as [|c s IH]; [done|]. destruct s as [|d s]; [simpl; by intros [_ ?]%andb_prop|].
  intros H. by apply IH.
Qed.

(** The prefix kept of a long name. *)
Definition truncated (sanitized : string) : string :=
  Str.trim_right dash_dot (Str.take (maxNameLength - 17) sanitized).

Lemma truncated_shape s :
  (maxNameLength < String.length s)%nat ->
  Str.forallb dns_char s = true -> Str.head_ok alnum s = true ->
  truncated s <> "" /\ (String.length (truncated s) <= maxNameLength - 17)%nat /\
  Str.forallb dns_char (truncated s) = true /\ Str.head_ok alnum (truncated s) = true /\
  Str.last_ok alnum (truncated s) = true.
Proof.
  intros Hl Hc Hh. unfold truncated. set (t := Str.take _ s).
  assert (Ht : Str.forallb dns_char t = true) by by apply Str.forallb_take.
  assert (Hth : Str.head_ok alnum t = true) by by apply Str.head_ok_take.
  split; [|split; [|split; [|split]]].
  - apply trim_right_nonempty; [|by apply head_alnum_cut]. unfold t. destruct s; [simpl in Hl; lia|done].
  - etrans; [apply Str.trim_right_length|apply Str.length_take].
  - by apply Str.trim_right_forallb.
  - by apply Str.trim_right_head.
  - apply last_alnum; [by apply Str.trim_right_forallb|apply Str.trim_right_last].
Qed.

Lemma Name_cases m c n :
  let s := sanitizeDNS (rawName m c n) in
  (String.length s <= maxNameLength)%nat /\ Name m c n = s \/
  (maxNameLength < String.length s)%nat /\ Name m c n = truncated s +:+ "-" +:+ nameHash (rawName m c n).
Proof.
  intros s. unfold Name. fold s. case_decide; [by left|right]. split; [lia|done].
Qed.

Lemma hashed_shape t raw :
  t <> "" -> Str.forallb dns_char t = true -> Str.head_ok alnum t = true ->
  Str.forallb dns_char (t +:+ "-" +:+ nameHash raw) = true /\
  Str.head_ok alnum (t +:+ "-" +:+ nameHash raw) = true /\
  Str.last_ok alnum (t +:+ "-" +:+ nameHash raw) = true.
Proof.
  intros Ht Hc Hh. destruct (nameHash_shape raw) as [Ha Hl].
  split; [|split].
  - rewrite !Str.forallb_app, Hc. simpl. by apply forallb_alnum_dns.
  - by rewrite Str.head_ok_app, decide_False.
  - rewrite Str.last_ok_app by done. rewrite Str.last_ok_app by by apply (nonempty_length _ 15).
    by apply Str.last_ok_forallb.
Qed.

Lemma Name_bounds meshName sourceCluster nodeName :
  let name := Name meshName sourceCluster nodeName in
  (String.length name <= 253)%nat /\ Str.forallb dns_char name = true /\
  Str.head_ok alnum name = true /\ Str.last_ok alnum name = true.
Proof.
  intros name. subst name. set (s := sanitizeDNS (rawName meshName sourceCluster nodeName)).
  destruct (sanitizeDNS_shape (rawName meshName sourceCluster nodeName)) as (Hc & Hh & Hl). fold s in Hc, Hh, Hl.
  destruct (Name_cases meshName sourceCluster nodeName) as [[Hlen ->]|[Hlen ->]]; fold s in Hlen |- *.
  { by repeat split. }
  destruct (truncated_shape s Hlen Hc Hh) as (Hne & Htl & Htc & Hth & _).
  split; [|by apply hashed_shape].
  rewrite !Str.length_app, (proj2 (nameHash_shape _)). unfold maxNameLength in *. simpl. lia.
Qed.

(** For arbitrary inputs (non-ASCII and invalid UTF-8 included) a generated
    peer name has at most 253 bytes, consists of [a-z0-9.-], and neither starts
    nor ends with a dash or a dot. *)
Theorem Name_shape meshName sourceCluster nodeName :
  let name := Name meshName sourceCluster nodeName in
  (String.length name <= 253)%nat /\ Str.forallb dns_char name = true /\
  Str.head_ok alnum name = true /\ Str.last_ok alnum name = true.
Proof. apply Name_bounds. Qed.

(** *** Names from DNS-1123 parts *)

Lemma dots_ok_cons c s :
  dots_ok (String c s) = true <->
  dots_ok s = true /\ forall d s', s = String d s' ->
    (c = "."%char -> alnum d = true) /\ (d = "."%char -> alnum c = true).
Proof.
  destruct s as [|d s]; [split; [done|]; by intros _|].
  cbn [dots_ok]. rewrite !andb_true_iff, !orb_true_iff, !negb_true_iff, !bool_decide_eq_false.
  split.
  - intros [[H1 H2] H3]. split; [done|]. intros d' s' [= <- <-]. split; intros ->; [by destruct H1|by destruct H2].
  - intros [H1 H2]. destruct (H2 d s eq_refl) as [H3 H4]. split; [|done].
    split; [destruct (decide (c = "."%char))|destruct (decide (d = "."%char))]; auto.
Qed.

Lemma dots_ok_prefix a b : dots_ok (a +:+ b) = true -> dots_ok a = true.
Proof.
  induction a as [|c a IH]; [done|]. cbn [String.append]. rewrite !dots_ok_cons.
  intros [H1 H2]. split; [auto|]. intros d s ->. by apply (H2 d (s +:+ b)).
Qed.

Lemma dots_ok_app a b :
  dots_ok a = true -> dots_ok b = true -> Str.last_ok alnum a = true ->
  Str.head_ok (fun c => negb (bool_decide (c = "."%char))) b = true -> dots_ok (a +:+ b) = true.
Proof.
  intros Ha Hb Hl Hh. induction a as [|c a IH]; [done|]. cbn [String.append]. apply dots_ok_cons in Ha as [Ha Hd].
  apply dots_ok_cons. destruct a as [|e a].
  - split; [done|]. intros d s' E. simpl in Hl. split.
    + intros ->. done.
    + intros ->. simpl in E. subst b. done.
  - split; [by apply IH|]. intros d s' [= <- _]. by apply (Hd e a).
Qed.

Lemma trim_right_prefix p s : exists t, s = Str.trim_right p s +:+ t.
Proof.
  induction s as [|c s [t IH]]; [by exists ""|]. rewrite Str.trim_right_String. case_decide as E.
  - destruct (p c); [by exists (String c s)|]. exists s. done.
  - exists t. simpl. by f_equal.
Qed.

Lemma take_prefix n s : exists t, s = Str.take n s +:+ t.
Proof.
  revert s; induction n as [|n IH]; intros s; [by exists s|]. destruct s as [|c s]; [by exists ""|].
  destruct (IH s) as [t Ht]. exists t. simpl. by f_equal.
Qed.

Lemma dots_ok_truncated s : dots_ok s = true -> dots_ok (truncated s) = true.
Proof.
  intros H. unfold truncated. destruct (take_prefix (maxNameLength - 17) s) as [t Ht].
  rewrite Ht in H. apply dots_ok_prefix in H.
  destruct (trim_right_prefix dash_dot (Str.take (maxNameLength - 17) s)) as [t' Ht'].
  rewrite Ht' in H. by apply dots_ok_prefix in H.
Qed.

Lemma dots_ok_alnum s : Str.forallb alnum s = true -> dots_ok s = true.
Proof.
  induction s as [|c s IH]; [done|]. intros [Hc Hs]%andb_prop. apply dots_ok_cons. split; [auto|].
  intros d s' ->. apply andb_prop in Hs as [Hd _]. done.
Qed.

Lemma dns_subdomain_spec s :
  dns_subdomain s = true <->
  s <> "" /\ Str.forallb dns_char s = true /\ Str.head_ok alnum s = true /\
  Str.last_ok alnum s = true /\ dots_ok s = true.
Proof.
  unfold dns_subdomain. rewrite !andb_true_iff, negb_true_iff, bool_decide_eq_false. tauto.
Qed.

Lemma head_alnum_not_dot b :
  Str.head_ok alnum b = true -> Str.head_ok (fun c => negb (bool_decide (c = "."%char))) b = true.
Proof.
  destruct b as [|c b]; [done|]. simpl. rewrite negb_true_iff, bool_decide_eq_false. by intros H ->.
Qed.

Lemma dots_ok_dashes a b :
  dots_ok a = true -> Str.last_ok alnum a = true -> dots_ok b = true -> Str.head_ok alnum b = true ->
  dots_ok (a +:+ "--" +:+ b) = true.
Proof.
  intros Ha Hl Hb Hh. apply dots_ok_app; [done| |done|done]. apply dots_ok_cons. split.
  - apply dots_ok_cons. split; [done|]. intros d s' ->. by split; [|intros ->].
  - intros d s' [= <- _]. by split.
Qed.

Lemma dns_subdomain_join a b :
  dns_subdomain a = true -> dns_subdomain b = true -> dns_subdomain (a +:+ "--" +:+ b) = true.
Proof.
  rewrite !dns_subdomain_spec. intros (A1 & A2 & A3 & A4 & A5) (B1 & B2 & B3 & B4 & B5).
  split; [by destruct a|]. split; [by rewrite !Str.forallb_app, A2, B2|].
  split; [by rewrite Str.head_ok_app, decide_False|].
  split; [|by apply dots_ok_dashes]. rewrite Str.last_ok_app by done. by rewrite Str.last_ok_app.
Qed.

Lemma rawName_subdomain m c n :
  dns_subdomain m = true -> dns_subdomain c = true -> dns_subdomain n = true ->
  dns_subdomain (rawName m c n) = true.
Proof. intros. unfold rawName. by do 2 (apply dns_subdomain_join; [done|]). Qed.

Lemma runes_loop_ascii bs fuel :
  Forall (fun b => b < 128) bs -> (length bs <= fuel)%nat -> runes_loop fuel bs = bs.
Proof.
  intros H; revert fuel; induction H as [|b bs Hb _ IH]; intros [|fuel] Hf; simpl in *; try done; [lia|].
  rewrite (proj2 (Z.ltb_lt _ _)) by lia. simpl. rewrite drop_0, IH by lia. done.
Qed.

Lemma dns_char_range c : dns_char c = true -> byte_of c < 128.
Proof. unfold dns_char, dns_rune. lia. Qed.

Lemma ToLower_dns r : dns_rune r = true -> ToLower r = r.
Proof.
  unfold dns_rune, ToLower. intros H. rewrite (proj2 (andb_false_iff _ _)) by lia.
  rewrite !(proj2 (Z.eqb_neq _ _)) by lia. done.
Qed.

Lemma sanitizeRune_dns c : dns_char c = true -> sanitizeRune (byte_of c) = c.
Proof. unfold sanitizeRune, dns_char. intros ->. unfold byte_of. by rewrite N2Z.id, ascii_N_embedding. Qed.

(** A string that is already made of [a-z0-9.-] and is trimmed is unchanged. *)
Lemma sanitizeDNS_id s :
  Str.forallb dns_char s = true -> Str.head_ok alnum s = true -> Str.last_ok alnum s = true -> sanitizeDNS s = s.
Proof.
  intros Hc Hh Hl. unfold sanitizeDNS, runes. rewrite runes_loop_ascii; [|clear -Hc|done].
  2:{ induction s as [|c s IH]; simpl; [constructor|]. apply andb_prop in Hc as [? ?].
      constructor; [by apply dns_char_range|auto]. }
  assert (E : string_of (sanitizeRune <$> (ToLower <$> bytes_of_string s)) = s).
  { clear Hh Hl. induction s as [|c s IH]; [done|]. simpl in *. apply andb_prop in Hc as [Hc Hs].
    rewrite ToLower_dns, sanitizeRune_dns by done. f_equal. auto. }
  rewrite E, Str.trim_left_id by by apply head_alnum_cut. apply Str.trim_right_id. by apply last_alnum_cut.
Qed.

Lemma sanitize_rawName m c n :
  dns_subdomain m = true -> dns_subdomain c = true -> dns_subdomain n = true ->
  sanitizeDNS (rawName m c n) = rawName m c n.
Proof.
  intros Hm Hc Hn. pose proof (rawName_subdomain m c n Hm Hc Hn) as (_ & ? & ? & ? & _)%dns_subdomain_spec.
  by apply sanitizeDNS_id.
Qed.

(** When the mesh, cluster and node names are DNS-1123 subdomains, which the
    API server enforces, so is the peer name, truncated or not: it is a valid
    object name. *)
Theorem Name_dns1123 meshName sourceCluster nodeName :
  dns_subdomain meshName = true -> dns_subdomain sourceCluster = true -> dns_subdomain nodeName = true ->
  dns_subdomain (Name meshName sourceCluster nodeName) = true /\
  (String.length (rawName meshName sourceCluster nodeName) <= 253 ->
     Name meshName sourceCluster nodeName = rawName meshName sourceCluster nodeName)%nat.
Proof.
  intros Hm Hc Hn. pose proof (Name_cases meshName sourceCluster nodeName) as H. simpl in H.
  rewrite sanitize_rawName in H by done. pose proof (rawName_subdomain _ _ _ Hm Hc Hn) as Hr.
  set (raw := rawName _ _ _) in *. destruct H as [[Hl ->]|[Hl ->]]; [done|].
  split; [|unfold maxNameLength in *; lia].
  apply dns_subdomain_spec in Hr as (_ & R1 & R2 & _ & R3).
  destruct (truncated_shape raw Hl R1 R2) as (T1 & _ & T2 & T3 & T4).
  destruct (hashed_shape (truncated raw) raw T1 T2 T3) as (S1 & S2 & S3).
  destruct (nameHash_shape raw) as [Ha Hlen].
  apply dns_subdomain_spec. split; [by destruct (truncated raw)|]. do 3 (split; [done|]).
  apply dots_ok_app; [by apply dots_ok_truncated| |done|done].
  apply dots_ok_cons. split; [by apply dots_ok_alnum|]. intros d s' E. simpl in E. split; [done|].
  intros ->. rewrite E in Ha. done.
Qed.

(** ** Uniqueness *)

(** No two consecutive dashes. *)
Fixpoint no_dashes (s : string) : bool :=
  match s with
  | String "-" ((String "-" _) as s') => false
  | String _ s' => no_dashes s'
  | EmptyString => true
  end.

Lemma no_dashes_cons c s :
  no_dashes (String c s) = true <-> no_dashes s = true /\ ~ (c = "-"%char /\ Str.head_ok (fun d => negb (bool_decide (d = "-"%char))) s = false).
Proof.
  split.
  - intros H. destruct s as [|d s]; [by split; [|intros [_ ?]]|].
    destruct (decide (c = "-"%char)) as [->|Hc].
    + destruct (decide (d = "-"%char)) as [->|Hd]; [done|]. split.
      * destruct d as [[] [] [] [] [] [] [] []]; done.
      * intros [_ E]. simpl in E. by rewrite bool_decide_false in E.
    + split; [|by intros [? _]]. destruct c as [[] [] [] [] [] [] [] []]; done.
  - intros [H1 H2]. destruct (decide (c = "-"%char)) as [->|Hc].
    + destruct s as [|d s]; [done|]. destruct (decide (d = "-"%char)) as [->|Hd].
      * by destruct H2.
      * destruct d as [[] [] [] [] [] [] [] []]; done.
    + destruct c as [[] [] [] [] [] [] [] []]; done.
Qed.

(** The first ["--"] of the joined string ends the first part. *)
Lemma join_inj a b x y :
  no_dashes a = true -> no_dashes b = true -> Str.last_ok alnum a = true -> Str.last_ok alnum b = true ->
  a +:+ "--" +:+ x = b +:+ "--" +:+ y -> a = b /\ x = y.
Proof.
  assert (Hlong : forall c b x y, no_dashes (String c b) = true -> Str.last_ok alnum (String c b) = true ->
    "--" +:+ x = String c b +:+ "--" +:+ y -> False).
  { clear. intros c b x y Hn Hl E. simpl in E. injection E as <- E.
    destruct b as [|d b]; [done|]. simpl in E. injection E as <- E. done. }
  revert b; induction a as [|c a IH]; intros b Ha Hb La Lb E; destruct b as [|d b].
  - simpl in E. by injection E as ->.
  - by apply Hlong in E.
  - symmetry in E. by apply Hlong in E.
  - cbn [String.append] in E. injection E as <- E. apply no_dashes_cons in Ha as [Ha _]. apply no_dashes_cons in Hb as [Hb _].
    destruct (IH b) as [-> ->]; [done|done|by destruct a|by destruct b|done|done].
Qed.

Lemma rawName_inj m c n m' c' n' :
  dns_subdomain m = true -> dns_subdomain c = true -> dns_subdomain m' = true -> dns_subdomain c' = true ->
  no_dashes m = true -> no_dashes c = true -> no_dashes m' = true -> no_dashes c' = true ->
  rawName m c n = rawName m' c' n' -> m = m' /\ c = c' /\ n = n'.
Proof.
  unfold rawName. intros (_ & _ & _ & ? & _)%dns_subdomain_spec (_ & _ & _ & ? & _)%dns_subdomain_spec
    (_ & _ & _ & ? & _)%dns_subdomain_spec (_ & _ & _ & ? & _)%dns_subdomain_spec ? ? ? ? E.
  apply join_inj in E as [-> E]; [|done..]. by apply join_inj in E as [-> ->].
Qed.

Lemma app_inj_suffix (a b x y : string) :
  String.length x = String.length y -> a +:+ x = b +:+ y -> a = b /\ x = y.
Proof.
  intros Hl. revert b; induction a as [|c a IH]; intros b E; destruct b as [|d b]; simpl in E.
  - done.
  - exfalso. rewrite E in Hl. simpl in Hl. rewrite Str.length_app in Hl. lia.
  - exfalso. rewrite <- E in Hl. simpl in Hl. rewrite Str.length_app in Hl. lia.
  - injection E as -> E. by destruct (IH b E) as [-> ->].
Qed.

(** The bytes of the hash a long name carries. *)
Definition hash8 (raw : string) : list Z := take 8 (Sum256 (bytes_of_string raw)).

Lemma nameHash_inj a b : nameHash a = nameHash b -> hash8 a = hash8 b.
Proof. apply EncodeToString_inj; apply Forall_take, Sum256_bytes. Qed.

(** A name that fits reads like the shortened form of one that does not. *)
Definition impersonates (short long : string) : Prop :=
  (String.length short <= maxNameLength < String.length long)%nat /\
  short = truncated long +:+ "-" +:+ nameHash long.

(** The ways in which two different raw names give one peer name. *)
Definition confused (raw raw' : string) : Prop :=
  (raw <> raw' /\ (maxNameLength < String.length raw)%nat /\ (maxNameLength < String.length raw')%nat /\
   truncated raw = truncated raw' /\ hash8 raw = hash8 raw') \/
  impersonates raw raw' \/ impersonates raw' raw.

(** C30. When peer names are unique. For DNS-1123 names, the mesh and cluster names
    without "--", two peer names are equal exactly when they come from the same mesh,
    cluster and node, or: both raw names are longer than 253 bytes, agree in what is
    kept of them, and in the first 8 bytes of their SHA-256; or one of them is longer,
    and the other is, letter for letter, its shortened form. The last case needs no
    hash collision, only a node of that name, so the hash does not guarantee
    uniqueness as the comment of [Name] says; names that fit are unique. *)
Theorem Name_unique m c n m' c' n' :
  dns_subdomain m = true -> dns_subdomain c = true -> dns_subdomain n = true ->
  dns_subdomain m' = true -> dns_subdomain c' = true -> dns_subdomain n' = true ->
  no_dashes m = true -> no_dashes c = true -> no_dashes m' = true -> no_dashes c' = true ->
  Name m c n = Name m' c' n' <->
  (m = m' /\ c = c' /\ n = n') \/ confused (rawName m c n) (rawName m' c' n').
Proof.
  intros Hm Hc Hn Hm' Hc' Hn' Nm Nc Nm' Nc'.
  pose proof (Name_cases m c n) as H. pose proof (Name_cases m' c' n') as H'. simpl in H, H'.
  rewrite sanitize_rawName in H, H' by done. unfold confused, impersonates.
  assert (Hraw : rawName m c n = rawName m' c' n' <-> m = m' /\ c = c' /\ n = n').
  { split; [by apply rawName_inj|by intros (-> & -> & ->)]. }
  rewrite <- Hraw. set (raw := rawName m c n) in *. set (raw' := rawName m' c' n') in *.
  assert (Hh : nameHash raw = nameHash raw' <-> hash8 raw = hash8 raw').
  { split; [apply nameHash_inj|]. unfold nameHash, hash8. by intros ->. }
  destruct H as [[L EN]|[L EN]], H' as [[L' EN']|[L' EN']]; rewrite EN, EN'.
  - split; [by left|]. intros [->|[(_ & ? & _)|[[? _]|[? _]]]]; [done|lia..].
  - split; [intros E; right; right; left; split; [lia|done]|].
    intros [E|[(_ & ? & _)|[[_ E]|[? _]]]]; [rewrite E in L; lia|lia|done|lia].
  - split; [intros E; right; right; right; split; [lia|done]|].
    intros [E|[(_ & _ & ? & _)|[[? _]|[_ E]]]]; [rewrite E in L; lia|lia|lia|done].
  - split.
    + intros E. destruct (decide (raw = raw')) as [|Hne]; [by left|]. right; left. split; [done|]. do 2 (split; [done|]).
      apply app_inj_suffix in E as [E1 E2]; [|simpl; by rewrite !(proj2 (nameHash_shape _))]. split; [done|].
      apply Hh. by injection E2.
    + intros [E|[(_ & _ & _ & E1 & E2%Hh)|[[? _]|[? _]]]]; [by rewrite E|by rewrite E1, E2|lia..].
Qed.

(** The "--" condition of [Name_unique] is needed, although [Name] is documented as unique:
    a valid cluster name may contain "--", and then two different sources get the
    same peer name. *)
Theorem Name_collision :
  dns_subdomain "b--c" = true /\ Name "a" "b" "c--d" = Name "a" "b--c" "d".
Proof. split; by vm_compute. Qed.

(** [sanitizeDNS] does not always return a DNS-1123 subdomain, as its comment
    says: labels inside the result may start or end with a dash. *)
Theorem sanitizeDNS_inner_label : sanitizeDNS "a.-b" = "a.-b" /\ dns_subdomain (sanitizeDNS "a.-b") = false.
Proof. split; by vm_compute. Qed.

(** A name starts like its mesh name, when that starts with [a-z0-9]. *)
Lemma sanitizeDNS_head c r : alnum c = true -> exists t, sanitizeDNS (String c r) = String c t.
Proof.
  intros Hc. pose proof Hc as [Hd Hn]%andb_prop. unfold sanitizeDNS, runes.
  cbn [bytes_of_string length runes_loop]. rewrite decide_False by done. cbn [DecodeRune].
  rewrite (proj2 (Z.ltb_lt _ _)) by by apply dns_char_range.
  cbn [fmap list_fmap string_of]. rewrite ToLower_dns, sanitizeRune_dns by done.
  rewrite Str.trim_left_id by exact Hn. rewrite Str.trim_right_String.
  apply negb_true_iff in Hn. rewrite Hn. case_decide; eauto.
Qed.

Lemma Name_head c m s n : alnum c = true -> exists t, Name (String c m) s n = String c t.
Proof.
  intros Hc. destruct (sanitizeDNS_head c (m +:+ "--" +:+ s +:+ "--" +:+ n) Hc) as [t Ht].
  pose proof (Name_cases (String c m) s n) as H. unfold rawName in H. cbn [String.append] in H, Ht.
  rewrite Ht in H. destruct H as [[_ ->]|[_ ->]]; [eauto|].
  unfold truncated. cbn [Str.take maxNameLength Nat.sub]. rewrite Str.trim_right_String.
  apply andb_prop in Hc as [_ Hn%negb_true_iff]. rewrite Hn. case_decide; cbn [String.append]; eauto.
Qed.

(** ** Concrete instances *)

Lemma Name_dns1123_witness : dns_subdomain (Name "prod" "eu-1" "node.a") = true.
Proof. apply (Name_dns1123 "prod" "eu-1" "node.a"); reflexivity. Defined.

(** A long node name, and the node whose peer takes its name. *)
Definition long_node : string := string_of (replicate 250 "a"%char).
Definition short_node : string := String.substring 6 253 (Name "m" "c" long_node).

Lemma Name_unique_witness :
  Name "prod" "eu-1" "n1" <> Name "prod" "eu-1" "n2" /\
  (Name "m" "c" long_node = Name "m" "c" short_node /\ long_node <> short_node).
Proof.
  split; [|split].
  - intros E. apply (Name_unique "prod" "eu-1" "n1" "prod" "eu-1" "n2") in E; try reflexivity.
    destruct E as [(_ & _ & E)|[(_ & H & _)|[[[_ H] _]|[[_ H] _]]]]; [discriminate E|vm_compute in H; lia..].
  - apply (Name_unique "m" "c" long_node "m" "c" short_node); try (vm_compute; reflexivity).
    right; right; right. split; [vm_compute; lia|]. vm_compute. reflexivity.
  - intros E. apply (f_equal String.length) in E. vm_compute in E. discriminate E.
Defined.
