(* ===== verification/Builder.v ===== *)
(** * [internal/peer/builder.go]: peers from nodes

    [BuildPeer] with its helpers and [CollectAnchorCIDRs], the residual
    networks no node announces. *)

From Stdlib Require Import Ascii String.
From S2P Require Import Prelude GoStrings GoNet GoNetFacts GoNetPrint Netutil Types Kilonode ValidationNode Naming.
Open Scope Z_scope.

Inductive parse_endpoint_error : Type :=
| InvalidEndpointFormat (raw : string)
| InvalidEndpointPort (raw : string).

Inductive build_error : Type :=
| NoPublicKeyAnnotation (node : string)
| NoWireguardIPAnnotation (node : string)
| InvalidWireguardIPAnnotation (node wgIP : string) (cause : cidr_error)
| NoPodCIDRsAllocated (node : string)
| ResolvingEndpoint (node : string) (cause : endpoint_error)
| ParsingResolvedEndpoint (endpoint node : string) (cause : parse_endpoint_error).

(** ** Endpoints *)

(** The cutset ["[]"]. *)
Definition brackets (c : ascii) : bool := bool_decide (c = "["%char) || bool_decide (c = "]"%char).

(** The [DNSOrIP] pair, DNS first. *)
Definition buildDNSOrIP (host : string) : string * string :=
  let cleanHost := Str.trim brackets host in
  match ParseIP cleanHost with
  | Some _ => ("", cleanHost)
  | None => (cleanHost, "")
  end.

Definition parseEndpoint (raw : string) : result parse_endpoint_error PeerEndpoint :=
  match Str.cut_last ":"%char raw with
  | None => Err (InvalidEndpointFormat raw)
  | Some (host, portStr) =>
      match ParseUint portStr 32 with
      | None => Err (InvalidEndpointPort raw)
      | Some port => let '(dns, ip) := buildDNSOrIP host in Ok (mkPeerEndpoint dns ip port)
      end
  end.

(** [Ok None] is Go's [(nil, nil)]: a roaming peer. *)
Definition resolvePeerEndpoint (node : Node) (fallbackPort : Z) : result build_error (option PeerEndpoint) :=
  match ResolveEndpoint node fallbackPort with
  | Err e => Err (ResolvingEndpoint (node_Name node) e)
  | Ok None => Ok None
  | Ok (Some endpointStr) =>
      match parseEndpoint endpointStr with
      | Err e => Err (ParsingResolvedEndpoint endpointStr (node_Name node) e)
      | Ok endpoint => Ok (Some endpoint)
      end
  end.

(** ** AllowedIPs *)

(** The loop of [dedupeStrings]; [seen] is the Go map. *)
Fixpoint dedupeLoop (seen : gset string) (routes : list string) : list string :=
  match routes with
  | [] => []
  | route :: rest =>
      if decide (route ∈ seen) then dedupeLoop seen rest
      else route :: dedupeLoop ({[route]} ∪ seen) rest
  end.
Definition dedupeStrings (routes : list string) : list string := dedupeLoop ∅ routes.

Fixpoint internalIPRoutes (addresses : list NodeAddress) : list string :=
  match addresses with
  | [] => []
  | addr :: rest =>
      if decide (addr_Type addr <> NodeInternalIP) then internalIPRoutes rest
      else match ParseIP (addr_Address addr) with
           | None => internalIPRoutes rest
           | Some internalIP => HostRoute internalIP :: internalIPRoutes rest
           end
  end.
Definition nodeOwnInternalIPHostRoutes (node : Node) : list string := internalIPRoutes (node_Addresses node).

Definition BuildPeer (meshName : string) (entry : ClusterEntry) (node : Node)
    (extraAllowedIPs : list string) (meshKeepalive : Z) : result build_error Peer :=
  let pubKey := annotation node AnnotationPublicKey in
  if decide (pubKey = "") then Err (NoPublicKeyAnnotation (node_Name node))
  else
    let wgIP := annotation node AnnotationWireguardIP in
    if decide (wgIP = "") then Err (NoWireguardIPAnnotation (node_Name node))
    else
      match ParseHostInCIDR wgIP with
      | Err e => Err (InvalidWireguardIPAnnotation (node_Name node) wgIP e)
      | Ok (hostIP, _) =>
          match node_PodCIDRs node with
          | [] => Err (NoPodCIDRsAllocated (node_Name node))
          | podCIDR :: _ =>
              let allowedIPs := [podCIDR; HostRoute hostIP] ++ nodeOwnInternalIPHostRoutes node ++ extraAllowedIPs in
              let allowedIPs := dedupeStrings allowedIPs in
              match resolvePeerEndpoint node (entry_WireguardPort entry) with
              | Err e => Err e
              | Ok endpoint =>
                  Ok (mkPeer (Name meshName (entry_Name entry) (node_Name node))
                             (Labels meshName (entry_Name entry)) ""
                             (mkPeerSpec allowedIPs endpoint
                                (Z.max (entry_PersistentKeepalive entry) meshKeepalive) "" pubKey))
              end
          end
      end.

(** ** Anchor CIDRs *)

Fixpoint internalIPCovers (network : IPNet) (addresses : list NodeAddress) : bool :=
  match addresses with
  | [] => false
  | addr :: rest =>
      if decide (addr_Type addr <> NodeInternalIP) then internalIPCovers network rest
      else match ParseIP (addr_Address addr) with
           | Some internalIP => if Contains network internalIP then true else internalIPCovers network rest
           | None => internalIPCovers network rest
           end
  end.

Definition nodeCoversNetwork (network : IPNet) (node : Node) : bool :=
  if match node_PodCIDRs node with
     | first :: _ => match Netutil.ParseCIDR first with
                     | Ok nodeCIDR => CIDRContains network nodeCIDR
                     | Err _ => false
                     end
     | [] => false
     end
  then true
  else if internalIPCovers network (node_Addresses node) then true
  else
    let wgIP := annotation node AnnotationWireguardIP in
    if decide (wgIP = "") then false
    else match ParseHostInCIDR wgIP with
         | Err _ => false
         | Ok (hostIP, _) => Contains network hostIP
         end.

Fixpoint networkCoveredByAnyNode (network : IPNet) (nodes : list Node) : bool :=
  match nodes with
  | [] => false
  | node :: rest => if nodeCoversNetwork network node then true else networkCoveredByAnyNode network rest
  end.

Fixpoint collectResidual (networks : list string) (nodes : list Node) : list string :=
  match networks with
  | [] => []
  | networkStr :: rest =>
      match Netutil.ParseCIDR networkStr with
      | Err _ => networkStr :: collectResidual rest nodes
      | Ok network =>
          if negb (networkCoveredByAnyNode network nodes)
          then networkStr :: collectResidual rest nodes
          else collectResidual rest nodes
      end
  end.
Definition CollectAnchorCIDRs (entry : ClusterEntry) (nodes : list Node) : list string :=
  collectResidual (entry_AllowedNetworks entry) nodes.

(** ** Lemmas *)

Lemma dedupeLoop_elem seen l x : x ∈ dedupeLoop seen l <-> x ∈ l /\ x ∉ seen.
Proof.
  revert seen; induction l as [|y l IH]; intros seen; simpl.
  - split; [by intros H%not_elem_of_nil|]. by intros [H%not_elem_of_nil _].
  - case_decide; rewrite ?elem_of_cons, IH; [set_solver|]. destruct (decide (x = y)); set_solver.
Qed.

Lemma dedupeLoop_NoDup seen l : NoDup (dedupeLoop seen l).
Proof.
  revert seen; induction l as [|y l IH]; intros seen; simpl; [constructor|].
  case_decide; [done|]. constructor; [|done]. rewrite dedupeLoop_elem. set_solver.
Qed.

Lemma dedupeStrings_elem l x : x ∈ dedupeStrings l <-> x ∈ l.
Proof. unfold dedupeStrings. rewrite dedupeLoop_elem. set_solver. Qed.

Lemma dedupeLoop_sublist seen l : dedupeLoop seen l `sublist_of` l.
Proof.
  revert seen; induction l as [|y l IH]; intros seen; simpl; [constructor|].
  case_decide; by constructor.
Qed.

Lemma internalIPRoutes_elem addrs r :
  r ∈ internalIPRoutes addrs <->
  exists a ip, a ∈ addrs /\ addr_Type a = NodeInternalIP /\ ParseIP (addr_Address a) = Some ip /\ r = HostRoute ip.
Proof.
  induction addrs as [|a addrs IH]; simpl.
  - split; [by intros H%not_elem_of_nil|]. by intros (? & ? & H%not_elem_of_nil & _).
  - setoid_rewrite elem_of_cons. destruct (decide (addr_Type a = NodeInternalIP)) as [E|E].
    + rewrite decide_False by tauto. destruct (ParseIP (addr_Address a)) as [ip|] eqn:Eip.
      * rewrite elem_of_cons, IH. split; [naive_solver|].
        intros (a' & ip' & [->|?] & ? & ? & ->); [left; congruence|right; eauto 6].
      * rewrite IH. split; [naive_solver|]. intros (a' & ip' & [->|?] & ? & ? & ->); [congruence|eauto 6].
    + rewrite decide_True by done. rewrite IH. split; [naive_solver|].
      intros (a' & ip' & [->|?] & ? & ? & ->); [congruence|eauto 6].
Qed.

Lemma internalIPCovers_true network addrs :
  internalIPCovers network addrs = true <->
  exists a ip, a ∈ addrs /\ addr_Type a = NodeInternalIP /\ ParseIP (addr_Address a) = Some ip /\
    Contains network ip = true.
Proof.
  induction addrs as [|a addrs IH]; simpl.
  - split; [done|]. by intros (? & ? & H%not_elem_of_nil & _).
  - setoid_rewrite elem_of_cons. destruct (decide (addr_Type a = NodeInternalIP)) as [E|E].
    + rewrite decide_False by tauto. destruct (ParseIP (addr_Address a)) as [ip|] eqn:Eip.
      * destruct (Contains network ip) eqn:Ec; [split; [|done]; intros _; exists a, ip; auto|].
        rewrite IH. split; [naive_solver|].
        intros (a' & ip' & [->|?] & ? & ? & ?); [congruence|eauto 6].
      * rewrite IH. split; [naive_solver|]. intros (a' & ip' & [->|?] & ? & ? & ?); [congruence|eauto 6].
    + rewrite decide_True by done. rewrite IH. split; [naive_solver|].
      intros (a' & ip' & [->|?] & ? & ? & ?); [congruence|eauto 6].
Qed.

(** ** Endpoints *)

Lemma trim_none p s : Str.forallb (fun c => negb (p c)) s = true -> Str.trim p s = s.
Proof.
  intros H. unfold Str.trim. rewrite Str.trim_left_id by by apply Str.head_ok_forallb.
  apply Str.trim_right_id. by apply Str.last_ok_forallb.
Qed.

Lemma trim_right_app_drop p s c : p c = true -> Str.trim_right p (s +:+ String c "") = Str.trim_right p s.
Proof.
  intros Hc. induction s as [|d s IH]; [simpl; by rewrite Hc|].
  cbn [String.append]. by rewrite !Str.trim_right_String, IH.
Qed.

Lemma trim_bracketed h :
  Str.forallb (fun c => negb (brackets c)) h = true -> Str.trim brackets ("[" +:+ h +:+ "]") = h.
Proof.
  intros H. unfold Str.trim. cbn [String.append Str.trim_left].
  assert (E : Str.trim_left brackets (h +:+ "]") = (if decide (h = "") then "" else h +:+ "]")).
  { destruct h as [|c h]; [done|]. rewrite decide_False by done. apply Str.trim_left_id.
    simpl in H. by apply andb_prop in H as [? _]. }
  change (brackets "[") with true. cbn match. rewrite E. case_decide as Eh; [by subst|].
  rewrite trim_right_app_drop by done. apply Str.trim_right_id. by apply Str.last_ok_forallb.
Qed.

Lemma no_brackets h :
  Str.contains "[" h = false -> Str.contains "]" h = false -> Str.forallb (fun c => negb (brackets c)) h = true.
Proof.
  induction h as [|c h IH]; simpl; [done|]. do 2 case_decide; try done. intros H1 H2.
  rewrite IH by done. unfold brackets. by rewrite !bool_decide_false by congruence.
Qed.

(** [parseEndpoint] splits where [net.SplitHostPort] does. *)
Lemma SplitHostPort_last s host port :
  SplitHostPort s = Some (host, port) ->
  exists before, Str.cut_last ":"%char s = Some (before, port) /\ Str.trim brackets before = host.
Proof.
  unfold SplitHostPort. destruct (Str.cut_last ":" s) as [[before p]|] eqn:E; [|done].
  destruct s as [|c rest]; [done|]. intros H. exists before.
  case_decide as Hc.
  - destruct (Str.cut "]" rest) as [[h after]|] eqn:Ecut; [|done]. case_decide as Hb; [|done].
    destruct (Str.contains "[" rest) eqn:H1; [done|].
    destruct (Str.contains "]" (":" +:+ p)) eqn:H2; [done|]. injection H as <- <-.
    split; [done|]. rewrite Hb. apply trim_bracketed.
    apply Str.cut_Some in Ecut as [-> Hh]. rewrite Str.contains_app in H1. apply orb_false_iff in H1 as [H1 _].
    by apply no_brackets.
  - destruct (Str.contains ":" before); [done|].
    destruct (Str.contains "[" (String c rest)) eqn:H1; [done|].
    destruct (Str.contains "]" (String c rest)) eqn:H2; [done|]. injection H as <- <-.
    split; [done|]. apply trim_none, no_brackets.
    + apply Str.cut_last_Some in E as [E _]. rewrite E, Str.contains_app in H1. by apply orb_false_iff in H1 as [? _].
    + apply Str.cut_last_Some in E as [E _]. rewrite E, Str.contains_app in H2. by apply orb_false_iff in H2 as [? _].
Qed.

(** A [PeerEndpoint] denotes host [host]: as an IP if it is one, else as a DNS
    name, never both. *)
Definition denotes_host (e : PeerEndpoint) (host : string) : Prop :=
  (ep_IP e = host /\ ep_DNS e = "" /\ is_Some (ParseIP host)) \/
  (ep_DNS e = host /\ ep_IP e = "" /\ ParseIP host = None).

Lemma parseEndpoint_split s host portStr port :
  SplitHostPort s = Some (host, portStr) -> ParseUint portStr 16 = Some port ->
  exists e, parseEndpoint s = Ok e /\ denotes_host e host /\ ep_Port e = port.
Proof.
  intros Hs Hp. apply SplitHostPort_last in Hs as (before & Hcut & Htrim).
  unfold parseEndpoint. rewrite Hcut, (ParseUint_mono _ 16 32 port) by (done || lia).
  unfold buildDNSOrIP. rewrite Htrim. unfold denotes_host.
  destruct (ParseIP host) eqn:E; eexists; (split; [done|]); simpl; naive_solver.
Qed.

(** Every endpoint that resolution accepts parses into a [PeerEndpoint] that
    keeps its host, as an IP address exactly when it is one (brackets removed) and
    as a DNS name otherwise, and its port, between 1 and 65535. *)
Theorem parseEndpoint_of_valid ep :
  valid_endpoint ep ->
  exists host portStr e, SplitHostPort ep = Some (host, portStr) /\ parseEndpoint ep = Ok e /\
    denotes_host e host /\ 1 <= ep_Port e <= 65535.
Proof.
  intros (host & portStr & port & Hs & _ & Hp & Hr).
  destruct (parseEndpoint_split _ _ _ _ Hs Hp) as (e & He & Hd & <-). by exists host, portStr, e.
Qed.

Lemma resolvePeerEndpoint_Ok node port ep :
  0 <= port < 65536 -> ResolveEndpoint node port = Ok ep ->
  exists endpoint, resolvePeerEndpoint node port = Ok endpoint /\
    (endpoint = None <-> ep = None) /\
    forall e, endpoint = Some e -> 1 <= ep_Port e <= 65535.
Proof.
  intros Hp H. unfold resolvePeerEndpoint. rewrite H. destruct ep as [s|]; [|by exists None].
  apply ResolveEndpoint_sound in H as (host & portStr & q & Hs & _ & Hq & Hr); [|done].
  destruct (parseEndpoint_split _ _ _ _ Hs Hq) as (e & -> & _ & <-).
  exists (Some e). split; [done|]. split; [done|]. by intros e' [= <-].
Qed.

(** ** [BuildPeer] *)

Lemma BuildPeer_Ok meshName entry node extra keepalive p :
  BuildPeer meshName entry node extra keepalive = Ok p <->
  exists hostIP wgNet podCIDR rest endpoint,
    annotation node AnnotationPublicKey <> "" /\
    ParseHostInCIDR (annotation node AnnotationWireguardIP) = Ok (hostIP, wgNet) /\
    node_PodCIDRs node = podCIDR :: rest /\
    resolvePeerEndpoint node (entry_WireguardPort entry) = Ok endpoint /\
    p = mkPeer (Name meshName (entry_Name entry) (node_Name node)) (Labels meshName (entry_Name entry)) ""
          (mkPeerSpec (dedupeStrings ([podCIDR; HostRoute hostIP] ++ nodeOwnInternalIPHostRoutes node ++ extra))
             endpoint (Z.max (entry_PersistentKeepalive entry) keepalive) ""
             (annotation node AnnotationPublicKey)).
Proof.
  unfold BuildPeer. case_decide as Hk; [split; [done|]; by intros (? & ? & ? & ? & ? & ? & _)|].
  case_decide as Hw.
  { rewrite Hw. split; [done|]. by intros (? & ? & ? & ? & ? & _ & ? & _). }
  destruct (ParseHostInCIDR _) as [[ip n]|] eqn:Ew; [|split; [done|]; by intros (? & ? & ? & ? & ? & _ & ? & _)].
  destruct (node_PodCIDRs node) as [|pod rest] eqn:Epod;
    [split; [done|]; by intros (? & ? & ? & ? & ? & _ & _ & ? & _)|].
  destruct (resolvePeerEndpoint _ _) as [ep|] eqn:Eep;
    [|split; [done|]; by intros (? & ? & ? & ? & ? & _ & _ & _ & ? & _)].
  split.
  - intros [= <-]. by exists ip, n, pod, rest, ep.
  - intros (? & ? & ? & ? & ? & _ & [= <- <-] & [= <- <-] & [= <-] & ->). done.
Qed.

Lemma BuildPeer_eligible meshName entry node extra keepalive :
  0 <= entry_WireguardPort entry < 65536 -> ValidateNode node entry = None ->
  exists p, BuildPeer meshName entry node extra keepalive = Ok p.
Proof.
  intros Hport [[pod [rest [pn [Hpod _]]]] [ip [wn [Hwg _]]] Hkey Hep]%ValidateNode_None.
  apply (ResolveEndpoint_resolves node (entry_WireguardPort entry)) in Hep as [ep Hep].
  destruct (resolvePeerEndpoint_Ok node _ ep Hport Hep) as (endpoint & Hr & _).
  eexists. apply BuildPeer_Ok. by exists ip, wn, pod, rest, endpoint.
Qed.

(** Validation and construction agree: for every node [ValidateNode] accepts,
    [BuildPeer] succeeds, for any mesh, extra networks and keepalive; the peer
    carries the node's public key, its name and labels, and an endpoint with a port
    in 1..65535, or no endpoint exactly when none resolves. *)
Theorem BuildPeer_total_on_validated meshName entry node extra keepalive :
  0 <= entry_WireguardPort entry < 65536 ->
  ValidateNode node entry = None ->
  exists p, BuildPeer meshName entry node extra keepalive = Ok p /\
    peer_Name p = Name meshName (entry_Name entry) (node_Name node) /\
    peer_Labels p = Labels meshName (entry_Name entry) /\
    spec_PublicKey (peer_Spec p) = annotation node AnnotationPublicKey /\
    (spec_Endpoint (peer_Spec p) = None <->
       ResolveEndpoint node (entry_WireguardPort entry) = Ok None) /\
    forall e, spec_Endpoint (peer_Spec p) = Some e -> 1 <= ep_Port e <= 65535.
Proof.
  intros Hport [[pod [rest [pn [Hpod _]]]] [ip [wn [Hwg _]]] Hkey Hep]%ValidateNode_None.
  apply (ResolveEndpoint_resolves node (entry_WireguardPort entry)) in Hep as [ep Hep].
  destruct (resolvePeerEndpoint_Ok node _ ep Hport Hep) as (endpoint & Hr & Hnone & Hrange).
  eexists. split; [apply BuildPeer_Ok; by exists ip, wn, pod, rest, endpoint|].
  repeat (split; [done|]). simpl. split; [|done]. rewrite Hnone, Hep. split; [by intros ->|by intros [= ->]].
Qed.

(** The routes a node announces on its own: its pod network, its WireGuard host
    route and the host routes of its InternalIPs. *)
Definition own_route (node : Node) (r : string) : Prop :=
  (exists rest, node_PodCIDRs node = r :: rest) \/
  (exists ip n, ParseHostInCIDR (annotation node AnnotationWireguardIP) = Ok (ip, n) /\ r = HostRoute ip) \/
  (exists a ip, a ∈ node_Addresses node /\ addr_Type a = NodeInternalIP /\
                ParseIP (addr_Address a) = Some ip /\ r = HostRoute ip).

Lemma BuildPeer_routes meshName entry node extra keepalive p r :
  BuildPeer meshName entry node extra keepalive = Ok p ->
  r ∈ spec_AllowedIPs (peer_Spec p) <-> own_route node r \/ r ∈ extra.
Proof.
  intros (ip & wn & pod & rest & ep & _ & Hw & Hpod & _ & ->)%BuildPeer_Ok. simpl.
  rewrite dedupeStrings_elem, !elem_of_cons, elem_of_app. unfold nodeOwnInternalIPHostRoutes.
  rewrite internalIPRoutes_elem. unfold own_route. rewrite Hpod, Hw. split.
  - intros [->|[->|[?|?]]]; [left; left; eauto|left; right; left; eauto|by left; right; right|by right].
  - intros [[[? [= -> _]]|[(? & ? & [= <- <-] & ->)|?]]|?]; auto.
Qed.

(** C27. A built peer's AllowedIPs are, without duplicates, exactly the node's own
    routes and the extra networks passed in: the WireGuard address is narrowed to
    its host route whatever prefix length the annotation has, and nothing else is
    announced. The keepalive is never below the entry's or the mesh-wide one. *)
Theorem BuildPeer_allowedIPs meshName entry node extra keepalive p :
  BuildPeer meshName entry node extra keepalive = Ok p ->
  NoDup (spec_AllowedIPs (peer_Spec p)) /\
  (forall r, r ∈ spec_AllowedIPs (peer_Spec p) <-> own_route node r \/ r ∈ extra) /\
  entry_PersistentKeepalive entry <= spec_PersistentKeepalive (peer_Spec p) /\
  keepalive <= spec_PersistentKeepalive (peer_Spec p).
Proof.
  intros H. split; [|split; [intros r; by eapply BuildPeer_routes|]];
    destruct (proj1 (BuildPeer_Ok _ _ _ _ _ _) H) as (ip & wn & pod & rest & ep & _ & _ & _ & _ & ->); simpl.
  - apply dedupeLoop_NoDup.
  - lia.
Qed.

(** ** Anchor CIDRs *)

(** Route [r] denotes a network inside [network]. *)
Definition inside (network : IPNet) (r : string) : Prop :=
  exists n, Netutil.ParseCIDR r = Ok n /\ CIDRContains network n = true.

Lemma inside_HostRoute network ip :
  wf_net network -> ip_ok ip -> inside network (HostRoute ip) <-> Contains network ip = true.
Proof.
  intros Hn Hip. unfold inside. split.
  - intros (n & Hp & HC). by rewrite <- (CIDRContains_HostRoute network ip n).
  - intros HC. destruct (HostRoute_parse ip Hip) as (n & Hp & _).
    assert (Hok : Netutil.ParseCIDR (HostRoute ip) = Ok n) by (unfold Netutil.ParseCIDR; by rewrite Hp).
    exists n. split; [done|]. by rewrite (CIDRContains_HostRoute network ip n).
Qed.

Lemma nodeCoversNetwork_iff network node :
  wf_net network ->
  nodeCoversNetwork network node = true <-> exists r, own_route node r /\ inside network r.
Proof.
  intros Hn. transitivity
    ((exists pod rest, node_PodCIDRs node = pod :: rest /\ inside network pod) \/
     (exists a ip, a ∈ node_Addresses node /\ addr_Type a = NodeInternalIP /\
        ParseIP (addr_Address a) = Some ip /\ Contains network ip = true) \/
     (exists ip n, ParseHostInCIDR (annotation node AnnotationWireguardIP) = Ok (ip, n) /\
        Contains network ip = true)).
  - unfold nodeCoversNetwork. rewrite <- internalIPCovers_true.
    assert (Hpod : (match node_PodCIDRs node with
       | first :: _ => match Netutil.ParseCIDR first with Ok c => CIDRContains network c | Err _ => false end
       | [] => false end = true) <-> exists pod rest, node_PodCIDRs node = pod :: rest /\ inside network pod).
    { unfold inside. destruct (node_PodCIDRs node) as [|f r]; [split; [done|by intros (? & ? & ? & _)]|].
      destruct (Netutil.ParseCIDR f) as [c|] eqn:E.
      - split; [intros ?; exists f, r; eauto|]. intros (? & ? & [= <- <-] & n & ? & ?). congruence.
      - split; [done|]. intros (? & ? & [= <- <-] & n & ? & ?). congruence. }
    rewrite <- Hpod. clear Hpod. match goal with |- context [if ?b then true else _] => destruct b end; [tauto|].
    destruct (internalIPCovers _ _); [tauto|].
    case_decide as Hw; [rewrite Hw; split; [done|]; by intros [?|[?|(? & ? & ? & _)]]|].
    destruct (ParseHostInCIDR _) as [[ip n]|].
    + split; [by eauto 6|]. intros [?|[?|(? & ? & [= <- <-] & ?)]]; done.
    + split; [done|]. by intros [?|[?|(? & ? & ? & _)]].
  - unfold own_route. split.
    + intros [(pod & rest & Hp & Hi)|[(a & ip & Ha & Ht & Hip & HC)|(ip & n & Hw & HC)]].
      * exists pod. split; [left; eauto|done].
      * exists (HostRoute ip). split; [right; right; eauto 8|]. apply inside_HostRoute; [done|by eapply ParseIP_ok|done].
      * exists (HostRoute ip). split; [right; left; eauto|].
        apply inside_HostRoute; [done|by apply (ParseHostInCIDR_ok _ _ _ Hw)|done].
    + intros (r & [[rest Hp]|[(ip & n & Hw & ->)|(a & ip & Ha & Ht & Hip & ->)]] & Hi).
      * left; eauto.
      * right; right. exists ip, n. split; [done|].
        apply inside_HostRoute in Hi; [done|done|by apply (ParseHostInCIDR_ok _ _ _ Hw)].
      * right; left. exists a, ip. do 3 (split; [done|]). apply inside_HostRoute in Hi; [done|done|by eapply ParseIP_ok].
Qed.

Lemma networkCoveredByAnyNode_true network nodes :
  networkCoveredByAnyNode network nodes = true <-> exists node, node ∈ nodes /\ nodeCoversNetwork network node = true.
Proof.
  induction nodes as [|n nodes IH]; simpl; [split; [done|]; by intros (? & H%not_elem_of_nil & _)|].
  setoid_rewrite elem_of_cons. destruct (nodeCoversNetwork network n) eqn:E; [by split; eauto|].
  rewrite IH. split; [naive_solver|]. intros (n' & [->|?] & ?); [congruence|eauto].
Qed.

Lemma collectResidual_elem networks nodes raw :
  raw ∈ collectResidual networks nodes <->
  raw ∈ networks /\ forall network, Netutil.ParseCIDR raw = Ok network ->
    networkCoveredByAnyNode network nodes = false.
Proof.
  induction networks as [|x networks IH]; simpl.
  - split; [by intros ?%not_elem_of_nil|by intros [?%not_elem_of_nil _]].
  - destruct (Netutil.ParseCIDR x) as [n|] eqn:E; [destruct (networkCoveredByAnyNode n nodes) eqn:Ec; simpl|];
      rewrite ?elem_of_cons, IH.
    + split; [naive_solver|]. intros [[->|?] Hc]; [|done]. rewrite (Hc n) in Ec; done.
    + split; [|naive_solver]. intros [->|[? ?]]; [|by auto]. split; [by left|]. intros n' Hn'. congruence.
    + split; [|naive_solver]. intros [->|[? ?]]; [|by auto]. split; [by left|]. intros n' Hn'. congruence.
Qed.

Lemma CollectAnchorCIDRs_elem entry nodes raw :
  raw ∈ CollectAnchorCIDRs entry nodes <->
  raw ∈ entry_AllowedNetworks entry /\
  forall network node r, Netutil.ParseCIDR raw = Ok network -> node ∈ nodes -> own_route node r ->
    ~ inside network r.
Proof.
  unfold CollectAnchorCIDRs. rewrite collectResidual_elem. split; intros [Hr H]; (split; [done|]).
  - intros network node r Hp Hin Ho Hi. specialize (H network Hp).
    apply not_true_iff_false in H. apply H, networkCoveredByAnyNode_true. exists node. split; [done|].
    apply nodeCoversNetwork_iff; [by eapply ParseCIDR_wf|eauto].
  - intros network Hp. apply not_true_iff_false. rewrite networkCoveredByAnyNode_true.
    intros (node & Hin & (r & Ho & Hi)%nodeCoversNetwork_iff); [|by eapply ParseCIDR_wf]. by eapply H.
Qed.

(** [CollectAnchorCIDRs] keeps exactly the AllowedNetworks entries no node
    represents: a parsable entry is dropped if and only if some node's own routes
    (pod network, WireGuard host route or an InternalIP host route) include one
    inside it; an entry that does not parse is always kept. *)
Theorem CollectAnchorCIDRs_residual entry nodes raw :
  raw ∈ CollectAnchorCIDRs entry nodes <->
  raw ∈ entry_AllowedNetworks entry /\
  forall network node r, Netutil.ParseCIDR raw = Ok network -> node ∈ nodes -> own_route node r ->
    ~ inside network r.
Proof. apply CollectAnchorCIDRs_elem. Qed.

(** ** Concrete instances *)

Definition example_entry : ClusterEntry :=
  mkClusterEntry "eu-1" false None ["10.0.0.0/16"; "100.64.0.0/16"; "10.96.0.0/12"] 51820 25.

Lemma parseEndpoint_of_valid_witness :
  exists host portStr e, SplitHostPort "[2001:db8::7]:51820" = Some (host, portStr) /\
    parseEndpoint "[2001:db8::7]:51820" = Ok e /\ denotes_host e host /\ 1 <= ep_Port e <= 65535.
Proof. apply (parseEndpoint_of_valid "[2001:db8::7]:51820"). apply validateHostPort_iff. reflexivity. Defined.

Lemma BuildPeer_total_on_validated_witness :
  exists p, BuildPeer "prod" example_entry example_node [] 0 = Ok p /\
    spec_PublicKey (peer_Spec p) = "K1" /\ peer_Name p = "prod--eu-1--node-1".
Proof.
  destruct (BuildPeer_total_on_validated "prod" example_entry example_node [] 0) as (p & Hp & Hn & _ & Hk & _).
  - simpl. lia.
  - reflexivity.
  - exists p. split; [exact Hp|]. split; [exact Hk|]. rewrite Hn. reflexivity.
Defined.

Lemma BuildPeer_allowedIPs_witness :
  exists p, BuildPeer "prod" example_entry example_node ["10.96.0.0/12"] 0 = Ok p /\
    NoDup (spec_AllowedIPs (peer_Spec p)) /\ "10.96.0.0/12" ∈ spec_AllowedIPs (peer_Spec p).
Proof.
  destruct (BuildPeer "prod" example_entry example_node ["10.96.0.0/12"] 0) as [p|] eqn:E; [|discriminate E].
  destruct (BuildPeer_allowedIPs "prod" example_entry example_node ["10.96.0.0/12"] 0 p E) as (H1 & H2 & _).
  exists p. split; [reflexivity|]. split; [exact H1|]. apply H2. right. left.
Defined.
