(* ===== verification/Kube.v ===== *)
(** * The Kubernetes API, as the operator's components see it

    The API servers, their client library and the iteration order of Go maps are
    outside the repository. They appear here as an interface: operations on an
    abstract world [W] through client handles [C] (class [PeerAPI]), and what
    their documentation promises (class [PeerAPILaws]). Reads may come from an
    informer cache and be stale; writes carry optimistic concurrency control.
    [Memory] is an in-memory API server that satisfies the laws; concrete
    scenarios run on it. *)

From Stdlib Require Import String.
From S2P Require Import Prelude GoStrings GoNetFacts Types.
Open Scope Z_scope.

(** The error classes the code distinguishes ([apierrors.IsNotFound],
    [meta.NoKindMatchError]); everything else is [OtherError]. *)
Inductive kube_error : Type :=
| NotFound
| AlreadyExists
| Conflict
| NoKindMatch
| OtherError (msg : string).

#[export] Instance kube_error_eq_dec : EqDecision kube_error.
Proof. solve_decision. Defined.

(** A label selector is the predicate it denotes. *)
Definition selector : Type := gmap string string -> bool.
Definition everything : selector := fun _ => true.

(** ** Operations *)

Class PeerAPI (C W : Type) : Type := {
  List : C -> selector -> ST W (result kube_error (list Peer));
  Create : C -> Peer -> ST W (result kube_error unit);
  Update : C -> Peer -> ST W (result kube_error unit);
  Delete : C -> Peer -> ST W (result kube_error unit);
  (* [for k, v := range m]: Go leaves the order unspecified; it may differ from
     one loop to the next, so it is an effect. *)
  range : gmap string Peer -> ST W (list (string * Peer));
}.

(** ** Laws *)

(** What a server stores when it accepts an object: everything but the resource
    version, which it assigns. *)
Definition stored (p q : Peer) : Prop := with_ResourceVersion p "" = with_ResourceVersion q "".

Class PeerAPILaws (C W : Type) `{PeerAPI C W} : Type := {
  (* the objects of the server behind a client *)
  peers : C -> W -> gmap string Peer;
  (* the server stores, or has stored, this version of the object *)
  seen : C -> W -> Peer -> Prop;
  (* reads through the client reflect the server's current objects *)
  synced : C -> W -> Prop;
  (* invariants of the servers *)
  world_ok : W -> Prop;

  List_ok c sel w : world_ok w -> world_ok (List c sel w).2;
  Create_ok c p w : world_ok w -> world_ok (Create c p w).2;
  Update_ok c p w : world_ok w -> world_ok (Update c p w).2;
  Delete_ok c p w : world_ok w -> world_ok (Delete c p w).2;
  range_ok m w : world_ok w -> world_ok (range m w).2;

  (* objects are stored under their name *)
  peers_name c w x p : world_ok w -> peers c w !! x = Some p -> peer_Name p = x;

  (* reads do not write *)
  List_peers c sel w c' : peers c' (List c sel w).2 = peers c' w;
  range_peers m w c' : peers c' (range m w).2 = peers c' w;
  range_perm m w : (range m w).1 ≡ₚ map_to_list m;
  range_synced m w c : synced c w -> synced c (range m w).2;

  (* a list holds objects the server has or had, selected by the selector, at
     most one per name; a synced client sees the current ones *)
  List_seen c sel w l w' p :
    world_ok w -> List c sel w = (Ok l, w') -> p ∈ l -> seen c w p /\ sel (peer_Labels p) = true;
  List_NoDup c sel w l w' : world_ok w -> List c sel w = (Ok l, w') -> NoDup (peer_Name <$> l);
  List_synced c sel w l w' :
    world_ok w -> synced c w -> List c sel w = (Ok l, w') ->
    synced c w' /\ forall p, p ∈ l <-> peers c w !! peer_Name p = Some p /\ sel (peer_Labels p) = true;

  (* what was seen stays seen, and a resource version identifies a version of
     the object of that name *)
  List_keeps c sel w p c' : seen c' w p -> seen c' (List c sel w).2 p;
  Create_keeps c q w p c' : world_ok w -> seen c' w p -> seen c' (Create c q w).2 p;
  Update_keeps c q w p c' : world_ok w -> seen c' w p -> seen c' (Update c q w).2 p;
  Delete_keeps c q w p c' : world_ok w -> seen c' w p -> seen c' (Delete c q w).2 p;
  range_keeps m w p c' : seen c' w p -> seen c' (range m w).2 p;
  seen_version c w p cur :
    world_ok w -> seen c w p -> peers c w !! peer_Name p = Some cur ->
    peer_ResourceVersion cur = peer_ResourceVersion p -> cur = p;
  seen_versioned c w p : world_ok w -> seen c w p -> peer_ResourceVersion p <> "";

  (* the history of a server grows by the objects that are written to it *)
  peers_seen c w x p : world_ok w -> peers c w !! x = Some p -> seen c w p;
  List_history c sel w c' p : seen c' (List c sel w).2 p -> seen c' w p;
  range_history m w c' p : seen c' (range m w).2 p -> seen c' w p;
  Create_history c q w c' p :
    seen c' (Create c q w).2 p -> seen c' w p \/ c' = c /\ peers c (Create c q w).2 !! peer_Name p = Some p;
  Update_history c q w c' p :
    seen c' (Update c q w).2 p -> seen c' w p \/ c' = c /\ peers c (Update c q w).2 !! peer_Name p = Some p;
  Delete_history c q w c' p : seen c' (Delete c q w).2 p -> seen c' w p;

  (* a successful create stores the object under a name that was free; a failed
     one changes nothing, or has stored it (the reply was lost) *)
  Create_Ok c p w u w' :
    world_ok w -> Create c p w = (Ok u, w') ->
    peers c w !! peer_Name p = None /\
    exists q, stored q p /\ peers c w' = <[peer_Name p := q]> (peers c w);
  Create_Err c p w e w' :
    world_ok w -> Create c p w = (Err e, w') ->
    peers c w' = peers c w \/
    (peers c w !! peer_Name p = None /\ exists q, stored q p /\ peers c w' = <[peer_Name p := q]> (peers c w));

  (* an update with a resource version replaces the current object of that
     version; it fails if the object has changed or is gone *)
  Update_Ok c p w u w' :
    world_ok w -> peer_ResourceVersion p <> "" -> Update c p w = (Ok u, w') ->
    exists cur q, peers c w !! peer_Name p = Some cur /\
      peer_ResourceVersion cur = peer_ResourceVersion p /\ stored q p /\
      peers c w' = <[peer_Name p := q]> (peers c w);
  Update_Err c p w e w' :
    world_ok w -> peer_ResourceVersion p <> "" -> Update c p w = (Err e, w') ->
    peers c w' = peers c w \/
    exists cur q, peers c w !! peer_Name p = Some cur /\
      peer_ResourceVersion cur = peer_ResourceVersion p /\ stored q p /\
      peers c w' = <[peer_Name p := q]> (peers c w);

  (* delete is by name *)
  Delete_Ok c p w u w' :
    world_ok w -> Delete c p w = (Ok u, w') -> peers c w' = delete (peer_Name p) (peers c w);
  Delete_Err c p w e w' :
    world_ok w -> Delete c p w = (Err e, w') ->
    peers c w' = peers c w \/ peers c w' = delete (peer_Name p) (peers c w);
  Delete_NotFound c p w w' :
    world_ok w -> Delete c p w = (Err NotFound, w') ->
    peers c w !! peer_Name p = None /\ peers c w' = peers c w;

  (* the servers of different clients are different *)
  Create_other c c' p w : c <> c' -> peers c' (Create c p w).2 = peers c' w;
  Update_other c c' p w : c <> c' -> peers c' (Update c p w).2 = peers c' w;
  Delete_other c c' p w : c <> c' -> peers c' (Delete c p w).2 = peers c' w;
}.

(** ** An in-memory instance *)

Module Memory.

(** Peers per cluster, every version ever stored, and the next version; the
    nodes of each cluster and the ClusterMesh resources. *)
Record world : Type := mkWorld {
  w_peers : gmap string (gmap string Peer);
  w_history : list (string * Peer);
  w_next : N;
  w_nodes : gmap string (list Node);
  w_meshes : list ClusterMesh;
}.

Definition objects (c : string) (w : world) : gmap string Peer := default ∅ (w_peers w !! c).
Definition assigned (p : Peer) (w : world) : Peer := with_ResourceVersion p (FormatUint (Z.of_N (w_next w))).
Definition put (c : string) (p : Peer) (w : world) : world :=
  mkWorld (<[c := <[peer_Name p := assigned p w]> (objects c w)]> (w_peers w))
          ((c, assigned p w) :: w_history w) (N.succ (w_next w)) (w_nodes w) (w_meshes w).

Definition listPeers (c : string) (sel : selector) : ST world (result kube_error (list Peer)) := fun w =>
  (Ok (base.filter (fun p => sel (peer_Labels p) = true) (map_to_list (objects c w)).*2), w).

Definition create (c : string) (p : Peer) : ST world (result kube_error unit) := fun w =>
  match objects c w !! peer_Name p with
  | Some _ => (Err AlreadyExists, w)
  | None => (Ok tt, put c p w)
  end.

Definition update (c : string) (p : Peer) : ST world (result kube_error unit) := fun w =>
  match objects c w !! peer_Name p with
  | None => (Err NotFound, w)
  | Some cur =>
      if decide (peer_ResourceVersion cur = peer_ResourceVersion p) then (Ok tt, put c p w)
      else (Err Conflict, w)
  end.

Definition delete_ (c : string) (p : Peer) : ST world (result kube_error unit) := fun w =>
  match objects c w !! peer_Name p with
  | None => (Err NotFound, w)
  | Some _ => (Ok tt, mkWorld (<[c := delete (peer_Name p) (objects c w)]> (w_peers w)) (w_history w) (w_next w) (w_nodes w) (w_meshes w))
  end.

#[export] Instance api : PeerAPI string world := {
  List := listPeers; Create := create; Update := update; Delete := delete_;
  range m w := (map_to_list m, w);
}.

Definition version_of (p : Peer) (n : N) : Prop := peer_ResourceVersion p = FormatUint (Z.of_N n).
Definition was (c : string) (w : world) (p : Peer) : Prop := (c, p) ∈ w_history w.

(** Objects are stored under their names and in the history; versions are handed
    out once. *)
Record ok (w : world) : Prop := {
  ok_objects : forall c x p, objects c w !! x = Some p -> peer_Name p = x /\ was c w p;
  ok_versions : forall c p, was c w p -> exists n, version_of p n /\ (n < w_next w)%N;
  ok_unique : forall c c' p q, was c w p -> was c' w q -> peer_ResourceVersion p = peer_ResourceVersion q -> p = q;
}.

Lemma FormatUint_inj a b : FormatUint (Z.of_N a) = FormatUint (Z.of_N b) -> a = b.
Proof.
  intros E. apply N2Z.inj.
  assert (H : forall n k : N, (n <= k)%N -> ParseUint (FormatUint (Z.of_N n)) (Z.of_N (N.succ k)) = Some (Z.of_N n)).
  { intros n k Hnk. apply ParseUint_FormatUint; [lia|]. split; [lia|].
    eapply Z.lt_le_trans; [apply Z.pow_gt_lin_r with (a := 2); lia|]. apply Z.pow_le_mono_r; lia. }
  pose proof (H a (N.max a b) ltac:(lia)) as Ha. rewrite E, H in Ha by lia. by injection Ha as ->.
Qed.

Lemma objects_put c p w c' :
  objects c' (put c p w) = if decide (c = c') then <[peer_Name p := assigned p w]> (objects c w) else objects c' w.
Proof.
  unfold objects at 1, put. simpl. case_decide as E.
  - subst. by rewrite lookup_insert_eq.
  - by rewrite lookup_insert_ne.
Qed.

Lemma was_put c p w c' q : was c' (put c p w) q <-> (c' = c /\ q = assigned p w) \/ was c' w q.
Proof. unfold was, put. simpl. rewrite elem_of_cons. naive_solver. Qed.

Lemma fresh_version w c q p : ok w -> was c w q -> peer_ResourceVersion q <> peer_ResourceVersion (assigned p w).
Proof.
  intros Hok Hq E. destruct (ok_versions w Hok c q Hq) as (n & Hv & Hn). unfold version_of in Hv.
  rewrite Hv in E. apply FormatUint_inj in E. lia.
Qed.

Lemma put_ok c p w : ok w -> ok (put c p w).
Proof.
  intros Hok. constructor.
  - intros c' x q. rewrite objects_put, was_put. case_decide as E.
    + rewrite lookup_insert_Some. intros [[<- <-]|[_ Hq]]; [by auto|].
      apply (ok_objects w Hok) in Hq as [? ?]. subst. auto.
    + intros Hq. apply (ok_objects w Hok) in Hq as [? ?]. auto.
  - intros c' q [[_ ->]|Hq]%was_put.
    + exists (w_next w). split; [done|simpl; lia].
    + destruct (ok_versions w Hok c' q Hq) as (n & ? & ?). exists n. split; [done|simpl; lia].
  - intros c1 c2 q r [[_ ->]|Hq]%was_put [[_ ->]|Hr]%was_put E; [done| | |].
    + symmetry in E. by apply (fresh_version w c2 r p) in E.
    + by apply (fresh_version w c1 q p) in E.
    + by apply (ok_unique w Hok c1 c2).
Qed.

Lemma objects_delete c x w c' :
  objects c' (mkWorld (<[c := delete x (objects c w)]> (w_peers w)) (w_history w) (w_next w) (w_nodes w) (w_meshes w)) =
  if decide (c = c') then delete x (objects c w) else objects c' w.
Proof.
  unfold objects at 1. simpl. case_decide as E.
  - subst. by rewrite lookup_insert_eq.
  - by rewrite lookup_insert_ne.
Qed.

Lemma stored_put p rv : stored (with_ResourceVersion p rv) p.
Proof. done. Qed.

Lemma elem_of_list c sel w p :
  p ∈ base.filter (fun p => sel (peer_Labels p) = true) (map_to_list (objects c w)).*2 <->
  (exists x, objects c w !! x = Some p) /\ sel (peer_Labels p) = true.
Proof.
  rewrite list_elem_of_filter, list_elem_of_fmap. split.
  - intros [Hs ([x q] & -> & Hq)]. apply elem_of_map_to_list in Hq. eauto.
  - intros [[x Hx] Hs]. split; [done|]. exists (x, p). split; [done|]. by apply elem_of_map_to_list.
Qed.

Lemma list_names_NoDup c sel w :
  ok w -> NoDup (peer_Name <$> base.filter (fun p => sel (peer_Labels p) = true) (map_to_list (objects c w)).*2).
Proof.
  intros H. eapply sublist_NoDup; [|apply fmap_sublist, sublist_filter].
  assert (E : peer_Name <$> (map_to_list (objects c w)).*2 = (map_to_list (objects c w)).*1).
  { rewrite <- list_fmap_compose. apply list_fmap_ext. intros i [x p] Hi. simpl.
    apply (ok_objects w H c). apply elem_of_map_to_list. by eapply list_elem_of_lookup_2. }
  rewrite E. apply NoDup_fst_map_to_list.
Qed.

Lemma delete_ok c p w : ok w -> ok (delete_ c p w).2.
Proof.
  intros Hok. unfold delete_. destruct (objects c w !! peer_Name p); [|done].
  constructor; [|by apply (ok_versions w Hok)|by apply (ok_unique w Hok)].
  intros c' x q. simpl. rewrite objects_delete. case_decide; [|apply (ok_objects w Hok)].
  intros [_ Hq]%lookup_delete_Some. subst. by apply (ok_objects w Hok).
Qed.

Lemma delete_was c q w p c' : was c' (delete_ c q w).2 p <-> was c' w p.
Proof. unfold delete_. by destruct (objects c w !! peer_Name q). Qed.

Lemma version_nonempty p n : version_of p n -> peer_ResourceVersion p <> "".
Proof. intros ->. apply FormatUint_nonempty. lia. Qed.

#[export] Program Instance laws : PeerAPILaws string world := {
  peers := objects; seen := was; synced _ _ := True; world_ok := ok;
}.
Next Obligation. done. Qed.
Next Obligation. intros c p w H. simpl. unfold create. destruct (_ !! _); [done|]. by apply put_ok. Qed.
Next Obligation.
  intros c p w H. simpl. unfold update. destruct (_ !! _); [|done]. case_decide; [by apply put_ok|done].
Qed.
Next Obligation. intros. by apply delete_ok. Qed.
Next Obligation. done. Qed.
Next Obligation. intros c w x p H Hx. by apply (ok_objects w H c). Qed.
Next Obligation. done. Qed.
Next Obligation. done. Qed.
Next Obligation. done. Qed.
Next Obligation. done. Qed.
Next Obligation.
  intros c sel w l w' p H [= <- <-] [[x Hx] Hs]%elem_of_list. split; [|done]. by apply (ok_objects w H) in Hx as [_ ?].
Qed.
Next Obligation. intros c sel w l w' H [= <- <-]. by apply list_names_NoDup. Qed.
Next Obligation.
  intros c sel w l w' H _ [= <- <-]. split; [done|]. intros p. rewrite elem_of_list.
  split; intros [Hx Hs]; (split; [|done]).
  - destruct Hx as [x Hx]. by destruct (ok_objects w H _ _ _ Hx) as [-> _].
  - eauto.
Qed.
Next Obligation. done. Qed.
Next Obligation.
  intros c q w p c' _ Hp. simpl. unfold create. destruct (_ !! _); [done|]. apply was_put. by right.
Qed.
Next Obligation.
  intros c q w p c' _ Hp. simpl. unfold update. destruct (_ !! _); [|done].
  case_decide; [apply was_put; by right|done].
Qed.
Next Obligation. intros c q w p c' _ Hp. by apply delete_was. Qed.
Next Obligation. done. Qed.
Next Obligation.
  intros c w p cur H Hp Hc E. apply (ok_objects w H) in Hc as [_ Hc]. by apply (ok_unique w H c c).
Qed.
Next Obligation. intros c w p H Hp. destruct (ok_versions w H c p Hp) as (n & Hv & _). by apply version_nonempty in Hv. Qed.
Next Obligation. intros c w x p H Hx. by apply (ok_objects w H) in Hx as [_ ?]. Qed.
Next Obligation. done. Qed.
Next Obligation. done. Qed.
Next Obligation.
  intros c q w c' p. simpl. unfold create. destruct (_ !! _); [by left|].
  intros [[-> ->]|?]%was_put; [right|by left]. split; [done|]. simpl. rewrite objects_put, decide_True by done.
  apply lookup_insert_eq.
Qed.
Next Obligation.
  intros c q w c' p. simpl. unfold update. destruct (_ !! _); [|by left]. case_decide; [|by left].
  intros [[-> ->]|?]%was_put; [right|by left]. split; [done|]. simpl. rewrite objects_put, decide_True by done.
  apply lookup_insert_eq.
Qed.
Next Obligation. intros c q w c' p. by rewrite delete_was. Qed.
Next Obligation.
  intros c p w u w' _. simpl. unfold create. destruct (_ !! _) eqn:E; [done|]. intros [= _ <-]. split; [done|].
  eexists. split; [apply stored_put|]. by rewrite objects_put, decide_True.
Qed.
Next Obligation. intros c p w e w' _. simpl. unfold create. destruct (_ !! _) eqn:E; [|done]. intros [= _ <-]. by left. Qed.
Next Obligation.
  intros c p w u w' _ _. simpl. unfold update. destruct (_ !! _) as [cur|] eqn:E; [|done].
  case_decide as Hrv; [|done]. intros [= _ <-]. exists cur. eexists. do 2 (split; [done|]).
  split; [apply stored_put|]. by rewrite objects_put, decide_True.
Qed.
Next Obligation.
  intros c p w e w' _ _. simpl. unfold update. destruct (_ !! _) as [cur|]; [case_decide; [done|]|];
    intros [= _ <-]; by left.
Qed.
Next Obligation.
  intros c p w u w' _. simpl. unfold delete_. destruct (_ !! _); [|done]. intros [= _ <-].
  by rewrite objects_delete, decide_True.
Qed.
Next Obligation. intros c p w e w' _. simpl. unfold delete_. destruct (_ !! _); [done|]. intros [= _ <-]. by left. Qed.
Next Obligation. intros c p w w' _. simpl. unfold delete_. destruct (_ !! _) eqn:E; [done|]. by intros [= <-]. Qed.
Next Obligation.
  intros c c' p w Hc. simpl. unfold create. destruct (_ !! _); [done|].
  simpl. by rewrite objects_put, decide_False.
Qed.
Next Obligation.
  intros c c' p w Hc. simpl. unfold update. destruct (_ !! _); [|done]. case_decide; [|done].
  simpl. by rewrite objects_put, decide_False.
Qed.
Next Obligation.
  intros c c' p w Hc. simpl. unfold delete_. destruct (_ !! _); [|done].
  simpl. by rewrite objects_delete, decide_False.
Qed.

End Memory.

#[export] Existing Instances Memory.api Memory.laws.
