(* ===== verification/PeerReconciler.v ===== *)
(** * [internal/peer/reconciler.go]: reconciling the peers of one source cluster

    The code runs against the [PeerAPI] interface of a target cluster. A joined Go
    error is the list of its parts; the empty list is [nil]. *)

From Stdlib Require Import String.
From S2P Require Import Prelude GoStrings Types Naming Kube.
Open Scope Z_scope.
Open Scope go_scope.

Inductive reconcile_error : Type :=
| ListingAllPeers (cause : kube_error)
| ListingExistingPeers (cause : kube_error)
| ListingMeshPeers (mesh : string) (cause : kube_error)
| CreatingPeer (name : string) (cause : kube_error)
| UpdatingPeer (name : string) (cause : kube_error)
| MergingIntoCanonical (canonical colliding : string) (cause : kube_error)
| DeletingOrphan (name : string) (cause : kube_error)
| DeletingStale (name source : string) (cause : kube_error).

(** The Kubernetes error a wrapped error carries ([errors.As]). *)
Definition cause_of (e : reconcile_error) : kube_error :=
  match e with
  | ListingAllPeers c | ListingExistingPeers c | ListingMeshPeers _ c | CreatingPeer _ c
  | UpdatingPeer _ c | MergingIntoCanonical _ _ c | DeletingOrphan _ c | DeletingStale _ _ c => c
  end.

(** ** Pure helpers *)

(** Both lists are copied, sorted and compared. *)
Definition allowedIPsEqual (ipsA ipsB : list string) : bool :=
  if negb (length ipsA =? length ipsB)%nat then false
  else bool_decide (sort_Strings ipsA = sort_Strings ipsB).

Definition peerSpecEqual (specA specB : PeerSpec) : bool :=
  if decide (spec_PublicKey specA <> spec_PublicKey specB) then false
  else if decide (spec_PersistentKeepalive specA <> spec_PersistentKeepalive specB) then false
  else if decide (spec_PresharedKey specA <> spec_PresharedKey specB) then false
  else if decide (spec_Endpoint specA <> spec_Endpoint specB) then false
  else allowedIPsEqual (spec_AllowedIPs specA) (spec_AllowedIPs specB).

(** The Go map [seen] is a set; its iteration order does not matter, since the
    result is sorted. *)
Definition mergeAllowedIPs (a b : list string) : list string :=
  let seen : gset string := list_to_set b ∪ list_to_set a in
  sort_Strings (elements seen).

Definition buildDesiredMap (desired : list Peer) : gmap string Peer :=
  foldl (fun result peer => <[peer_Name peer := peer]> result) ∅ desired.

Definition buildExistingMap (existing : list Peer) : gmap string Peer :=
  foldl (fun result peer => <[peer_Name peer := peer]> result) ∅ existing.

(** One iteration of [buildAllPeersByPublicKey]. *)
Definition recordByPublicKey (result : gmap string Peer) (p : Peer) : gmap string Peer :=
  let key := spec_PublicKey (peer_Spec p) in
  match result !! key with
  | None => <[key := p]> result
  | Some existing => if str_ltb (peer_Name p) (peer_Name existing) then <[key := p]> result else result
  end.

(** ** Operations on a target cluster *)

Section Ops.
Context {C W : Type} `{PeerAPI C W}.

Definition buildAllPeersByPublicKey (c : C) : ST W (result kube_error (gmap string Peer)) :=
  let? items := List c everything catch err => mret (Err err);
  mret (Ok (foldl recordByPublicKey ∅ items)).

Definition mergeIntoCanonical (c : C) (canonical : Peer) (newIPs : list string) (collidingName : string)
    : ST W (list reconcile_error) :=
  let merged := mergeAllowedIPs (spec_AllowedIPs (peer_Spec canonical)) newIPs in
  if allowedIPsEqual merged (spec_AllowedIPs (peer_Spec canonical)) then mret []
  else
    let updated := with_AllowedIPs canonical merged in
    let? _ := Update c updated
    catch e => mret [MergingIntoCanonical (peer_Name canonical) collidingName e];
    mret [].

Definition createPeer (c : C) (name : string) (desiredPeer : Peer) : ST W (list reconcile_error) :=
  let? _ := Create c desiredPeer catch e => mret [CreatingPeer name e];
  mret [].

Definition createOrMerge (c : C) (name : string) (desiredPeer : Peer) (allByPubKey : gmap string Peer)
    : ST W (list reconcile_error) :=
  match allByPubKey !! spec_PublicKey (peer_Spec desiredPeer) with
  | Some canonical =>
      if decide (peer_Name canonical <> name)
      then mergeIntoCanonical c canonical (spec_AllowedIPs (peer_Spec desiredPeer)) name
      else createPeer c name desiredPeer
  | None => createPeer c name desiredPeer
  end.

(** The body of the loop of [reconcileDesired]. *)
Definition reconcileOne (c : C) (existingByName allByPubKey : gmap string Peer) (kv : string * Peer)
    : ST W (list reconcile_error) :=
  let '(name, desiredPeer) := kv in
  match existingByName !! name with
  | None => createOrMerge c name desiredPeer allByPubKey
  | Some existingPeer =>
      if peerSpecEqual (peer_Spec existingPeer) (peer_Spec desiredPeer) then mret []
      else
        let? _ := Update c (with_Spec existingPeer (peer_Spec desiredPeer))
        catch e => mret [UpdatingPeer name e];
        mret []
  end.

Definition reconcileDesired (c : C) (desiredByName existingByName allByPubKey : gmap string Peer)
    : ST W (list reconcile_error) :=
  kvs ← range desiredByName;
  st_collect (reconcileOne c existingByName allByPubKey) kvs.

(** The body of the loop of [deleteOrphans]. *)
Definition deleteOne (c : C) (desiredByName : gmap string Peer) (kv : string * Peer)
    : ST W (list reconcile_error) :=
  let '(name, existingPeer) := kv in
  match desiredByName !! name with
  | Some _ => mret []
  | None =>
      let? _ := Delete c existingPeer catch e => mret [DeletingOrphan name e];
      mret []
  end.

Definition deleteOrphans (c : C) (desiredByName existingByName : gmap string Peer)
    : ST W (list reconcile_error) :=
  kvs ← range existingByName;
  st_collect (deleteOne c desiredByName) kvs.

Definition ReconcilePeers (c : C) (meshName sourceCluster : string) (desired : list Peer)
    : ST W (list reconcile_error) :=
  let? allByPubKey := buildAllPeersByPublicKey c catch err => mret [ListingAllPeers err];
  let? items := List c (OrphanSelector meshName sourceCluster)
  catch err => mret [ListingExistingPeers err];
  let desiredByName := buildDesiredMap desired in
  let existingByName := buildExistingMap items in
  errs1 ← reconcileDesired c desiredByName existingByName allByPubKey;
  errs2 ← deleteOrphans c desiredByName existingByName;
  mret (errs1 ++ errs2).

(** [client.MatchingLabels{LabelMesh: meshName}] *)
Definition MeshSelector (meshName : string) : selector :=
  fun labels => bool_decide (labels !! LabelMesh = Some meshName).

(** The body of the loop of [DeleteStaleSourceClusters]. *)
Definition deleteStaleOne (c : C) (valid : gset string) (item : Peer) : ST W (list reconcile_error) :=
  let src := default EmptyString (peer_Labels item !! LabelSourceCluster) in
  if decide (src ∈ valid) then mret []
  else
    err ← Delete c item;
    match err with
    | Err NotFound => mret []
    | Err e => mret [DeletingStale (peer_Name item) src e]
    | Ok _ => mret []
    end.

Definition DeleteStaleSourceClusters (c : C) (meshName : string) (validSourceClusters : list string)
    : ST W (list reconcile_error) :=
  let? items := List c (MeshSelector meshName) catch err => mret [ListingMeshPeers meshName err];
  st_collect (deleteStaleOne c (list_to_set validSourceClusters)) items.

End Ops.

(** ** Pure helpers: properties *)

Lemma allowedIPsEqual_perm a b : allowedIPsEqual a b = true <-> a ≡ₚ b.
Proof.
  unfold allowedIPsEqual. destruct (Nat.eqb_spec (length a) (length b)) as [E|E]; simpl.
  - rewrite bool_decide_eq_true. apply sort_Strings_eq.
  - split; [done|]. intros Hp. by apply Permutation_length in Hp.
Qed.

(** The order of AllowedIPs does not matter, every other field does. *)
Record spec_equiv (a b : PeerSpec) : Prop := {
  se_key : spec_PublicKey a = spec_PublicKey b;
  se_keepalive : spec_PersistentKeepalive a = spec_PersistentKeepalive b;
  se_psk : spec_PresharedKey a = spec_PresharedKey b;
  se_endpoint : spec_Endpoint a = spec_Endpoint b;
  se_ips : spec_AllowedIPs a ≡ₚ spec_AllowedIPs b;
}.

#[export] Instance spec_equiv_equivalence : Equivalence spec_equiv.
Proof.
  split.
  - by intros a.
  - intros a b []. by constructor.
  - intros a b c [] []. constructor; etrans; eauto.
Qed.

Lemma peerSpecEqual_equiv a b : peerSpecEqual a b = true <-> spec_equiv a b.
Proof.
  unfold peerSpecEqual. split.
  - repeat (case_decide; [done|]). intros Hp%allowedIPsEqual_perm. by constructor.
  - intros [H1 H2 H3 H4 H5]. rewrite !decide_False by auto. by apply allowedIPsEqual_perm.
Qed.

Lemma mergeAllowedIPs_elem a b x : x ∈ mergeAllowedIPs a b <-> x ∈ a \/ x ∈ b.
Proof.
  unfold mergeAllowedIPs. rewrite sort_Strings_perm, elem_of_elements. set_solver.
Qed.

Lemma mergeAllowedIPs_NoDup a b : NoDup (mergeAllowedIPs a b).
Proof. unfold mergeAllowedIPs. rewrite sort_Strings_perm. apply NoDup_elements. Qed.

(** [mergeAllowedIPs] returns the union of its arguments, sorted and without
    duplicates; merging does not depend on the order of the arguments, and merging
    the same addresses twice changes nothing. *)
Theorem mergeAllowedIPs_union a b :
  Sorted str_le (mergeAllowedIPs a b) /\ NoDup (mergeAllowedIPs a b) /\
  (forall x, x ∈ mergeAllowedIPs a b <-> x ∈ a \/ x ∈ b) /\
  mergeAllowedIPs a b = mergeAllowedIPs b a /\
  mergeAllowedIPs (mergeAllowedIPs a b) b = mergeAllowedIPs a b.
Proof.
  split; [apply sort_Strings_sorted|]. split; [apply mergeAllowedIPs_NoDup|].
  split; [apply mergeAllowedIPs_elem|]. split; apply sort_Strings_eq.
  - apply NoDup_Permutation; [apply NoDup_elements..|]. set_solver.
  - apply NoDup_Permutation; [apply NoDup_elements..|]. intros x. rewrite !elem_of_elements.
    rewrite !elem_of_union, !elem_of_list_to_set, mergeAllowedIPs_elem. tauto.
Qed.

(** The canonical peer of a public key: the lowest name among the peers of that
    key. *)
Definition canonical_for (items : list Peer) (key : string) (p : Peer) : Prop :=
  p ∈ items /\ spec_PublicKey (peer_Spec p) = key /\
  forall q, q ∈ items -> spec_PublicKey (peer_Spec q) = key -> str_le (peer_Name p) (peer_Name q).

Lemma recordByPublicKey_all items key :
  match foldl recordByPublicKey ∅ items !! key with
  | Some p => canonical_for items key p
  | None => forall q, q ∈ items -> spec_PublicKey (peer_Spec q) <> key
  end.
Proof.
  induction items as [|p items IH] using rev_ind.
  { simpl. rewrite lookup_empty. by intros q ?%not_elem_of_nil. }
  rewrite foldl_snoc. unfold recordByPublicKey at 1. set (m := foldl recordByPublicKey ∅ items) in *.
  set (k := spec_PublicKey (peer_Spec p)). unfold canonical_for in *.
  assert (Hin : forall q, q ∈ items ++ [p] <-> q ∈ items \/ q = p)
    by (intros q; by rewrite elem_of_app, list_elem_of_singleton).
  destruct (decide (k = key)) as [<-|Hk].
  - destruct (m !! k) as [e|] eqn:Em.
    + destruct IH as (He & Hke & Hmin). destruct (str_ltb (peer_Name p) (peer_Name e)) eqn:Hlt.
      * rewrite lookup_insert_eq. split; [apply Hin; by right|]. split; [done|]. intros q [Hq| ->]%Hin Hkq; [|reflexivity].
        transitivity (peer_Name e); [|by apply Hmin]. unfold str_ltb in Hlt. unfold str_le. by destruct (String.compare _ _).
      * rewrite Em. split; [apply Hin; by left|]. split; [done|]. intros q [Hq| ->]%Hin Hkq; [by apply Hmin|].
        by apply str_ltb_le.
    + rewrite lookup_insert_eq. split; [apply Hin; by right|]. split; [done|].
      intros q [Hq| ->]%Hin Hkq; [|reflexivity]. by apply IH in Hq.
  - assert (E : (match m !! k with
                 | Some e => if str_ltb (peer_Name p) (peer_Name e) then <[k := p]> m else m
                 | None => <[k := p]> m end) !! key = m !! key).
    { destruct (m !! k) as [e|]; [destruct (str_ltb _ _)|]; by rewrite ?lookup_insert_ne. }
    rewrite E. destruct (m !! key) as [e|].
    + destruct IH as (He & Hke & Hmin). split; [apply Hin; by left|]. split; [done|]. intros q [Hq| ->]%Hin Hkq; [by apply Hmin|done].
    + intros q [Hq| ->]%Hin; [by apply IH|done].
Qed.

Lemma foldl_insert_names l (m : gmap string Peer) :
  NoDup (peer_Name <$> l) ->
  forall x, foldl (fun result peer => <[peer_Name peer := peer]> result) m l !! x =
    match list_find (fun p => peer_Name p = x) l with Some (_, p) => Some p | None => m !! x end.
Proof.
  revert m; induction l as [|p l IH]; intros m Hnd x; [done|]. cbn [fmap list_fmap] in Hnd.
  apply list.NoDup_cons in Hnd as [Hp Hnd]. simpl. rewrite IH by done.
  destruct (decide (peer_Name p = x)) as [E|E].
  - destruct (list_find _ l) as [[i q]|] eqn:Ef; [|subst; by rewrite lookup_insert_eq].
    exfalso. apply list_find_Some in Ef as (Hi & Hq & _). apply Hp. rewrite E, <- Hq.
    by eapply list_elem_of_fmap_2, list_elem_of_lookup_2.
  - rewrite lookup_insert_ne by done. by destruct (list_find _ l) as [[i q]|].
Qed.

(** The map of a list of distinctly named peers. *)
Lemma by_name_Some l x p :
  NoDup (peer_Name <$> l) ->
  foldl (fun result peer => <[peer_Name peer := peer]> result) (∅ : gmap string Peer) l !! x = Some p <-> p ∈ l /\ peer_Name p = x.
Proof.
  intros Hnd. rewrite foldl_insert_names by done.
  destruct (list_find _ l) as [[i q]|] eqn:Ef.
  - apply list_find_Some in Ef as (Hi & Hq & _). split.
    + intros [= <-]. split; [by eapply list_elem_of_lookup_2|done].
    + intros [[j Hj]%list_elem_of_lookup Hp]. f_equal.
      assert (i = j) as ->; [|congruence].
      eapply (NoDup_lookup _ _ _ x Hnd); rewrite list_lookup_fmap, ?Hi, ?Hj; simpl; by f_equal.
  - rewrite lookup_empty. split; [done|]. intros [Hp Hx]. apply list_find_None in Ef.
    rewrite Forall_elem in Ef. by apply Ef in Hp.
Qed.

(** Without distinctness, an entry still comes from the list. *)
Lemma by_name_from l (m : gmap string Peer) x p :
  foldl (fun result peer => <[peer_Name peer := peer]> result) m l !! x = Some p ->
  m !! x = Some p \/ (p ∈ l /\ peer_Name p = x).
Proof.
  revert m; induction l as [|q l IH]; intros m; simpl; [by left|].
  intros [Hm|[? ?]]%IH; [|right; by split; [right|]].
  apply lookup_insert_Some in Hm as [[? <-]|[_ ?]]; [right; split; [left|done]|by left].
Qed.

(** ** What reconciliation may change *)

(** [cur] survives as [cur']: only its AllowedIPs may have grown. *)
Definition kept (cur cur' : Peer) : Prop :=
  stored cur' (with_AllowedIPs cur (spec_AllowedIPs (peer_Spec cur'))) /\
  spec_AllowedIPs (peer_Spec cur) ⊆ spec_AllowedIPs (peer_Spec cur').

#[export] Instance kept_preorder : PreOrder kept.
Proof.
  split.
  - intros p. split; [by destruct p as [? ? ? []]|done].
  - intros p q r [H1 H2] [H3 H4]. split; [|by etrans].
    destruct p as [? ? ? []], q as [? ? ? []], r as [? ? ? []]. unfold stored in *. simpl in *. by simplify_eq.
Qed.

Section Frame.
Context {C W : Type} {api : PeerAPI C W} {laws : PeerAPILaws C W}.

(** From [w] to [w'], the server of [c] keeps every peer whose name is not in
    [N] and creates none, now or in between; other servers do not change. *)
Record framed (c : C) (N : gset string) (w w' : W) : Prop := {
  fr_ok : world_ok w';
  fr_seen : forall c' p, seen c' w p -> seen c' w' p;
  fr_kept : forall x cur, peers c w !! x = Some cur -> x ∉ N ->
    exists cur', peers c w' !! x = Some cur' /\ kept cur cur';
  fr_absent : forall x, x ∉ N -> peers c w !! x = None -> peers c w' !! x = None;
  fr_hist : forall p, seen c w' p -> peer_Name p ∉ N ->
    seen c w p \/ exists cur, peers c w !! peer_Name p = Some cur /\ kept cur p;
  fr_other : forall c', c <> c' -> peers c' w' = peers c' w;
  fr_other_hist : forall c' p, c <> c' -> seen c' w' p -> seen c' w p;
}.

Lemma framed_same c N w w' :
  world_ok w' -> (forall c' p, seen c' w p -> seen c' w' p) -> (forall c' p, seen c' w' p -> seen c' w p) ->
  (forall c', peers c' w' = peers c' w) -> framed c N w w'.
Proof.
  intros Hok Hs Hh Hp. constructor; try done; [|by intros; rewrite Hp|by left; apply Hh|by auto].
  intros x cur Hx _. exists cur. by rewrite Hp.
Qed.

Lemma framed_refl c N w : world_ok w -> framed c N w w.
Proof. intros H. by apply framed_same. Qed.

Lemma framed_trans c N w1 w2 w3 : framed c N w1 w2 -> framed c N w2 w3 -> framed c N w1 w3.
Proof.
  intros [_ S1 K1 A1 H1 O1 Q1] [Hok S2 K2 A2 H2 O2 Q2]. constructor; [done|by auto|..].
  - intros x cur Hx Hn. destruct (K1 x cur Hx Hn) as (q & Hq & E1).
    destruct (K2 x q Hq Hn) as (r & Hr & E2). exists r. split; [done|]. by etrans.
  - auto.
  - intros p Hp Hn. destruct (H2 p Hp Hn) as [?|(cur2 & Hc2 & E2)]; [by auto|].
    destruct (peers c w1 !! peer_Name p) as [cur1|] eqn:Hc1.
    + destruct (K1 _ _ Hc1 Hn) as (q & Hq & E1). rewrite Hc2 in Hq. injection Hq as <-.
      right. exists cur1. split; [done|]. by etrans.
    + rewrite (A1 _ Hn Hc1) in Hc2. done.
  - intros c' Hc. rewrite O2 by done. by apply O1.
  - auto.
Qed.

Lemma framed_mono c N N' w w' : N ⊆ N' -> framed c N w w' -> framed c N' w w'.
Proof.
  intros Hs [Hok S K A Hh O Q]. constructor; try done.
  - intros x cur Hx Hn. apply K; set_solver.
  - intros x Hn. apply A. set_solver.
  - intros p Hp Hn. apply Hh; set_solver.
Qed.

(** A write to one name. *)
Lemma framed_name c x w w' :
  world_ok w -> world_ok w' -> (forall c' p, seen c' w p -> seen c' w' p) ->
  (forall c' p, seen c' w' p -> seen c' w p \/ c' = c /\ peers c w' !! peer_Name p = Some p) ->
  (forall y, y <> x -> peers c w' !! y = peers c w !! y) ->
  (forall c', c <> c' -> peers c' w' = peers c' w) -> framed c {[x]} w w'.
Proof.
  intros Hok0 Hok Hs Hh Hp Ho. constructor; try done.
  - intros y cur Hy Hn. exists cur. rewrite Hp by set_solver. by split.
  - intros y Hn Hy. by rewrite Hp by set_solver.
  - intros p Hseen Hn. left. destruct (Hh c p Hseen) as [?|[_ Hc]]; [done|].
    rewrite Hp in Hc by set_solver. by eapply peers_seen.
  - intros c' p Hc Hseen. destruct (Hh c' p Hseen) as [?|[-> _]]; done.
Qed.

(** *** The effects of the client calls *)

Lemma List_framed c N sel w : world_ok w -> framed c N w (List c sel w).2.
Proof.
  intros Hok. apply framed_same; [by apply List_ok|intros; by apply List_keeps| |intros; by apply List_peers].
  intros c' p. apply List_history.
Qed.

Lemma range_framed c N m w : world_ok w -> framed c N w (range m w).2.
Proof.
  intros Hok. apply framed_same; [by apply range_ok|intros; by apply range_keeps| |intros; by apply range_peers].
  intros c' p. apply range_history.
Qed.

Lemma Create_framed c p w : world_ok w -> framed c {[peer_Name p]} w (Create c p w).2.
Proof.
  intros Hok. apply framed_name;
    [done|by apply Create_ok|intros; by apply Create_keeps|intros; by apply Create_history| |intros; by apply Create_other].
  intros y Hy. destruct (Create c p w) as [[u|e] w'] eqn:E; simpl.
  - apply Create_Ok in E as (_ & q & _ & ->); [|done]. by rewrite lookup_insert_ne.
  - apply Create_Err in E as [->|(_ & q & _ & ->)]; [done| |done]. by rewrite lookup_insert_ne.
Qed.

Lemma Delete_framed c p w : world_ok w -> framed c {[peer_Name p]} w (Delete c p w).2.
Proof.
  intros Hok. apply framed_name;
    [done|by apply Delete_ok|intros; by apply Delete_keeps|intros c' q Hq; left; by eapply Delete_history|
     |intros; by apply Delete_other].
  intros y Hy. destruct (Delete c p w) as [[u|e] w'] eqn:E; simpl.
  - apply Delete_Ok in E as ->; [|done]. by rewrite lookup_delete_ne.
  - apply Delete_Err in E as [->| ->]; [done|by rewrite lookup_delete_ne|done].
Qed.

Lemma Update_changes c p w :
  world_ok w -> peer_ResourceVersion p <> "" ->
  peers c (Update c p w).2 = peers c w \/
  exists cur q, peers c w !! peer_Name p = Some cur /\ peer_ResourceVersion cur = peer_ResourceVersion p /\
    stored q p /\ peers c (Update c p w).2 = <[peer_Name p := q]> (peers c w).
Proof.
  intros Hok Hrv. destruct (Update c p w) as [[u|e] w'] eqn:E; simpl.
  - right. by eapply Update_Ok.
  - by eapply Update_Err.
Qed.

Lemma Update_framed c p w :
  world_ok w -> peer_ResourceVersion p <> "" -> framed c {[peer_Name p]} w (Update c p w).2.
Proof.
  intros Hok Hrv. apply framed_name;
    [done|by apply Update_ok|intros; by apply Update_keeps|intros; by apply Update_history| |intros; by apply Update_other].
  intros y Hy. destruct (Update_changes c p w Hok Hrv) as [->|(cur & q & _ & _ & _ & ->)]; [done|].
  by rewrite lookup_insert_ne.
Qed.

Lemma loop_framed {A B} c N (f : A -> ST W (list B)) l w :
  world_ok w ->
  (forall x w1, x ∈ l -> framed c N w w1 -> framed c N w1 (f x w1).2) -> framed c N w (st_collect f l w).2.
Proof.
  intros Hok Hf. apply (st_collect_inv (framed c N w)); [|by apply framed_refl].
  intros x w1 Hx H1. eapply framed_trans; [done|by apply Hf].
Qed.

(** *** Reconciling *)

(** A merge only adds addresses: the canonical peer it writes back is the one the
    server still has, or the write fails. *)
Lemma mergeIntoCanonical_framed c canonical ips name w N :
  world_ok w -> seen c w canonical -> framed c N w (mergeIntoCanonical c canonical ips name w).2.
Proof.
  intros Hok Hseen. unfold mergeIntoCanonical. destruct (allowedIPsEqual _ _); [by apply framed_refl|].
  set (merged := mergeAllowedIPs _ _). st_run.
  set (up := with_AllowedIPs canonical merged).
  assert (Hrv : peer_ResourceVersion up <> "") by exact (seen_versioned c w canonical Hok Hseen).
  assert (E : forall r : result kube_error unit, ((match r with
    | Err e => mret [MergingIntoCanonical (peer_Name canonical) name e] | Ok _ => mret [] end : ST W (list reconcile_error))
      (Update c up w).2).2 = (Update c up w).2) by by intros [].
  rewrite E. clear E.
  assert (Hq : forall cur0 q, peers c w !! peer_Name up = Some cur0 ->
    peer_ResourceVersion cur0 = peer_ResourceVersion up -> stored q up -> kept cur0 q).
  { intros cur0 q Hcur Hv Hst. rewrite (seen_version c w canonical cur0 Hok Hseen Hcur Hv).
    unfold kept. destruct canonical as [? ? ? []], q as [? ? ? []]. unfold up, stored in *. simpl in *. simplify_eq.
    split; [done|]. intros y Hy. apply mergeAllowedIPs_elem. by left. }
  assert (HK : forall x cur', peers c (Update c up w).2 !! x = Some cur' ->
    exists cur, peers c w !! x = Some cur /\ kept cur cur').
  { intros x cur'. destruct (Update_changes c up w Hok Hrv) as [->|(cur0 & q & Hcur & Hv & Hst & ->)].
    { intros Hx. by exists cur'. }
    rewrite lookup_insert_Some. intros [[<- <-]|[_ Hx]]; [|by exists cur']. exists cur0. auto. }
  constructor; [by apply Update_ok|intros; by apply Update_keeps| | | |intros; by apply Update_other|].
  - intros x cur Hx _. destruct (Update_changes c up w Hok Hrv) as [->|(cur0 & q & Hcur & Hv & Hst & ->)].
    { exists cur. by split. }
    destruct (decide (x = peer_Name up)) as [->|Hne]; [|exists cur; by rewrite lookup_insert_ne].
    rewrite lookup_insert_eq. exists q. split; [done|]. rewrite Hx in Hcur. injection Hcur as <-. auto.
  - intros x _ Hx. destruct (peers c (Update c up w).2 !! x) eqn:Ex; [|done].
    apply HK in Ex as (? & ? & _). congruence.
  - intros p Hp _. apply Update_history in Hp as [?|[_ Hp]]; [by left|right]. by apply HK.
  - intros c' p Hc Hp. apply Update_history in Hp as [?|[-> _]]; done.
Qed.

Lemma createPeer_framed c name d w :
  world_ok w -> framed c {[peer_Name d]} w (createPeer c name d w).2.
Proof.
  intros Hok. unfold createPeer. st_run.
  destruct (Create c d w) as [[u|e] w'] eqn:E; simpl; rewrite <- (f_equal snd E : _ = w'); by apply Create_framed.
Qed.

(** What the loop of [reconcileDesired] works on. *)
Record inputs_ok (c : C) (w : W) (desired existing allBy : gmap string Peer) : Prop := {
  in_desired : forall x d, desired !! x = Some d -> peer_Name d = x;
  in_existing : forall x e, existing !! x = Some e -> peer_Name e = x /\ seen c w e;
  in_all : forall k p, allBy !! k = Some p -> seen c w p;
}.

Lemma reconcileOne_framed c w N desired existing allBy x d :
  world_ok w -> inputs_ok c w desired existing allBy -> desired !! x = Some d -> x ∈ N ->
  framed c N w (reconcileOne c existing allBy (x, d) w).2.
Proof.
  intros Hok [Hd He Ha] Hx HN. unfold reconcileOne. destruct (existing !! x) as [e|] eqn:Ee.
  - destruct (peerSpecEqual _ _); [by apply framed_refl|]. st_run.
    destruct (He x e Ee) as [Hn Hs].
    assert (Hf : framed c N w (Update c (with_Spec e (peer_Spec d)) w).2).
    { apply (framed_mono c {[peer_Name (with_Spec e (peer_Spec d))]}); [simpl; rewrite Hn; set_solver|].
      apply Update_framed; [done|]. exact (seen_versioned c w e Hok Hs). }
    by destruct (Update c _ w) as [[u|er] w'].
  - pose proof (Hd x d Hx) as Hn.
    assert (Hc : framed c N w (createPeer c x d w).2).
    { eapply framed_mono; [|by apply createPeer_framed]. rewrite Hn. set_solver. }
    unfold createOrMerge. destruct (allBy !! _) as [can|] eqn:Ea; [|done].
    case_decide; [|done]. apply mergeIntoCanonical_framed; [done|by eapply Ha].
Qed.

Lemma inputs_ok_later c N w w' desired existing allBy :
  framed c N w w' -> inputs_ok c w desired existing allBy -> inputs_ok c w' desired existing allBy.
Proof.
  intros Hf [Hd He Ha]. constructor; [done| |].
  - intros x e Hx. destruct (He x e Hx). split; [done|]. by eapply fr_seen.
  - intros k p Hp. eapply fr_seen; [done|by eapply Ha].
Qed.

Lemma range_elem m w x p : (x, p) ∈ (range m w).1 <-> m !! x = Some p.
Proof. rewrite range_perm. apply elem_of_map_to_list. Qed.

Lemma reconcileDesired_framed c w N desired existing allBy :
  world_ok w -> inputs_ok c w desired existing allBy -> (forall x, is_Some (desired !! x) -> x ∈ N) ->
  framed c N w (reconcileDesired c desired existing allBy w).2.
Proof.
  intros Hok Hin HN. unfold reconcileDesired. st_run.
  eapply framed_trans; [by apply (range_framed c N desired)|]. apply loop_framed; [by apply range_ok|].
  intros [x d] w1 Hx%range_elem Hf. eapply reconcileOne_framed; [by eapply fr_ok| |done|by apply HN].
  eapply inputs_ok_later; [|done]. eapply framed_trans; [by apply (range_framed c N desired)|done].
Qed.

Lemma deleteOne_framed c w N desired x e :
  world_ok w -> peer_Name e = x -> x ∈ N -> framed c N w (deleteOne c desired (x, e) w).2.
Proof.
  intros Hok Hn HN. unfold deleteOne. destruct (desired !! x); [by apply framed_refl|]. st_run.
  assert (Hf : framed c N w (Delete c e w).2).
  { eapply framed_mono; [|by apply Delete_framed]. rewrite Hn. set_solver. }
  by destruct (Delete c e w) as [[u|er] w'].
Qed.

Lemma deleteOrphans_framed c w N desired existing :
  world_ok w -> (forall x e, existing !! x = Some e -> peer_Name e = x /\ x ∈ N) ->
  framed c N w (deleteOrphans c desired existing w).2.
Proof.
  intros Hok He. unfold deleteOrphans. st_run.
  eapply framed_trans; [by apply (range_framed c N existing)|]. apply loop_framed; [by apply range_ok|].
  intros [x e] w1 Hx%range_elem Hf. destruct (He x e Hx). apply deleteOne_framed; [by eapply fr_ok|done|done].
Qed.

Lemma buildAll_run c w :
  buildAllPeersByPublicKey c w =
  match List c everything w with
  | (Err e, w1) => (Err e, w1)
  | (Ok items, w1) => (Ok (foldl recordByPublicKey ∅ items), w1)
  end.
Proof. unfold buildAllPeersByPublicKey. st_run. by destruct (List c everything w) as [[items|e] w1]. Qed.

(** The phases of [ReconcilePeers]: two lists, the writes, the deletes. *)
Lemma ReconcilePeers_run c mesh src desired w :
  ReconcilePeers c mesh src desired w =
  match List c everything w with
  | (Err e, w1) => ([ListingAllPeers e], w1)
  | (Ok items, w1) =>
      match List c (OrphanSelector mesh src) w1 with
      | (Err e, w2) => ([ListingExistingPeers e], w2)
      | (Ok existing, w2) =>
          let '(errs1, w3) := reconcileDesired c (buildDesiredMap desired) (buildExistingMap existing)
                                (foldl recordByPublicKey ∅ items) w2 in
          let '(errs2, w4) := deleteOrphans c (buildDesiredMap desired) (buildExistingMap existing) w3 in
          (errs1 ++ errs2, w4)
      end
  end.
Proof.
  unfold ReconcilePeers. rewrite st_bind_run, buildAll_run.
  destruct (List c everything w) as [[items|e] w1]; [|done]. st_run.
  destruct (List c (OrphanSelector mesh src) w1) as [[existing|e] w2]; [|done]. st_run.
  destruct (reconcileDesired _ _ _ _ w2) as [errs1 w3]. st_run. by destruct (deleteOrphans _ _ _ w3) as [errs2 w4].
Qed.

Lemma listed_inputs_ok c w sel items existing w1 w2 desired :
  world_ok w -> List c everything w = (Ok items, w1) -> List c sel w1 = (Ok existing, w2) ->
  inputs_ok c w2 (buildDesiredMap desired) (buildExistingMap existing) (foldl recordByPublicKey ∅ items) /\
  world_ok w2 /\
  (forall x e, buildExistingMap existing !! x = Some e ->
     peer_Name e = x /\ seen c w1 e /\ sel (peer_Labels e) = true).
Proof.
  intros Hok E1 E2.
  pose proof (List_framed c ∅ everything w Hok) as F1. rewrite E1 in F1. simpl in F1.
  assert (Hok1 : world_ok w1) by by eapply fr_ok.
  pose proof (List_framed c ∅ sel w1 Hok1) as F2. rewrite E2 in F2. simpl in F2.
  assert (Hex : forall x e, buildExistingMap existing !! x = Some e -> peer_Name e = x /\ seen c w1 e /\ sel (peer_Labels e) = true).
  { intros x e He. apply by_name_from in He as [He|[He Hn]]; [by rewrite lookup_empty in He|].
    split; [done|]. by eapply List_seen. }
  split; [|split; [by eapply fr_ok|done]]. constructor.
  - intros x d Hd. apply by_name_from in Hd as [Hd|[_ ?]]; [by rewrite lookup_empty in Hd|done].
  - intros x e He. apply Hex in He as (? & ? & _). split; [done|]. by eapply fr_seen.
  - intros k p Hp. pose proof (recordByPublicKey_all items k) as HC. rewrite Hp in HC. destruct HC as (Hin & _).
    eapply fr_seen; [exact F2|]. eapply fr_seen; [exact F1|]. by eapply List_seen.
Qed.

(** The names a reconcile may touch are desired, or are those of peers that were
    labelled (mesh, source). *)
Lemma ReconcilePeers_touches c mesh src desired w :
  world_ok w ->
  exists N, framed c N w (ReconcilePeers c mesh src desired w).2 /\
    forall x, x ∈ N -> x ∈ (peer_Name <$> desired) \/
      exists p, seen c w p /\ peer_Name p = x /\ OrphanSelector mesh src (peer_Labels p) = true.
Proof.
  intros Hok. rewrite ReconcilePeers_run.
  destruct (List c everything w) as [[items|e] w1] eqn:E1.
  2:{ exists ∅. split; [|set_solver]. pose proof (List_framed c ∅ everything w Hok) as F. by rewrite E1 in F. }
  pose proof (fun N => List_framed c N everything w Hok) as F1. rewrite E1 in F1. simpl in F1.
  assert (Hok1 : world_ok w1) by by eapply (fr_ok _ ∅).
  pose proof (fun N => List_framed c N (OrphanSelector mesh src) w1 Hok1) as F2.
  destruct (List c (OrphanSelector mesh src) w1) as [[existing|e] w2] eqn:E2; simpl in F2.
  2:{ exists ∅. split; [|set_solver]. simpl. by eapply framed_trans. }
  destruct (listed_inputs_ok c w _ _ _ _ _ desired Hok E1 E2) as (Hin & Hok2 & Hex).
  exists (list_to_set (peer_Name <$> desired) ∪ dom (buildExistingMap existing)). split.
  2:{ intros x [Hx|[e He]%elem_of_dom]%elem_of_union; [left; by apply elem_of_list_to_set in Hx|right].
      apply Hex in He as (? & Hs & Hsel). exists e. split; [|done].
      apply (List_history c everything w). by rewrite E1. }
  set (N := _ ∪ _). eapply framed_trans; [apply F1|]. eapply framed_trans; [apply F2|].
  pose proof (reconcileDesired_framed c w2 N _ _ _ Hok2 Hin) as F3.
  destruct (reconcileDesired _ _ _ _ w2) as [errs1 w3]. cbn [snd] in F3.
  assert (F3' : framed c N w2 w3).
  { apply F3. intros y [d Hy]. unfold N. apply elem_of_union_l, elem_of_list_to_set.
    apply by_name_from in Hy as [Hy|[Hy <-]]; [by rewrite lookup_empty in Hy|]. by apply list_elem_of_fmap_2. }
  pose proof (deleteOrphans_framed c w3 N (buildDesiredMap desired) (buildExistingMap existing)) as F4.
  destruct (deleteOrphans _ _ _ w3) as [errs2 w4]. cbn [snd] in *.
  eapply framed_trans; [done|]. apply F4; [by eapply fr_ok|].
  intros y e He. split; [by apply Hex|]. unfold N. apply elem_of_union_r, elem_of_dom. eauto.
Qed.

Lemma ReconcilePeers_framed c mesh src desired w (x : string) :
  world_ok w -> x ∉ (peer_Name <$> desired) ->
  (forall p, seen c w p -> peer_Name p = x -> OrphanSelector mesh src (peer_Labels p) = false) ->
  exists N, (x ∉ N) /\ framed c N w (ReconcilePeers c mesh src desired w).2.
Proof.
  intros Hok Hd Hnot. destruct (ReconcilePeers_touches c mesh src desired w Hok) as (N & F & HN).
  exists N. split; [|done]. intros [?|(p & Hp & Hx & Hs)]%HN; [done|]. rewrite (Hnot p Hp Hx) in Hs. done.
Qed.

(** C13. A reconcile never damages a peer it does not own: on the target cluster, a
    peer whose name is not desired and which never carried the (mesh, source)
    labels still exists afterwards, with the same labels, key, endpoint and
    keepalive, and with all its AllowedIPs (a merge may add some); peers of other
    clusters do not change. This holds whether or not the call succeeds, with stale
    reads, lost replies and any iteration order of the Go maps. *)
Theorem ReconcilePeers_foreign_safe c mesh src desired w x cur :
  world_ok w -> peers c w !! x = Some cur -> x ∉ (peer_Name <$> desired) ->
  (forall p, seen c w p -> peer_Name p = x -> OrphanSelector mesh src (peer_Labels p) = false) ->
  let w' := (ReconcilePeers c mesh src desired w).2 in
  (exists cur', peers c w' !! x = Some cur' /\ kept cur cur') /\
  forall c', c <> c' -> peers c' w' = peers c' w.
Proof.
  intros Hok Hx Hd Hnot w'. destruct (ReconcilePeers_framed c mesh src desired w x Hok Hd Hnot) as (N & HN & HF).
  split; [by eapply fr_kept|by apply (fr_other _ _ _ _ HF)].
Qed.

(** *** Convergence *)

(** The part of the world a loop over distinct names relies on. *)
Record later (c : C) (w w' : W) : Prop := {
  lt_ok : world_ok w';
  lt_seen : forall p, seen c w p -> seen c w' p;
}.

Lemma later_refl c w : world_ok w -> later c w w.
Proof. by constructor. Qed.
Lemma later_trans c w1 w2 w3 : later c w1 w2 -> later c w2 w3 -> later c w1 w3.
Proof. intros [] []. constructor; auto. Qed.
Lemma framed_later c N w w' : framed c N w w' -> later c w w'.
Proof. intros []. constructor; auto. Qed.

(** A loop over entries of distinct names, whose step for name [x] writes no
    other name and, when it reports no error and finds [x] as it was, establishes
    [post] for [x]: without errors it establishes [post] for all names. *)
Lemma loop_by_name {A} c (f : string * A -> ST W (list reconcile_error))
    (post : string -> A -> option Peer -> Prop) kvs w :
  NoDup kvs.*1 -> world_ok w ->
  (forall x a w1, (x, a) ∈ kvs -> later c w w1 ->
     later c w1 (f (x, a) w1).2 /\
     (forall y, y <> x -> peers c (f (x, a) w1).2 !! y = peers c w1 !! y) /\
     ((f (x, a) w1).1 = [] -> peers c w1 !! x = peers c w !! x -> post x a (peers c (f (x, a) w1).2 !! x))) ->
  (st_collect f kvs w).1 = [] ->
  later c w (st_collect f kvs w).2 /\
  (forall x a, (x, a) ∈ kvs -> post x a (peers c (st_collect f kvs w).2 !! x)) /\
  (forall y, y ∉ kvs.*1 -> peers c (st_collect f kvs w).2 !! y = peers c w !! y).
Proof.
  intros Hnd Hok Hf.
  assert (Hgen : forall w1, later c w w1 -> (forall x, x ∈ kvs.*1 -> peers c w1 !! x = peers c w !! x) ->
    (st_collect f kvs w1).1 = [] ->
    later c w1 (st_collect f kvs w1).2 /\
    (forall x a, (x, a) ∈ kvs -> post x a (peers c (st_collect f kvs w1).2 !! x)) /\
    (forall y, y ∉ kvs.*1 -> peers c (st_collect f kvs w1).2 !! y = peers c w1 !! y)).
  2:{ intros He. by apply Hgen; [apply later_refl|..]. }
  induction kvs as [|[x a] kvs IH]; intros w1 Hl Heq He.
  { split; [apply later_refl; by eapply lt_ok|]. split; [|done]. by intros ? ? ?%not_elem_of_nil. }
  cbn [st_collect fmap list_fmap fst] in *. apply list.NoDup_cons in Hnd as [Hx Hnd].
  rewrite st_bind_run in He |- *. rewrite st_bind_run in He |- *.
  destruct (Hf x a w1 ltac:(left) Hl) as (L1 & O1 & P1).
  destruct (f (x, a) w1) as [e1 w2]. cbn [fst snd] in *.
  assert (IH' : (st_collect f kvs w2).1 = [] -> later c w2 (st_collect f kvs w2).2 /\
    (forall x a, (x, a) ∈ kvs -> post x a (peers c (st_collect f kvs w2).2 !! x)) /\
    (forall y, y ∉ kvs.*1 -> peers c (st_collect f kvs w2).2 !! y = peers c w2 !! y)).
  { apply IH; [done| |by eapply later_trans|].
    - intros y b w3 Hy. apply Hf. by right.
    - intros y Hy. rewrite O1 by (intros ->; done). apply Heq. by right. }
  destruct (st_collect f kvs w2) as [e2 w3]. rewrite st_ret_run in *. cbn [fst snd] in *.
  apply app_eq_nil in He as [-> ->]. destruct (IH' eq_refl) as (L2 & P2 & O2).
  split; [by eapply later_trans|]. split.
  - intros y b [[= -> ->]|Hy]%elem_of_cons; [|by apply P2].
    rewrite O2 by done. apply P1; [done|]. apply Heq. left.
  - intros y [Hy1 Hy2]%not_elem_of_cons. rewrite O2 by done. by apply O1.
Qed.

(** The peer under name [d] is the desired one. *)
Definition realizes (mesh src : string) (d : Peer) (o : option Peer) : Prop :=
  exists q, o = Some q /\ spec_equiv (peer_Spec q) (peer_Spec d) /\
    OrphanSelector mesh src (peer_Labels q) = true.

Lemma stored_spec q p : stored q p -> peer_Spec q = peer_Spec p /\ peer_Labels q = peer_Labels p.
Proof. destruct q, p. unfold stored. simpl. by intros [= -> -> ->]. Qed.

Lemma reconcileOne_realizes c w1 mesh src existing allBy x d :
  world_ok w1 -> peer_Name d = x -> OrphanSelector mesh src (peer_Labels d) = true ->
  (forall e, existing !! x = Some e -> peer_Name e = x /\ seen c w1 e /\ OrphanSelector mesh src (peer_Labels e) = true) ->
  (forall can, allBy !! spec_PublicKey (peer_Spec d) = Some can -> peer_Name can = x) ->
  let r := reconcileOne c existing allBy (x, d) w1 in
  later c w1 r.2 /\ (forall y, y <> x -> peers c r.2 !! y = peers c w1 !! y) /\
  (r.1 = [] -> (forall e, existing !! x = Some e -> peers c w1 !! x = Some e) ->
     realizes mesh src d (peers c r.2 !! x)).
Proof.
  intros Hok Hn Hsel Hex Hall r. subst r. unfold reconcileOne. destruct (existing !! x) as [e|] eqn:Ee.
  - destruct (Hex e eq_refl) as (Hne & Hse & Hle).
    destruct (peerSpecEqual _ _) eqn:Hq.
    { split; [by apply later_refl|]. split; [done|]. intros _ He. exists e.
      split; [by apply He|]. split; [by apply peerSpecEqual_equiv|done]. }
    rewrite st_bind_run. set (u := with_Spec e (peer_Spec d)).
    assert (Hrv : peer_ResourceVersion u <> "") by exact (seen_versioned c w1 e Hok Hse).
    pose proof (Update_framed c u w1 Hok Hrv) as HF.
    assert (Hother : forall y, y <> x -> peers c (Update c u w1).2 !! y = peers c w1 !! y).
    { intros y Hy. destruct (Update_changes c u w1 Hok Hrv) as [->|(? & ? & _ & _ & _ & ->)]; [done|].
      rewrite lookup_insert_ne; [done|]. simpl. congruence. }
    destruct (Update c u w1) as [[t|er] w2] eqn:EU; cbn [fst snd] in *; rewrite ?st_ret_run; cbn [fst snd] in *;
      (split; [by eapply framed_later|]; split; [done|]); [|done].
    intros _ _. apply Update_Ok in EU as (cur & q & _ & _ & Hst & ->); [|done|done].
    apply stored_spec in Hst as [H1 H2]. exists q. split; [simpl; rewrite Hne; apply lookup_insert_eq|].
    rewrite H1, H2. by split.
  - assert (Hcreate : let r := createPeer c x d w1 in later c w1 r.2 /\
      (forall y, y <> x -> peers c r.2 !! y = peers c w1 !! y) /\ (r.1 = [] -> realizes mesh src d (peers c r.2 !! x))).
    { pose proof (createPeer_framed c x d w1 Hok) as HF. unfold createPeer in *. rewrite st_bind_run in *.
      destruct (Create c d w1) as [[t|er] w2] eqn:EC; cbn [fst snd] in *; st_run;
        (split; [by eapply framed_later|]).
      - apply Create_Ok in EC as (_ & q & Hst & ->); [|done]. rewrite Hn. split; [intros; by apply lookup_insert_ne|].
        intros _. apply stored_spec in Hst as [H1 H2]. exists q. rewrite lookup_insert_eq, H1, H2. by split.
      - split; [|done]. intros y Hy. apply Create_Err in EC as [->|(_ & q & _ & ->)]; [done| |done].
        apply lookup_insert_ne. congruence. }
    assert (Hco : createOrMerge c x d allBy w1 = createPeer c x d w1).
    { unfold createOrMerge. destruct (allBy !! _) as [can|] eqn:Ea; [|done].
      rewrite decide_False; [done|]. intros Hne. by apply Hne, Hall. }
    rewrite Hco. destruct Hcreate as (? & ? & ?). split; [done|]. split; [done|]. auto.
Qed.

Lemma range_keys m w : NoDup (range m w).1.*1.
Proof. rewrite range_perm. apply NoDup_fst_map_to_list. Qed.

Lemma range_key m w x : x ∈ (range m w).1.*1 <-> is_Some (m !! x).
Proof.
  rewrite list_elem_of_fmap. split.
  - intros ([y p] & -> & Hy%range_elem). by exists p.
  - intros [p Hp]. exists (x, p). split; [done|]. by apply range_elem.
Qed.

(** The write phase, when the public keys of the desired peers are not used under
    other names. *)
Lemma reconcileDesired_realizes c w mesh src desired existing allBy :
  world_ok w -> inputs_ok c w desired existing allBy ->
  (forall x d, desired !! x = Some d -> OrphanSelector mesh src (peer_Labels d) = true) ->
  (forall x e, existing !! x = Some e -> peers c w !! x = Some e /\ OrphanSelector mesh src (peer_Labels e) = true) ->
  (forall x d can, desired !! x = Some d -> allBy !! spec_PublicKey (peer_Spec d) = Some can -> peer_Name can = x) ->
  let r := reconcileDesired c desired existing allBy w in
  r.1 = [] ->
  world_ok r.2 /\
  (forall x d, desired !! x = Some d -> realizes mesh src d (peers c r.2 !! x)) /\
  (forall y, desired !! y = None -> peers c r.2 !! y = peers c w !! y).
Proof.
  intros Hok Hin Hsel Hcur Hcan r. subst r. unfold reconcileDesired. st_run. intros He.
  pose proof (range_framed c ∅ desired w Hok) as Fr. pose proof (range_peers desired w c) as Hrp.
  destruct (loop_by_name c (reconcileOne c existing allBy) (fun _ d => realizes mesh src d)
    (range desired w).1 (range desired w).2) as (L & P & O).
  - apply range_keys.
  - by apply range_ok.
  - intros x d w1 Hx%range_elem HL.
    assert (Hs1 : forall p, seen c w p -> seen c w1 p) by (intros p Hp; by eapply lt_seen, fr_seen).
    destruct Hin as [Hd Hex Hall].
    destruct (reconcileOne_realizes c w1 mesh src existing allBy x d) as (L1 & O1 & P1).
    + by eapply lt_ok.
    + by apply Hd.
    + by eapply Hsel.
    + intros e Ee. destruct (Hex x e Ee). destruct (Hcur x e Ee). auto.
    + intros can. by apply Hcan.
    + split; [done|]. split; [done|]. intros E1 E2. apply P1; [done|]. intros e Ee.
      rewrite E2, Hrp. by apply Hcur.
  - done.
  - split; [by eapply lt_ok|]. split.
    + intros x d Hx. apply P. by apply range_elem.
    + intros y Hy. rewrite O, Hrp; [done|]. rewrite range_key, Hy. by intros [].
Qed.

Lemma deleteOrphans_deletes c w desired existing :
  world_ok w -> (forall x e, existing !! x = Some e -> peer_Name e = x) ->
  let r := deleteOrphans c desired existing w in
  r.1 = [] ->
  world_ok r.2 /\
  forall y, peers c r.2 !! y =
    if decide (is_Some (existing !! y) /\ desired !! y = None) then None else peers c w !! y.
Proof.
  intros Hok Hn r. subst r. unfold deleteOrphans. st_run. intros He.
  pose proof (range_peers existing w c) as Hrp.
  destruct (loop_by_name c (deleteOne c desired)
    (fun x _ o => o = match desired !! x with Some _ => peers c w !! x | None => None end)
    (range existing w).1 (range existing w).2) as (L & P & O).
  - apply range_keys.
  - by apply range_ok.
  - intros x e w1 Hx%range_elem HL. unfold deleteOne. destruct (desired !! x) eqn:Ed.
    { rewrite st_ret_run. split; [apply later_refl; by eapply lt_ok|]. split; [done|]. intros _ E.
      cbn [snd]. by rewrite E, Hrp. }
    assert (Hok1 : world_ok w1) by by eapply lt_ok. pose proof (Delete_framed c e w1 Hok1) as HF.
    rewrite st_bind_run. destruct (Delete c e w1) as [[u|er] w2] eqn:ED; cbn [fst snd] in *; st_run;
      (split; [by eapply framed_later|]).
    + apply Delete_Ok in ED as ->; [|done]. rewrite (Hn x e Hx). split; [intros; by apply lookup_delete_ne|].
      intros _ _. apply lookup_delete_eq.
    + split; [|done]. intros y Hy. apply Delete_Err in ED as [->| ->]; [done| |done].
      rewrite lookup_delete_ne; [done|]. rewrite (Hn x e Hx). congruence.
  - done.
  - split; [by eapply lt_ok|]. intros y. case_decide as Hy.
    + destruct Hy as [[e Ee] Ed]. rewrite (P y e) by by apply range_elem. by rewrite Ed.
    + destruct (existing !! y) as [e|] eqn:Ee.
      * rewrite (P y e) by by apply range_elem. destruct (desired !! y) eqn:Ed; [done|]. exfalso. apply Hy. eauto.
      * rewrite O, Hrp; [done|]. rewrite range_key, Ee. by intros [].
Qed.

(** The maps of [ReconcilePeers], when the lists are current. *)
Lemma desired_map desired x d :
  NoDup (peer_Name <$> desired) -> buildDesiredMap desired !! x = Some d <-> d ∈ desired /\ peer_Name d = x.
Proof. apply by_name_Some. Qed.

Lemma existing_map c w (sel : selector) existing x e :
  world_ok w -> NoDup (peer_Name <$> existing) ->
  (forall p, p ∈ existing <-> peers c w !! peer_Name p = Some p /\ sel (peer_Labels p) = true) ->
  buildExistingMap existing !! x = Some e <-> peers c w !! x = Some e /\ sel (peer_Labels e) = true.
Proof.
  intros Hok Hnd Hex. unfold buildExistingMap. rewrite by_name_Some, Hex by done. split; [naive_solver|].
  intros [Hx Hs]. pose proof (peers_name c w x e Hok Hx) as <-. done.
Qed.

Lemma canonical_desired c w items d can :
  (forall p, p ∈ items -> peers c w !! peer_Name p = Some p) ->
  (forall y p, peers c w !! y = Some p -> spec_PublicKey (peer_Spec p) = spec_PublicKey (peer_Spec d) -> y = peer_Name d) ->
  foldl recordByPublicKey ∅ items !! spec_PublicKey (peer_Spec d) = Some can -> peer_Name can = peer_Name d.
Proof.
  intros Hit Hkey Hcan. pose proof (recordByPublicKey_all items (spec_PublicKey (peer_Spec d))) as HC.
  rewrite Hcan in HC. destruct HC as (Hc1 & Hc2 & _). by eapply Hkey; [apply Hit|].
Qed.

Lemma ReconcilePeers_converges_aux c mesh src desired w :
  world_ok w -> synced c w -> NoDup (peer_Name <$> desired) ->
  (forall d, d ∈ desired -> OrphanSelector mesh src (peer_Labels d) = true) ->
  (forall d y p, d ∈ desired -> peers c w !! y = Some p ->
     spec_PublicKey (peer_Spec p) = spec_PublicKey (peer_Spec d) -> y = peer_Name d) ->
  (ReconcilePeers c mesh src desired w).1 = [] ->
  let w' := (ReconcilePeers c mesh src desired w).2 in
  (forall d, d ∈ desired -> realizes mesh src d (peers c w' !! peer_Name d)) /\
  (forall y, y ∉ (peer_Name <$> desired) ->
     peers c w' !! y =
     match peers c w !! y with
     | Some p => if OrphanSelector mesh src (peer_Labels p) then None else Some p
     | None => None
     end).
Proof.
  intros Hok Hsy Hnd Hsel Hkey He. rewrite ReconcilePeers_run in He |- *.
  destruct (List c everything w) as [[items|e] w1] eqn:E1; [|done].
  pose proof (List_peers c everything w c) as Hp1. rewrite E1 in Hp1. simpl in Hp1.
  pose proof (List_synced c everything w items w1 Hok Hsy E1) as [Hsy1 Hitems].
  destruct (List c (OrphanSelector mesh src) w1) as [[existing|e] w2] eqn:E2; [|done].
  destruct (listed_inputs_ok c w _ _ _ _ _ desired Hok E1 E2) as (Hin & Hok2 & Hex).
  pose proof (List_peers c (OrphanSelector mesh src) w1 c) as Hp2. rewrite E2 in Hp2. simpl in Hp2.
  assert (Hok1 : world_ok w1) by (pose proof (List_ok c everything w Hok) as Ho; by rewrite E1 in Ho).
  pose proof (List_synced c _ w1 existing w2 Hok1 Hsy1 E2) as [_ Hexisting].
  pose proof (List_NoDup c _ w1 existing w2 Hok1 E2) as HndE.
  assert (HE : forall x e, buildExistingMap existing !! x = Some e <->
    peers c w !! x = Some e /\ OrphanSelector mesh src (peer_Labels e) = true).
  { intros x e. rewrite Hp1 in Hexisting. by apply existing_map. }
  assert (HD := fun x d => desired_map desired x d Hnd).
  pose proof (reconcileDesired_realizes c w2 mesh src (buildDesiredMap desired) (buildExistingMap existing)
    (foldl recordByPublicKey ∅ items) Hok2 Hin) as HR.
  destruct (reconcileDesired _ _ _ _ w2) as [errs1 w3]. cbn [fst snd] in HR.
  destruct (deleteOrphans c (buildDesiredMap desired) (buildExistingMap existing) w3) as [errs2 w4] eqn:ED.
  cbn [fst snd] in *. apply app_eq_nil in He as [-> ->].
  destruct HR as (Hok3 & HR & HO); [| | |done|].
  { intros x d [Hd _]%HD. by apply Hsel. }
  { intros x e [Hx Hs]%HE. rewrite Hp2, Hp1. done. }
  { intros x d can [Hd <-]%HD. apply (canonical_desired c w); [intros p Hp; by apply Hitems|eauto]. }
  destruct (deleteOrphans_deletes c w3 (buildDesiredMap desired) (buildExistingMap existing) Hok3) as [_ HDel].
  { intros x e Hx. by apply Hex. }
  { by rewrite ED. }
  rewrite ED in HDel. cbn [snd] in HDel. split.
  - intros d Hd. assert (Hx : buildDesiredMap desired !! peer_Name d = Some d) by by apply HD.
    rewrite HDel, decide_False; [by apply HR|]. rewrite Hx. by intros [_ ?].
  - intros y Hy. assert (Hn : buildDesiredMap desired !! y = None).
    { destruct (buildDesiredMap desired !! y) as [d|] eqn:Ed; [|done]. apply HD in Ed as [Hd <-].
      exfalso. by apply Hy, list_elem_of_fmap_2. }
    rewrite HDel, HO, Hp2, Hp1 by done. destruct (peers c w !! y) as [p|] eqn:Ep; [|by case_decide].
    destruct (OrphanSelector mesh src (peer_Labels p)) eqn:Es.
    + rewrite decide_True; [done|]. split; [|done]. exists p. by apply HE.
    + rewrite decide_False; [done|]. intros [[e [Hy1 Hy2]%HE] _]. congruence.
Qed.

(** C10. Convergence: with up-to-date reads and no errors, and when no other peer of
    the cluster uses the public key of a desired peer, [ReconcilePeers] makes the
    peers of (mesh, source) exactly the desired ones: every desired peer is stored
    under its name with an equivalent specification, every other peer labelled
    (mesh, source) is gone, and every remaining peer is as it was. *)
Theorem ReconcilePeers_converges c mesh src desired w :
  world_ok w -> synced c w -> NoDup (peer_Name <$> desired) ->
  (forall d, d ∈ desired -> OrphanSelector mesh src (peer_Labels d) = true) ->
  (forall d y p, d ∈ desired -> peers c w !! y = Some p ->
     spec_PublicKey (peer_Spec p) = spec_PublicKey (peer_Spec d) -> y = peer_Name d) ->
  (ReconcilePeers c mesh src desired w).1 = [] ->
  let w' := (ReconcilePeers c mesh src desired w).2 in
  (forall d, d ∈ desired -> realizes mesh src d (peers c w' !! peer_Name d)) /\
  (forall y, y ∉ (peer_Name <$> desired) ->
     peers c w' !! y =
     match peers c w !! y with
     | Some p => if OrphanSelector mesh src (peer_Labels p) then None else Some p
     | None => None
     end).
Proof. apply ReconcilePeers_converges_aux. Qed.

(** *** Stability *)

(** The third conclusion: nothing but lists and loops over maps is run. *)
Lemma ReconcilePeers_stable_aux c mesh src desired w items w1 existing w2 :
  world_ok w -> synced c w -> NoDup (peer_Name <$> desired) ->
  List c everything w = (Ok items, w1) -> List c (OrphanSelector mesh src) w1 = (Ok existing, w2) ->
  (forall d, d ∈ desired -> realizes mesh src d (peers c w !! peer_Name d)) ->
  (forall y p, peers c w !! y = Some p -> OrphanSelector mesh src (peer_Labels p) = true ->
     y ∈ (peer_Name <$> desired)) ->
  let r := ReconcilePeers c mesh src desired w in
  r.1 = [] /\ (forall c', peers c' r.2 = peers c' w) /\
  forall J : W -> Prop, (forall sel w, J w -> J (List c sel w).2) -> (forall m w, J w -> J (range m w).2) -> J w -> J r.2.
Proof.
  intros Hok Hsy Hnd E1 E2 Hre Horph r. subst r. rewrite ReconcilePeers_run, E1, E2.
  pose proof (List_synced c everything w items w1 Hok Hsy E1) as [Hsy1 _].
  assert (Hok1 : world_ok w1) by (pose proof (List_ok c everything w Hok) as Ho; by rewrite E1 in Ho).
  pose proof (List_synced c _ w1 existing w2 Hok1 Hsy1 E2) as [_ Hexisting].
  pose proof (List_NoDup c _ w1 existing w2 Hok1 E2) as HndE.
  pose proof (fun c' => List_peers c everything w c') as Hp1. rewrite E1 in Hp1. simpl in Hp1.
  pose proof (fun c' => List_peers c (OrphanSelector mesh src) w1 c') as Hp2. rewrite E2 in Hp2. simpl in Hp2.
  set (dm := buildDesiredMap desired). set (em := buildExistingMap existing).
  assert (HD := fun x d => desired_map desired x d Hnd). fold dm in HD.
  assert (HE : forall x e, em !! x = Some e <-> peers c w !! x = Some e /\ OrphanSelector mesh src (peer_Labels e) = true).
  { intros x e. rewrite Hp1 in Hexisting. by apply existing_map. }
  unfold reconcileDesired. rewrite st_bind_run, st_collect_idle.
  2:{ intros [x d] Hx%range_elem. apply HD in Hx as [Hd <-]. destruct (Hre d Hd) as (q & Hq & Heq & Hs).
      unfold reconcileOne. rewrite (proj2 (HE (peer_Name d) q)) by done.
      by rewrite (proj2 (peerSpecEqual_equiv _ _) Heq). }
  unfold deleteOrphans. rewrite st_bind_run, st_collect_idle.
  2:{ intros [x e] Hx%range_elem. apply HE in Hx as [Hx Hs]. unfold deleteOne.
      destruct (proj1 (list_elem_of_fmap _ _ _) (Horph x e Hx Hs)) as (d & -> & Hd).
      by rewrite (proj2 (HD (peer_Name d) d)). }
  split; [done|]. split; [intros c'; simpl; by rewrite !range_peers, Hp2, Hp1|].
  intros J HL HR Hw. apply HR, HR. pose proof HL as HL0. specialize (HL (OrphanSelector mesh src) w1). rewrite E2 in HL. apply HL.
  by specialize (HL0 everything w Hw); rewrite E1 in HL0.
Qed.

(** A reconciled cluster is left alone: if the desired peers are in place
    (AllowedIPs in any order), and no other peer is labelled (mesh, source), then
    [ReconcilePeers] succeeds whenever its two lists do and writes nothing, for any
    iteration order. *)
Theorem ReconcilePeers_stable c mesh src desired w items w1 existing w2 :
  world_ok w -> synced c w -> NoDup (peer_Name <$> desired) ->
  List c everything w = (Ok items, w1) -> List c (OrphanSelector mesh src) w1 = (Ok existing, w2) ->
  (forall d, d ∈ desired -> realizes mesh src d (peers c w !! peer_Name d)) ->
  (forall y p, peers c w !! y = Some p -> OrphanSelector mesh src (peer_Labels p) = true ->
     y ∈ (peer_Name <$> desired)) ->
  let r := ReconcilePeers c mesh src desired w in
  r.1 = [] /\ forall c', peers c' r.2 = peers c' w.
Proof.
  intros Hok Hsy Hnd E1 E2 Hre Horph.
  by destruct (ReconcilePeers_stable_aux c mesh src desired w items w1 existing w2) as (? & ? & _).
Qed.

(** *** Stale source clusters *)

Lemma collect_named {A} (key : A -> string) (f : A -> ST W (list reconcile_error)) l w :
  st_collect f l w = st_collect (fun kv => f kv.2) ((fun a => (key a, a)) <$> l) w.
Proof.
  revert w; induction l as [|a l IH]; intros w; [done|]. cbn [st_collect fmap list_fmap].
  unfold mbind, ST_bind. cbn [snd]. destruct (f a w) as [e w1]. by rewrite IH.
Qed.

(** A peer of the mesh whose source is no longer in the spec. *)
Definition stale (mesh : string) (valid : list string) (p : Peer) : Prop :=
  peer_Labels p !! LabelMesh = Some mesh /\
  default "" (peer_Labels p !! LabelSourceCluster) ∉ valid.

#[export] Instance stale_dec mesh valid p : Decision (stale mesh valid p).
Proof. unfold stale. apply _. Defined.

Lemma deleteStaleOne_step c w1 valid p :
  world_ok w1 ->
  let r := deleteStaleOne c (list_to_set valid) p w1 in
  later c w1 r.2 /\ (forall y, y <> peer_Name p -> peers c r.2 !! y = peers c w1 !! y) /\
  (r.1 = [] -> peers c r.2 !! peer_Name p =
     if decide (default "" (peer_Labels p !! LabelSourceCluster) ∈ valid) then peers c w1 !! peer_Name p else None).
Proof.
  intros Hok r. subst r. unfold deleteStaleOne.
  destruct (decide (default "" (peer_Labels p !! LabelSourceCluster) ∈ valid)) as [Hin|Hin].
  { rewrite decide_True by by apply elem_of_list_to_set. split; [by apply later_refl|]. done. }
  rewrite decide_False by by rewrite elem_of_list_to_set. st_run.
  pose proof (Delete_framed c p w1 Hok) as HF.
  destruct (Delete c p w1) as [[u|er] w2] eqn:ED; cbn [fst snd] in *.
  - split; [by eapply framed_later|]. rewrite st_ret_run. cbn [fst snd]. apply Delete_Ok in ED as ->; [|done].
    split; [intros; by apply lookup_delete_ne|]. intros _. apply lookup_delete_eq.
  - assert (Hother : forall y, y <> peer_Name p -> peers c w2 !! y = peers c w1 !! y).
    { intros y Hy. destruct (Delete_Err c p w1 er w2 Hok ED) as [->| ->]; [done|]. by rewrite lookup_delete_ne. }
    destruct er; rewrite st_ret_run; cbn [fst snd]; (split; [by eapply framed_later|]; split; [done|]); try done.
    intros _. by apply Delete_NotFound in ED as [H1 ->].
Qed.

Lemma DeleteStale_exact_aux c mesh valid w :
  world_ok w -> synced c w -> (DeleteStaleSourceClusters c mesh valid w).1 = [] ->
  forall y, peers c (DeleteStaleSourceClusters c mesh valid w).2 !! y =
    match peers c w !! y with
    | Some p => if decide (stale mesh valid p) then None else Some p
    | None => None
    end.
Proof.
  intros Hok Hsy. unfold DeleteStaleSourceClusters. st_run.
  destruct (List c (MeshSelector mesh) w) as [[items|e] w1] eqn:E; cbn [fst snd]; [|done].
  assert (Hok1 : world_ok w1) by (pose proof (List_ok c (MeshSelector mesh) w Hok) as Ho; by rewrite E in Ho).
  pose proof (List_peers c (MeshSelector mesh) w c) as Hp1. rewrite E in Hp1. simpl in Hp1.
  pose proof (List_synced c _ w items w1 Hok Hsy E) as [_ Hitems].
  rewrite (collect_named peer_Name). intros He y.
  destruct (loop_by_name c (fun kv => deleteStaleOne c (list_to_set valid) kv.2)
    (fun x p o => o = if decide (default "" (peer_Labels p !! LabelSourceCluster) ∈ valid) then peers c w !! x else None)
    ((fun p => (peer_Name p, p)) <$> items) w1) as (_ & P & O).
  - rewrite <- list_fmap_compose. exact (List_NoDup c _ w items w1 Hok E).
  - done.
  - intros x p w2 (q & [= -> ->] & Hq)%list_elem_of_fmap HL. cbn [snd].
    destruct (deleteStaleOne_step c w2 valid q (lt_ok _ _ _ HL)) as (L1 & O1 & P1).
    split; [done|]. split; [done|]. intros E1 E2. rewrite (P1 E1), E2, Hp1. done.
  - done.
  - assert (Hkeys : forall x, x ∈ ((fun p => (peer_Name p, p)) <$> items).*1 <->
      exists p, peers c w !! x = Some p /\ peer_Labels p !! LabelMesh = Some mesh).
    { intros x. rewrite <- list_fmap_compose, list_elem_of_fmap. unfold MeshSelector in Hitems. split.
      - intros (p & -> & Hp). apply Hitems in Hp as [Hp Hs]. exists p. by rewrite bool_decide_eq_true in Hs.
      - intros (p & Hx & Hs). exists p. pose proof (peers_name c w x p Hok Hx) as <-. split; [done|].
        apply Hitems. by rewrite bool_decide_eq_true. }
    destruct (peers c w !! y) as [p|] eqn:Hy.
    2:{ rewrite O, Hp1; [done|]. rewrite Hkeys. intros (p & Hp & _). congruence. }
    pose proof (peers_name c w y p Hok Hy) as Hn.
    destruct (decide (peer_Labels p !! LabelMesh = Some mesh)) as [Hs|Hs].
    + rewrite (P y p).
      2:{ apply list_elem_of_fmap. exists p. rewrite Hn. split; [done|]. apply Hitems.
          rewrite Hn. split; [done|]. by apply bool_decide_eq_true. }
      unfold stale. rewrite Hy. repeat case_decide; naive_solver.
    + rewrite O, Hp1, decide_False; [done|by intros [? _]|].
      rewrite Hkeys. intros (q & Hq & ?). congruence.
Qed.

(** [DeleteStaleSourceClusters], with up-to-date reads and no errors, removes
    exactly the peers labelled with the mesh whose source cluster is not in the
    list (all of the mesh's peers for the empty list), and leaves every other peer
    as it was. *)
Theorem DeleteStaleSourceClusters_exact c mesh valid w :
  world_ok w -> synced c w -> (DeleteStaleSourceClusters c mesh valid w).1 = [] ->
  forall y, peers c (DeleteStaleSourceClusters c mesh valid w).2 !! y =
    match peers c w !! y with
    | Some p => if decide (stale mesh valid p) then None else Some p
    | None => None
    end.
Proof. apply DeleteStale_exact_aux. Qed.

End Frame.

(** ** Scenarios with shared public keys

    Run on the in-memory API server. *)

Module Scenario.

Definition peer_of (mesh src node key : string) (ips : list string) : Peer :=
  mkPeer (Name mesh src node) (Labels mesh src) "" (mkPeerSpec ips None 0 "" key).

Definition start : Memory.world := Memory.mkWorld ∅ [] 1 ∅ [].

(** Some peer of the cluster with this key allows this address. *)
Definition routed (c : string) (w : Memory.world) (key ip : string) : bool :=
  existsb (fun kv => bool_decide (spec_PublicKey (peer_Spec kv.2) = key) &&
                     bool_decide (ip ∈ spec_AllowedIPs (peer_Spec kv.2)))
          (map_to_list (Memory.objects c w)).

Definition keyed (c : string) (w : Memory.world) (key : string) : bool :=
  existsb (fun kv => bool_decide (spec_PublicKey (peer_Spec kv.2) = key)) (map_to_list (Memory.objects c w)).

(** A node that re-registers under a new name with the same key. *)
Definition rename_first : list reconcile_error * Memory.world :=
  ReconcilePeers "target" "mesh" "a" [peer_of "mesh" "a" "n1" "K" ["10.0.1.0/24"]] start.
Definition rename_second : list reconcile_error * Memory.world :=
  ReconcilePeers "target" "mesh" "a" [peer_of "mesh" "a" "n2" "K" ["10.0.1.0/24"]] rename_first.2.

(** Two meshes that list the same node. *)
Definition shared_m1 (w : Memory.world) : list reconcile_error * Memory.world :=
  ReconcilePeers "target" "m1" "hub" [peer_of "m1" "hub" "n" "K" ["10.0.1.0/24"]] w.
Definition shared_m2 (w : Memory.world) : list reconcile_error * Memory.world :=
  ReconcilePeers "target" "m2" "hub" [peer_of "m2" "hub" "n" "K" ["10.9.0.0/16"]] w.

End Scenario.

(** A node that is renamed with the same key: the second run reports success and
    leaves no peer with the key. *)
Theorem ReconcilePeers_rename_drops_key :
  Scenario.rename_first.1 = [] /\ Scenario.keyed "target" Scenario.rename_first.2 "K" = true /\
  Scenario.rename_second.1 = [] /\ Scenario.keyed "target" Scenario.rename_second.2 "K" = false.
Proof. by vm_compute. Qed.

(** Merged routes do not survive the owner's next reconcile: after mesh m1 and
    m2 reconcile a node they share, the node's single peer carries both meshes'
    routes; a further, error-free reconcile of m1 alone removes m2's route. *)
Theorem ReconcilePeers_merge_overwritten :
  let w1 := Scenario.shared_m1 Scenario.start in
  let w2 := Scenario.shared_m2 w1.2 in
  let w3 := Scenario.shared_m1 w2.2 in
  w1.1 = [] /\ w2.1 = [] /\ w3.1 = [] /\
  Scenario.routed "target" w2.2 "K" "10.9.0.0/16" = true /\
  Scenario.routed "target" w3.2 "K" "10.9.0.0/16" = false.
Proof. by vm_compute. Qed.

(** ** Concrete instances *)

Module Witness.
Import Scenario.

Lemma start_ok : world_ok (C := string) start.
Proof.
  constructor.
  - intros c x p H. unfold Memory.objects, start in H. simpl in H. by rewrite lookup_empty in H.
  - intros c p H. by apply not_elem_of_nil in H.
  - intros c c' p q H. by apply not_elem_of_nil in H.
Qed.

(** One reconciled peer of (mesh, a). *)
Definition n1 : Peer := peer_of "mesh" "a" "n1" "K" ["10.0.1.0/24"].
Definition n2 : Peer := peer_of "mesh" "a" "n2" "K2" ["10.0.2.0/24"; "10.0.3.0/24"].

Lemma first_ok : world_ok (C := string) rename_first.2.
Proof. destruct (ReconcilePeers_touches "target" "mesh" "a" [n1] start start_ok) as (N & F & _). by eapply fr_ok. Qed.

Lemma first_peers : peers "target" rename_first.2 = {[ "mesh--a--n1" := with_ResourceVersion n1 "1" ]}.
Proof. vm_compute. reflexivity. Qed.

(** A peer somebody created by hand. *)
Definition manual : Peer := mkPeer "laptop" ∅ "" (mkPeerSpec ["10.99.0.1/32"] None 0 "" "K").
Definition with_manual : Memory.world := (Create "target" manual start).2.

Lemma manual_ok : world_ok (C := string) with_manual.
Proof. apply Create_ok, start_ok. Qed.

End Witness.

Lemma ReconcilePeers_converges_witness :
  (exists q, peers "target" (ReconcilePeers "target" "mesh" "a" [Witness.n2] Scenario.rename_first.2).2 !! "mesh--a--n2" = Some q /\
     spec_equiv (peer_Spec q) (peer_Spec Witness.n2)) /\
  peers "target" (ReconcilePeers "target" "mesh" "a" [Witness.n2] Scenario.rename_first.2).2 !! "mesh--a--n1" = None.
Proof.
  destruct (ReconcilePeers_converges "target" "mesh" "a" [Witness.n2] Scenario.rename_first.2) as [H1 H2].
  - exact Witness.first_ok.
  - exact I.
  - apply (bool_decide_unpack (NoDup (peer_Name <$> [Witness.n2]))). reflexivity.
  - intros d ->%list_elem_of_singleton. reflexivity.
  - intros d y p ->%list_elem_of_singleton. rewrite Witness.first_peers. intros [<- <-]%lookup_singleton_Some. discriminate.
  - vm_compute. reflexivity.
  - split.
    + destruct (H1 Witness.n2 ltac:(left)) as (q & Hq & He & _). exists q. split; [exact Hq|exact He].
    + rewrite H2; [|apply (bool_decide_unpack (~ "mesh--a--n1" ∈ (peer_Name <$> [Witness.n2]))); reflexivity].
      rewrite Witness.first_peers. reflexivity.
Defined.

Lemma ReconcilePeers_foreign_safe_witness :
  exists cur', peers "target" (ReconcilePeers "target" "mesh" "a" [Witness.n1] Witness.with_manual).2 !! "laptop" = Some cur' /\
    kept (with_ResourceVersion Witness.manual "1") cur'.
Proof.
  apply (ReconcilePeers_foreign_safe "target" "mesh" "a" [Witness.n1] Witness.with_manual "laptop").
  - exact Witness.manual_ok.
  - vm_compute. reflexivity.
  - apply (bool_decide_unpack (~ "laptop" ∈ (peer_Name <$> [Witness.n1]))). reflexivity.
  - intros p Hp _. apply list_elem_of_singleton in Hp. injection Hp as ->. reflexivity.
Defined.

Lemma ReconcilePeers_stable_witness :
  (ReconcilePeers "target" "mesh" "a" [Witness.n1] Scenario.rename_first.2).1 = [] /\
  peers "target" (ReconcilePeers "target" "mesh" "a" [Witness.n1] Scenario.rename_first.2).2 = peers "target" Scenario.rename_first.2.
Proof.
  destruct (ReconcilePeers_stable "target" "mesh" "a" [Witness.n1] Scenario.rename_first.2
    [with_ResourceVersion Witness.n1 "1"] Scenario.rename_first.2
    [with_ResourceVersion Witness.n1 "1"] Scenario.rename_first.2) as [H1 H2].
  - exact Witness.first_ok.
  - exact I.
  - apply (bool_decide_unpack (NoDup (peer_Name <$> [Witness.n1]))). reflexivity.
  - vm_compute. reflexivity.
  - vm_compute. reflexivity.
  - intros d ->%list_elem_of_singleton. rewrite Witness.first_peers. exists (with_ResourceVersion Witness.n1 "1").
    split; [reflexivity|]. split; [reflexivity|reflexivity].
  - intros y p. rewrite Witness.first_peers. intros [<- <-]%lookup_singleton_Some _.
    apply (bool_decide_unpack ("mesh--a--n1" ∈ (peer_Name <$> [Witness.n1]))). reflexivity.
  - split; [exact H1|exact (H2 "target")].
Defined.

Lemma DeleteStaleSourceClusters_exact_witness :
  peers "target" (DeleteStaleSourceClusters "target" "mesh" ["b"] Scenario.rename_first.2).2 !! "mesh--a--n1" = None.
Proof.
  rewrite (DeleteStaleSourceClusters_exact "target" "mesh" ["b"] Scenario.rename_first.2).
  - rewrite Witness.first_peers. reflexivity.
  - exact Witness.first_ok.
  - exact I.
  - vm_compute. reflexivity.
Defined.
