(* ===== verification/Rename.v ===== *)
(** * Renamed nodes

    What [ReconcilePeers] does with a node that comes back under another name with
    the same key: the old peer is both the canonical peer of the key, which the new
    one is merged into, and an orphan, which is deleted. *)

From Stdlib Require Import String.
From S2P Require Import Prelude GoStrings Types Naming Kube PeerReconciler.
Open Scope Z_scope.
Open Scope go_scope.

Abbreviation key_of p := (spec_PublicKey (peer_Spec p)).

Section Rename.
Context {C W : Type} {api : PeerAPI C W} {laws : PeerAPILaws C W}.
Context (c : C) (K x : string).

(** On the cluster, only the peer [x] has the key [K]. *)
Definition sole (w : W) : Prop := forall y p, peers c w !! y = Some p -> key_of p = K -> y = x.

Lemma sole_same w w' : peers c w' = peers c w -> sole w -> sole w'.
Proof. intros E H y p. rewrite E. apply H. Qed.

Lemma sole_insert w w' y q p :
  (key_of p = K -> y = x) -> stored q p -> peers c w' = <[y := q]> (peers c w) -> sole w -> sole w'.
Proof.
  intros Hp [E _]%stored_spec Ew H z r. rewrite Ew, lookup_insert_Some. intros [[<- <-]|[_ Hz]].
  - rewrite E. done.
  - by apply H.
Qed.

Lemma sole_Update p w :
  world_ok w -> seen c w p -> forall s, (spec_PublicKey s = K -> peer_Name p = x) ->
  sole w -> sole (Update c (with_Spec p s) w).2.
Proof.
  intros Hok Hp s Hs H. destruct (Update_changes c (with_Spec p s) w Hok) as [E|(cur & q & _ & _ & Hq & E)].
  - exact (seen_versioned c w p Hok Hp).
  - by eapply sole_same.
  - eapply sole_insert; [|exact Hq|exact E|done]. exact Hs.
Qed.

(** A merge leaves the key of the canonical peer as it is. *)
Lemma sole_merge can ips name w :
  world_ok w -> seen c w can -> (key_of can = K -> peer_Name can = x) -> sole w ->
  sole (mergeIntoCanonical c can ips name w).2.
Proof.
  intros Hok Hseen Hcan H. unfold mergeIntoCanonical. destruct (allowedIPsEqual _ _); [done|].
  set (up := with_AllowedIPs can _). st_run.
  assert (HU : sole (Update c up w).2).
  { destruct (Update_changes c up w Hok) as [E|(cur & q & _ & _ & Hq & E)].
    - exact (seen_versioned c w can Hok Hseen).
    - by eapply sole_same.
    - eapply sole_insert; [|exact Hq|exact E|done]. exact Hcan. }
  by destruct (Update c up w) as [[u|er] w'].
Qed.

Lemma sole_create name d w :
  world_ok w -> key_of d <> K -> sole w -> sole (createPeer c name d w).2.
Proof.
  intros Hok Hd H. unfold createPeer. st_run.
  assert (HI : forall w' q, stored q d -> peers c w' = <[peer_Name d := q]> (peers c w) -> sole w').
  { intros w' q Hq E. by apply (sole_insert w w' (peer_Name d) q d). }
  destruct (Create c d w) as [[u|er] w'] eqn:E; cbn [fst snd]; rewrite st_ret_run.
  - apply Create_Ok in E as (_ & q & Hq & E); [|done]. by eapply HI.
  - apply Create_Err in E as [E|(_ & q & Hq & E)]; [by eapply sole_same|by eapply HI|done].
Qed.

(** The entries the loop works on let nothing but a merge happen to [K]. *)
Record guarded (existing allBy : gmap string Peer) (y : string) (d : Peer) : Prop := {
  gd_existing : forall e, existing !! y = Some e -> key_of d <> K;
  gd_canonical : forall k can, allBy !! k = Some can -> key_of can = K -> peer_Name can = x;
  gd_merged : key_of d = K -> y <> x /\ is_Some (allBy !! K);
  gd_key : forall k can, allBy !! k = Some can -> key_of can = k;
}.

Lemma sole_reconcileOne existing allBy desired y d w :
  world_ok w -> inputs_ok c w desired existing allBy -> guarded existing allBy y d ->
  sole w -> sole (reconcileOne c existing allBy (y, d) w).2.
Proof.
  intros Hok [_ Hex Hall] [G1 G2 G3 G4] H. unfold reconcileOne. destruct (existing !! y) as [e|] eqn:Ee.
  - destruct (peerSpecEqual _ _); [done|]. destruct (Hex y e Ee) as [_ Hs]. st_run.
    pose proof (sole_Update e w Hok Hs (peer_Spec d)) as HU.
    assert (HU' : sole (Update c (with_Spec e (peer_Spec d)) w).2) by (apply HU; [intros E; by destruct (G1 e eq_refl)|done]).
    by destruct (Update c _ w) as [[u|er] w'].
  - unfold createOrMerge. destruct (decide (key_of d = K)) as [E|E].
    + destruct (G3 E) as [Hy [can Hcan]]. rewrite E, Hcan.
      assert (Hn : peer_Name can = x) by (eapply G2; [done|by eapply G4]).
      rewrite decide_True by congruence. by apply sole_merge; [|by eapply Hall|..].
    + destruct (allBy !! key_of d) as [can|] eqn:Ea; [|by apply sole_create].
      case_decide; [|by apply sole_create]. apply sole_merge; [done|by eapply Hall|by eapply G2|done].
Qed.

Lemma sole_reconcileDesired desired existing allBy w :
  world_ok w -> inputs_ok c w desired existing allBy ->
  (forall y d, desired !! y = Some d -> guarded existing allBy y d) ->
  sole w -> sole (reconcileDesired c desired existing allBy w).2.
Proof.
  intros Hok Hin HG H. unfold reconcileDesired. st_run. set (N := dom desired).
  pose proof (range_framed c N desired w Hok) as FR.
  enough (HI : framed c N w (st_collect (reconcileOne c existing allBy) (range desired w).1 (range desired w).2).2 /\
    sole (st_collect (reconcileOne c existing allBy) (range desired w).1 (range desired w).2).2) by apply HI.
  apply (st_collect_inv (fun w1 => framed c N w w1 /\ sole w1)).
  - intros [y d] w1 Hy%range_elem [F1 H1]. assert (Hok1 : world_ok w1) by by eapply fr_ok.
    pose proof (inputs_ok_later _ _ _ _ _ _ _ F1 Hin) as Hin1. split.
    + eapply framed_trans; [done|]. eapply reconcileOne_framed; [done|done|done|]. by eapply elem_of_dom_2.
    + eapply sole_reconcileOne; eauto.
  - split; [done|]. eapply sole_same; [apply range_peers|done].
Qed.

End Rename.

Section Result.
Context {C W : Type} {api : PeerAPI C W} {laws : PeerAPILaws C W}.

(** What a successful run with current reads goes through: the maps, the writes that
    lead to [w3], and the deletions. *)
Record phases (c : C) (mesh src : string) (desired : list Peer) (w w' : W)
    (desiredByName existing allBy : gmap string Peer) (w2 w3 : W) : Prop := {
  ph_inputs : inputs_ok c w2 desiredByName existing allBy;
  ph_ok2 : world_ok w2;
  ph_peers2 : peers c w2 = peers c w;
  ph_desired : forall y d, desiredByName !! y = Some d <-> d ∈ desired /\ peer_Name d = y;
  ph_existing : forall y e, existing !! y = Some e <-> peers c w !! y = Some e /\ OrphanSelector mesh src (peer_Labels e) = true;
  ph_canonical : forall k can, allBy !! k = Some can -> peers c w !! peer_Name can = Some can /\ key_of can = k;
  ph_keys : forall y p, peers c w !! y = Some p -> is_Some (allBy !! key_of p);
  ph_writes : reconcileDesired c desiredByName existing allBy w2 = ([], w3);
  ph_ok : world_ok w';
  ph_deletes : forall y, peers c w' !! y =
    if decide (is_Some (existing !! y) /\ desiredByName !! y = None) then None else peers c w3 !! y;
}.

Lemma ReconcilePeers_phases c mesh src desired w :
  world_ok w -> synced c w -> NoDup (peer_Name <$> desired) ->
  (ReconcilePeers c mesh src desired w).1 = [] ->
  exists dm em am w2 w3, phases c mesh src desired w (ReconcilePeers c mesh src desired w).2 dm em am w2 w3.
Proof.
  intros Hok Hsy Hnd He. rewrite ReconcilePeers_run in He |- *.
  destruct (List c everything w) as [[items|e] w1] eqn:E1; [|done].
  pose proof (List_peers c everything w c) as Hp1. rewrite E1 in Hp1. simpl in Hp1.
  pose proof (List_synced c everything w items w1 Hok Hsy E1) as [Hsy1 Hitems].
  destruct (List c (OrphanSelector mesh src) w1) as [[existing|e] w2] eqn:E2; [|done].
  destruct (listed_inputs_ok c w _ _ _ _ _ desired Hok E1 E2) as (Hin & Hok2 & Hex).
  pose proof (List_peers c (OrphanSelector mesh src) w1 c) as Hp2. rewrite E2 in Hp2. simpl in Hp2.
  assert (Hok1 : world_ok w1) by (pose proof (List_ok c everything w Hok) as Ho; by rewrite E1 in Ho).
  pose proof (List_synced c _ w1 existing w2 Hok1 Hsy1 E2) as [_ Hexisting]. rewrite Hp1 in Hexisting.
  assert (Hok3 : world_ok (reconcileDesired c (buildDesiredMap desired) (buildExistingMap existing)
    (foldl recordByPublicKey ∅ items) w2).2).
  { eapply (fr_ok c (dom (buildDesiredMap desired)) w2), reconcileDesired_framed; [done..|]. intros y Hy. by apply elem_of_dom. }
  exists (buildDesiredMap desired), (buildExistingMap existing), (foldl recordByPublicKey ∅ items), w2.
  destruct (reconcileDesired _ _ _ _ w2) as [errs1 w3] eqn:ER. exists w3. cbn [snd] in Hok3.
  pose proof (deleteOrphans_deletes c w3 (buildDesiredMap desired) (buildExistingMap existing) Hok3) as HDel.
  destruct (deleteOrphans _ _ _ w3) as [errs2 w4]. cbn [fst snd] in *. apply app_eq_nil in He as [-> ->].
  destruct HDel as [Hok4 HDel]; [intros y e Hy; by apply Hex|done|].
  assert (HA := recordByPublicKey_all items). constructor; try done.
  - by rewrite Hp2.
  - intros y d. by apply desired_map.
  - intros y e. apply existing_map; [done|exact (List_NoDup c _ w1 existing w2 Hok1 E2)|done].
  - intros k can Hcan. specialize (HA k). rewrite Hcan in HA. destruct HA as ([Hc _]%Hitems & Hk & _). done.
  - intros y p Hp. specialize (HA (key_of p)). destruct (foldl _ _ _ !! key_of p); [done|].
    destruct (HA p); [|done]. apply Hitems. by rewrite (peers_name c w y p).
Qed.

(** A run creates no second peer with the key [K] of [x], when the desired peers with
    this key are new and can be merged into [x]. *)
Lemma phases_sole c mesh src desired w w' dm em am w2 w3 K x :
  phases c mesh src desired w w' dm em am w2 w3 -> sole c K x w ->
  (forall d, d ∈ desired -> key_of d = K -> peers c w !! peer_Name d = None /\ peer_Name d <> x /\
     exists old, peers c w !! x = Some old /\ key_of old = K) ->
  sole c K x w'.
Proof.
  intros [Pi Po2 P2 Pd Pe Pc Pk Pw _ Px] HS HK. assert (H3 : sole c K x w3).
  { pose proof (sole_reconcileDesired c K x dm em am w2 Po2 Pi) as H. rewrite Pw in H. apply H.
    - intros y d [Hd <-]%Pd. constructor.
      + intros e [He _]%Pe E. destruct (HK d Hd E) as [? _]. congruence.
      + intros k can [Hc _]%Pc. by apply HS.
      + intros E. destruct (HK d Hd E) as (_ & ? & old & Ho & <-). split; [done|]. by eapply Pk.
      + intros k can [_ ?]%Pc. done.
    - by apply (sole_same c K x w). }
  intros y p. rewrite Px. case_decide; [done|]. apply H3.
Qed.

(** C36. A renamed node loses its peer. Let the key of a desired peer [d], whose name
    is free on the cluster, be stored there under one other name, [x], which belongs
    to the same mesh and source and is not desired any more. If [ReconcilePeers],
    whose reads are current, reports success, then no peer of the cluster has the key:
    the routes of [d] were merged into [x], and [x] was deleted as an orphan. The key
    condition of [ReconcilePeers_converges] is needed. *)
Theorem rename_drops_key c mesh src desired d x old (w : W) :
  world_ok w -> synced c w -> NoDup (peer_Name <$> desired) ->
  d ∈ desired -> peers c w !! peer_Name d = None ->
  (forall d', d' ∈ desired -> key_of d' = key_of d -> d' = d) ->
  peers c w !! x = Some old -> key_of old = key_of d ->
  OrphanSelector mesh src (peer_Labels old) = true -> x ∉ (peer_Name <$> desired) ->
  (forall y p, peers c w !! y = Some p -> key_of p = key_of d -> y = x) ->
  (ReconcilePeers c mesh src desired w).1 = [] ->
  forall y p, peers c (ReconcilePeers c mesh src desired w).2 !! y = Some p -> key_of p <> key_of d.
Proof.
  intros Hok Hsy Hnd Hd Hfree Huniq Hx Hkey Hsel Hnot Hsole He y p Hp E.
  destruct (ReconcilePeers_phases c mesh src desired w Hok Hsy Hnd He) as (dm & em & am & w2 & w3 & HP).
  assert (y = x) as ->.
  { eapply (phases_sole _ _ _ _ _ _ _ _ _ _ _ (key_of d) x HP); [done| |exact Hp|done]. intros d' Hd' Ek.
    rewrite (Huniq d' Hd' Ek). split; [done|]. split; [|by exists old]. intros <-. by apply Hnot, list_elem_of_fmap_2. }
  destruct HP as [_ _ _ Pd Pe _ _ _ _ Px]. rewrite Px, decide_True in Hp; [done|]. split; [exists old; by apply Pe|].
  destruct (dm !! x) as [d'|] eqn:Ed; [|done]. apply Pd in Ed as [Hd' <-]. exfalso. by apply Hnot, list_elem_of_fmap_2.
Qed.

End Result.

(** Node n1 of cluster a comes back as n2. *)
Lemma rename_drops_key_witness :
  Scenario.rename_second.1 = [] /\
  forall y p, peers "target" Scenario.rename_second.2 !! y = Some p -> spec_PublicKey (peer_Spec p) <> "K".
Proof.
  split; [vm_compute; reflexivity|].
  apply (rename_drops_key "target" "mesh" "a" [Scenario.peer_of "mesh" "a" "n2" "K" ["10.0.1.0/24"]]
    (Scenario.peer_of "mesh" "a" "n2" "K" ["10.0.1.0/24"]) "mesh--a--n1" (with_ResourceVersion Witness.n1 "1") Scenario.rename_first.2).
  - exact Witness.first_ok.
  - exact I.
  - apply (bool_decide_unpack (NoDup (peer_Name <$> [Scenario.peer_of "mesh" "a" "n2" "K" ["10.0.1.0/24"]]))). vm_compute. reflexivity.
  - left.
  - vm_compute. reflexivity.
  - intros d' ->%list_elem_of_singleton _. reflexivity.
  - vm_compute. reflexivity.
  - reflexivity.
  - vm_compute. reflexivity.
  - apply (bool_decide_unpack (~ "mesh--a--n1" ∈ (peer_Name <$> [Scenario.peer_of "mesh" "a" "n2" "K" ["10.0.1.0/24"]]))). vm_compute. reflexivity.
  - intros y p. rewrite Witness.first_peers. intros [<- <-]%lookup_singleton_Some _. reflexivity.
  - vm_compute. reflexivity.
Defined.
