(* ===== verification/SharedKey.v ===== *)
(** * Two owners of one key

    A node that two meshes list is wanted twice on a target cluster, under two names
    and with the same key. [ReconcilePeers] merges the routes of the second peer into
    the first; the next reconcile of the first owner takes them out again. *)

From Stdlib Require Import String.
From S2P Require Import Prelude GoStrings Types Naming Kube PeerReconciler Rename.
Open Scope Z_scope.
Open Scope go_scope.

Abbreviation ips_of p := (spec_AllowedIPs (peer_Spec p)).

(** A loop without errors that keeps [P] and [Q], and establishes [Q] at [x]. *)
Lemma st_collect_visits {W A B} (P Q : W -> Prop) (f : A -> ST W (list B)) x l w :
  x ∈ l -> (forall y w1, y ∈ l -> P w1 -> P (f y w1).2) ->
  (forall w1, P w1 -> (f x w1).1 = [] -> Q (f x w1).2) ->
  (forall y w1, y ∈ l -> P w1 -> Q w1 -> Q (f y w1).2) ->
  P w -> (st_collect f l w).1 = [] -> Q (st_collect f l w).2.
Proof.
  intros Hx HP Hf HQ.
  assert (HQ' : forall l' w1, l' ⊆ l -> P w1 -> Q w1 -> Q (st_collect f l' w1).2).
  { intros l' w1 Hl H1 H2. apply (st_collect_inv (fun w2 => P w2 /\ Q w2)); [|done].
    intros y w2 Hy [? ?]. auto. }
  assert (Hgen : forall l' w1, l' ⊆ l -> x ∈ l' -> P w1 -> (st_collect f l' w1).1 = [] -> Q (st_collect f l' w1).2); [|by apply Hgen].
  induction l' as [|y l' IH]; intros w1 Hl Hin H1; [by apply not_elem_of_nil in Hin|]. cbn [st_collect].
  rewrite !st_bind_run, st_ret_run. cbn [fst snd]. intros [E1 E2]%app_eq_nil.
  assert (Hy : y ∈ l) by (apply Hl; left). assert (Hl' : l' ⊆ l) by (intros z Hz; apply Hl; by right).
  apply elem_of_cons in Hin as [<-|Hin]; [apply HQ'; auto|apply IH; auto].
Qed.

Lemma kept_spec cur cur' : kept cur cur' ->
  peer_Labels cur' = peer_Labels cur /\ key_of cur' = key_of cur /\ ips_of cur ⊆ ips_of cur'.
Proof. intros [[Hs Hl]%stored_spec Hi]. rewrite Hs, Hl. done. Qed.

Section SharedKey.
Context {C W : Type} {api : PeerAPI C W} {laws : PeerAPILaws C W}.
Context (c : C) (mesh1 src1 : string) (desired1 : list Peer) (d1 : Peer).
Context (mesh2 src2 : string) (desired2 : list Peer) (d2 : Peer).

Abbreviation reconcile1 := (ReconcilePeers c mesh1 src1 desired1).
Abbreviation reconcile2 := (ReconcilePeers c mesh2 src2 desired2).

(** [d1] of the first owner and [d2] of the second have the same key, and nothing
    else brings the two together. *)
Record sharing : Prop := {
  sh_names1 : NoDup (peer_Name <$> desired1);
  sh_names2 : NoDup (peer_Name <$> desired2);
  sh_in1 : d1 ∈ desired1;
  sh_in2 : d2 ∈ desired2;
  sh_key : key_of d2 = key_of d1;
  sh_labels1 : forall d, d ∈ desired1 -> OrphanSelector mesh1 src1 (peer_Labels d) = true;
  sh_keys1 : forall d d', d ∈ desired1 -> d' ∈ desired1 -> key_of d = key_of d' -> d = d';
  sh_only : forall d d', d ∈ desired1 -> d' ∈ desired2 -> key_of d' = key_of d -> d = d1 /\ d' = d2;
  sh_apart : forall d d', d ∈ desired1 -> d' ∈ desired2 -> peer_Name d <> peer_Name d';
  sh_pairs : (mesh1, src1) <> (mesh2, src2);
}.

(** The first owner holds the key on the cluster. *)
Record contended (w : W) : Prop := {
  ct_ok : world_ok w;
  ct_held : exists p, peers c w !! peer_Name d1 = Some p /\ key_of p = key_of d1 /\
    OrphanSelector mesh1 src1 (peer_Labels p) = true;
  ct_free : peers c w !! peer_Name d2 = None;
  ct_keys : forall d, d ∈ desired1 -> sole c (key_of d) (peer_Name d) w;
}.

(** Some peer with the key of the two allows the address. *)
Definition routed (ip : string) (w : W) : Prop :=
  exists y p, peers c w !! y = Some p /\ key_of p = key_of d1 /\ ip ∈ ips_of p.

Lemma selected_once m s m' s' l : OrphanSelector m s l = true -> OrphanSelector m' s' l = true -> (m, s) = (m', s').
Proof. intros [H1 H2]%bool_decide_eq_true [H3 H4]%bool_decide_eq_true. congruence. Qed.

(** A merge that succeeds leaves the canonical peer with the new addresses. *)
Lemma merge_grows can cur ips name w :
  world_ok w -> seen c w can -> peers c w !! peer_Name can = Some cur -> kept can cur ->
  (mergeIntoCanonical c can ips name w).1 = [] ->
  exists p, peers c (mergeIntoCanonical c can ips name w).2 !! peer_Name can = Some p /\ ips ⊆ ips_of p.
Proof.
  intros Hok Hs Hc (_ & _ & Hk)%kept_spec. unfold mergeIntoCanonical. destruct (allowedIPsEqual _ _) eqn:E.
  - intros _. exists cur. split; [done|]. apply allowedIPsEqual_perm in E. intros ip Hip. apply Hk.
    rewrite <- E. apply mergeAllowedIPs_elem. by right.
  - set (up := with_AllowedIPs can _). rewrite st_bind_run. destruct (Update c up w) as [[u|er] w'] eqn:EU; [|done].
    intros _. st_run.
    apply Update_Ok in EU as (cur' & q & _ & _ & [Hq _]%stored_spec & ->); [|done|exact (seen_versioned c w can Hok Hs)].
    exists q. split; [by rewrite lookup_insert_eq|]. rewrite Hq. intros ip Hip. apply mergeAllowedIPs_elem. by right.
Qed.

Context (HS : sharing).

(** What the writes of the second owner do: the peer [d2] is merged, no peer of its
    name appears, and the one of [d1] is kept. *)
Lemma second_writes w dm em am w2 w3 w' :
  contended w -> phases c mesh2 src2 desired2 w w' dm em am w2 w3 ->
  framed c (dom dm ∖ {[peer_Name d2]}) w2 w3 /\
  exists p, peers c w3 !! peer_Name d1 = Some p /\ ips_of d2 ⊆ ips_of p.
Proof.
  intros [Hok (old & Ho & Hk & Hl) Hf Hkeys] [Pi Po2 P2 Pd Pe Pc Pk Pw _ _].
  set (n := peer_Name d2) in *. set (N := dom dm ∖ {[n]}).
  destruct (Pk _ old Ho) as [can Hcan]. rewrite Hk, <- (sh_key HS) in Hcan.
  destruct (Pc _ _ Hcan) as [Hc1 Hc2]. assert (Hcn : peer_Name can = peer_Name d1).
  { eapply (Hkeys d1 (sh_in1 HS)); [exact Hc1|]. by rewrite Hc2, (sh_key HS). }
  rewrite Hcn, Ho in Hc1. injection Hc1 as <-.
  assert (Hstep : forall w1, reconcileOne c em am (n, d2) w1 = mergeIntoCanonical c old (ips_of d2) n w1).
  { intros w1. unfold reconcileOne, createOrMerge. destruct (em !! n) as [e|] eqn:Ee; [apply Pe in Ee as [? _]; congruence|].
    rewrite Hcan, decide_True; [done|]. rewrite Hcn. apply (sh_apart HS); apply HS. }
  assert (Hd2 : dm !! n = Some d2) by (apply Pd; split; [apply HS|done]).
  assert (Hx : peer_Name d1 ∉ N).
  { intros [[d Hd]%elem_of_dom _]%elem_of_difference. apply Pd in Hd as [Hd Hn].
    by apply (sh_apart HS d1 d (sh_in1 HS) Hd). }
  assert (HF : forall y d w1, (y, d) ∈ (range dm w2).1 -> framed c N w2 w1 -> framed c N w1 (reconcileOne c em am (y, d) w1).2).
  { intros y d w1 Hy%range_elem F1. pose proof (inputs_ok_later _ _ _ _ _ _ _ F1 Pi) as Pi1.
    assert (Hok1 : world_ok w1) by by eapply fr_ok. destruct (decide (y = n)) as [->|Hne].
    - rewrite Hd2 in Hy. injection Hy as <-. rewrite Hstep.
      apply mergeIntoCanonical_framed; [done|by eapply in_all].
    - eapply reconcileOne_framed; [done|done|done|]. apply elem_of_difference. split; [by eapply elem_of_dom_2|by intros ?%elem_of_singleton]. }
  unfold reconcileDesired in Pw. rewrite st_bind_run in Pw. set (kvs := (range dm w2).1) in *.
  pose proof (range_framed c N dm w2 Po2) as FR. set (w2' := (range dm w2).2) in *.
  assert (HP : forall kv w1, kv ∈ kvs -> framed c N w2 w1 -> framed c N w2 (reconcileOne c em am kv w1).2).
  { intros [y d] w1 Hy F1. eapply framed_trans; [exact F1|by apply HF]. }
  assert (E : (st_collect (reconcileOne c em am) kvs w2').1 = []) by by rewrite Pw.
  assert (E3 : (st_collect (reconcileOne c em am) kvs w2').2 = w3) by by rewrite Pw.
  rewrite <- E3. split; [by apply (st_collect_inv (framed c N w2))|].
  apply (st_collect_visits (framed c N w2) (fun w1 => exists p, peers c w1 !! peer_Name d1 = Some p /\ ips_of d2 ⊆ ips_of p) _ (n, d2)); [by apply range_elem|done| | |done|done].
  - intros w1 F1. rewrite Hstep. destruct (fr_kept _ _ _ _ F1 (peer_Name d1) old) as (cur & Hcur & Hkept); [by rewrite P2|done|].
    rewrite <- Hcn. apply (merge_grows old cur); [by eapply fr_ok| |by rewrite Hcn|done].
    eapply fr_seen; [exact F1|]. by eapply in_all.
  - intros [y d] w1 Hy F1 (p & Hp & Hips).
    destruct (fr_kept _ _ _ _ (HF y d w1 Hy F1) _ _ Hp Hx) as (p' & Hp' & (_ & _ & ?)%kept_spec). exists p'. split; [done|by etrans].
Qed.

(** The second owner's turn: its routes are merged into the first one's peer. *)
Lemma second_merges w :
  contended w -> synced c w -> (reconcile2 w).1 = [] ->
  contended (reconcile2 w).2 /\ forall ip, ip ∈ ips_of d2 -> routed ip (reconcile2 w).2.
Proof.
  intros [Hok (old & Ho & Hk & Hl) Hf Hkeys] Hsy He.
  destruct (ReconcilePeers_phases c mesh2 src2 desired2 w Hok Hsy (sh_names2 HS) He) as (dm & em & am & w2 & w3 & HP).
  set (w' := (reconcile2 w).2) in *. set (x := peer_Name d1) in *. set (n := peer_Name d2) in *.
  assert (Hsole : forall d, d ∈ desired1 -> sole c (key_of d) (peer_Name d) w').
  { intros d Hd. eapply phases_sole; [exact HP|by apply Hkeys|]. intros d' Hd' E.
    destruct (sh_only HS d d' Hd Hd' E) as [-> ->]. split; [done|]. split; [|by exists old].
    intros E'. by apply (sh_apart HS d1 d2). }
  destruct (second_writes w dm em am w2 w3 w') as (HF & p & Hp & Hips); [by constructor; [|exists old|..]|done|].
  fold x n in Hp, HF.
  destruct HP as [_ _ P2 Pd Pe _ _ _ Pok Px]. assert (Hx : peers c w' !! x = Some p).
  { rewrite Px, decide_False; [done|]. intros [[e [Hold Hs]%Pe] _]. rewrite Ho in Hold. injection Hold as <-.
    by apply (sh_pairs HS), (selected_once _ _ _ _ (peer_Labels old)). }
  assert (Hnm : x ∉ dom dm ∖ {[n]}).
  { intros [[d Hd]%elem_of_dom _]%elem_of_difference. apply Pd in Hd as [Hd Hn].
    by apply (sh_apart HS d1 d (sh_in1 HS) Hd). }
  destruct (fr_kept _ _ _ _ HF x old) as (q & Hq & (Hql & Hqk & _)%kept_spec); [by rewrite P2|done|].
  rewrite Hp in Hq. injection Hq as <-. split; [constructor|].
  - done.
  - exists p. by rewrite Hqk, Hql.
  - rewrite Px. case_decide; [done|]. apply (fr_absent _ _ _ _ HF); [set_solver|by rewrite P2].
  - done.
  - intros ip Hip. exists x, p. split; [done|]. split; [congruence|by apply Hips].
Qed.


(** The first owner's turn: its peer is as it wants it. *)
Lemma first_overwrites w :
  contended w -> synced c w -> (reconcile1 w).1 = [] ->
  contended (reconcile1 w).2 /\ forall ip, routed ip (reconcile1 w).2 <-> ip ∈ ips_of d1.
Proof.
  intros [Hok (old & Ho & Hk & Hl) Hf Hkeys] Hsy He.
  destruct (ReconcilePeers_converges_aux c mesh1 src1 desired1 w Hok Hsy (sh_names1 HS) (sh_labels1 HS)) as [A1 A2]; [|done|].
  { intros d y p Hd Hp E. by eapply Hkeys. }
  assert (Hn1 : peer_Name d2 ∉ (peer_Name <$> desired1)).
  { intros (d & E & Hd)%list_elem_of_fmap. by apply (sh_apart HS d d2 Hd (sh_in2 HS)). }
  assert (HK : forall d, d ∈ desired1 -> sole c (key_of d) (peer_Name d) (reconcile1 w).2).
  { intros d Hd y p Hp E. destruct (decide (y ∈ (peer_Name <$> desired1))) as [(d' & -> & Hd')%list_elem_of_fmap|Hy].
    - destruct (A1 d' Hd') as (q & Hq & Heq & _). rewrite Hq in Hp. injection Hp as ->.
      f_equal. apply (sh_keys1 HS); [done..|]. by rewrite <- (se_key _ _ Heq).
    - rewrite A2 in Hp by done. destruct (peers c w !! y) as [p'|] eqn:Ey; [|done].
      destruct (OrphanSelector _ _ (peer_Labels p')); [done|]. injection Hp as ->. by eapply Hkeys. }
  destruct (A1 d1 (sh_in1 HS)) as (q & Hq & Heq & Hql).
  destruct (ReconcilePeers_touches c mesh1 src1 desired1 w Hok) as (N & HF & _). split; [constructor|].
  - by eapply fr_ok.
  - exists q. split; [done|]. split; [by apply se_key|done].
  - rewrite A2 by done. by rewrite Hf.
  - done.
  - intros ip. split.
    + intros (y & p & Hp & E & Hip). rewrite (HK d1 (sh_in1 HS) y p Hp E) in Hp. rewrite Hq in Hp. injection Hp as <-.
      by rewrite <- (se_ips _ _ Heq).
    + intros Hip. exists (peer_Name d1), q. split; [done|]. split; [by apply se_key|]. by rewrite (se_ips _ _ Heq).
Qed.

(** C37. The routes of a shared key flap. Let two owners (mesh, source) want a peer
    with the same key on one cluster, under different names, and let the first hold
    the key there. Then a successful [ReconcilePeers] of the second leads the routes
    of its peer to that node, and the next successful one of the first takes them away
    again: only its own are left. What both started from is restored, so this goes on
    for ever, and no run reports an error. *)
Theorem merged_routes_flap w :
  contended w -> synced c w -> (reconcile2 w).1 = [] ->
  let w1 := (reconcile2 w).2 in
  synced c w1 -> (reconcile1 w1).1 = [] ->
  let w2 := (reconcile1 w1).2 in
  (forall ip, ip ∈ ips_of d2 -> routed ip w1) /\
  (forall ip, routed ip w2 <-> ip ∈ ips_of d1) /\ contended w2.
Proof.
  intros Hw Hsy E1 w1 Hsy1 E2 w2. destruct (second_merges w Hw Hsy E1) as [H1 R1].
  by destruct (first_overwrites w1 H1 Hsy1 E2) as [H2 R2].
Qed.

End SharedKey.

(** Meshes m1 and m2 list the same node. *)
Lemma merged_routes_flap_witness :
  let p1 := Scenario.peer_of "m1" "hub" "n" "K" ["10.0.1.0/24"] in
  let p2 := Scenario.peer_of "m2" "hub" "n" "K" ["10.9.0.0/16"] in
  let w0 := (Scenario.shared_m1 Scenario.start).2 in
  let w1 := (Scenario.shared_m2 w0).2 in
  let w2 := (Scenario.shared_m1 w1).2 in
  routed "target" p1 "10.9.0.0/16" w1 /\ ~ routed "target" p1 "10.9.0.0/16" w2.
Proof.
  intros p1 p2 w0 w1 w2.
  destruct (merged_routes_flap "target" "m1" "hub" [p1] p1 "m2" "hub" [p2] p2) with (w := w0) as (H1 & H2 & _).
  - constructor.
    + apply NoDup_singleton.
    + apply NoDup_singleton.
    + left.
    + left.
    + reflexivity.
    + intros d ->%list_elem_of_singleton. vm_compute. reflexivity.
    + intros d d' ->%list_elem_of_singleton ->%list_elem_of_singleton _. reflexivity.
    + intros d d' ->%list_elem_of_singleton ->%list_elem_of_singleton _. split; reflexivity.
    + intros d d' ->%list_elem_of_singleton ->%list_elem_of_singleton. vm_compute. discriminate.
    + discriminate.
  - assert (E : peers "target" w0 = {[ "m1--hub--n" := with_ResourceVersion p1 "1" ]}) by (vm_compute; reflexivity).
    constructor.
    + destruct (ReconcilePeers_touches "target" "m1" "hub" [p1] Scenario.start Witness.start_ok) as (N & F & _). by eapply fr_ok.
    + exists (with_ResourceVersion p1 "1"). split; [vm_compute; reflexivity|]. split; [reflexivity|vm_compute; reflexivity].
    + vm_compute. reflexivity.
    + intros d ->%list_elem_of_singleton y p. rewrite E. intros [<- _]%lookup_singleton_Some _. vm_compute. reflexivity.
  - exact I.
  - vm_compute. reflexivity.
  - exact I.
  - vm_compute. reflexivity.
  - split; [apply H1; left|]. intros H%H2. by apply list_elem_of_singleton in H.
Defined.
