(* ===== verification/Registry.v ===== *)
(** * [internal/multicluster]: the registry of cluster clients

    [registry.go] and [client.go], with [mergeClusterEntries] and
    [buildInitialRegistry] of [cmd/main.go]. The Secret store, the kubeconfig
    parser and the construction of a client are outside the repository and appear
    as the operations of [ClusterAPI]. *)

From Stdlib Require Import String.
From S2P Require Import Prelude Types Kube.
Open Scope Z_scope.
Open Scope go_scope.

(** [Cfg] is [rest.Config], [C] a cluster's client. *)
Class ClusterAPI (Cfg C W : Type) : Type := {
  (* kubeClient.Get of a Secret: its data *)
  GetSecret : string -> string -> ST W (result kube_error (gmap string string));
  (* clientcmd.RESTConfigFromKubeConfig *)
  RESTConfigFromKubeConfig : string -> option Cfg;
  (* cluster.New *)
  NewCluster : Cfg -> ST W (result kube_error C);
}.

Inductive registry_error : Type :=
| GettingSecret (namespace name : string) (cause : kube_error)
| SecretHasNoKey (namespace name key : string)
| ParsingKubeconfig
| NoSecretRef (cluster : string)
| BuildingConfig (cluster : string) (cause : registry_error)
| CreatingCluster (cluster : string) (cause : kube_error).

Record EntrySource : Type := mkEntrySource {
  src_Entry : ClusterEntry;
  src_MeshNamespace : string;
}.

Record ClusterRegistry (C : Type) : Type := mkRegistry {
  reg_clusters : gmap string C;
  reg_local : string;
}.
Arguments mkRegistry {C} _ _.
Arguments reg_clusters {C} _.
Arguments reg_local {C} _.

(** ** Lookups *)

Section Lookups.
Context {C : Type}.

Definition Get (r : ClusterRegistry C) (name : string) : option C := reg_clusters r !! name.
Definition Client (r : ClusterRegistry C) (name : string) : option C :=
  match reg_clusters r !! name with
  | None => None
  | Some c => Some c
  end.
Definition LocalName (r : ClusterRegistry C) : string := reg_local r.
Definition All (r : ClusterRegistry C) : gmap string C := reg_clusters r.

End Lookups.

(** *** Registries of given clients *)

(** [directCluster]: a cluster that is only its client. A method that panics is
    [None]. *)
Record directCluster (K : Type) : Type := mkDirectCluster { dc_client : K }.
Arguments mkDirectCluster {K} _.
Arguments dc_client {K} _.

Definition directGetClient {K} (d : directCluster K) : option K := Some (dc_client d).
Definition directGetConfig {K Cfg} (d : directCluster K) : option Cfg := None.
Definition directGetCache {K Cache} (d : directCluster K) : option Cache := None.
Definition directGetScheme {K Scheme} (d : directCluster K) : option Scheme := None.
Definition directGetFieldIndexer {K Indexer} (d : directCluster K) : option Indexer := None.
Definition directGetAPIReader {K Reader} (d : directCluster K) : option Reader := None.
Definition directGetHTTPClient {K HTTPClient} (d : directCluster K) : option HTTPClient := None.
Definition directGetEventRecorderFor {K Recorder} (d : directCluster K) (name : string) : option Recorder := None.
Definition directGetEventRecorder {K Recorder} (d : directCluster K) (name : string) : option Recorder := None.
Definition directStart {K} (d : directCluster K) : option (result kube_error unit) := Some (Ok tt).

Definition NewFromClients {K} (clients : gmap string K) (local : string) : ClusterRegistry (directCluster K) :=
  mkRegistry (mkDirectCluster <$> clients) local.

Lemma NewFromClients_Client {K} (clients : gmap string K) local name :
  Client (NewFromClients clients local) name ≫= directGetClient = clients !! name.
Proof.
  unfold Client, NewFromClients. cbn [reg_clusters]. rewrite lookup_fmap. by destruct (clients !! name).
Qed.

(** ** Merging the entries of all meshes *)

(** The two loops of [mergeClusterEntries], with the map [seen]. *)
Fixpoint mergeEntries (namespace : string) (seen : gset string) (clusters : list ClusterEntry)
    : gset string * list EntrySource :=
  match clusters with
  | [] => (seen, [])
  | entry :: rest =>
      if decide (entry_Name entry ∈ seen) then mergeEntries namespace seen rest
      else
        let '(seen', out) := mergeEntries namespace ({[entry_Name entry]} ∪ seen) rest in
        (seen', mkEntrySource entry namespace :: out)
  end.

Fixpoint mergeMeshes (seen : gset string) (meshes : list ClusterMesh) : list EntrySource :=
  match meshes with
  | [] => []
  | m :: rest =>
      let '(seen', out) := mergeEntries (mesh_Namespace m) seen (mesh_Clusters m) in
      out ++ mergeMeshes seen' rest
  end.

Definition mergeClusterEntries (meshes : list ClusterMesh) : list EntrySource := mergeMeshes ∅ meshes.

(** ** Building *)

Section Build.
Context {Cfg C W : Type} `{ClusterAPI Cfg C W}.

Definition RestConfigFromSecret (namespace : string) (ref : SecretKeyRef) : ST W (result registry_error Cfg) :=
  let? data := GetSecret namespace (ref_Name ref)
  catch err => mret (Err (GettingSecret namespace (ref_Name ref) err));
  match data !! ref_Key ref with
  | None => mret (Err (SecretHasNoKey namespace (ref_Name ref) (ref_Key ref)))
  | Some bytes =>
      match RESTConfigFromKubeConfig bytes with
      | None => mret (Err ParsingKubeconfig)
      | Some cfg => mret (Ok cfg)
      end
  end.

Definition configForEntry (entry : ClusterEntry) (localCfg : Cfg) (meshNamespace : string)
    : ST W (result registry_error Cfg) :=
  if entry_Local entry then mret (Ok localCfg)
  else
    match entry_KubeconfigSecretRef entry with
    | None => mret (Err (NoSecretRef (entry_Name entry)))
    | Some ref =>
        let? cfg := RestConfigFromSecret meshNamespace ref
        catch err => mret (Err (BuildingConfig (entry_Name entry) err));
        mret (Ok cfg)
    end.

(** The body of the loop of [Build]; a failed entry is logged and skipped. *)
Definition buildEntry (localCfg : Cfg) (reg : ClusterRegistry C) (src : EntrySource) : ST W (ClusterRegistry C) :=
  let entry := src_Entry src in
  let? cfg := configForEntry entry localCfg (src_MeshNamespace src) catch _ => mret reg;
  let reg := if entry_Local entry then mkRegistry (reg_clusters reg) (entry_Name entry) else reg in
  let? c := NewCluster cfg catch _ => mret reg;
  mret (mkRegistry (<[entry_Name entry := c]> (reg_clusters reg)) (reg_local reg)).

Fixpoint buildEntries (localCfg : Cfg) (reg : ClusterRegistry C) (entries : list EntrySource)
    : ST W (ClusterRegistry C) :=
  match entries with
  | [] => mret reg
  | src :: rest => reg' ← buildEntry localCfg reg src; buildEntries localCfg reg' rest
  end.

(** [Build] never fails. *)
Definition Build (entries : list EntrySource) (localCfg : Cfg) : ST W (ClusterRegistry C) :=
  buildEntries localCfg (mkRegistry ∅ "") entries.

(** [buildInitialRegistry]: the result of the mesh list is an argument. *)
Definition buildInitialRegistry (meshes : result kube_error (list ClusterMesh)) (cfg : Cfg)
    : ST W (result kube_error (ClusterRegistry C)) :=
  match meshes with
  | Err err => mret (Err err)
  | Ok items =>
      let entries := mergeClusterEntries items in
      registry ← Build entries cfg;
      mret (Ok registry)
  end.

End Build.

(** ** Merging: properties *)

Definition src_Name (s : EntrySource) : string := entry_Name (src_Entry s).

(** All entries of all meshes, in order. *)
Definition flatten (meshes : list ClusterMesh) : list EntrySource :=
  meshes ≫= fun m => (fun e => mkEntrySource e (mesh_Namespace m)) <$> mesh_Clusters m.

Fixpoint firsts (seen : gset string) (l : list EntrySource) : list EntrySource :=
  match l with
  | [] => []
  | s :: l' => if decide (src_Name s ∈ seen) then firsts seen l' else s :: firsts ({[src_Name s]} ∪ seen) l'
  end.

Lemma mergeEntries_firsts ns clusters seen rest :
  firsts seen (((fun e => mkEntrySource e ns) <$> clusters) ++ rest) =
  (mergeEntries ns seen clusters).2 ++ firsts (mergeEntries ns seen clusters).1 rest.
Proof.
  revert seen; induction clusters as [|e clusters IH]; intros seen; [done|]. cbn [fmap list_fmap app firsts mergeEntries].
  change (src_Name (mkEntrySource e ns)) with (entry_Name e).
  case_decide; [apply IH|]. rewrite IH. by destruct (mergeEntries ns _ clusters) as [s' out].
Qed.

Lemma mergeMeshes_firsts seen meshes : mergeMeshes seen meshes = firsts seen (flatten meshes).
Proof.
  revert seen; induction meshes as [|m meshes IH]; intros seen; [done|]. cbn [mergeMeshes].
  unfold flatten. rewrite bind_cons. fold (flatten meshes). rewrite mergeEntries_firsts.
  destruct (mergeEntries _ _ _) as [s' out]. cbn [fst snd]. by rewrite IH.
Qed.

Lemma firsts_elem seen l s :
  s ∈ firsts seen l <-> (src_Name s ∉ seen) /\ exists i, list_find (fun t => src_Name t = src_Name s) l = Some (i, s).
Proof.
  revert seen; induction l as [|t l IH]; intros seen; simpl.
  - split; [by intros ?%not_elem_of_nil|by intros [_ [? ?]]].
  - destruct (decide (src_Name t ∈ seen)) as [Ht|Ht]; rewrite ?elem_of_cons, IH; clear IH.
    + destruct (decide (src_Name t = src_Name s)) as [E|E].
      * split; intros [Hs _]; exfalso; apply Hs; by rewrite <- E.
      * split; intros [Hs [i Hi]]; (split; [done|]).
        -- exists (S i). by rewrite Hi.
        -- destruct (list_find _ l) as [[j q]|]; [|done]. simpl in Hi. injection Hi as <- <-. by exists j.
    + destruct (decide (src_Name t = src_Name s)) as [E|E].
      * split.
        -- intros [->|[Hs _]]; [split; [done|]; by exists 0%nat|]. set_solver.
        -- intros [_ [i [= _ ->]]]. by left.
      * split.
        -- intros [->|[Hs [i Hi]]]; [done|]. split; [set_solver|]. exists (S i). by rewrite Hi.
        -- intros [Hs [i Hi]]. right. split; [set_solver|].
           destruct (list_find _ l) as [[j q]|]; [|done]. simpl in Hi. injection Hi as <- <-. by exists j.
Qed.

Lemma firsts_NoDup seen l : NoDup (src_Name <$> firsts seen l).
Proof.
  revert seen; induction l as [|t l IH]; intros seen; simpl; [constructor|]. case_decide; [apply IH|].
  cbn [fmap list_fmap]. constructor; [|apply IH]. intros (s & Hn & [Hs _]%firsts_elem)%list_elem_of_fmap. set_solver.
Qed.

(** [mergeClusterEntries] keeps one entry per cluster name, the first in the
    order of the meshes and of their entries, tagged with the namespace of the mesh
    it comes from; every cluster name of every mesh is represented. *)
Theorem mergeClusterEntries_first_wins meshes :
  NoDup (src_Name <$> mergeClusterEntries meshes) /\
  (forall s, s ∈ mergeClusterEntries meshes <->
     exists i, list_find (fun t => src_Name t = src_Name s) (flatten meshes) = Some (i, s)) /\
  (forall s, s ∈ flatten meshes -> src_Name s ∈ (src_Name <$> mergeClusterEntries meshes)).
Proof.
  unfold mergeClusterEntries. rewrite mergeMeshes_firsts. split; [apply firsts_NoDup|].
  assert (H : forall s, s ∈ firsts ∅ (flatten meshes) <->
     exists i, list_find (fun t => src_Name t = src_Name s) (flatten meshes) = Some (i, s)).
  { intros s. rewrite firsts_elem. split; [by intros [_ ?]|]. intros. split; [set_solver|done]. }
  split; [done|]. intros s Hs.
  destruct (list_find (fun t => src_Name t = src_Name s) (flatten meshes)) as [[i t]|] eqn:E.
  - pose proof (proj1 (list_find_Some _ _ _ _) E) as (_ & Ht & _). rewrite <- Ht.
    apply list_elem_of_fmap_2, H. exists i. by rewrite Ht.
  - apply list_find_None in E. rewrite Forall_elem in E. by apply E in Hs.
Qed.

(** ** Building: properties *)

Section BuildFacts.
Context {Cfg C W : Type} `{ClusterAPI Cfg C W}.

(** The client an entry yields in world [w], if its configuration resolves and
    its cluster can be constructed. *)
Definition entryClient (localCfg : Cfg) (src : EntrySource) (w : W) : option C :=
  match configForEntry (src_Entry src) localCfg (src_MeshNamespace src) w with
  | (Ok cfg, w1) => match NewCluster cfg w1 with (Ok c, _) => Some c | (Err _, _) => None end
  | (Err _, _) => None
  end.

Lemma buildEntry_clusters localCfg reg src w :
  reg_clusters (buildEntry localCfg reg src w).1 =
  match entryClient localCfg src w with
  | Some c => <[src_Name src := c]> (reg_clusters reg)
  | None => reg_clusters reg
  end.
Proof.
  unfold buildEntry, entryClient. st_run.
  destruct (configForEntry _ _ _ w) as [[cfg|e] w1]; [|done]. st_run.
  destruct (NewCluster cfg w1) as [[c|e] w2]; st_run;
    by destruct (entry_Local (src_Entry src)).
Qed.

(** C35. One broken entry does not stop the others: if what each entry resolves to
    does not depend on the order, [Build] over distinctly named entries returns a
    registry with exactly the clients of the entries that resolve. An entry whose
    Secret, key, kubeconfig or cluster is bad is absent, and affects no other. *)
Theorem Build_tolerates_failures localCfg entries (outcome : EntrySource -> option C) w :
  NoDup (src_Name <$> entries) ->
  (forall src w', src ∈ entries -> entryClient localCfg src w' = outcome src) ->
  forall x, Client (Build entries localCfg w).1 x =
    match list_find (fun s => src_Name s = x) entries with
    | Some (_, s) => outcome s
    | None => None
    end.
Proof.
  intros Hnd Hout x. unfold Client, Build.
  assert (Hgen : forall reg w, reg_clusters (buildEntries localCfg reg entries w).1 !! x =
    match list_find (fun s => src_Name s = x) entries with
    | Some (_, s) => match outcome s with Some c => Some c | None => reg_clusters reg !! x end
    | None => reg_clusters reg !! x
    end).
  2:{ rewrite Hgen. destruct (list_find _ entries) as [[i s]|]; [destruct (outcome s)|]; cbn; by rewrite ?lookup_empty. }
  clear w. induction entries as [|s entries IH]; intros reg w; [done|]. cbn [buildEntries fmap list_fmap] in *.
  apply list.NoDup_cons in Hnd as [Hs Hnd]. st_run.
  rewrite IH by (done || intros; apply Hout; by right). rewrite buildEntry_clusters, Hout by left.
  simpl. destruct (decide (src_Name s = x)) as [E|E].
  - assert (list_find (fun s => src_Name s = x) entries = None) as ->.
    { apply list_find_None, Forall_elem. intros t Ht Hx. apply Hs. rewrite E, <- Hx. by apply list_elem_of_fmap_2. }
    destruct (outcome s); [|done]. rewrite <- E. apply lookup_insert_eq.
  - assert (Hne : forall c, <[src_Name s := c]> (reg_clusters reg) !! x = reg_clusters reg !! x)
      by (intros; by apply lookup_insert_ne).
    destruct (list_find (fun s => src_Name s = x) entries) as [[i t]|]; simpl; destruct (outcome s); rewrite ?Hne; done.
Qed.

End BuildFacts.

(** ** Shadowed entries *)

Module Scenario.

(** Secrets exist in namespace "alive" only; a kubeconfig is its own client. *)
#[export] Instance secrets : ClusterAPI string string unit := {
  GetSecret ns name w := (if decide (ns = "alive") then Ok {["kubeconfig" := "hub-client"]} else Err NotFound, w);
  RESTConfigFromKubeConfig s := Some s;
  NewCluster cfg w := (Ok cfg, w);
}.

Definition hub : ClusterEntry :=
  mkClusterEntry "hub" false (Some (mkSecretKeyRef "admin" "kubeconfig")) ["10.0.0.0/8"] 51820 0.
Definition mesh_in (ns : string) : ClusterMesh := mkClusterMesh ns "m" 1 false [] [hub] [] [].

End Scenario.

#[local] Existing Instance Scenario.secrets.

(** Deduplication happens before resolution: when the first mesh that lists a
    cluster is being torn down and its Secret is gone, the cluster is missing from
    the registry, although a later mesh lists it with a Secret that resolves. *)
Theorem stale_entry_shadows_live_one :
  Client (Build (C := string) (W := unit) (mergeClusterEntries [Scenario.mesh_in "alive"]) "local" tt).1 "hub" = Some "hub-client" /\
  Client (Build (C := string) (W := unit) (mergeClusterEntries [Scenario.mesh_in "gone"; Scenario.mesh_in "alive"]) "local" tt).1 "hub" = None.
Proof. by vm_compute. Qed.

(** ** Concrete instances *)

Definition other_entry : ClusterEntry := mkClusterEntry "edge" false None ["10.1.0.0/16"] 51820 0.

Lemma Build_tolerates_failures_witness :
  Client (Build (C := string) (W := unit)
    [mkEntrySource other_entry "alive"; mkEntrySource Scenario.hub "alive"] "local" tt).1 "hub" = Some "hub-client".
Proof.
  rewrite (Build_tolerates_failures "local" _
    (fun s => if decide (src_Name s = "hub") then Some "hub-client" else None) tt).
  - reflexivity.
  - apply (bool_decide_unpack (NoDup (src_Name <$> [mkEntrySource other_entry "alive"; mkEntrySource Scenario.hub "alive"]))).
    reflexivity.
  - intros src w' Hs. apply elem_of_cons in Hs as [->|Hs]; [reflexivity|].
    apply list_elem_of_singleton in Hs as ->. reflexivity.
Defined.
