(* ===== verification/Controller.v ===== *)
(** * [internal/controller/clustermesh_controller.go]: the reconcile loop

    The reconciler runs on the [PeerAPI] of the target clusters and on the
    operations of [ControllerAPI]: listing nodes, reading and writing ClusterMesh
    resources. Logging, event recording and the deadlines of the sweeps are not
    modelled; a deadline shows as an error of the call it interrupts. *)

From Stdlib Require Import Ascii String.
From S2P Require Import Prelude GoStrings GoNet GoNetFacts GoNetPrint Netutil Types Kilonode.
From S2P Require Import ValidationMesh ValidationNode Naming Builder Kube PeerReconciler Registry.
Open Scope Z_scope.
Open Scope go_scope.

(** ** Environment *)

Class ControllerAPI (C W : Type) : Type := {
  (* client.List of Nodes through a cluster's client *)
  ListNodes : C -> ST W (result kube_error (list Node));
  (* the manager's client: ClusterMesh resources of the local cluster *)
  GetMesh : string -> string -> ST W (result kube_error ClusterMesh);
  ListMeshes : option string -> ST W (result kube_error (list ClusterMesh));
  UpdateMesh : ClusterMesh -> ST W (result kube_error unit);
  UpdateMeshStatus : ClusterMesh -> ST W (result kube_error unit);
  (* [for name := range r.clusters] *)
  rangeClusters : gmap string C -> ST W (list string);
  (* json.Unmarshal of a discovered-endpoints annotation *)
  unmarshalDiscovered : string -> option (list (string * discoveredEndpointEntry));
}.

(** Reads of nodes and all operations on meshes leave the peers alone. *)
Definition quiet {C W} `{PeerAPILaws C W} (w w' : W) : Prop :=
  world_ok w' /\ (forall c p, seen c w' p <-> seen c w p) /\ (forall c, peers c w' = peers c w).

Class ControllerLaws (C W : Type) `{PeerAPILaws C W} `{!ControllerAPI C W} : Type := {
  ListNodes_quiet c w : world_ok w -> quiet w (ListNodes c w).2;
  GetMesh_quiet ns name w : world_ok w -> quiet w (GetMesh ns name w).2;
  ListMeshes_quiet ns w : world_ok w -> quiet w (ListMeshes ns w).2;
  UpdateMesh_quiet m w : world_ok w -> quiet w (UpdateMesh m w).2;
  UpdateMeshStatus_quiet m w : world_ok w -> quiet w (UpdateMeshStatus m w).2;
  rangeClusters_quiet m w : world_ok w -> quiet w (rangeClusters m w).2;
  rangeClusters_perm m w : (rangeClusters m w).1 ≡ₚ (map_to_list m).*1;
  GetMesh_name ns name w m w' : GetMesh ns name w = (Ok m, w') -> mesh_Namespace m = ns /\ mesh_Name m = name;
}.

(** ** Pure parts *)

Definition finalizerName : string := "kilo-clustermesh.io/cleanup".
(** Seconds. *)
Definition bootstrapRequeueAfter : Z := 30.
Definition syncRequeueAfter : Z := 300.

Inductive reconcileState : Type :=
| reconcileStateDone
| reconcileStateBootstrap
| reconcileStateSynced.

Inductive controller_error : Type :=
| FetchingMesh (cause : kube_error)
| AddingFinalizer (cause : kube_error)
| RemovingFinalizer (cause : kube_error)
| UpdatingOverlapStatus (cause : kube_error)
| UpdatingStatus (cause : kube_error)
| ListingNodes (cluster : string) (cause : kube_error)
| BuildingPeers (cluster node : string) (cause : build_error)
| ReconcilingPair (source target : string) (causes : list reconcile_error).

(** [ctrl.Result]: [RequeueAfter] in seconds, 0 for none; with the error. *)
Definition selectResult (state : reconcileState) (err : option controller_error) : Z * option controller_error :=
  match err with
  | Some e => (0, Some e)
  | None =>
      match state with
      | reconcileStateBootstrap => (bootstrapRequeueAfter, None)
      | reconcileStateSynced => (syncRequeueAfter, None)
      | reconcileStateDone => (0, None)
      end
  end.

(** [apimeta.SetStatusCondition] without transition times: the condition of that
    type is overwritten, or appended. *)
Fixpoint SetStatusCondition (conditions : list Condition) (new : Condition) : list Condition :=
  match conditions with
  | [] => [new]
  | c :: rest => if decide (cond_Type c = cond_Type new) then new :: rest else c :: SetStatusCondition rest new
  end.

Definition with_Conditions (m : ClusterMesh) (cs : list Condition) : ClusterMesh :=
  mkClusterMesh (mesh_Namespace m) (mesh_Name m) (mesh_Generation m) (mesh_Deleting m) (mesh_Finalizers m)
                (mesh_Clusters m) (mesh_StatusClusters m) cs.
Definition with_StatusClusters (m : ClusterMesh) (ss : list ClusterStatus) : ClusterMesh :=
  mkClusterMesh (mesh_Namespace m) (mesh_Name m) (mesh_Generation m) (mesh_Deleting m) (mesh_Finalizers m)
                (mesh_Clusters m) ss (mesh_Conditions m).
Definition with_Finalizers (m : ClusterMesh) (fs : list string) : ClusterMesh :=
  mkClusterMesh (mesh_Namespace m) (mesh_Name m) (mesh_Generation m) (mesh_Deleting m) fs
                (mesh_Clusters m) (mesh_StatusClusters m) (mesh_Conditions m).

Definition setCondition (mesh : ClusterMesh) (condType : string) (status : ConditionStatus)
    (reason message : string) : ClusterMesh :=
  with_Conditions mesh
    (SetStatusCondition (mesh_Conditions mesh) (mkCondition condType status reason message (mesh_Generation mesh))).

(** [controllerutil] *)
Definition ContainsFinalizer (mesh : ClusterMesh) : bool := bool_decide (finalizerName ∈ mesh_Finalizers mesh).
Definition AddFinalizer (mesh : ClusterMesh) : ClusterMesh :=
  with_Finalizers mesh (mesh_Finalizers mesh ++ [finalizerName]).
Definition RemoveFinalizer (mesh : ClusterMesh) : ClusterMesh :=
  with_Finalizers mesh (base.filter (fun f => f <> finalizerName) (mesh_Finalizers mesh)).

Definition meshPersistentKeepalive (mesh : ClusterMesh) : Z :=
  foldl (fun keepalive e => Z.max keepalive (entry_PersistentKeepalive e)) 0 (mesh_Clusters mesh).

(** The loop of [filterNodes]: valid nodes, skipped, transientSkipped. *)
Fixpoint filterLoop (duplicates : gmap string NodeSkipReason) (entry : ClusterEntry) (nodes : list Node)
    : list Node * Z * Z :=
  match nodes with
  | [] => ([], 0, 0)
  | node :: rest =>
      let '(valid, skipped, transientSkipped) := filterLoop duplicates entry rest in
      match duplicates !! node_Name node with
      | Some _ => (valid, skipped + 1, transientSkipped)
      | None =>
          match ValidateNode node entry with
          | Some reason =>
              (valid, skipped + 1, if IsTransient reason then transientSkipped + 1 else transientSkipped)
          | None => (node :: valid, skipped, transientSkipped)
          end
      end
  end.
Definition filterNodes (nodes : list Node) (entry : ClusterEntry) : list Node * Z * Z :=
  filterLoop (FindDuplicateWGIPs nodes) entry nodes.

(** The loop of [buildDesiredPeers]: [extras] goes to the first node. *)
Fixpoint buildLoop (meshName : string) (entry : ClusterEntry) (nodes : list Node) (extras : list string)
    (meshKeepalive : Z) : result (string * build_error) (list Peer) :=
  match nodes with
  | [] => Ok []
  | node :: rest =>
      match BuildPeer meshName entry node extras meshKeepalive with
      | Err e => Err (node_Name node, e)
      | Ok p =>
          match buildLoop meshName entry rest [] meshKeepalive with
          | Err e => Err e
          | Ok ps => Ok (p :: ps)
          end
      end
  end.
Definition buildDesiredPeers (meshName : string) (entry : ClusterEntry) (nodes : list Node) (meshKeepalive : Z)
    : result (string * build_error) (list Peer) :=
  let anchorExtras := CollectAnchorCIDRs entry nodes in
  buildLoop meshName entry nodes anchorExtras meshKeepalive.

Inductive discovered_error : Type :=
| SplittingDiscovered
| ParsingDiscoveredPort (hostPort : string).

Definition parseDiscoveredEndpoint (hostPort : string) : result discovered_error PeerEndpoint :=
  match SplitHostPort hostPort with
  | None => Err SplittingDiscovered
  | Some (host, portStr) =>
      match ParseUint portStr 16 with
      | None => Err (ParsingDiscoveredPort hostPort)
      | Some port => Ok (mkPeerEndpoint "" host port)
      end
  end.

(** The body of the loop of [enrichEndpointsFromDiscovered]. *)
Definition enrichOne (discoveredByKey : gmap string string) (peerObj : Peer) : Peer :=
  match discoveredByKey !! spec_PublicKey (peer_Spec peerObj) with
  | None => peerObj
  | Some discoveredEndpoint =>
      let override :=
        match parseDiscoveredEndpoint discoveredEndpoint with
        | Err _ => peerObj
        | Ok parsed => with_Endpoint peerObj (Some parsed)
        end in
      match spec_Endpoint (peer_Spec peerObj) with
      | None => override
      | Some e =>
          if decide (ep_IP e = "" \/ discoveredEndpoint <> ep_IP e +:+ ":" +:+ FormatUint (ep_Port e))
          then override else peerObj
      end
  end.

(** [nodeToClusterMeshRequests]: namespaced names of the meshes that list the
    cluster; a failed list yields none. *)
Definition nodeToClusterMeshRequests (clusterName : string) (meshList : result kube_error (list ClusterMesh))
    : list (string * string) :=
  match meshList with
  | Err _ => []
  | Ok items =>
      (fun m => (mesh_Namespace m, mesh_Name m)) <$>
        base.filter (fun m => existsb (fun e => bool_decide (entry_Name e = clusterName)) (mesh_Clusters m) = true) items
  end.

(** ** The reconciler *)

Section Reconciler.
Context {C W : Type} `{PeerAPI C W} `{!ControllerAPI C W}.
(** [r.Registry] *)
Context (registry : ClusterRegistry C).

(** *** Pushing peers *)

(** The desired peers as they are pushed to one target: enriched when the
    discovered endpoints can be listed, otherwise as configured. *)
Definition enrichEndpointsFromDiscovered (tgtClient : C) (desired : list Peer)
    : ST W (result kube_error (list Peer)) :=
  nodeList ← ListNodes tgtClient;
  match DiscoveredEndpointsByKey unmarshalDiscovered nodeList with
  | Err lookupErr => mret (Err lookupErr)
  | Ok discoveredByKey =>
      if decide (discoveredByKey = ∅) then mret (Ok desired)
      else mret (Ok (enrichOne discoveredByKey <$> desired))
  end.

(** The loop of [pushPeersToTargets] over the target entries; it stops at the
    first error. *)
Fixpoint pushLoop (meshName : string) (srcEntry : ClusterEntry) (desired : list Peer)
    (targets : list ClusterEntry) : ST W (option controller_error) :=
  match targets with
  | [] => mret None
  | tgtEntry :: rest =>
      if decide (entry_Name tgtEntry = entry_Name srcEntry) then pushLoop meshName srcEntry desired rest
      else
        match Client registry (entry_Name tgtEntry) with
        | None => pushLoop meshName srcEntry desired rest
        | Some tgtClient =>
            enriched ← enrichEndpointsFromDiscovered tgtClient desired;
            let pushDesired := match enriched with Err _ => desired | Ok ps => ps end in
            errs ← ReconcilePeers tgtClient meshName (entry_Name srcEntry) pushDesired;
            match errs with
            | [] => pushLoop meshName srcEntry desired rest
            | _ => mret (Some (ReconcilingPair (entry_Name srcEntry) (entry_Name tgtEntry) errs))
            end
        end
  end.

(** [Ok n]: [status.RegisteredPeers = n] and no error. *)
Definition pushPeersToTargets (mesh : ClusterMesh) (srcEntry : ClusterEntry) (validNodes : list Node)
    : ST W (result controller_error Z) :=
  match buildDesiredPeers (mesh_Name mesh) srcEntry validNodes (meshPersistentKeepalive mesh) with
  | Err (node, e) => mret (Err (BuildingPeers (entry_Name srcEntry) node e))
  | Ok desired =>
      err ← pushLoop (mesh_Name mesh) srcEntry desired (mesh_Clusters mesh);
      match err with
      | Some e => mret (Err e)
      | None => mret (Ok (Z.of_nat (length desired)))
      end
  end.

(** One source cluster: [Ok None] when it is missing from the registry. *)
Definition reconcileSource (mesh : ClusterMesh) (srcEntry : ClusterEntry)
    : ST W (result controller_error (option ClusterStatus * bool)) :=
  match Client registry (entry_Name srcEntry) with
  | None => mret (Ok (None, true))
  | Some srcClient =>
      let? nodes := ListNodes srcClient catch err => mret (Err (ListingNodes (entry_Name srcEntry) err));
      let '(validNodes, skipped, transientSkipped) := filterNodes nodes srcEntry in
      let incomplete :=
        bool_decide (validNodes = []) && (bool_decide (nodes = []) || (0 <? transientSkipped)) in
      let? registered := pushPeersToTargets mesh srcEntry validNodes catch e => mret (Err e);
      mret (Ok (Some (mkClusterStatus (entry_Name srcEntry) registered skipped), incomplete))
  end.

(** The loop of [reconcileAllClusters]: statuses and the [incomplete] flag. *)
Fixpoint reconcileSources (mesh : ClusterMesh) (sources : list ClusterEntry)
    : ST W (result controller_error (list ClusterStatus * bool)) :=
  match sources with
  | [] => mret (Ok ([], false))
  | srcEntry :: rest =>
      let? (status, inc) := reconcileSource mesh srcEntry catch e => mret (Err e);
      let? (statuses, inc') := reconcileSources mesh rest catch e => mret (Err e);
      mret (Ok (match status with Some s => s :: statuses | None => statuses end, inc || inc'))
  end.
Definition reconcileAllClusters (mesh : ClusterMesh) : ST W (result controller_error (list ClusterStatus * bool)) :=
  reconcileSources mesh (mesh_Clusters mesh).

(** *** Sweeps *)

Definition cleanupStaleSourceClusters (mesh : ClusterMesh) : ST W unit :=
  let validSources := entry_Name <$> mesh_Clusters mesh in
  names ← rangeClusters (reg_clusters registry);
  st_iter (fun name =>
    match Client registry name with
    | None => mret tt
    | Some tgtClient =>
        let sources := if decide (name ∈ validSources) then validSources else [] in
        _ ← DeleteStaleSourceClusters tgtClient (mesh_Name mesh) sources;
        mret tt
    end) names.

Definition collectLivingMeshes : ST W (option (gset string)) :=
  let? items := ListMeshes None catch _ => mret None;
  mret (Some (list_to_set (mesh_Name <$> items))).

(** The body of the loop of [sweepOrphanPeersInCluster]. *)
Definition sweepOne (tgtClient : C) (living : gset string) (peerObj : Peer) : ST W unit :=
  let meshLabel := default EmptyString (peer_Labels peerObj !! LabelMesh) in
  if decide (meshLabel = "") then mret tt
  else if decide (meshLabel ∈ living) then mret tt
  else _ ← Delete tgtClient peerObj; mret tt.

Definition sweepOrphanPeersInCluster (tgtClient : C) (living : gset string) : ST W unit :=
  let? items := List tgtClient everything catch _ => mret tt;
  st_iter (sweepOne tgtClient living) items.

Definition cleanupOrphanMeshPeers : ST W unit :=
  living ← collectLivingMeshes;
  match living with
  | None => mret tt
  | Some living =>
      names ← rangeClusters (reg_clusters registry);
      st_iter (fun name =>
        match Client registry name with
        | None => mret tt
        | Some tgtClient => sweepOrphanPeersInCluster tgtClient living
        end) names
  end.

(** *** Deletion *)

(** The inner body of [handleDeletion]: one (source, target) pair. *)
Definition deletePair (mesh : ClusterMesh) (entry targetEntry : ClusterEntry) : ST W unit :=
  if decide (entry_Name targetEntry = entry_Name entry) then mret tt
  else
    match Client registry (entry_Name targetEntry) with
    | None => mret tt
    | Some targetClient =>
        _ ← ReconcilePeers targetClient (mesh_Name mesh) (entry_Name entry) [];
        mret tt
    end.

Definition handleDeletion (mesh : ClusterMesh) : ST W (option controller_error) :=
  if negb (ContainsFinalizer mesh) then mret None
  else
    _ ← st_iter (fun entry => st_iter (deletePair mesh entry) (mesh_Clusters mesh)) (mesh_Clusters mesh);
    let? _ := UpdateMesh (RemoveFinalizer mesh) catch e => mret (Some (RemovingFinalizer e));
    mret None.

(** *** Validation and status *)

(** [Some err]: an overlap, with the error its message is taken from. A failed
    list is logged and counts as no overlap. *)
Definition validateMeshNetworks (mesh : ClusterMesh) : ST W (option mesh_error) :=
  let? items := ListMeshes (Some (mesh_Namespace mesh)) catch _ => mret None;
  mret (ValidateMeshNetworks items).

(** The text of an error, [err.Error()]. *)
Context (message : mesh_error -> string).

Definition setOverlapCondition (mesh : ClusterMesh) (msg : string) : ST W (option controller_error) :=
  let mesh := setCondition mesh "NetworksOverlap" ConditionTrue "CIDROverlap" msg in
  let mesh := setCondition mesh "Ready" ConditionFalse "NetworksOverlap" "CIDR overlap detected across meshes" in
  let? _ := UpdateMeshStatus mesh catch e => mret (Some (UpdatingOverlapStatus e));
  mret None.

Definition updateStatus (mesh : ClusterMesh) (statuses : list ClusterStatus) : ST W (option controller_error) :=
  let mesh := with_StatusClusters mesh statuses in
  let mesh := setCondition mesh "Ready" ConditionTrue "Reconciled" "all clusters reconciled successfully" in
  let? _ := UpdateMeshStatus mesh catch e => mret (Some (UpdatingStatus e));
  mret None.

(** *** [reconcile] *)

(** The live branch: the mesh has its finalizer and its networks are valid. *)
Definition reconcileLive (mesh : ClusterMesh) : ST W (reconcileState * option controller_error) :=
  let mesh := setCondition mesh "NetworksOverlap" ConditionFalse "NoOverlap" "all CIDRs are disjoint" in
  let? (clusterStatuses, incomplete) := reconcileAllClusters mesh
  catch e => mret (reconcileStateDone, Some e);
  _ ← cleanupStaleSourceClusters mesh;
  _ ← cleanupOrphanMeshPeers;
  let state := if (incomplete : bool) then reconcileStateBootstrap else reconcileStateSynced in
  err ← updateStatus mesh clusterStatuses;
  mret (state, err).

Definition reconcile (namespace name : string) : ST W (reconcileState * option controller_error) :=
  got ← GetMesh namespace name;
  match got with
  | Err NotFound => mret (reconcileStateDone, None)
  | Err e => mret (reconcileStateDone, Some (FetchingMesh e))
  | Ok mesh =>
      if mesh_Deleting mesh then
        err ← handleDeletion mesh; mret (reconcileStateDone, err)
      else if negb (ContainsFinalizer mesh) then
        let? _ := UpdateMesh (AddFinalizer mesh)
        catch e => mret (reconcileStateDone, Some (AddingFinalizer e));
        mret (reconcileStateDone, None)
      else
        overlap ← validateMeshNetworks mesh;
        match overlap with
        | Some e => err ← setOverlapCondition mesh (message e); mret (reconcileStateDone, err)
        | None => reconcileLive mesh
        end
  end.

End Reconciler.

(** ** Filtering and building: properties *)

Lemma filterLoop_spec dups entry nodes :
  let '(valid, skipped, transient) := filterLoop dups entry nodes in
  valid = base.filter (fun n => dups !! node_Name n = None /\ ValidateNode n entry = None) nodes /\
  Z.of_nat (length valid) + skipped = Z.of_nat (length nodes) /\ 0 <= transient <= skipped.
Proof.
  induction nodes as [|n nodes IH]; [by repeat split|]. cbn [filterLoop].
  destruct (filterLoop dups entry nodes) as [[valid skipped] transient]. destruct IH as (-> & H1 & H2).
  rewrite filter_cons. destruct (dups !! node_Name n) eqn:Ed.
  { rewrite decide_False by (by intros [? _]). cbn [length]. split; [done|]. lia. }
  destruct (ValidateNode n entry) as [r|] eqn:Ev.
  { rewrite decide_False by (by intros [_ ?]). cbn [length]. split; [done|]. destruct (IsTransient r); lia. }
  rewrite decide_True by done. cbn [length] in *. split; [done|]. lia.
Qed.

(** [filterNodes] keeps, in order, exactly the nodes that are not duplicates
    and that [ValidateNode] accepts; every node is either kept or counted as
    skipped, and the transient skips are among the skipped. *)
Theorem filterNodes_partition nodes entry :
  let '(valid, skipped, transient) := filterNodes nodes entry in
  valid = base.filter (fun n => FindDuplicateWGIPs nodes !! node_Name n = None /\ ValidateNode n entry = None) nodes /\
  Z.of_nat (length valid) + skipped = Z.of_nat (length nodes) /\ 0 <= transient <= skipped.
Proof. apply filterLoop_spec. Qed.

Lemma filterNodes_valid nodes entry :
  (filterNodes nodes entry).1.1 =
  base.filter (fun n => FindDuplicateWGIPs nodes !! node_Name n = None /\ ValidateNode n entry = None) nodes.
Proof.
  pose proof (filterLoop_spec (FindDuplicateWGIPs nodes) entry nodes) as H. unfold filterNodes.
  by destruct (filterLoop _ _ _) as [[v s] t]; destruct H as [-> _].
Qed.

(** Two positions of a sublist come from two positions of the list. *)
Lemma filter_lookup_pair {A} (P : A -> Prop) `{!forall x, Decision (P x)} (l : list A) i j a b :
  (i < j)%nat -> base.filter P l !! i = Some a -> base.filter P l !! j = Some b ->
  exists i' j', (i' < j')%nat /\ l !! i' = Some a /\ l !! j' = Some b.
Proof.
  revert i j; induction l as [|x l IH]; intros i j Hij Hi Hj; [done|]. rewrite filter_cons in Hi, Hj.
  case_decide as Hx.
  - destruct i as [|i], j as [|j]; try lia; simpl in Hi, Hj.
    + injection Hi as <-. apply list_elem_of_lookup_2, list_elem_of_filter in Hj as [_ [j' Hj]%list_elem_of_lookup].
      exists 0%nat, (S j'). split; [lia|done].
    + destruct (IH i j) as (i' & j' & ? & ? & ?); [lia|done|done|]. exists (S i'), (S j'). split; [lia|done].
  - destruct (IH i j) as (i' & j' & ? & ? & ?); [done..|]. exists (S i'), (S j'). split; [lia|done].
Qed.

(** C31. The nodes of one cluster that are peered have pairwise different
    WireGuard host addresses, whatever prefix lengths and textual forms their
    annotations use: no two of their peers claim the same host route. *)
Theorem filterNodes_distinct_hosts nodes entry i j a b ipA netA ipB netB :
  let valid := (filterNodes nodes entry).1.1 in
  (i < j)%nat -> valid !! i = Some a -> valid !! j = Some b ->
  ParseHostInCIDR (annotation a AnnotationWireguardIP) = Ok (ipA, netA) ->
  ParseHostInCIDR (annotation b AnnotationWireguardIP) = Ok (ipB, netB) ->
  norm ipA <> norm ipB.
Proof.
  intros valid Hij Hi Hj Ha Hb E. subst valid. rewrite filterNodes_valid in Hi, Hj.
  pose proof Hj as Hj'. apply list_elem_of_lookup_2, list_elem_of_filter in Hj' as [[Hnd _] _].
  destruct (filter_lookup_pair _ _ _ _ _ _ Hij Hi Hj) as (i' & j' & Hlt & Hi' & Hj').
  rewrite (same_host_duplicate nodes i' j' a b ipA netA ipB netB) in Hnd; done.
Qed.

Lemma buildLoop_Ok meshName entry nodes extras keepalive :
  0 <= entry_WireguardPort entry < 65536 -> (forall n, n ∈ nodes -> ValidateNode n entry = None) ->
  exists ps, buildLoop meshName entry nodes extras keepalive = Ok ps /\ length ps = length nodes /\
    forall i n p, nodes !! i = Some n -> ps !! i = Some p ->
      BuildPeer meshName entry n (if i is O then extras else []) keepalive = Ok p.
Proof.
  intros Hport. revert extras; induction nodes as [|n nodes IH]; intros extras Hv; [by exists []|].
  destruct (BuildPeer_eligible meshName entry n extras keepalive) as [p Hp]; [done|apply Hv; left|].
  destruct (IH []) as (ps & Hps & Hlen & Hnth); [intros; apply Hv; by right|].
  exists (p :: ps). cbn [buildLoop]. rewrite Hp, Hps. split; [done|]. split; [simpl; by f_equal|].
  intros [|i] n' p' Hn Hp'; simpl in *; [by simplify_eq|]. pose proof (Hnth i n' p' Hn Hp') as HB. by destruct i.
Qed.


Lemma filterNodes_eligible nodes entry n :
  n ∈ (filterNodes nodes entry).1.1 -> ValidateNode n entry = None.
Proof. rewrite filterNodes_valid. by intros [[_ ?] _]%list_elem_of_filter. Qed.

(** C14. For the nodes that pass the filter, [buildDesiredPeers] never fails: it
    returns one peer per node, in order, named, labelled and keyed after it; and
    unless no node passed, every AllowedNetworks entry that parses is announced by
    some peer, verbatim or through a route inside it. *)
Theorem buildDesiredPeers_complete meshName entry nodes keepalive :
  let valid := (filterNodes nodes entry).1.1 in
  0 <= entry_WireguardPort entry < 65536 ->
  exists ps, buildDesiredPeers meshName entry valid keepalive = Ok ps /\ length ps = length valid /\
    (forall i n p, valid !! i = Some n -> ps !! i = Some p ->
       peer_Name p = Name meshName (entry_Name entry) (node_Name n) /\
       peer_Labels p = Labels meshName (entry_Name entry) /\
       spec_PublicKey (peer_Spec p) = annotation n AnnotationPublicKey) /\
    (valid <> [] -> forall raw network, raw ∈ entry_AllowedNetworks entry -> Netutil.ParseCIDR raw = Ok network ->
       exists p r, p ∈ ps /\ r ∈ spec_AllowedIPs (peer_Spec p) /\ (r = raw \/ inside network r)).
Proof.
  intros valid Hport. unfold buildDesiredPeers.
  destruct (buildLoop_Ok meshName entry valid (CollectAnchorCIDRs entry valid) keepalive Hport)
    as (ps & Hps & Hlen & Hnth); [by apply filterNodes_eligible|].
  exists ps. do 2 (split; [done|]). split.
  - intros i n p Hn Hp. pose proof (Hnth i n p Hn Hp) as (? & ? & ? & ? & ? & _ & _ & _ & _ & ->)%BuildPeer_Ok. done.
  - intros Hne raw network Hraw Hnet. destruct (networkCoveredByAnyNode network valid) eqn:Ec.
    + apply networkCoveredByAnyNode_true in Ec as (n & [i Hi]%list_elem_of_lookup & Hc).
      apply nodeCoversNetwork_iff in Hc as (r & Ho & Hin); [|by eapply ParseCIDR_wf].
      destruct (lookup_lt_is_Some_2 ps i) as [p Hp]; [rewrite Hlen; by eapply lookup_lt_Some|].
      exists p, r. split; [by eapply list_elem_of_lookup_2|]. split; [|by right].
      eapply BuildPeer_routes; [by eapply Hnth|by left].
    + destruct valid as [|n valid']; [done|]. destruct ps as [|p ps]; [done|].
      exists p, raw. split; [left|]. split; [|by left].
      eapply BuildPeer_routes; [by apply (Hnth 0%nat n p)|]. right. apply collectResidual_elem.
      split; [done|]. intros network' Hn'. congruence.
Qed.

(** A peer the API server accepts and Kilo can use. *)
Record wf_peer (p : Peer) : Prop := {
  wfp_name : (String.length (peer_Name p) <= 253)%nat /\ Str.forallb dns_char (peer_Name p) = true /\
    Str.head_ok alnum (peer_Name p) = true /\ Str.last_ok alnum (peer_Name p) = true;
  wfp_new : peer_ResourceVersion p = "";
  wfp_key : spec_PublicKey (peer_Spec p) <> "";
  wfp_routes : spec_AllowedIPs (peer_Spec p) <> [] /\ NoDup (spec_AllowedIPs (peer_Spec p)) /\
    forall r, r ∈ spec_AllowedIPs (peer_Spec p) -> exists n, Netutil.ParseCIDR r = Ok n;
  wfp_endpoint : forall e, spec_Endpoint (peer_Spec p) = Some e -> 1 <= ep_Port e <= 65535;
  wfp_keepalive : 0 <= spec_PersistentKeepalive (peer_Spec p);
}.

Lemma own_route_parses node entry r :
  eligible node entry -> own_route node r -> exists n, Netutil.ParseCIDR r = Ok n.
Proof.
  assert (Hroute : forall ip, ip_ok ip -> exists n, Netutil.ParseCIDR (HostRoute ip) = Ok n).
  { intros ip (n & Hp & _)%HostRoute_parse. exists n. unfold Netutil.ParseCIDR. by rewrite Hp. }
  intros [(f & rest & pn & Ef & Hf & _) _ _ _] [[rest' E]|[(ip & n & Hp & ->)|(a & ip & _ & _ & Hp & ->)]].
  - rewrite Ef in E. injection E as -> _. by exists pn.
  - by apply Hroute, (ParseHostInCIDR_ok _ _ _ Hp).
  - by eapply Hroute, ParseIP_ok.
Qed.

Lemma BuildPeer_wf meshName entry node extra keepalive p :
  0 <= entry_WireguardPort entry < 65536 -> 0 <= entry_PersistentKeepalive entry -> ValidateNode node entry = None ->
  (forall r, r ∈ extra -> exists n, Netutil.ParseCIDR r = Ok n) ->
  BuildPeer meshName entry node extra keepalive = Ok p -> wf_peer p.
Proof.
  intros Hport Hka Hv Hex HB. apply ValidateNode_None in Hv as Hel.
  assert (Hroutes := fun r => BuildPeer_routes _ _ _ _ _ _ r HB).
  apply BuildPeer_Ok in HB as (ip & wn & pod & rest & ep & Hk & Hw & Hpod & Hr & ->). constructor; simpl in *.
  - apply Name_bounds.
  - done.
  - done.
  - split; [|split; [apply dedupeLoop_NoDup|]].
    + intros E. specialize (Hroutes pod). rewrite E in Hroutes. apply (not_elem_of_nil pod), Hroutes. left. left. by exists rest.
    + intros r [Ho|He]%Hroutes; [by eapply own_route_parses|by apply Hex].
  - destruct Hel as [_ _ _ He]. apply (ResolveEndpoint_resolves node (entry_WireguardPort entry)) in He as [e0 He0]. destruct (resolvePeerEndpoint_Ok node _ e0 Hport He0) as (ep' & Hr' & _ & Hrange).
    rewrite Hr in Hr'. by injection Hr' as <-.
  - lia.
Qed.

(** C15. The peers the operator writes are well formed: for a cluster whose networks
    all parse (which the network validation requires) and whose port and keepalive
    are in range, every peer built for the nodes that pass the filter has a legal
    name, no resource version yet, a key, a non-empty list of distinct routes that
    all parse, a port in 1..65535 if it has an endpoint, and a keepalive that is
    not negative. *)
Theorem buildDesiredPeers_well_formed meshName entry nodes keepalive ps p :
  0 <= entry_WireguardPort entry < 65536 -> 0 <= entry_PersistentKeepalive entry ->
  (forall raw, raw ∈ entry_AllowedNetworks entry -> exists n, Netutil.ParseCIDR raw = Ok n) ->
  buildDesiredPeers meshName entry (filterNodes nodes entry).1.1 keepalive = Ok ps -> p ∈ ps -> wf_peer p.
Proof.
  intros Hport Hka Hnets. unfold buildDesiredPeers. set (valid := (filterNodes nodes entry).1.1).
  destruct (buildLoop_Ok meshName entry valid (CollectAnchorCIDRs entry valid) keepalive Hport)
    as (ps' & -> & Hlen & Hnth); [by apply filterNodes_eligible|].
  intros [= <-] [i Hp]%list_elem_of_lookup.
  destruct (lookup_lt_is_Some_2 valid i) as [n Hn]; [rewrite <- Hlen; by eapply lookup_lt_Some|].
  pose proof (Hnth i n p Hn Hp) as HB.
  apply (BuildPeer_wf _ _ _ _ _ _ Hport Hka) with (3 := HB).
  - apply (filterNodes_eligible nodes). by eapply list_elem_of_lookup_2.
  - intros r Hr. apply Hnets. destruct i; [by apply CollectAnchorCIDRs_elem in Hr as [? _]|by apply not_elem_of_nil in Hr].
Qed.

Lemma foldl_max_ge l z : z <= foldl (fun k e => Z.max k (entry_PersistentKeepalive e)) z l /\
  forall e, e ∈ l -> entry_PersistentKeepalive e <= foldl (fun k e => Z.max k (entry_PersistentKeepalive e)) z l.
Proof.
  revert z; induction l as [|e l IH]; intros z; simpl; [split; [lia|by intros ? ?%not_elem_of_nil]|].
  destruct (IH (Z.max z (entry_PersistentKeepalive e))) as [H1 H2]. split; [lia|].
  intros e' [->|He]%elem_of_cons; [lia|by apply H2].
Qed.

(** If any cluster of a mesh declares a keepalive, every peer the mesh builds
    has at least that keepalive, whichever cluster its node is from. *)
Theorem buildDesiredPeers_keepalive mesh entry nodes ps p e :
  buildDesiredPeers (mesh_Name mesh) entry nodes (meshPersistentKeepalive mesh) = Ok ps ->
  p ∈ ps -> e ∈ mesh_Clusters mesh ->
  entry_PersistentKeepalive e <= spec_PersistentKeepalive (peer_Spec p).
Proof.
  intros Hb Hp He. destruct (foldl_max_ge (mesh_Clusters mesh) 0) as [_ Hmax]. specialize (Hmax e He).
  fold (meshPersistentKeepalive mesh) in Hmax. unfold buildDesiredPeers in Hb.
  revert Hb Hp. generalize (CollectAnchorCIDRs entry nodes) as extras. revert ps.
  induction nodes as [|n nodes IH]; intros ps extras Hb Hp; cbn [buildLoop] in Hb.
  { injection Hb as <-. by apply not_elem_of_nil in Hp. }
  destruct (BuildPeer _ _ _ _ _) as [q|] eqn:Eq; [|done].
  destruct (buildLoop _ _ nodes _ _) as [qs|] eqn:Eqs; [|done]. injection Hb as <-.
  apply elem_of_cons in Hp as [->|Hp]; [|by eapply IH].
  apply BuildPeer_Ok in Eq as (? & ? & ? & ? & ? & _ & _ & _ & _ & ->). simpl. lia.
Qed.

(** ** Enrichment: properties *)

(** [p'] is [p] with another endpoint. *)
Definition same_but_endpoint (p p' : Peer) : Prop :=
  with_Endpoint p' None = with_Endpoint p None.

Lemma enrichOne_cases m p :
  enrichOne m p = p \/
  exists ep e, m !! spec_PublicKey (peer_Spec p) = Some ep /\ parseDiscoveredEndpoint ep = Ok e /\
    enrichOne m p = with_Endpoint p (Some e).
Proof.
  unfold enrichOne. destruct (m !! _) as [ep|]; [|by left].
  destruct (parseDiscoveredEndpoint ep) as [e|] eqn:Ee.
  - destruct (spec_Endpoint (peer_Spec p)); [case_decide; [|by left]|]; right; by exists ep, e.
  - destruct (spec_Endpoint (peer_Spec p)); [case_decide|]; by left.
Qed.

Lemma usable_parsed e ep :
  usableEntry e = true -> parseDiscoveredEndpoint (JoinHostPort (disc_IP e) (FormatUint (disc_Port e))) = Ok ep ->
  ep = mkPeerEndpoint "" (disc_IP e) (disc_Port e) /\ 1 <= disc_Port e <= 65535 /\ is_Some (ParseIP (disc_IP e)).
Proof.
  unfold usableEntry, parseDiscoveredEndpoint. case_decide as Hd; [done|].
  destruct (ParseIP (disc_IP e)) as [ip|] eqn:Eip; [|done]. intros _.
  assert (Hpos : 0 < disc_Port e) by lia.
  rewrite (Split_Join_ip _ ip) by (done || lia). destruct (ParseUint _ 16) as [port|] eqn:Ep; [|done].
  intros [= <-]. pose proof (ParseUint_bound _ 16 _ ltac:(lia) Ep) as Hb.
  assert (port = disc_Port e) as ->.
  { set (n := Z.max 16 (disc_Port e + 1)).
    assert (Hn : disc_Port e < 2 ^ n).
    { eapply Z.lt_le_trans; [apply Z.pow_gt_lin_r with (a := 2); lia|]. apply Z.pow_le_mono_r; lia. }
    pose proof (ParseUint_mono _ 16 n port ltac:(lia) Ep) as E1.
    rewrite ParseUint_FormatUint in E1 by lia. by injection E1. }
  change (2 ^ 16) with 65536 in Hb. split; [done|]. split; [lia|done].
Qed.

Section ReconcilerFacts.
Context {C W : Type} {api : PeerAPI C W} {laws : PeerAPILaws C W}.
Context {capi : ControllerAPI C W} {claws : ControllerLaws C W} {C_eq : EqDecision C}.
Context (registry : ClusterRegistry C).

(** Enrichment changes nothing but endpoints: the enriched peers are the
    desired ones, in order, with the same names, labels, keys, AllowedIPs and
    keepalives; an endpoint is replaced only by an address some node of the target
    cluster reports for that public key, an IP that parses with a port between 1
    and 65535. *)
Theorem enrichEndpoints_only_endpoints tgt desired w ps w' i p :
  enrichEndpointsFromDiscovered (C := C) tgt desired w = (Ok ps, w') -> desired !! i = Some p ->
  exists p', ps !! i = Some p' /\ same_but_endpoint p p' /\
    (p' = p \/
     exists nodes node entries e,
       (ListNodes tgt w).1 = Ok nodes /\ node ∈ nodes /\
       unmarshalDiscovered (annotation node AnnotationDiscoveredEndpoints) = Some entries /\
       (spec_PublicKey (peer_Spec p), e) ∈ entries /\
       spec_Endpoint (peer_Spec p') = Some (mkPeerEndpoint "" (disc_IP e) (disc_Port e)) /\
       1 <= disc_Port e <= 65535 /\ is_Some (ParseIP (disc_IP e))).
Proof.
  unfold enrichEndpointsFromDiscovered. st_run.
  destruct (ListNodes tgt w) as [[nodes|e] w1]; cbn [fst snd DiscoveredEndpointsByKey]; [|done].
  set (m := foldl (recordNode unmarshalDiscovered) ∅ nodes). intros H Hi.
  case_decide as Hm; rewrite st_ret_run in H; injection H as <- <-.
  { exists p. split; [done|]. split; [reflexivity|by left]. }
  exists (enrichOne m p). split; [by rewrite list_lookup_fmap, Hi|].
  destruct (enrichOne_cases m p) as [->|(ep & e & Hk & He & ->)]; [split; [reflexivity|by left]|].
  split; [by destruct p as [? ? ? []]|right].
  apply recordNodes_from in Hk as [Hk|Hobs]; [by rewrite lookup_empty in Hk|].
  destruct Hobs as (node & es & entry & Hn & Hes & Hin & Hu & ->).
  apply usable_parsed in He as (-> & Hport & Hip); [|done].
  exists nodes, node, es, entry. repeat (split; [done|]). done.
Qed.

(** ** What a reconcile may change *)

(** From [w] to [w'], the peer [x] of cluster [c] survives with at most more
    AllowedIPs, and never carries a mesh label. *)
Record unharmed (c : C) (x : string) (w w' : W) : Prop := {
  un_ok : world_ok w';
  un_kept : forall cur, peers c w !! x = Some cur -> exists cur', peers c w' !! x = Some cur' /\ kept cur cur';
  un_hist : is_Some (peers c w !! x) ->
    (forall p, seen c w p -> peer_Name p = x -> peer_Labels p !! LabelMesh = None) ->
    forall p, seen c w' p -> peer_Name p = x -> peer_Labels p !! LabelMesh = None;
}.

Lemma kept_labels p q : kept p q -> peer_Labels q = peer_Labels p.
Proof. intros [Hs _]. apply stored_spec in Hs as [_ ->]. done. Qed.

Lemma unharmed_refl c x w : world_ok w -> unharmed c x w w.
Proof. intros Hok. constructor; [done| |by auto]. intros cur Hx. exists cur. split; [done|reflexivity]. Qed.

Lemma unharmed_trans c x w1 w2 w3 : unharmed c x w1 w2 -> unharmed c x w2 w3 -> unharmed c x w1 w3.
Proof.
  intros [_ K1 H1] [Hok K2 H2]. constructor; [done| |].
  - intros cur Hx. destruct (K1 cur Hx) as (q & Hq & E1). destruct (K2 q Hq) as (r & Hr & E2).
    exists r. split; [done|by etrans].
  - intros [cur Hx] Hn. apply H2; [|by apply H1]. destruct (K1 cur Hx) as (q & Hq & _). eauto.
Qed.

Lemma quiet_unharmed c x w w' : quiet w w' -> unharmed c x w w'.
Proof.
  intros (Hok & Hh & Hp). constructor; [done| |].
  - intros cur Hx. exists cur. rewrite Hp. split; [done|reflexivity].
  - intros _ Hn p Hseen. by apply Hn, Hh.
Qed.

(** A step framed by names other than [x], on any cluster. *)
Lemma framed_unharmed c0 N c x w w' : world_ok w -> framed c0 N w w' -> (c0 = c -> x ∉ N) -> unharmed c x w w'.
Proof.
  intros Hok F HN. destruct (decide (c0 = c)) as [->|Hc].
  - specialize (HN eq_refl). constructor; [by eapply fr_ok| |].
    + intros cur Hx. by eapply fr_kept.
    + intros [cur Hx] Hn p Hp Hpx. destruct (fr_hist _ _ _ _ F p Hp) as [?|(q & Hq & Hk)]; [by rewrite Hpx|by auto|].
      rewrite (kept_labels q p Hk). rewrite Hpx in Hq.
      apply Hn; [by eapply peers_seen|by eapply peers_name].
  - constructor; [by eapply fr_ok| |].
    + intros cur Hx. exists cur. rewrite (fr_other _ _ _ _ F) by done. split; [done|reflexivity].
    + intros _ Hn p Hp. apply Hn. by apply (fr_other_hist _ _ _ _ F).
Qed.

(** A peer nobody manages: it exists and never carried a mesh label. *)
Definition unmanaged (c : C) (x : string) (w : W) : Prop :=
  is_Some (peers c w !! x) /\
  forall p, seen c w p -> peer_Name p = x -> peer_Labels p !! LabelMesh = None.

Lemma unharmed_unmanaged c x w w' : unharmed c x w w' -> unmanaged c x w -> unmanaged c x w'.
Proof.
  intros [_ K Hh] [[cur Hx] Hn]. split; [|by apply Hh].
  destruct (K cur Hx) as (q & Hq & _). eauto.
Qed.

(** A computation that harms no unmanaged peer [x] of cluster [c]. *)
Definition spares {A} (c : C) (x : string) (m : ST W A) : Prop :=
  forall w, world_ok w -> unmanaged c x w -> unharmed c x w (m w).2.

Lemma spares_ret {A} c x (a : A) : spares c x (mret a).
Proof. intros w Hok _. by apply unharmed_refl. Qed.

(** The continuation may rely on what the first computation returned. *)
Lemma spares_bind_result {A B} c x (m : ST W A) (f : A -> ST W B) (Q : A -> Prop) :
  spares c x m -> (forall w, world_ok w -> unmanaged c x w -> Q (m w).1) ->
  (forall a, Q a -> spares c x (f a)) -> spares c x (m ≫= f).
Proof.
  intros Hm HQ Hf w Hok Hu. st_run. pose proof (Hm w Hok Hu) as U1.
  eapply unharmed_trans; [exact U1|]. apply Hf; [by apply HQ|by eapply un_ok|by eapply unharmed_unmanaged].
Qed.

Lemma spares_bind {A B} c x (m : ST W A) (f : A -> ST W B) :
  spares c x m -> (forall a, spares c x (f a)) -> spares c x (m ≫= f).
Proof. intros Hm Hf. apply (spares_bind_result c x m f (fun _ => True)); auto. Qed.

Lemma spares_iter {A} c x (f : A -> ST W unit) l : (forall a, a ∈ l -> spares c x (f a)) -> spares c x (st_iter f l).
Proof.
  induction l as [|a l IH]; intros Hf; [apply spares_ret|]. cbn [st_iter].
  apply spares_bind; [apply Hf; left|]. intros _. apply IH. intros b Hb. apply Hf. by right.
Qed.

Lemma spares_collect {A B} c x (f : A -> ST W (list B)) l :
  (forall a, a ∈ l -> spares c x (f a)) -> spares c x (st_collect f l).
Proof.
  induction l as [|a l IH]; intros Hf; [apply spares_ret|]. cbn [st_collect].
  apply spares_bind; [apply Hf; left|]. intros bs. apply spares_bind; [|intros; apply spares_ret].
  apply IH. intros b Hb. apply Hf. by right.
Qed.

Lemma spares_quiet {A} c x (m : ST W A) : (forall w, world_ok w -> quiet w (m w).2) -> spares c x m.
Proof. intros H w Hok _. by apply quiet_unharmed, H. Qed.

Lemma spares_List c x c' sel : spares c x (List c' sel).
Proof.
  intros w Hok _. eapply (framed_unharmed c' ∅); [done|by apply List_framed|set_solver].
Qed.

Lemma spares_Delete c x c' p : (c' = c -> peer_Name p <> x) -> spares c x (Delete c' p).
Proof.
  intros Hn w Hok _. eapply framed_unharmed; [done|by apply Delete_framed|]. intros E. specialize (Hn E). set_solver.
Qed.

Lemma spares_ReconcilePeers c x c' mesh src desired :
  x ∉ (peer_Name <$> desired) -> spares c x (ReconcilePeers c' mesh src desired).
Proof.
  intros Hd w Hok [Hx Hn]. destruct (decide (c' = c)) as [->|Hc].
  - destruct (ReconcilePeers_framed c mesh src desired w x Hok Hd) as (N & HN & F).
    + intros p Hp Hpx. unfold OrphanSelector. apply bool_decide_eq_false. intros [Hl _].
      by rewrite (Hn p Hp Hpx) in Hl.
    + by eapply framed_unharmed.
  - destruct (ReconcilePeers_touches c' mesh src desired w Hok) as (N & F & _). by eapply framed_unharmed.
Qed.

#[local] Hint Resolve spares_ret spares_List ListNodes_quiet GetMesh_quiet ListMeshes_quiet UpdateMesh_quiet
  UpdateMeshStatus_quiet rangeClusters_quiet : effects.

(** Objects selected by their mesh label are not the unmanaged peer. *)
Lemma listed_not_unmanaged c x c' sel w items p :
  world_ok w -> unmanaged c x w -> (List c' sel w).1 = Ok items -> p ∈ items ->
  peer_Labels p !! LabelMesh <> None -> c' = c -> peer_Name p <> x.
Proof.
  intros Hok [_ Hn] Hl Hp Hlab -> Hx. apply Hlab, Hn; [|done].
  destruct (List c sel w) as [r w1] eqn:E. simpl in Hl. subst r. by eapply List_seen.
Qed.

Lemma spares_DeleteStale c x c' mesh valid : spares c x (DeleteStaleSourceClusters c' mesh valid).
Proof.
  unfold DeleteStaleSourceClusters.
  apply (spares_bind_result c x _ _ (fun r => forall items p, r = Ok items -> p ∈ items -> c' = c -> peer_Name p <> x)).
  - auto with effects.
  - intros w Hok Hu items p Hr Hp Hc. eapply listed_not_unmanaged; eauto.
    destruct (List c' (MeshSelector mesh) w) as [r w1] eqn:E. simpl in Hr. subst r.
    destruct (List_seen c' (MeshSelector mesh) w items w1 p Hok E Hp) as [_ Hs].
    unfold MeshSelector in Hs. apply bool_decide_eq_true in Hs. by rewrite Hs.
  - intros [items|e] Hq; [|auto with effects]. apply spares_collect. intros p Hp. unfold deleteStaleOne.
    case_decide; [auto with effects|]. apply spares_bind; [apply spares_Delete; by eapply Hq|].
    intros [u|[]]; auto with effects.
Qed.

Lemma spares_sweep c x c' living : spares c x (sweepOrphanPeersInCluster c' living).
Proof.
  unfold sweepOrphanPeersInCluster.
  apply (spares_bind_result c x _ _ (fun r => forall items p, r = Ok items -> p ∈ items ->
    peer_Labels p !! LabelMesh <> None -> c' = c -> peer_Name p <> x)).
  - auto with effects.
  - intros w Hok Hu items p Hr Hp. by eapply listed_not_unmanaged.
  - intros [items|e] Hq; [|auto with effects]. apply spares_iter. intros p Hp. unfold sweepOne.
    case_decide as Hl; [auto with effects|]. case_decide; [auto with effects|].
    apply spares_bind; [|auto with effects]. apply spares_Delete. eapply Hq; [done|done|].
    intros E. by rewrite E in Hl.
Qed.

Lemma buildDesiredPeers_names meshName entry nodes keepalive ps p :
  buildDesiredPeers meshName entry nodes keepalive = Ok ps -> p ∈ ps ->
  exists n, n ∈ nodes /\ peer_Name p = Name meshName (entry_Name entry) (node_Name n) /\
    peer_Labels p = Labels meshName (entry_Name entry).
Proof.
  unfold buildDesiredPeers. generalize (CollectAnchorCIDRs entry nodes) as extras. revert ps.
  induction nodes as [|n nodes IH]; intros ps extras Hb Hp; cbn [buildLoop] in Hb.
  { injection Hb as <-. by apply not_elem_of_nil in Hp. }
  destruct (BuildPeer _ _ _ _ _) as [q|] eqn:Eq; [|done].
  destruct (buildLoop _ _ nodes _ _) as [qs|] eqn:Eqs; [|done]. injection Hb as <-.
  apply elem_of_cons in Hp as [->|Hp].
  - exists n. split; [left|]. by apply BuildPeer_Ok in Eq as (? & ? & ? & ? & ? & _ & _ & _ & _ & ->).
  - destruct (IH qs [] Eqs Hp) as (n' & ? & ?). exists n'. split; [by right|done].
Qed.

Lemma enrichOne_name m p : peer_Name (enrichOne m p) = peer_Name p.
Proof. destruct (enrichOne_cases m p) as [->|(? & ? & _ & _ & ->)]; done. Qed.

(** The names pushed to a target are those of the desired peers. *)
Lemma enrich_names tgt desired (w : W) ps :
  (enrichEndpointsFromDiscovered (C := C) tgt desired w).1 = Ok ps -> peer_Name <$> ps = peer_Name <$> desired.
Proof.
  unfold enrichEndpointsFromDiscovered. st_run.
  destruct (DiscoveredEndpointsByKey _ _) as [m|]; [|done]. case_decide; rewrite st_ret_run; cbn [fst]; intros [= <-]; [done|].
  rewrite <- list_fmap_compose. apply list_fmap_ext. intros i p _. apply enrichOne_name.
Qed.

Lemma spares_enrich c x tgt desired : spares c x (enrichEndpointsFromDiscovered (C := C) tgt desired).
Proof.
  unfold enrichEndpointsFromDiscovered. apply spares_bind; [apply spares_quiet; auto with effects|].
  intros r. destruct (DiscoveredEndpointsByKey _ _); [case_decide|]; auto with effects.
Qed.

Lemma spares_pushLoop c x meshName src desired targets :
  x ∉ (peer_Name <$> desired) -> spares c x (pushLoop registry meshName src desired targets).
Proof.
  intros Hx. induction targets as [|t targets IH]; [apply spares_ret|]. cbn [pushLoop].
  case_decide; [done|]. destruct (Client registry (entry_Name t)) as [tgt|]; [|done].
  apply (spares_bind_result c x _ _ (fun r => forall ps, r = Ok ps -> peer_Name <$> ps = peer_Name <$> desired)).
  - apply spares_enrich.
  - intros w _ _ ps. apply enrich_names.
  - intros r Hr. apply spares_bind.
    + apply spares_ReconcilePeers. destruct r as [ps|]; [|done]. by rewrite (Hr ps eq_refl).
    + intros [|e es]; [done|apply spares_ret].
Qed.

(** [x] is not a name this mesh can generate. *)
Definition not_generated (meshName x : string) : Prop := forall src node, Name meshName src node <> x.

Lemma spares_push c x mesh src nodes :
  not_generated (mesh_Name mesh) x -> spares c x (pushPeersToTargets registry mesh src nodes).
Proof.
  intros Hx. unfold pushPeersToTargets.
  destruct (buildDesiredPeers _ _ _ _) as [desired|[n e]] eqn:Eb; [|apply spares_ret].
  apply spares_bind; [|intros [e|]; apply spares_ret]. apply spares_pushLoop.
  intros (p & -> & Hp)%list_elem_of_fmap. destruct (buildDesiredPeers_names _ _ _ _ _ p Eb Hp) as (n & _ & Hn & _).
  by apply (Hx (entry_Name src) (node_Name n)).
Qed.

Lemma spares_reconcileAll c x mesh :
  not_generated (mesh_Name mesh) x -> spares c x (reconcileAllClusters registry mesh).
Proof.
  intros Hx. unfold reconcileAllClusters. generalize (mesh_Clusters mesh) as sources.
  induction sources as [|src sources IH]; [apply spares_ret|]. cbn [reconcileSources]. apply spares_bind.
  - unfold reconcileSource. destruct (Client registry (entry_Name src)) as [srcClient|]; [|apply spares_ret].
    apply spares_bind; [apply spares_quiet; auto with effects|]. intros [nodes|e]; [|apply spares_ret].
    destruct (filterNodes nodes src) as [[valid skipped] transient].
    apply spares_bind; [by apply spares_push|]. intros [n|e]; apply spares_ret.
  - intros [[st inc]|e]; [|apply spares_ret]. apply spares_bind; [done|]. intros [[ss inc']|e]; apply spares_ret.
Qed.

Lemma spares_cleanupStale c x mesh : spares c x (cleanupStaleSourceClusters registry mesh).
Proof.
  unfold cleanupStaleSourceClusters. apply spares_bind; [apply spares_quiet; auto with effects|]. intros names.
  apply spares_iter. intros name _. destruct (Client registry name); [|apply spares_ret].
  apply spares_bind; [apply spares_DeleteStale|intros; apply spares_ret].
Qed.

Lemma spares_cleanupOrphans c x : spares c x (cleanupOrphanMeshPeers registry).
Proof.
  unfold cleanupOrphanMeshPeers, collectLivingMeshes. apply spares_bind.
  - apply spares_bind; [apply spares_quiet; auto with effects|]. intros [items|e]; apply spares_ret.
  - intros [living|]; [|apply spares_ret]. apply spares_bind; [apply spares_quiet; auto with effects|].
    intros names. apply spares_iter. intros name _.
    destruct (Client registry name); [apply spares_sweep|apply spares_ret].
Qed.

Lemma spares_handleDeletion c x mesh : spares c x (handleDeletion registry mesh).
Proof.
  unfold handleDeletion. destruct (negb _); [apply spares_ret|]. apply spares_bind.
  - apply spares_iter. intros e _. apply spares_iter. intros t _. unfold deletePair.
    case_decide; [apply spares_ret|]. destruct (Client registry _); [|apply spares_ret].
    apply spares_bind; [|intros; apply spares_ret]. apply spares_ReconcilePeers. apply not_elem_of_nil.
  - intros _. apply spares_bind; [apply spares_quiet; auto with effects|]. intros [u|e]; apply spares_ret.
Qed.

Lemma spares_updateStatus c x mesh ss : spares c x (updateStatus (C := C) mesh ss).
Proof.
  unfold updateStatus. apply spares_bind; [apply spares_quiet; auto with effects|]. intros [u|e]; apply spares_ret.
Qed.

Lemma spares_reconcileLive c x mesh :
  not_generated (mesh_Name mesh) x -> spares c x (reconcileLive registry mesh).
Proof.
  intros Hx. unfold reconcileLive. apply spares_bind; [by apply spares_reconcileAll|].
  intros [[ss inc]|e]; [|apply spares_ret]. apply spares_bind; [apply spares_cleanupStale|]. intros _.
  apply spares_bind; [apply spares_cleanupOrphans|]. intros _.
  apply spares_bind; [apply spares_updateStatus|]. intros err. apply spares_ret.
Qed.

Lemma spares_reconcile c x message ns name :
  not_generated name x -> spares c x (reconcile registry message ns name).
Proof.
  intros Hx. unfold reconcile.
  apply (spares_bind_result c x _ _ (fun r => forall m, r = Ok m -> mesh_Name m = name)).
  { apply spares_quiet; auto with effects. }
  { intros w _ _ m Hm. destruct (GetMesh ns name w) as [r w1] eqn:E. simpl in Hm. subst r. by eapply GetMesh_name. }
  intros [mesh|e] Hr; [|destruct e; apply spares_ret]. specialize (Hr mesh eq_refl). subst name.
  destruct (mesh_Deleting mesh); [apply spares_bind; [apply spares_handleDeletion|intros; apply spares_ret]|].
  destruct (negb _).
  { apply spares_bind; [apply spares_quiet; auto with effects|]. intros [u|e]; apply spares_ret. }
  unfold validateMeshNetworks. apply spares_bind.
  { apply spares_bind; [apply spares_quiet; auto with effects|]. intros [items|e]; apply spares_ret. }
  intros [e|]; [|by apply spares_reconcileLive]. apply spares_bind; [|intros; apply spares_ret].
  unfold setOverlapCondition. apply spares_bind; [apply spares_quiet; auto with effects|]. intros [u|er]; apply spares_ret.
Qed.

(** C11. A reconcile of any ClusterMesh, on any branch (deletion, overlap, live,
    errors midway) and with stale reads, never harms a peer the operator does not
    manage: a peer that never carried the mesh label, under a name the mesh does not
    generate, still exists on its cluster afterwards, with the same labels, key,
    endpoint and keepalive and all its AllowedIPs. *)
Theorem reconcile_spares_unmanaged message ns name c x w cur :
  world_ok w -> peers c w !! x = Some cur ->
  (forall p, seen c w p -> peer_Name p = x -> peer_Labels p !! LabelMesh = None) ->
  (forall src node, Name name src node <> x) ->
  exists cur', peers c (reconcile registry message ns name w).2 !! x = Some cur' /\ kept cur cur'.
Proof.
  intros Hok Hx Hn Hname. eapply un_kept; [|done].
  apply spares_reconcile; [done|done|]. split; [by eexists|done].
Qed.

(** [SetStatusCondition] adds the condition, and keeps those of other types. *)
Lemma SetStatusCondition_in cs n : n ∈ SetStatusCondition cs n.
Proof. induction cs as [|c cs IH]; simpl; [left|]. case_decide; [left|by right]. Qed.

Lemma SetStatusCondition_keeps cs n o : o ∈ cs -> cond_Type o <> cond_Type n -> o ∈ SetStatusCondition cs n.
Proof.
  intros Ho Hne. induction cs as [|c cs IH]; [by apply not_elem_of_nil in Ho|]. simpl.
  apply elem_of_cons in Ho as [->|Ho]; case_decide; [done|left|by right|right; auto].
Qed.

(** C16. The overlap gate: when the meshes of the namespace are listed and do not
    pass [ValidateMeshNetworks], a reconcile writes no peer on any cluster and makes
    one write, a status with NetworksOverlap=True and Ready=False. The overlap is not
    an error: when the status is stored, the request ends with no error and no
    requeue delay, so nothing repeats it; only a failure of that write is returned
    as an error, and retried. *)
Theorem reconcile_overlap_gate message ns name w mesh w1 items w2 e :
  world_ok w ->
  GetMesh ns name w = (Ok mesh, w1) -> mesh_Deleting mesh = false -> ContainsFinalizer mesh = true ->
  ListMeshes (Some (mesh_Namespace mesh)) w1 = (Ok items, w2) -> ValidateMeshNetworks items = Some e ->
  let r := reconcile registry message ns name w in
  (forall c, peers c r.2 = peers c w) /\
  exists m', r.2 = (UpdateMeshStatus m' w2).2 /\
    selectResult r.1.1 r.1.2 =
      (0, match (UpdateMeshStatus m' w2).1 with Ok _ => None | Err er => Some (UpdatingOverlapStatus er) end) /\
    mesh_Namespace m' = mesh_Namespace mesh /\ mesh_Name m' = mesh_Name mesh /\ mesh_Clusters m' = mesh_Clusters mesh /\
    mkCondition "NetworksOverlap" ConditionTrue "CIDROverlap" (message e) (mesh_Generation mesh) ∈ mesh_Conditions m' /\
    mkCondition "Ready" ConditionFalse "NetworksOverlap" "CIDR overlap detected across meshes" (mesh_Generation mesh)
      ∈ mesh_Conditions m'.
Proof.
  intros Hok Eg Hdel Hfin El Ev r. subst r. unfold reconcile. rewrite st_bind_run, Eg. cbn [fst snd].
  rewrite Hdel, Hfin. cbn [negb]. st_run. unfold validateMeshNetworks. rewrite st_bind_run, El.
  cbn [fst snd]. rewrite st_ret_run, Ev. st_run. unfold setOverlapCondition. st_run.
  set (m1 := setCondition mesh "NetworksOverlap" ConditionTrue "CIDROverlap" (message e)).
  set (m2 := setCondition m1 "Ready" ConditionFalse "NetworksOverlap" _).
  pose proof (GetMesh_quiet ns name w Hok) as (Hok1 & _ & P1). rewrite Eg in Hok1, P1. cbn [snd] in Hok1, P1.
  pose proof (ListMeshes_quiet (Some (mesh_Namespace mesh)) w1 Hok1) as (Hok2 & _ & P2).
  rewrite El in Hok2, P2. cbn [snd] in Hok2, P2.
  pose proof (UpdateMeshStatus_quiet m2 w2 Hok2) as (_ & _ & P3).
  destruct (UpdateMeshStatus m2 w2) as [[u|er] w3] eqn:EU; cbn [fst snd] in *; rewrite !st_ret_run; cbn [fst snd];
    (split; [intros c; by rewrite P3, P2, P1|]; exists m2; rewrite EU; do 5 (split; [done|]);
     split; [apply SetStatusCondition_keeps; [apply SetStatusCondition_in|done]|apply SetStatusCondition_in]).
Qed.

End ReconcilerFacts.

(** ** The in-memory environment *)

Module MemoryController.
Import Memory.

Definition same_mesh (a b : ClusterMesh) : bool :=
  bool_decide (mesh_Namespace a = mesh_Namespace b /\ mesh_Name a = mesh_Name b).
Definition with_meshes (w : world) (ms : list ClusterMesh) : world :=
  mkWorld (w_peers w) (w_history w) (w_next w) (w_nodes w) ms.
Definition replace (m : ClusterMesh) (ms : list ClusterMesh) : list ClusterMesh :=
  (fun o => if same_mesh o m then m else o) <$> ms.

#[export] Instance capi : ControllerAPI string world := {
  ListNodes c w := (Ok (default [] (w_nodes w !! c)), w);
  GetMesh ns name w :=
    (match List.find (fun m => bool_decide (mesh_Namespace m = ns /\ mesh_Name m = name)) (w_meshes w) with
     | Some m => Ok m | None => Err NotFound end, w);
  ListMeshes ns w :=
    (Ok (match ns with
         | None => w_meshes w
         | Some n => base.filter (fun m => mesh_Namespace m = n) (w_meshes w)
         end), w);
  UpdateMesh m w := (Ok tt, with_meshes w (replace m (w_meshes w)));
  UpdateMeshStatus m w := (Ok tt, with_meshes w (replace m (w_meshes w)));
  rangeClusters m w := ((map_to_list m).*1, w);
  unmarshalDiscovered _ := None;
}.

Lemma quiet_refl (w : world) : ok w -> quiet (C := string) w w.
Proof. intros Hok. split; [exact Hok|by split]. Qed.

Lemma quiet_meshes (w : world) ms : ok w -> quiet (C := string) w (with_meshes w ms).
Proof. intros [H1 H2 H3]. split; [by constructor|by split]. Qed.

#[export] Program Instance claws : ControllerLaws string world := {}.
Next Obligation. intros. by apply quiet_refl. Qed.
Next Obligation. intros. by apply quiet_refl. Qed.
Next Obligation. intros. by apply quiet_refl. Qed.
Next Obligation. intros. by apply quiet_meshes. Qed.
Next Obligation. intros. by apply quiet_meshes. Qed.
Next Obligation. intros. by apply quiet_refl. Qed.
Next Obligation. done. Qed.
Next Obligation.
  intros ns name w m w'. simpl. destruct (List.find _ _) as [m'|] eqn:E; [|done]. intros [= <- _].
  apply List.find_some in E as [_ E]. by apply bool_decide_eq_true in E.
Qed.

End MemoryController.

#[export] Existing Instances MemoryController.capi MemoryController.claws.

(** ** Scenarios *)

Module Scenario.

(** A cluster with one node: pods in 10.[k].1.0/24, WireGuard in 100.[k].0.0/16. *)
Definition entry (name k : string) : ClusterEntry :=
  mkClusterEntry name false None ["10." +:+ k +:+ ".0.0/16"; "100." +:+ k +:+ ".0.0/16"] 51820 0.
Definition node (name k : string) : Node :=
  mkNode name (<[AnnotationWireguardIP := "100." +:+ k +:+ ".0.1/16"]> {[AnnotationPublicKey := "key-" +:+ name]})
         ["10." +:+ k +:+ ".1.0/24"] [mkNodeAddress NodeExternalIP ("192.0.2." +:+ k)].

Definition a : ClusterEntry := entry "a" "1".
Definition b : ClusterEntry := entry "b" "2".
Definition c : ClusterEntry := entry "c" "3".

Definition mesh (ns : string) (clusters : list ClusterEntry) : ClusterMesh :=
  mkClusterMesh ns "m" 1 false [finalizerName] clusters [] [].
Definition deleting (m : ClusterMesh) : ClusterMesh :=
  mkClusterMesh (mesh_Namespace m) (mesh_Name m) (mesh_Generation m) true (mesh_Finalizers m)
                (mesh_Clusters m) (mesh_StatusClusters m) (mesh_Conditions m).

Definition nodes : gmap string (list Node) :=
  <["a" := [node "na" "1"]]> (<["b" := [node "nb" "2"]]> {["c" := [node "nc" "3"]]}).
Definition start (meshes : list ClusterMesh) : Memory.world := Memory.mkWorld ∅ [] 1 nodes meshes.

Definition everywhere : ClusterRegistry string := mkRegistry {["a" := "a"; "b" := "b"; "c" := "c"]} "a".
Definition only_a : ClusterRegistry string := mkRegistry {["a" := "a"]} "a".

Definition run (reg : ClusterRegistry string) (ns : string) : ST Memory.world (reconcileState * option controller_error) :=
  reconcile reg (fun _ => "overlap") ns "m".

Definition has (cl : string) (w : Memory.world) (name : string) : bool :=
  bool_decide (is_Some (Memory.objects cl w !! name)).

End Scenario.

(** A full run of the reconciler on a healthy two-cluster mesh: both clusters
    get the other's peer, the result is "synced", and a second run changes nothing. *)
Theorem reconcile_two_clusters :
  let w0 := Scenario.start [Scenario.mesh "ns" [Scenario.a; Scenario.b]] in
  let r1 := Scenario.run Scenario.everywhere "ns" w0 in
  let r2 := Scenario.run Scenario.everywhere "ns" r1.2 in
  r1.1 = (reconcileStateSynced, None) /\
  Scenario.has "a" r1.2 (Name "m" "b" "nb") = true /\ Scenario.has "b" r1.2 (Name "m" "a" "na") = true /\
  r2.1 = (reconcileStateSynced, None) /\ bool_decide (Memory.w_peers r2.2 = Memory.w_peers r1.2) = true.
Proof. vm_compute. repeat split. Qed.

(** Deletion drops the finalizer even where peers could not be removed: with
    cluster b missing from the registry, the peers of the mesh stay on b, while the
    resource loses its finalizer and the reconcile reports success. *)
Theorem deletion_leaves_unreachable_peers :
  let m := Scenario.mesh "ns" [Scenario.a; Scenario.b] in
  let w1 := (Scenario.run Scenario.everywhere "ns" (Scenario.start [m])).2 in
  let w2 := MemoryController.with_meshes w1 [Scenario.deleting m] in
  let r := Scenario.run Scenario.only_a "ns" w2 in
  r.1 = (reconcileStateDone, None) /\ mesh_Finalizers <$> Memory.w_meshes r.2 = [[]] /\
  Scenario.has "b" r.2 (Name "m" "a" "na") = true.
Proof. vm_compute. repeat split. Qed.

(** Meshes of the same name in two namespaces undo each other's work: after
    tenant-1's mesh of a and b has converged, a reconcile of tenant-2's mesh of a
    and c deletes from a the peer of b, and both runs report success. *)
Theorem same_name_meshes_conflict :
  let w0 := Scenario.start [Scenario.mesh "tenant-1" [Scenario.a; Scenario.b]; Scenario.mesh "tenant-2" [Scenario.a; Scenario.c]] in
  let r1 := Scenario.run Scenario.everywhere "tenant-1" w0 in
  let r2 := Scenario.run Scenario.everywhere "tenant-2" r1.2 in
  r1.1 = (reconcileStateSynced, None) /\ r2.1 = (reconcileStateSynced, None) /\
  Scenario.has "a" r1.2 (Name "m" "b" "nb") = true /\ Scenario.has "a" r2.2 (Name "m" "b" "nb") = false.
Proof. vm_compute. repeat split. Qed.

(** ** Concrete instances *)

Module Witness.
Import Scenario.

Definition two : ClusterMesh := mesh "ns" [a; b].
Definition manual : Peer := mkPeer "laptop" ∅ "" (mkPeerSpec ["10.99.0.1/32"] None 0 "" "K").

Lemma mesh_start_ok ms : world_ok (C := string) (start ms).
Proof.
  constructor.
  - intros cl x p H. unfold Memory.objects, start in H. simpl in H. by rewrite lookup_empty in H.
  - intros cl p H. by apply not_elem_of_nil in H.
  - intros cl c' p q H. by apply not_elem_of_nil in H.
Qed.

Definition with_manual : Memory.world := (Create "a" manual (start [two])).2.

Lemma mesh_manual_ok : world_ok (C := string) with_manual.
Proof. apply Create_ok, mesh_start_ok. Qed.

(** A mesh whose two clusters claim the same network. *)
Definition clash : ClusterMesh := mesh "ns" [a; entry "b" "1"].

End Witness.

Lemma buildDesiredPeers_well_formed_witness :
  exists p, buildDesiredPeers "m" Scenario.a (filterNodes [Scenario.node "na" "1"] Scenario.a).1.1 25 = Ok [p] /\ wf_peer p.
Proof.
  destruct (buildDesiredPeers "m" Scenario.a (filterNodes [Scenario.node "na" "1"] Scenario.a).1.1 25) as [[|p []]|] eqn:E;
    [discriminate E| |discriminate E|discriminate E].
  exists p. split; [reflexivity|].
  apply (buildDesiredPeers_well_formed "m" Scenario.a [Scenario.node "na" "1"] 25 [p]).
  - cbn. lia.
  - cbn. lia.
  - intros raw [->|[->|[]%not_elem_of_nil]%elem_of_cons]%elem_of_cons; eexists; vm_compute; reflexivity.
  - exact E.
  - left.
Defined.

Lemma reconcile_spares_unmanaged_witness :
  exists cur', peers "a" (Scenario.run Scenario.everywhere "ns" Witness.with_manual).2 !! "laptop" = Some cur' /\
    kept (with_ResourceVersion Witness.manual "1") cur'.
Proof.
  apply (reconcile_spares_unmanaged Scenario.everywhere (fun _ => "overlap") "ns" "m" "a" "laptop" Witness.with_manual).
  - exact Witness.mesh_manual_ok.
  - vm_compute. reflexivity.
  - intros p Hp _. apply list_elem_of_singleton in Hp. injection Hp as ->. reflexivity.
  - intros src node. destruct (Name_head "m"%char "" src node eq_refl) as [t Ht]. rewrite Ht. discriminate.
Defined.

Lemma reconcile_overlap_gate_witness :
  let r := Scenario.run Scenario.everywhere "ns" (Scenario.start [Witness.clash]) in
  peers "a" r.2 = peers "a" (Scenario.start [Witness.clash]) /\ selectResult r.1.1 r.1.2 = (0, None).
Proof.
  destruct (ValidateMeshNetworks [Witness.clash]) as [e|] eqn:E; [|discriminate E].
  destruct (reconcile_overlap_gate Scenario.everywhere (fun _ => "overlap") "ns" "m" (Scenario.start [Witness.clash])
    Witness.clash (Scenario.start [Witness.clash]) [Witness.clash] (Scenario.start [Witness.clash]) e) as (H1 & m' & _ & H2 & Hns & Hn & _).
  - apply Witness.mesh_start_ok.
  - reflexivity.
  - reflexivity.
  - reflexivity.
  - reflexivity.
  - exact E.
  - split; [apply H1|]. vm_compute. reflexivity.
Defined.

Lemma filterNodes_distinct_hosts_witness :
  norm [0;0;0;0;0;0;0;0;0;0;255;255;100;1;0;1] <> norm [0;0;0;0;0;0;0;0;0;0;255;255;100;1;0;2].
Proof.
  apply (filterNodes_distinct_hosts
    [Scenario.node "n1" "1"; mkNode "n2" (<[AnnotationWireguardIP := "100.1.0.2/32"]> {[AnnotationPublicKey := "k2"]}) ["10.1.2.0/24"] []]
    Scenario.a 0 1 (Scenario.node "n1" "1")
    (mkNode "n2" (<[AnnotationWireguardIP := "100.1.0.2/32"]> {[AnnotationPublicKey := "k2"]}) ["10.1.2.0/24"] [])
    _ (net_of "100.1.0.0/16") _ (net_of "100.1.0.2/32")); [lia|vm_compute; reflexivity..].
Defined.

Lemma buildDesiredPeers_complete_witness :
  exists ps, buildDesiredPeers "m" Scenario.a (filterNodes [Scenario.node "n1" "1"] Scenario.a).1.1 25 = Ok ps /\
    length ps = 1%nat.
Proof.
  destruct (buildDesiredPeers_complete "m" Scenario.a [Scenario.node "n1" "1"] 25) as (ps & H1 & H2 & _).
  - simpl. lia.
  - exists ps. split; [exact H1|]. rewrite H2. vm_compute. reflexivity.
Defined.

(** A target whose node reports an address for "key-na". *)
#[local] Instance discovering : ControllerAPI string Memory.world := {
  ListNodes _ w := (Ok [discovering_node], w);
  GetMesh _ _ w := (Err NotFound, w);
  ListMeshes _ w := (Ok [], w);
  UpdateMesh _ w := (Ok tt, w);
  UpdateMeshStatus _ w := (Ok tt, w);
  rangeClusters m w := ((map_to_list m).*1, w);
  unmarshalDiscovered := example_unmarshal;
}.

Lemma enrichEndpoints_only_endpoints_witness :
  exists p', same_but_endpoint (PeerReconciler.Scenario.peer_of "m" "a" "n" "K1" ["10.1.1.0/24"]) p' /\
    spec_Endpoint (peer_Spec p') = Some (mkPeerEndpoint "" "198.51.100.9" 40000).
Proof.
  set (p := PeerReconciler.Scenario.peer_of "m" "a" "n" "K1" ["10.1.1.0/24"]).
  set (e := with_Endpoint p (Some (mkPeerEndpoint "" "198.51.100.9" 40000))).
  destruct (enrichEndpoints_only_endpoints (capi := discovering) "t" [p] (Scenario.start []) [e] (Scenario.start []) 0 p)
    as (p' & H1 & H2 & _).
  - vm_compute. reflexivity.
  - reflexivity.
  - exists p'. split; [exact H2|]. injection H1 as <-. reflexivity.
Defined.
