(* ===== verification/Requests.v ===== *)
(** * What the operator asks of servers it does not control

    The reconciles of the other files run on servers that obey the laws of
    [PeerAPILaws]: nobody else writes while a reconcile runs. Here nothing is assumed
    of the servers but that a list honours its selector. Other actors may write at
    any moment, calls may fail, take effect late or twice, and replies may contradict
    each other. The reconcile runs on a world that records every reply it reads and
    every write it requests, and each request is shown to be justified by what has
    been read before it in the same reconcile.

    The proofs use a small program logic: [ensures K m Q] says that [m], run when the
    events [K] have been recorded, requests only what is justified, and ends with a
    result and further recorded events that satisfy [Q]. *)

From Stdlib Require Import String.
From S2P Require Import Prelude GoStrings GoNet Types Kilonode ValidationMesh ValidationNode Naming Builder.
From S2P Require Import Kube PeerReconciler Registry Controller.
Open Scope Z_scope.
Open Scope go_scope.

(** ** Events *)

(** Replies that were read, and writes that were requested. *)
Inductive event (C : Type) : Type :=
| Listed (c : C) (items : list Peer)
| ListedNodes (c : C) (nodes : list Node)
| ListedMeshes (ns : option string) (reply : result kube_error (list ClusterMesh))
| GotMesh (mesh : ClusterMesh)
| Created (c : C) (p : Peer)
| Updated (c : C) (p : Peer)
| Deleted (c : C) (p : Peer)
| UpdatedMesh (mesh : ClusterMesh)
| UpdatedMeshStatus (mesh : ClusterMesh).
Arguments Listed {C}. Arguments ListedNodes {C}. Arguments ListedMeshes {C}. Arguments GotMesh {C}.
Arguments Created {C}. Arguments Updated {C}. Arguments Deleted {C}.
Arguments UpdatedMesh {C}. Arguments UpdatedMeshStatus {C}.

Definition is_read {C} (ev : event C) : bool :=
  match ev with Listed _ _ | ListedNodes _ _ | ListedMeshes _ _ | GotMesh _ => true | _ => false end.

(** A server about which only this is known: a list returns what its selector
    selects, and a Go loop over a map sees entries of the map. *)
Class AnyServer (C W : Type) `{PeerAPI C W} : Prop := {
  any_selects c sel w l p : (List c sel w).1 = Ok l -> p ∈ l -> sel (peer_Labels p) = true;
  any_range m w (x : string) (p : Peer) : (x, p) ∈ (range m w).1 -> m !! x = Some p;
}.

(** ** The recording world *)

Section Recorded.
Context {C W : Type} {api : PeerAPI C W} {capi : ControllerAPI C W}.

Abbreviation world := (W * list (event C))%type.

(** An operation whose reply is recorded, or whose request is. *)
Definition read {A} (m : ST W A) (ev : A -> list (event C)) : ST world A := fun w =>
  let '(a, w') := m w.1 in (a, (w', ev a ++ w.2)).
Definition request {A} (m : ST W A) (ev : event C) : ST world A := fun w =>
  let '(a, w') := m w.1 in (a, (w', ev :: w.2)).

Definition on_ok {A} (f : A -> event C) (r : result kube_error A) : list (event C) :=
  match r with Ok a => [f a] | Err _ => [] end.

#[export] Instance recorded_api : PeerAPI C world := {
  List c sel := read (List c sel) (on_ok (Listed c));
  Create c p := request (Create c p) (Created c p);
  Update c p := request (Update c p) (Updated c p);
  Delete c p := request (Delete c p) (Deleted c p);
  range m := read (range m) (fun _ => []);
}.

#[export] Instance recorded_capi : ControllerAPI C world := {
  ListNodes c := read (ListNodes c) (on_ok (ListedNodes c));
  GetMesh ns name := read (GetMesh ns name) (on_ok GotMesh);
  ListMeshes ns := read (ListMeshes ns) (fun r => [ListedMeshes ns r]);
  UpdateMesh m := request (UpdateMesh m) (UpdatedMesh m);
  UpdateMeshStatus m := request (UpdateMeshStatus m) (UpdatedMeshStatus m);
  rangeClusters m := read (rangeClusters m) (fun _ => []);
  unmarshalDiscovered := unmarshalDiscovered;
}.

(** ** Justified requests *)

Context (registry : ClusterRegistry C).
Implicit Types (K : list (event C)) (m : ClusterMesh) (s t : ClusterEntry) (c : C).

(** The mesh was read, is not being deleted and has its finalizer; the meshes of its
    namespace were listed, and what the list returned, if anything, is valid. *)
Definition live K m : Prop :=
  GotMesh m ∈ K /\ mesh_Deleting m = false /\ ContainsFinalizer m = true /\
  exists r, ListedMeshes (Some (mesh_Namespace m)) r ∈ K /\ forall items, r = Ok items -> ValidateMeshNetworks items = None.

(** [c] is the cluster of a target other than the source [s]. *)
Definition target m s c : Prop :=
  s ∈ mesh_Clusters m /\
  exists t, t ∈ mesh_Clusters m /\ entry_Name t <> entry_Name s /\ Client registry (entry_Name t) = Some c.

(** [ps] are the peers built from a list of the nodes of [s]. *)
Definition built K m s (ps : list Peer) : Prop :=
  exists cs nodes, Client registry (entry_Name s) = Some cs /\ ListedNodes cs nodes ∈ K /\
    buildDesiredPeers (mesh_Name m) s (filterNodes nodes s).1.1 (meshPersistentKeepalive m) = Ok ps.

(** [d] is one of them, with an endpoint of its own or one that was discovered. *)
Definition source_peer K m s (d : Peer) : Prop :=
  exists ps d0, built K m s ps /\ d0 ∈ ps /\ with_Endpoint d None = with_Endpoint d0 None.

Definition listed K c (p : Peer) : Prop := exists items, Listed c items ∈ K /\ p ∈ items.

(** Nothing but finalizers, and nothing but the status. *)
Definition same_spec m m' : Prop :=
  mesh_Namespace m' = mesh_Namespace m /\ mesh_Name m' = mesh_Name m /\ mesh_Deleting m' = mesh_Deleting m /\
  mesh_Finalizers m' = mesh_Finalizers m /\ mesh_Clusters m' = mesh_Clusters m.

Inductive justified K : event C -> Prop :=
| justified_read ev : is_read ev = true -> justified K ev
| justified_create m s c d :
    live K m -> target m s c -> source_peer K m s d -> justified K (Created c d)
| justified_update m s c e d :
    live K m -> target m s c -> source_peer K m s d -> listed K c e -> peer_Name e = peer_Name d ->
    OrphanSelector (mesh_Name m) (entry_Name s) (peer_Labels e) = true ->
    justified K (Updated c (with_Spec e (peer_Spec d)))
| justified_merge m s c e d :
    live K m -> target m s c -> source_peer K m s d -> listed K c e ->
    spec_PublicKey (peer_Spec e) = spec_PublicKey (peer_Spec d) -> peer_Name e <> peer_Name d ->
    justified K (Updated c (with_AllowedIPs e
      (mergeAllowedIPs (spec_AllowedIPs (peer_Spec e)) (spec_AllowedIPs (peer_Spec d)))))
| justified_orphan m s c p ps :
    live K m -> target m s c -> built K m s ps -> listed K c p ->
    OrphanSelector (mesh_Name m) (entry_Name s) (peer_Labels p) = true -> peer_Name p ∉ (peer_Name <$> ps) ->
    justified K (Deleted c p)
| justified_deletion m s c p :
    GotMesh m ∈ K -> mesh_Deleting m = true -> ContainsFinalizer m = true -> target m s c -> listed K c p ->
    OrphanSelector (mesh_Name m) (entry_Name s) (peer_Labels p) = true -> justified K (Deleted c p)
| justified_stale m n c p :
    live K m -> Client registry n = Some c -> listed K c p -> peer_Labels p !! LabelMesh = Some (mesh_Name m) ->
    default EmptyString (peer_Labels p !! LabelSourceCluster) ∉ (entry_Name <$> mesh_Clusters m) \/
      n ∉ (entry_Name <$> mesh_Clusters m) ->
    justified K (Deleted c p)
| justified_dead m items n c p mesh :
    live K m -> ListedMeshes None (Ok items) ∈ K -> Client registry n = Some c -> listed K c p ->
    peer_Labels p !! LabelMesh = Some mesh -> mesh <> "" -> mesh ∉ (mesh_Name <$> items) ->
    justified K (Deleted c p)
| justified_add_finalizer m :
    GotMesh m ∈ K -> mesh_Deleting m = false -> ContainsFinalizer m = false -> justified K (UpdatedMesh (AddFinalizer m))
| justified_remove_finalizer m :
    GotMesh m ∈ K -> mesh_Deleting m = true -> ContainsFinalizer m = true -> justified K (UpdatedMesh (RemoveFinalizer m))
| justified_status m m' :
    GotMesh m ∈ K -> mesh_Deleting m = false -> same_spec m m' -> justified K (UpdatedMeshStatus m').

(** Every event of a record, newest first, is justified by those before it. *)
Inductive disciplined : list (event C) -> Prop :=
| disciplined_nil : disciplined []
| disciplined_cons ev K : justified K ev -> disciplined K -> disciplined (ev :: K).

(** *** More events justify no less *)

Lemma live_mono K K' m : K ⊆ K' -> live K m -> live K' m.
Proof. intros H (? & ? & ? & r & ? & ?). repeat split; eauto. Qed.
Lemma built_mono K K' m s ps : K ⊆ K' -> built K m s ps -> built K' m s ps.
Proof. intros H (cs & nodes & ? & ? & ?). exists cs, nodes. auto. Qed.
Lemma source_peer_mono K K' m s d : K ⊆ K' -> source_peer K m s d -> source_peer K' m s d.
Proof. intros H (ps & d0 & ? & ? & ?). exists ps, d0. eauto using built_mono. Qed.
Lemma listed_mono K K' c p : K ⊆ K' -> listed K c p -> listed K' c p.
Proof. intros H (items & ? & ?). exists items. auto. Qed.

Create HintDb requests.
#[local] Hint Resolve live_mono built_mono source_peer_mono listed_mono : requests.

Lemma justified_mono K K' ev : K ⊆ K' -> justified K ev -> justified K' ev.
Proof.
  intros HK H. destruct H; [by apply justified_read|..].
  - eapply justified_create; eauto with requests.
  - eapply justified_update; eauto with requests.
  - eapply justified_merge; eauto with requests.
  - eapply justified_orphan; eauto with requests.
  - eapply justified_deletion; eauto with requests.
  - eapply justified_stale; eauto with requests.
  - eapply justified_dead; eauto with requests.
  - eapply justified_add_finalizer; eauto.
  - eapply justified_remove_finalizer; eauto.
  - eapply justified_status; eauto.
Qed.

(** ** The logic *)

Definition ensures {A} K (m : ST world A) (Q : A -> list (event C) -> Prop) : Prop :=
  forall w, disciplined w.2 -> K ⊆ w.2 ->
    disciplined (m w).2.2 /\ w.2 ⊆ (m w).2.2 /\ exists K', K' ⊆ (m w).2.2 /\ Q (m w).1 K'.

(** Only justified requests. *)
Abbreviation safe K m := (ensures K m (fun _ _ => True)).

Lemma ensures_ret {A} K (a : A) (Q : A -> list (event C) -> Prop) : Q a [] -> ensures K (mret a) Q.
Proof. intros H w Hd _. split; [done|]. split; [done|]. exists []. split; [set_solver|done]. Qed.

Lemma safe_ret {A} K (a : A) : safe K (mret a).
Proof. by apply ensures_ret. Qed.

Lemma ensures_bind {A B} K (m : ST world A) (f : A -> ST world B) Q R :
  ensures K m Q -> (forall a K', Q a K' -> ensures (K' ++ K) (f a) R) -> ensures K (m ≫= f) R.
Proof.
  intros Hm Hf w Hd HK. rewrite st_bind_run. destruct (Hm w Hd HK) as (D1 & S1 & K1 & HK1 & HQ).
  destruct (Hf _ K1 HQ (m w).2 D1) as (D2 & S2 & K2 & HK2 & HR).
  { intros ev [?|?]%elem_of_app; auto. }
  split; [done|]. split; [by etrans|]. by exists K2.
Qed.

Lemma ensures_weaken {A} K (m : ST world A) (Q R : A -> list (event C) -> Prop) :
  ensures K m Q -> (forall a K', Q a K' -> R a K') -> ensures K m R.
Proof. intros Hm HR w Hd HK. destruct (Hm w Hd HK) as (? & ? & K1 & ? & ?). eauto 6. Qed.

Lemma ensures_mono {A} K K' (m : ST world A) Q : K ⊆ K' -> ensures K m Q -> ensures K' m Q.
Proof. intros HK Hm w Hd HK'. apply Hm; [done|by etrans]. Qed.

Lemma safe_collect {A B} K (f : A -> ST world (list B)) l :
  (forall x, x ∈ l -> safe K (f x)) -> safe K (st_collect f l).
Proof.
  induction l as [|x l IH]; intros Hf; cbn [st_collect]; [apply safe_ret|].
  eapply ensures_bind; [apply Hf; left|]. intros bs K1 _.
  eapply ensures_bind; [eapply ensures_mono, IH|]; [set_solver|intros y Hy; apply Hf; by right|].
  intros cs K2 _. apply safe_ret.
Qed.

Lemma safe_iter {A} K (f : A -> ST world unit) l :
  (forall x, x ∈ l -> safe K (f x)) -> safe K (st_iter f l).
Proof.
  induction l as [|x l IH]; intros Hf; cbn [st_iter]; [apply safe_ret|].
  eapply ensures_bind; [apply Hf; left|]. intros bs K1 _.
  eapply ensures_mono, IH; [set_solver|]. intros y Hy. apply Hf. by right.
Qed.

(** A read records its reply. *)
Lemma ensures_read {A} K (m : ST W A) ev (P : A -> Prop) :
  (forall a e, e ∈ ev a -> is_read e = true) -> (forall w, P (m w).1) ->
  ensures K (read m ev) (fun a K' => K' = ev a /\ P a).
Proof.
  intros Hev HP w Hd _. unfold read. pose proof (HP w.1) as HPa. destruct (m w.1) as [a w'] eqn:E. cbn [fst snd] in *.
  assert (HD : forall l, (forall e, e ∈ l -> is_read e = true) -> disciplined (l ++ w.2)).
  { induction l as [|e l IH]; intros Hl; [done|]. cbn [app]. constructor; [|apply IH; intros e' He'; apply Hl; by right].
    apply justified_read, Hl. left. }
  split; [apply HD, Hev|]. split; [set_solver|]. exists (ev a). split; [set_solver|done].
Qed.

Lemma safe_request {A} K (m : ST W A) ev : justified K ev -> safe K (request m ev).
Proof.
  intros Hj w Hd HK. unfold request. destruct (m w.1) as [a w']. cbn [fst snd].
  split; [constructor; [by eapply justified_mono|done]|]. split; [set_solver|]. exists []. split; [set_solver|done].
Qed.

Context {any : AnyServer C W}.

Lemma ensures_List K c sel :
  ensures K (List c sel) (fun r K' =>
    match r with Ok items => K' = [Listed c items] /\ forall p, p ∈ items -> sel (peer_Labels p) = true | Err _ => K' = [] end).
Proof.
  eapply ensures_weaken.
  - eapply (ensures_read K (List c sel) _ (fun r => forall l p, r = Ok l -> p ∈ l -> sel (peer_Labels p) = true)).
    + intros [l|e] ev; cbn; [by intros ->%list_elem_of_singleton|by intros ?%not_elem_of_nil].
    + intros w l p. apply any_selects.
  - intros [l|e] K' [-> HP]; cbn; [|done]. split; [done|]. intros p. by apply HP.
Qed.

Lemma ensures_range K desired :
  ensures K (range desired) (fun kvs _ => forall x p, (x, p) ∈ kvs -> desired !! x = Some p).
Proof.
  eapply ensures_weaken.
  - apply (ensures_read K (range desired) _ (fun kvs => forall x p, (x, p) ∈ kvs -> desired !! x = Some p)).
    + by intros ? ? ?%not_elem_of_nil.
    + intros w x p. apply any_range.
  - by intros kvs K' [_ ?].
Qed.

Lemma ensures_ListNodes K c :
  ensures K (ListNodes c) (fun r K' => K' = match r with Ok nodes => [ListedNodes c nodes] | Err _ => [] end).
Proof.
  eapply ensures_weaken; [apply (ensures_read K (ListNodes c) _ (fun _ => True)); [|done]|].
  - intros [l|e] ev; cbn; [by intros ->%list_elem_of_singleton|by intros ?%not_elem_of_nil].
  - intros [l|e] K' [-> _]; done.
Qed.

Lemma ensures_ListMeshes K ns : ensures K (ListMeshes ns) (fun r K' => K' = [ListedMeshes ns r]).
Proof.
  eapply ensures_weaken; [apply (ensures_read K (ListMeshes ns) _ (fun _ => True)); [|done]|].
  - by intros r ev ->%list_elem_of_singleton.
  - by intros r K' [-> _].
Qed.

Lemma ensures_GetMesh K ns name :
  ensures K (GetMesh ns name) (fun r K' => K' = match r with Ok m => [GotMesh m] | Err _ => [] end).
Proof.
  eapply ensures_weaken; [apply (ensures_read K (GetMesh ns name) _ (fun _ => True)); [|done]|].
  - intros [l|e] ev; cbn; [by intros ->%list_elem_of_singleton|by intros ?%not_elem_of_nil].
  - intros [l|e] K' [-> _]; done.
Qed.

Lemma safe_rangeClusters K (cs : gmap string C) : safe K (rangeClusters cs).
Proof.
  eapply ensures_weaken; [apply (ensures_read K (rangeClusters cs) _ (fun _ => True)); [|done]|done].
  by intros ? ? ?%not_elem_of_nil.
Qed.

(** A request whose reply decides only what is returned. *)
Lemma safe_reply {A B} K (m : ST world A) (f : A -> ST world B) :
  safe K m -> (forall a, exists b, f a = mret b) -> safe K (m ≫= f).
Proof. intros Hm Hf. eapply ensures_bind; [exact Hm|]. intros a K' _. destruct (Hf a) as [b ->]. apply safe_ret. Qed.

(** ** The peer reconciler *)

(** The requests that reconciling the peers [ds] of [src] on [c] can lead to, once
    [c] has been listed. *)
Record permitted K c (mesh src : string) (ds : list Peer) : Prop := {
  pm_create d : d ∈ ds -> justified K (Created c d);
  pm_update K' e d :
    K ⊆ K' -> listed K' c e -> OrphanSelector mesh src (peer_Labels e) = true -> d ∈ ds -> peer_Name e = peer_Name d ->
    justified K' (Updated c (with_Spec e (peer_Spec d)));
  pm_merge K' e d :
    K ⊆ K' -> listed K' c e -> d ∈ ds -> spec_PublicKey (peer_Spec e) = spec_PublicKey (peer_Spec d) ->
    peer_Name e <> peer_Name d ->
    justified K' (Updated c (with_AllowedIPs e
      (mergeAllowedIPs (spec_AllowedIPs (peer_Spec e)) (spec_AllowedIPs (peer_Spec d)))));
  pm_delete K' e :
    K ⊆ K' -> listed K' c e -> OrphanSelector mesh src (peer_Labels e) = true -> peer_Name e ∉ (peer_Name <$> ds) ->
    justified K' (Deleted c e);
}.

Lemma permitted_mono K K' c mesh src ds : K ⊆ K' -> permitted K c mesh src ds -> permitted K' c mesh src ds.
Proof.
  intros HK [H1 H2 H3 H4]. constructor.
  - intros d Hd. by eapply justified_mono, H1.
  - intros K2 e d H. apply H2. by etrans.
  - intros K2 e d H. apply H3. by etrans.
  - intros K2 e H. apply H4. by etrans.
Qed.

(** The map of a list of peers has an entry for every name in it. *)
Lemma by_name_covers (l : list Peer) d :
  d ∈ l -> is_Some (foldl (fun result peer => <[peer_Name peer := peer]> result) (∅ : gmap string Peer) l !! peer_Name d).
Proof.
  induction l as [|p l IH] using rev_ind; [by intros ?%not_elem_of_nil|]. rewrite foldl_snoc.
  intros [Hd| ->%list_elem_of_singleton]%elem_of_app; [|by rewrite lookup_insert_eq].
  apply lookup_insert_is_Some'. right. by apply IH.
Qed.

Section Peers.
Context (c : C) (mesh src : string) (ds : list Peer).

(** The maps the loops work on. *)
Record entries K (desired existing allBy : gmap string Peer) : Prop := {
  en_desired x d : desired !! x = Some d -> d ∈ ds /\ peer_Name d = x;
  en_names d : d ∈ ds -> is_Some (desired !! peer_Name d);
  en_existing x e : existing !! x = Some e ->
    listed K c e /\ peer_Name e = x /\ OrphanSelector mesh src (peer_Labels e) = true;
  en_all k e : allBy !! k = Some e -> listed K c e /\ spec_PublicKey (peer_Spec e) = k;
}.

Lemma entries_mono K K' desired existing allBy :
  K ⊆ K' -> entries K desired existing allBy -> entries K' desired existing allBy.
Proof.
  intros HK [H1 H2 H3 H4]. constructor; [done|done|..].
  - intros x e (? & ? & ?)%H3. eauto using listed_mono.
  - intros k e (? & ?)%H4. eauto using listed_mono.
Qed.

Lemma safe_reconcileOne K desired existing allBy x d :
  permitted K c mesh src ds -> entries K desired existing allBy -> desired !! x = Some d ->
  safe K (reconcileOne c existing allBy (x, d)).
Proof.
  intros HP [E1 _ E3 E4] Hx. apply E1 in Hx as [Hd Hn]. unfold reconcileOne.
  destruct (existing !! x) as [e|] eqn:Ee.
  - destruct (peerSpecEqual _ _); [apply safe_ret|]. apply E3 in Ee as (Hl & He & Hs).
    apply safe_reply; [|intros []; eauto]. apply safe_request, (pm_update K c mesh src ds HP); [done..|congruence].
  - assert (Hc : safe K (createPeer c x d)).
    { apply safe_reply; [|intros []; eauto]. apply safe_request, (pm_create K c mesh src ds HP), Hd. }
    unfold createOrMerge. destruct (allBy !! _) as [can|] eqn:Ea; [|done]. case_decide as Hne; [|done].
    apply E4 in Ea as [Hl Hk]. unfold mergeIntoCanonical. destruct (allowedIPsEqual _ _); [apply safe_ret|].
    apply safe_reply; [|intros []; eauto]. apply safe_request, (pm_merge K c mesh src ds HP); [done..|congruence].
Qed.

Lemma safe_deleteOne K desired existing allBy x e :
  permitted K c mesh src ds -> entries K desired existing allBy -> existing !! x = Some e ->
  safe K (deleteOne c desired (x, e)).
Proof.
  intros HP [_ E2 E3 _] (Hl & He & Hs)%E3. unfold deleteOne. destruct (desired !! x) eqn:Ed; [apply safe_ret|].
  apply safe_reply; [|intros []; eauto]. apply safe_request, (pm_delete K c mesh src ds HP); [done..|].
  intros (d & Hd & Hin)%list_elem_of_fmap. destruct (E2 d Hin) as [d' Hd']. congruence.
Qed.

Lemma listed_entries K items existing :
  Listed c items ∈ K -> Listed c existing ∈ K ->
  (forall e, e ∈ existing -> OrphanSelector mesh src (peer_Labels e) = true) ->
  entries K (buildDesiredMap ds) (buildExistingMap existing) (foldl recordByPublicKey ∅ items).
Proof.
  intros Hi He Hs. constructor.
  - intros x d [Hd|Hd]%by_name_from; [by rewrite lookup_empty in Hd|done].
  - intros d Hd. by apply by_name_covers.
  - intros x e [Hx|[Hx Hn]]%by_name_from; [by rewrite lookup_empty in Hx|].
    split; [by exists existing|]. split; [done|]. by apply Hs.
  - intros k e Ha. pose proof (recordByPublicKey_all items k) as HC. rewrite Ha in HC. destruct HC as (H1 & H2 & _).
    split; [by exists items|done].
Qed.

Lemma safe_ReconcilePeers K : permitted K c mesh src ds -> safe K (ReconcilePeers c mesh src ds).
Proof.
  intros HP. unfold ReconcilePeers, buildAllPeersByPublicKey.
  eapply ensures_bind.
  { eapply (ensures_bind K _ _ _ (fun r K' => forall by_key, r = Ok by_key ->
      exists items, Listed c items ∈ K' ++ K /\ by_key = foldl recordByPublicKey ∅ items)).
    - apply ensures_List.
    - intros [items|e] K1 HQ; [|by apply ensures_ret]. destruct HQ as [-> _].
      intros w Hd HK. split; [done|]. split; [done|]. exists [Listed c items]. split; [set_solver|].
      intros by_key [= <-]. exists items. split; [left|done]. }
  intros [by_key|e] K1 HQ; [|apply safe_ret]. destruct (HQ by_key eq_refl) as (items & Hi & ->).
  eapply ensures_bind; [apply ensures_List|]. intros [existing|e] K2 HQ2; [|apply safe_ret].
  destruct HQ2 as [-> Hsel]. cbn zeta. set (K3 := [Listed c existing] ++ K1 ++ K).
  assert (HE : entries K3 (buildDesiredMap ds) (buildExistingMap existing) (foldl recordByPublicKey ∅ items)).
  { apply listed_entries; [set_solver|left|done]. }
  assert (HP3 : permitted K3 c mesh src ds) by (eapply permitted_mono; [|exact HP]; set_solver).
  eapply ensures_bind.
  { unfold reconcileDesired. eapply ensures_bind; [apply ensures_range|]. intros kvs K4 Hkvs.
    apply safe_collect. intros [x d] Hx. eapply ensures_mono, safe_reconcileOne; [|done..|by apply Hkvs]. set_solver. }
  intros errs1 K4 _. eapply ensures_bind; [|intros; apply safe_ret].
  unfold deleteOrphans. eapply ensures_bind; [apply ensures_range|]. intros kvs K5 Hkvs.
  apply safe_collect. intros [x d] Hx. eapply ensures_mono, safe_deleteOne; [|done..|by apply Hkvs]. set_solver.
Qed.

End Peers.

(** ** The controller *)

(** Peers that differ in their endpoint only. *)
Definition variants (ds ps : list Peer) : Prop :=
  peer_Name <$> ds = peer_Name <$> ps /\
  forall d, d ∈ ds -> exists d0, d0 ∈ ps /\ with_Endpoint d None = with_Endpoint d0 None.

Lemma variants_refl ps : variants ps ps.
Proof. split; [done|]. eauto. Qed.

Lemma enrichOne_variant by_key p : with_Endpoint (enrichOne by_key p) None = with_Endpoint p None.
Proof.
  unfold enrichOne. destruct (by_key !! _); [|done]. destruct (parseDiscoveredEndpoint _), (spec_Endpoint _);
    repeat case_decide; done.
Qed.

Lemma variants_enriched by_key ps : variants (enrichOne by_key <$> ps) ps.
Proof.
  split.
  - rewrite <- list_fmap_compose. apply list_fmap_ext. intros i p _. cbn.
    exact (f_equal peer_Name (enrichOne_variant by_key p)).
  - intros d (p & -> & Hp)%list_elem_of_fmap. exists p. split; [done|]. apply enrichOne_variant.
Qed.

Lemma ensures_enrich K c ps :
  ensures K (enrichEndpointsFromDiscovered c ps) (fun r _ => variants (match r with Err _ => ps | Ok ds => ds end) ps).
Proof.
  unfold enrichEndpointsFromDiscovered. eapply ensures_bind; [apply ensures_ListNodes|]. intros nodes K1 _.
  destruct (DiscoveredEndpointsByKey _ nodes) as [by_key|e]; [|apply ensures_ret, variants_refl].
  case_decide; apply ensures_ret; [apply variants_refl|apply variants_enriched].
Qed.

Section Live.
Context (m : ClusterMesh).

Lemma permitted_live K s c ps ds :
  live K m -> target m s c -> built K m s ps -> variants ds ps ->
  permitted K c (mesh_Name m) (entry_Name s) ds.
Proof.
  intros HL HT HB [Hn Hv].
  assert (HS : forall K' d, K ⊆ K' -> d ∈ ds -> source_peer K' m s d).
  { intros K' d HK Hd. destruct (Hv d Hd) as (d0 & ? & ?). exists ps, d0. eauto using built_mono. }
  constructor.
  - intros d Hd. eapply justified_create; eauto.
  - intros K' e d HK Hl Ho Hd E. eapply justified_update; eauto using live_mono.
  - intros K' e d HK Hl Hd E Hne. eapply justified_merge; eauto using live_mono.
  - intros K' e HK Hl Ho Hd. rewrite Hn in Hd. eapply justified_orphan; eauto using live_mono, built_mono.
Qed.

Lemma safe_pushLoop K s ps targets :
  live K m -> s ∈ mesh_Clusters m -> built K m s ps -> targets ⊆ mesh_Clusters m ->
  safe K (pushLoop registry (mesh_Name m) s ps targets).
Proof.
  intros HL Hs HB. revert K HL HB. induction targets as [|t targets IH]; intros K HL HB Ht; cbn [pushLoop]; [apply safe_ret|].
  assert (Hts : targets ⊆ mesh_Clusters m) by set_solver.
  case_decide as Hne; [by apply IH|]. destruct (Client registry (entry_Name t)) as [c|] eqn:Ec; [|by apply IH].
  eapply ensures_bind; [apply ensures_enrich|]. intros enriched K1 Hv. cbn zeta.
  assert (HK : K ⊆ K1 ++ K) by set_solver.
  eapply ensures_bind.
  { apply safe_ReconcilePeers, (permitted_live _ s c ps); [by eapply live_mono| |by eapply built_mono|exact Hv].
    split; [done|]. exists t. split; [apply Ht; left|done]. }
  intros errs K2 _. assert (HK2 : K ⊆ K2 ++ K1 ++ K) by set_solver.
  destruct errs; [|apply safe_ret]. apply IH; [by eapply live_mono|by eapply built_mono|done].
Qed.

Lemma safe_sweep K n c items :
  live K m -> ListedMeshes None (Ok items) ∈ K -> Client registry n = Some c ->
  safe K (sweepOrphanPeersInCluster c (list_to_set (mesh_Name <$> items))).
Proof.
  intros HL Hi Hc. unfold sweepOrphanPeersInCluster. eapply ensures_bind; [apply ensures_List|].
  intros [peers|e] K1 HQ; [|apply safe_ret]. destruct HQ as [-> _]. apply safe_iter. intros p Hp.
  unfold sweepOne. destruct (peer_Labels p !! LabelMesh) as [l|] eqn:El; cbn [default]; [|by rewrite decide_True by done; apply safe_ret].
  repeat case_decide; try apply safe_ret. apply safe_reply; [|eauto].
  apply safe_request, (justified_dead _ m items n c p l); try done.
  - eapply live_mono; [|exact HL]. set_solver.
  - set_solver.
  - exists peers. split; [left|done].
  - by rewrite elem_of_list_to_set in *.
Qed.

Lemma safe_cleanupOrphans K : live K m -> safe K (cleanupOrphanMeshPeers registry).
Proof.
  intros HL. unfold cleanupOrphanMeshPeers, collectLivingMeshes.
  eapply (ensures_bind K _ _ (fun living K' => forall names, living = Some names ->
    exists items, ListedMeshes None (Ok items) ∈ K' ++ K /\ names = list_to_set (mesh_Name <$> items))).
  - eapply ensures_bind; [apply ensures_ListMeshes|]. intros [items|e] K1 ->; [|by apply ensures_ret].
    intros w Hd HK. split; [done|]. split; [done|]. exists [ListedMeshes None (Ok items)]. split; [set_solver|].
    intros names [= <-]. exists items. split; [left|done].
  - intros [names|] K1 HQ; [|apply safe_ret]. destruct (HQ names eq_refl) as (items & Hi & ->).
    eapply ensures_bind; [apply safe_rangeClusters|]. intros ns K2 _. apply safe_iter. intros n _.
    destruct (Client registry n) as [c|] eqn:Ec; [|apply safe_ret].
    apply (safe_sweep _ n c items); [|set_solver|done]. eapply live_mono; [|exact HL]. set_solver.
Qed.

(** [m'] is [m] with other conditions. *)
Context (m' : ClusterMesh) (Hm : same_spec m m').

Lemma safe_reconcileSource K s :
  live K m -> s ∈ mesh_Clusters m -> safe K (reconcileSource registry m' s).
Proof.
  destruct Hm as (_ & En & _ & _ & Ec). intros HL Hs. unfold reconcileSource.
  destruct (Client registry (entry_Name s)) as [cs|] eqn:Ecs; [|apply safe_ret].
  eapply ensures_bind; [apply ensures_ListNodes|]. intros [nodes|e] K1 ->; [|apply safe_ret].
  destruct (filterNodes nodes s) as [[valid skipped] transient] eqn:Ef. cbn zeta.
  eapply ensures_bind; [|intros [n|e] K2 _; apply safe_ret].
  unfold pushPeersToTargets. rewrite En, Ec.
  destruct (buildDesiredPeers _ _ _ _) as [ps|[node e]] eqn:Eb; [|apply safe_ret].
  assert (HK : K ⊆ [ListedNodes cs nodes] ++ K) by set_solver.
  eapply ensures_bind; [apply safe_pushLoop; [by eapply live_mono|done| |done]|intros [e|] K2 _; apply safe_ret].
  exists cs, nodes. split; [done|]. split; [left|]. rewrite Ef. cbn [fst]. rewrite <- Eb.
  f_equal. unfold meshPersistentKeepalive. by rewrite Ec.
Qed.

Lemma safe_reconcileSources K sources :
  live K m -> sources ⊆ mesh_Clusters m -> safe K (reconcileSources registry m' sources).
Proof.
  revert K; induction sources as [|s sources IH]; intros K HL Hs; cbn [reconcileSources]; [apply safe_ret|].
  eapply ensures_bind; [apply safe_reconcileSource; [done|apply Hs; left]|]. intros [[status inc]|e] K1 _; [|apply safe_ret].
  eapply ensures_bind; [apply IH; [eapply live_mono; [|exact HL]; set_solver|set_solver]|].
  intros [[statuses inc']|e] K2 _; apply safe_ret.
Qed.

Lemma safe_DeleteStale K n c :
  live K m -> Client registry n = Some c ->
  safe K (DeleteStaleSourceClusters c (mesh_Name m')
    (if decide (n ∈ (entry_Name <$> mesh_Clusters m')) then entry_Name <$> mesh_Clusters m' else [])).
Proof.
  destruct Hm as (_ & En & _ & _ & Ec). rewrite En, Ec. intros HL Hn. set (sources := entry_Name <$> mesh_Clusters m).
  unfold DeleteStaleSourceClusters. eapply ensures_bind; [apply ensures_List|].
  intros [items|e] K1 HQ; [|apply safe_ret]. destruct HQ as [-> Hsel]. apply safe_collect. intros p Hp.
  unfold deleteStaleOne. case_decide as Hsrc; [apply safe_ret|].
  apply safe_reply; [|intros [?|[]]; eauto]. apply safe_request, (justified_stale _ m n).
  - eapply live_mono; [|exact HL]. set_solver.
  - done.
  - exists items. split; [left|done].
  - apply Hsel in Hp. by apply bool_decide_eq_true in Hp.
  - case_decide; [|by right]. left. by rewrite elem_of_list_to_set in Hsrc.
Qed.

Lemma safe_cleanupStale K : live K m -> safe K (cleanupStaleSourceClusters registry m').
Proof.
  intros HL. unfold cleanupStaleSourceClusters. eapply ensures_bind; [apply safe_rangeClusters|]. intros names K1 _.
  apply safe_iter. intros n _. destruct (Client registry n) as [c|] eqn:Ec; [|apply safe_ret].
  apply safe_reply; [|eauto]. apply safe_DeleteStale; [|done]. eapply live_mono; [|exact HL]. set_solver.
Qed.

End Live.

Section Reconcile.
Context (message : mesh_error -> string).

Lemma safe_status K m m' :
  GotMesh m ∈ K -> mesh_Deleting m = false -> same_spec m m' -> safe K (UpdateMeshStatus m').
Proof. intros. by eapply safe_request, justified_status. Qed.

Lemma safe_reconcileLive K m : live K m -> safe K (reconcileLive registry m).
Proof.
  intros HL. unfold reconcileLive. cbn zeta. set (m' := setCondition m _ _ _ _).
  assert (Hm : same_spec m m') by done.
  eapply ensures_bind; [by apply (safe_reconcileSources m)|]. intros [[statuses inc]|e] K1 _; [|apply safe_ret].
  eapply ensures_bind; [apply (safe_cleanupStale m m'); [done|]; eapply live_mono; [|exact HL]; set_solver|]. intros _ K2 _.
  eapply ensures_bind; [apply (safe_cleanupOrphans m); eapply live_mono; [|exact HL]; set_solver|]. intros _ K3 _.
  eapply ensures_bind; [|intros; apply safe_ret].
  destruct HL as (HG & Hd & _). apply safe_reply; [|intros []; eauto]. apply (safe_status _ m); [set_solver|done..].
Qed.

Lemma permitted_deletion K m s c :
  GotMesh m ∈ K -> mesh_Deleting m = true -> ContainsFinalizer m = true -> target m s c ->
  permitted K c (mesh_Name m) (entry_Name s) [].
Proof.
  intros HG Hd Hf HT. constructor.
  - by intros d ?%not_elem_of_nil.
  - by intros K' e d _ _ _ ?%not_elem_of_nil.
  - by intros K' e d _ _ ?%not_elem_of_nil.
  - intros K' e HK Hl Ho _. eapply justified_deletion; eauto.
Qed.

Lemma safe_handleDeletion K m :
  GotMesh m ∈ K -> mesh_Deleting m = true -> safe K (handleDeletion registry m).
Proof.
  intros HG Hd. unfold handleDeletion. destruct (ContainsFinalizer m) eqn:Hf; cbn [negb]; [|apply safe_ret].
  eapply ensures_bind.
  - apply safe_iter. intros s Hs. apply safe_iter. intros t Ht. unfold deletePair. case_decide; [apply safe_ret|].
    destruct (Client registry (entry_Name t)) as [c|] eqn:Ec; [|apply safe_ret].
    apply safe_reply; [|eauto]. apply safe_ReconcilePeers, permitted_deletion; [done..|].
    split; [done|]. by exists t.
  - intros _ K1 _. apply safe_reply; [|intros []; eauto].
    apply safe_request, justified_remove_finalizer; [set_solver|done..].
Qed.

Lemma safe_reconcile ns name : safe [] (reconcile registry message ns name).
Proof.
  unfold reconcile. eapply ensures_bind; [apply ensures_GetMesh|]. intros [m|e] K1 ->; [|destruct e; apply safe_ret].
  set (K := [GotMesh (C := C) m] ++ []). assert (HG : GotMesh m ∈ K) by left. clearbody K.
  destruct (mesh_Deleting m) eqn:Hd.
  { eapply ensures_bind; [by apply safe_handleDeletion|intros; apply safe_ret]. }
  destruct (ContainsFinalizer m) eqn:Hf; cbn [negb].
  2:{ apply safe_reply; [by apply safe_request, justified_add_finalizer|intros []; eauto]. }
  unfold validateMeshNetworks.
  eapply (ensures_bind K _ _ (fun overlap K' => overlap = None -> live (K' ++ K) m)).
  - eapply ensures_bind; [apply ensures_ListMeshes|]. intros r K1 ->.
    assert (HV : forall o, (forall items, r = Ok items -> o = ValidateMeshNetworks items) -> o = None ->
      live ([ListedMeshes (Some (mesh_Namespace m)) r] ++ K) m).
    { intros o Ho ->. split; [set_solver|]. do 2 (split; [done|]). exists r. split; [left|]. intros items Hr. by rewrite (Ho items). }
    destruct r as [items|e]; (intros w Hw HK; split; [done|]; split; [done|]; eexists; split; [|cbn [fst]; eapply HV]);
      [set_solver|by intros ? [= ->]|set_solver|done].
  - intros [e|] K1 HL; [|by apply safe_reconcileLive, HL].
    eapply ensures_bind; [|intros; apply safe_ret]. unfold setOverlapCondition. cbn zeta.
    apply safe_reply; [|intros []; eauto]. apply (safe_status _ m); [set_solver|done..].
Qed.

(** *** Recording does not interfere *)

Definition erases {A} (m' : ST world A) (m : ST W A) : Prop := forall w, m w.1 = ((m' w).1, (m' w).2.1).

Lemma erases_ret {A} (a : A) : erases (mret a) (mret a).
Proof. done. Qed.
Lemma erases_bind {A B} (m' : ST world A) (m : ST W A) (f' : A -> ST world B) (f : A -> ST W B) :
  erases m' m -> (forall a, erases (f' a) (f a)) -> erases (m' ≫= f') (m ≫= f).
Proof. intros Hm Hf w. rewrite !st_bind_run, Hm. cbn [fst snd]. apply Hf. Qed.
Lemma erases_iter {A} (f' : A -> ST world unit) (f : A -> ST W unit) l :
  (forall a, erases (f' a) (f a)) -> erases (st_iter f' l) (st_iter f l).
Proof. intros Hf. induction l; cbn [st_iter]; [apply erases_ret|]. by apply erases_bind. Qed.
Lemma erases_collect {A B} (f' : A -> ST world (list B)) (f : A -> ST W (list B)) l :
  (forall a, erases (f' a) (f a)) -> erases (st_collect f' l) (st_collect f l).
Proof.
  intros Hf. induction l; cbn [st_collect]; [apply erases_ret|].
  apply erases_bind; [done|]. intros bs. by apply erases_bind; [|intros; apply erases_ret].
Qed.
Lemma erases_read {A} (m : ST W A) ev : erases (read m ev) m.
Proof. intros w. unfold read. by destruct (m w.1). Qed.
Lemma erases_request {A} (m : ST W A) ev : erases (request m ev) m.
Proof. intros w. unfold request. by destruct (m w.1). Qed.

Create HintDb erases.

Ltac erase := repeat first
  [ apply erases_ret | apply erases_read | apply erases_request
  | solve [eauto 1 with erases nocore]
  | apply erases_iter; intros | apply erases_collect; intros
  | apply erases_bind; [|intros] | assumption
  | progress cbn zeta
  | match goal with |- erases (match ?x with _ => _ end) _ => destruct x end ].

Lemma erases_reconcileOne c existing by_key kv :
  erases (reconcileOne c existing by_key kv) (reconcileOne c existing by_key kv).
Proof. unfold reconcileOne, createOrMerge, createPeer, mergeIntoCanonical. erase. Qed.

Lemma erases_deleteOne c desired kv : erases (deleteOne c desired kv) (deleteOne c desired kv).
Proof. unfold deleteOne. erase. Qed.

#[local] Hint Resolve erases_reconcileOne erases_deleteOne : erases.

Lemma erases_ReconcilePeers c mesh src ds : erases (ReconcilePeers c mesh src ds) (ReconcilePeers c mesh src ds).
Proof. unfold ReconcilePeers, buildAllPeersByPublicKey, reconcileDesired, deleteOrphans. erase. Qed.

#[local] Hint Resolve erases_ReconcilePeers : erases.

Lemma erases_pushLoop mesh s ps targets : erases (pushLoop registry mesh s ps targets) (pushLoop registry mesh s ps targets).
Proof.
  induction targets as [|t targets IH]; cbn [pushLoop]; [apply erases_ret|]. unfold enrichEndpointsFromDiscovered.
  change (@unmarshalDiscovered C world _) with (@unmarshalDiscovered C W _). erase.
Qed.

#[local] Hint Resolve erases_pushLoop : erases.

Lemma erases_reconcileSources m sources : erases (reconcileSources registry m sources) (reconcileSources registry m sources).
Proof.
  induction sources as [|s sources IH]; cbn [reconcileSources]; [apply erases_ret|].
  unfold reconcileSource, pushPeersToTargets. erase.
Qed.

Lemma erases_DeleteStale c mesh sources :
  erases (DeleteStaleSourceClusters c mesh sources) (DeleteStaleSourceClusters c mesh sources).
Proof. unfold DeleteStaleSourceClusters, deleteStaleOne. erase. Qed.

Lemma erases_sweep c living : erases (sweepOrphanPeersInCluster c living) (sweepOrphanPeersInCluster c living).
Proof. unfold sweepOrphanPeersInCluster, sweepOne. erase. Qed.

#[local] Hint Resolve erases_reconcileSources erases_DeleteStale erases_sweep : erases.

Lemma erases_reconcileLive m : erases (reconcileLive registry m) (reconcileLive registry m).
Proof.
  unfold reconcileLive, reconcileAllClusters, updateStatus, cleanupStaleSourceClusters, cleanupOrphanMeshPeers, collectLivingMeshes.
  erase.
Qed.

#[local] Hint Resolve erases_reconcileLive : erases.

Lemma erases_reconcile ns name : erases (reconcile registry message ns name) (reconcile registry message ns name).
Proof. unfold reconcile, handleDeletion, deletePair, validateMeshNetworks, setOverlapCondition. erase. Qed.

End Reconcile.

Lemma disciplined_justified K ev : disciplined K -> ev ∈ K -> justified K ev.
Proof.
  induction 1 as [|e K Hj HD IH]; [by intros ?%not_elem_of_nil|].
  intros [->|?]%elem_of_cons; (eapply justified_mono; [|eauto]); set_solver.
Qed.

(** Only listed peers that carry a mesh label are deleted. *)
Lemma deleted_listed K c p : justified K (Deleted c p) -> listed K c p /\ is_Some (peer_Labels p !! LabelMesh).
Proof.
  assert (HO : forall mesh src, OrphanSelector mesh src (peer_Labels p) = true -> is_Some (peer_Labels p !! LabelMesh)).
  { intros mesh src [H _]%bool_decide_eq_true. by rewrite H. }
  inversion 1; subst; [done|split; eauto..].
Qed.

(** Only listed peers are updated, under their name, labels and resource version. *)
Lemma updated_listed K c p : justified K (Updated c p) -> exists e, listed K c e /\ p = with_Spec e (peer_Spec p).
Proof. inversion 1; subst; [done|eexists; split; [eassumption|done]..]. Qed.

(** C12. Requests are justified whatever the servers do. Nothing is assumed of the
    servers but that a list honours its selector: others may write at any moment,
    calls may fail or take effect late, replies may be stale and contradict each
    other. Then every write that a reconcile requests is justified by replies it has
    read before ([justified] says how for each request), the run being the same
    whether it is recorded or not. In particular it deletes only peers that it has
    listed on that cluster and that carry a mesh label, and it updates only peers that
    it has listed there, keeping their name, their labels and the resource version by
    which the server detects that somebody else has changed them. *)
Theorem reconcile_requests_justified message ns name (w : W) :
  let r := reconcile registry message ns name (w, []) in
  reconcile registry message ns name w = (r.1, r.2.1) /\
  disciplined r.2.2 /\
  (forall c p, Deleted c p ∈ r.2.2 -> listed r.2.2 c p /\ is_Some (peer_Labels p !! LabelMesh)) /\
  (forall c p, Updated c p ∈ r.2.2 -> exists e, listed r.2.2 c e /\ p = with_Spec e (peer_Spec p)).
Proof.
  intros r. assert (HD : disciplined r.2.2).
  { apply (safe_reconcile message ns name (w, [])); [constructor|done]. }
  split; [exact (erases_reconcile message ns name (w, []))|]. split; [done|]. split; intros c p Hp.
  - by apply deleted_listed, disciplined_justified.
  - by apply updated_listed, disciplined_justified.
Qed.

End Recorded.

(** ** A server that makes no sense *)

Module Hostile.
Import Controller.Scenario.

(** Its only state is the number of calls it has answered. *)
Definition mine : Peer := mkPeer "m--b--gone" (Labels "m" "b") "7" (mkPeerSpec [] None 0 "" "key-nb").
Definition laptop : Peer := mkPeer "laptop" ∅ "8" (mkPeerSpec ["10.9.0.0/16"] None 0 "" "key-laptop").
Definition ghost : Peer := mkPeer "ghost" (Labels "dead" "x") "9" (mkPeerSpec [] None 0 "" "key-ghost").

(** What exists when depends on nothing the operator has done. *)
Definition shown (n : nat) : list Peer := if Nat.even n then [mine; laptop; ghost] else [laptop; mine].

#[export] Instance api : PeerAPI string nat := {
  List _ sel n := (Ok (base.filter (fun p => sel (peer_Labels p) = true) (shown n)), S n);
  Create _ _ n := (Ok tt, S n);
  Update _ _ n := (if Nat.even n then Err Conflict else Ok tt, S n);
  Delete _ _ n := (Ok tt, S n);
  range m n := (map_to_list m, n);
}.

#[export] Instance capi : ControllerAPI string nat := {
  ListNodes c n := (Ok (default [] (nodes !! c)), S n);
  GetMesh _ _ n := (Ok (mesh "tenant" [a; b]), S n);
  ListMeshes _ n := (if Nat.even n then Ok [mesh "tenant" [a; b]] else Err (OtherError "timeout"), S n);
  UpdateMesh _ n := (Err Conflict, S n);
  UpdateMeshStatus _ n := (Err Conflict, S n);
  rangeClusters m n := ((map_to_list m).*1, n);
  unmarshalDiscovered _ := None;
}.

#[export] Instance any : AnyServer string nat.
Proof.
  constructor.
  - intros c sel n l p [= <-] Hp. by apply list_elem_of_filter in Hp as [? _].
  - intros m n x p Hx. by apply elem_of_map_to_list in Hx.
Qed.

Definition run (n : nat) := reconcile everywhere (fun _ => "overlap") "tenant" "m" (n, []).

(** The writes it requests, in order. *)
Definition summary (ev : event string) : option (string * string * string) :=
  match ev with
  | Created c p => Some ("create", c, peer_Name p)
  | Updated c p => Some ("update", c, peer_Name p)
  | Deleted c p => Some ("delete", c, peer_Name p)
  | UpdatedMesh m | UpdatedMeshStatus m => Some ("write", "", mesh_Name m)
  | _ => None
  end.
Definition requests (n : nat) := omap summary (rev (run n).2.2).

End Hostile.

(** The first run serves the mesh although the peers it lists come and go, deletes the
    peer that keeps coming back, spares the laptop, and fails on the status; the second
    is refused a merge and stops there. *)
Lemma reconcile_requests_justified_witness :
  disciplined Controller.Scenario.everywhere (Hostile.run 0).2.2 /\
  Hostile.requests 0 =
    [("create", "b", "m--a--na"); ("update", "a", "m--b--gone"); ("delete", "a", "m--b--gone");
     ("delete", "c", "m--b--gone"); ("write", "", "m")] /\
  Hostile.requests 1 =
    [("create", "b", "m--a--na"); ("update", "a", "m--b--gone"); ("delete", "a", "m--b--gone")].
Proof.
  split; [|split; vm_compute; reflexivity].
  exact (proj1 (proj2 (reconcile_requests_justified (any := Hostile.any) Controller.Scenario.everywhere (fun _ => "overlap") "tenant" "m" 0%nat))).
Defined.
