(* ===== verification/Convergence.v ===== *)
(** * Convergence of a whole mesh

    What one reconcile of a ClusterMesh achieves when nothing else writes: the
    clusters answer, reads are current, and the nodes do not change while it runs
    ([calm]). Then the reconcile succeeds and every cluster ends up with exactly the
    peers of every other one. *)

From Stdlib Require Import String.
From S2P Require Import Prelude GoStrings GoNet Types Kilonode ValidationMesh ValidationNode Naming Builder.
From S2P Require Import Kube PeerReconciler Registry Controller.
Open Scope Z_scope.
Open Scope go_scope.

(** ** Calm environments *)

Section Calm.
Context {C W : Type} {api : PeerAPI C W} {laws : PeerAPILaws C W}.
Context {capi : ControllerAPI C W}.

(** Named and labelled the way the operator names and labels the peers of a mesh. *)
Definition generated (meshes : list string) (p : Peer) : Prop :=
  exists mesh src node, mesh ∈ meshes /\ peer_Name p = Name mesh src node /\ peer_Labels p = Labels mesh src.

(** [I] holds throughout the run: it is kept by every operation the operator makes (it
    creates generated peers and updates labelled ones), and under it requests about
    the peers of the clusters [up] that Kubernetes has no reason to refuse are
    granted. *)
Record calm_on {up : C -> Prop} (nodes : C -> list Node) (living : list string) (I : W -> Prop) : Prop := {
  calm_ok : forall w, I w -> world_ok w;
  calm_synced : forall c w, I w -> synced c w;
  calm_List : forall c sel w, I w -> I (List c sel w).2 /\ (up c -> exists l, (List c sel w).1 = Ok l);
  calm_Create : forall c p w, I w -> generated living p -> I (Create c p w).2 /\
    (up c -> peers c w !! peer_Name p = None -> exists u, (Create c p w).1 = Ok u);
  calm_Update : forall c p w, I w -> is_Some (peer_Labels p !! LabelMesh) -> I (Update c p w).2 /\
    (up c -> forall cur, peers c w !! peer_Name p = Some cur -> peer_ResourceVersion cur = peer_ResourceVersion p ->
       exists u, (Update c p w).1 = Ok u);
  calm_Delete : forall c p w, I w -> I (Delete c p w).2 /\
    (up c -> is_Some (peers c w !! peer_Name p) -> exists u, (Delete c p w).1 = Ok u);
  calm_range : forall m w, I w -> I (range m w).2;
  calm_rangeClusters : forall m w, I w -> I (rangeClusters m w).2;
  calm_ListNodes : forall c w, I w -> I (ListNodes c w).2 /\
    ((ListNodes c w).1 = Ok (nodes c) \/ ~ up c /\ exists e, (ListNodes c w).1 = Err e);
  calm_GetMesh : forall ns name w, I w -> I (GetMesh ns name w).2;
  calm_ListMeshes : forall ns w, I w -> I (ListMeshes ns w).2;
  calm_living : forall w, I w -> exists ms, (ListMeshes None w).1 = Ok ms /\ mesh_Name <$> ms = living;
}.

(** All clusters are up. *)
Definition calm (nodes : C -> list Node) (living : list string) (I : W -> Prop) : Prop :=
  calm_on (up := fun _ => True) nodes living I.

Context {up : C -> Prop}.
Context (nodes : C -> list Node) (living : list string) (I : W -> Prop) (HI : calm_on (up := up) nodes living I).

Lemma calm_nodes c w : up c -> I w -> (ListNodes c w).1 = Ok (nodes c).
Proof. intros Hup Hw. by destruct (calm_ListNodes _ _ _ HI c w Hw) as [_ [?|[? _]]]. Qed.

(** A loop over entries of distinct names whose step for [x] succeeds when it
    finds [x] as it was, and writes no other name, succeeds. *)
Lemma calm_loop {A} c (f : string * A -> ST W (list reconcile_error)) kvs w :
  NoDup kvs.*1 -> I w ->
  (forall x a w1, (x, a) ∈ kvs -> I w1 -> peers c w1 !! x = peers c w !! x ->
     (f (x, a) w1).1 = [] /\ I (f (x, a) w1).2 /\
     forall y, y <> x -> peers c (f (x, a) w1).2 !! y = peers c w1 !! y) ->
  (st_collect f kvs w).1 = [] /\ I (st_collect f kvs w).2.
Proof.
  intros Hnd Hw Hf.
  assert (Hgen : forall w1, I w1 -> (forall x, x ∈ kvs.*1 -> peers c w1 !! x = peers c w !! x) ->
    (st_collect f kvs w1).1 = [] /\ I (st_collect f kvs w1).2).
  2:{ by apply Hgen. }
  induction kvs as [|[x a] kvs IH]; intros w1 Hw1 Heq; [done|].
  cbn [st_collect fmap list_fmap fst] in *. apply list.NoDup_cons in Hnd as [Hx Hnd]. rewrite !st_bind_run.
  destruct (Hf x a w1 ltac:(left) Hw1 (Heq x ltac:(left))) as (E1 & I1 & O1).
  destruct (IH Hnd) with (w1 := (f (x, a) w1).2) as [E2 I2].
  - intros y b w2 Hy. apply Hf. by right.
  - done.
  - intros y Hy. rewrite O1 by (intros ->; done). apply Heq. by right.
  - rewrite st_ret_run, E1, E2. done.
Qed.

Lemma reconcileOne_calm c w existing allBy x d :
  up c -> I w -> peer_Name d = x -> generated living d ->
  (forall e, existing !! x = Some e -> peers c w !! x = Some e /\ is_Some (peer_Labels e !! LabelMesh)) ->
  (existing !! x = None -> peers c w !! x = None) ->
  (forall can, allBy !! spec_PublicKey (peer_Spec d) = Some can -> peer_Name can = x) ->
  (reconcileOne c existing allBy (x, d) w).1 = [] /\ I (reconcileOne c existing allBy (x, d) w).2.
Proof.
  intros Hup Hw Hn Hg He Hnone Hall. unfold reconcileOne. destruct (existing !! x) as [e|] eqn:Ee.
  - destruct (peerSpecEqual _ _); [done|]. st_run. destruct (He e eq_refl) as [He' Hle].
    destruct (calm_Update _ _ _ HI c (with_Spec e (peer_Spec d)) w Hw Hle) as [HU HUok].
    pose proof (peers_name c w x e (calm_ok _ _ _ HI w Hw) He') as Hne.
    destruct (HUok Hup e) as [u Eu]; [simpl; by rewrite Hne|done|].
    destruct (Update c _ w) as [r w']. cbn [fst snd] in *. by subst r.
  - destruct (calm_Create _ _ _ HI c d w Hw Hg) as [HC HCok].
    assert (Hcreate : (createPeer c x d w).1 = [] /\ I (createPeer c x d w).2).
    { unfold createPeer. st_run. destruct (HCok Hup) as [u Eu]; [rewrite Hn; by apply Hnone|].
      destruct (Create c d w) as [r w']. cbn [fst snd] in *. by subst r. }
    unfold createOrMerge. destruct (allBy !! _) as [can|]; [|done].
    rewrite decide_False; [done|]. intros Hc. by apply Hc, Hall.
Qed.

(** What [ReconcilePeers] needs of the target: the names and keys of the desired
    peers are free, or used by the peer it manages under that name. *)
Record ready (c : C) (mesh src : string) (desired : list Peer) (w : W) : Prop := {
  ready_names : NoDup (peer_Name <$> desired);
  ready_generated : forall d, d ∈ desired -> generated living d;
  ready_labels : forall d, d ∈ desired -> OrphanSelector mesh src (peer_Labels d) = true;
  ready_keys : forall d y p, d ∈ desired -> peers c w !! y = Some p ->
    spec_PublicKey (peer_Spec p) = spec_PublicKey (peer_Spec d) -> y = peer_Name d;
  ready_free : forall d p, d ∈ desired -> peers c w !! peer_Name d = Some p ->
    OrphanSelector mesh src (peer_Labels p) = true;
}.

(** The two lists of [ReconcilePeers] in a calm environment. *)
Lemma calm_listed c sel w :
  up c -> I w -> exists items w1, List c sel w = (Ok items, w1) /\ I w1 /\ peers c w1 = peers c w /\
    NoDup (peer_Name <$> items) /\
    forall p, p ∈ items <-> peers c w !! peer_Name p = Some p /\ sel (peer_Labels p) = true.
Proof.
  intros Hup Hw. destruct (calm_List _ _ _ HI c sel w Hw) as [H1 H2]. destruct (H2 Hup) as [items Ei].
  pose proof (List_peers c sel w c) as Hp. destruct (List c sel w) as [r w1] eqn:E. cbn [fst snd] in *. subst r.
  pose proof (calm_ok _ _ _ HI w Hw) as Hok. exists items, w1. do 3 (split; [done|]).
  split; [by eapply List_NoDup|]. by eapply List_synced; [|apply (calm_synced _ _ _ HI)|].
Qed.

Lemma reconcileDesired_calm c w mesh src desired existing allBy :
  up c -> I w -> (forall x d, desired !! x = Some d -> peer_Name d = x) ->
  (forall x d, desired !! x = Some d -> generated living d) ->
  (forall x d, desired !! x = Some d -> OrphanSelector mesh src (peer_Labels d) = true) ->
  (forall x e, existing !! x = Some e -> peers c w !! x = Some e /\ OrphanSelector mesh src (peer_Labels e) = true) ->
  (forall x d, desired !! x = Some d -> existing !! x = None -> peers c w !! x = None) ->
  (forall x d can, desired !! x = Some d -> allBy !! spec_PublicKey (peer_Spec d) = Some can -> peer_Name can = x) ->
  (reconcileDesired c desired existing allBy w).1 = [] /\ I (reconcileDesired c desired existing allBy w).2.
Proof.
  intros Hup Hw Hn Hg Hl He Hfree Hall. unfold reconcileDesired. st_run.
  pose proof (range_peers desired w c) as Hr.
  apply (calm_loop c); [apply range_keys|by apply (calm_range _ _ _ HI)|].
  intros x d w1 Hx%range_elem H1 Hsame. rewrite Hr in Hsame. pose proof (calm_ok _ _ _ HI w1 H1) as Hok1.
  destruct (reconcileOne_calm c w1 existing allBy x d) as [E1 I1]; [done|done|by apply Hn|by eapply Hg| | | |].
  - intros e Ee. rewrite Hsame. destruct (He x e Ee) as [? Hs]. split; [done|].
    apply bool_decide_eq_true in Hs as [Hs _]. by rewrite Hs.
  - intros Ee. rewrite Hsame. by eapply Hfree.
  - intros can. by apply Hall.
  - split; [done|]. split; [done|].
    destruct (reconcileOne_realizes c w1 mesh src existing allBy x d) as (_ & O1 & _); [done|by apply Hn|by eapply Hl| | |done].
    + intros e Ee. destruct (He x e Ee) as [Hp Hs]. rewrite <- Hsame in Hp.
      split; [by eapply peers_name|]. split; [by eapply peers_seen|done].
    + intros can. by apply Hall.
Qed.

Lemma deleteOrphans_calm c w desired existing :
  up c -> I w -> (forall x e, existing !! x = Some e -> peer_Name e = x) ->
  (forall x, is_Some (existing !! x) -> desired !! x = None -> is_Some (peers c w !! x)) ->
  (deleteOrphans c desired existing w).1 = [] /\ I (deleteOrphans c desired existing w).2.
Proof.
  intros Hup Hw Hn He. unfold deleteOrphans. st_run. pose proof (range_peers existing w c) as Hr.
  apply (calm_loop c); [apply range_keys|by apply (calm_range _ _ _ HI)|].
  intros x e w1 Hx%range_elem H1 Hsame. rewrite Hr in Hsame. unfold deleteOne.
  destruct (desired !! x) eqn:Ed; [done|]. st_run.
  destruct (calm_Delete _ _ _ HI c e w1 H1) as [HD HDok].
  destruct (HDok Hup) as [u Eu]; [rewrite (Hn x e Hx), Hsame; by eapply He|].
  destruct (Delete c e w1) as [r w2] eqn:E. cbn [fst snd] in *. subst r. st_run.
  do 2 (split; [done|]). intros y Hy. apply Delete_Ok in E as ->; [|by apply (calm_ok _ _ _ HI)].
  rewrite lookup_delete_ne; [done|]. rewrite (Hn x e Hx). congruence.
Qed.

Lemma ReconcilePeers_calm c mesh src desired w :
  up c -> I w -> ready c mesh src desired w ->
  (ReconcilePeers c mesh src desired w).1 = [] /\ I (ReconcilePeers c mesh src desired w).2.
Proof.
  intros Hup Hw [Hnd Hg Hl Hk Hf]. pose proof (calm_ok _ _ _ HI w Hw) as Hok.
  destruct (calm_listed c everything w Hup Hw) as (items & w1 & E1 & I1 & P1 & _ & Hitems).
  destruct (calm_listed c (OrphanSelector mesh src) w1 Hup I1) as (existing & w2 & E2 & I2 & P2 & HndE & Hexisting).
  rewrite ReconcilePeers_run, E1, E2. rewrite P1 in P2, Hexisting.
  assert (HE : forall x e, buildExistingMap existing !! x = Some e <->
    peers c w !! x = Some e /\ OrphanSelector mesh src (peer_Labels e) = true).
  { intros x e. by apply existing_map. }
  assert (HD := fun x d => desired_map desired x d Hnd).
  set (dm := buildDesiredMap desired) in *. set (em := buildExistingMap existing) in *.
  assert (Hcan : forall x d can, dm !! x = Some d ->
    foldl recordByPublicKey ∅ items !! spec_PublicKey (peer_Spec d) = Some can -> peer_Name can = x).
  { intros x d can [Hd <-]%HD. apply (canonical_desired c w); [intros p Hp; by apply Hitems|eauto]. }
  assert (Hsel : forall x d, dm !! x = Some d -> OrphanSelector mesh src (peer_Labels d) = true).
  { intros x d [Hd _]%HD. by apply Hl. }
  assert (Hgen : forall x d, dm !! x = Some d -> generated living d) by (intros x d [? _]%HD; by apply Hg).
  assert (Hname : forall x d, dm !! x = Some d -> peer_Name d = x) by (intros x d [_ ?]%HD; done).
  assert (Hcur : forall x e, em !! x = Some e ->
    peers c w2 !! x = Some e /\ OrphanSelector mesh src (peer_Labels e) = true) by (rewrite P2; intros x e; apply HE).
  destruct (reconcileDesired_calm c w2 mesh src dm em (foldl recordByPublicKey ∅ items)) as [R1 R2]; [done..| |done|].
  { intros x d [Hd <-]%HD Hnone. rewrite P2. destruct (peers c w !! peer_Name d) as [p|] eqn:Ep; [|done].
    rewrite (proj2 (HE (peer_Name d) p)) in Hnone; [done|]. split; [done|by eapply Hf]. }
  destruct (reconcileDesired_realizes c w2 mesh src dm em (foldl recordByPublicKey ∅ items)) as (_ & _ & HO);
    [by apply (calm_ok _ _ _ HI)| |done|done|done|done|].
  { constructor; [done| |].
    - intros x e Hx. apply Hcur in Hx as [Hx _]. pose proof (calm_ok _ _ _ HI w2 I2) as Hok2.
      split; [by eapply peers_name|by eapply peers_seen].
    - intros k p Hp. pose proof (recordByPublicKey_all items k) as HC. rewrite Hp in HC. destruct HC as (Hin & _).
      apply Hitems in Hin as [Hin _]. rewrite <- P2 in Hin. eapply peers_seen; [by apply (calm_ok _ _ _ HI)|done]. }
  destruct (reconcileDesired c dm em _ w2) as [errs1 w3]. cbn [fst snd] in *. subst errs1.
  destruct (deleteOrphans_calm c w3 dm em) as [D1 D2]; [done|done| | |].
  { intros x e Hx. apply HE in Hx as [Hx _]. by eapply peers_name. }
  { intros x [e Hx] Hnone. rewrite HO by done. apply Hcur in Hx as [-> _]. done. }
  destruct (deleteOrphans c dm em w3) as [errs2 w4]. cbn [fst snd] in *. by subst errs2.
Qed.

End Calm.

(** ** One mesh *)

(** A peer whose mesh does not exist. *)
Definition ghost (names : list string) (p : Peer) : Prop :=
  let label := default "" (peer_Labels p !! LabelMesh) in label <> "" /\ label ∉ names.

#[export] Instance ghost_dec names p : Decision (ghost names p).
Proof. unfold ghost. apply _. Defined.

Section Mesh.
Context {C W : Type} {api : PeerAPI C W} {laws : PeerAPILaws C W}.
Context {capi : ControllerAPI C W} {claws : ControllerLaws C W} {C_eq : EqDecision C}.
Context (registry : ClusterRegistry C) (mesh : ClusterMesh) (nodes : C -> list Node).

(** The peers a source cluster asks for: one per valid node. *)
Definition desired_of (s : ClusterEntry) : list Peer :=
  match Client registry (entry_Name s) with
  | None => []
  | Some cs =>
      match buildDesiredPeers (mesh_Name mesh) s (filterNodes (nodes cs) s).1.1 (meshPersistentKeepalive mesh) with
      | Ok ps => ps
      | Err _ => []
      end
  end.

(** What target [c] should hold of source [s]: with the endpoints its own nodes
    have discovered. *)
Definition wanted (c : C) (s : ClusterEntry) : list Peer :=
  let discovered := foldl (recordNode unmarshalDiscovered) ∅ (nodes c) in
  if decide (discovered = ∅) then desired_of s else enrichOne discovered <$> desired_of s.

(** Target [c] holds exactly the peers of source [s]. *)
Definition converged (c : C) (s : ClusterEntry) (w : W) : Prop :=
  (forall d, d ∈ wanted c s -> realizes (mesh_Name mesh) (entry_Name s) d (peers c w !! peer_Name d)) /\
  (forall y p, peers c w !! y = Some p -> OrphanSelector (mesh_Name mesh) (entry_Name s) (peer_Labels p) = true ->
     y ∈ (peer_Name <$> desired_of s)).

(** No two peers of the mesh share a name or a public key. *)
Record distinct_peers : Prop := {
  distinct_clusters : NoDup (entry_Name <$> mesh_Clusters mesh);
  distinct_names : forall s, s ∈ mesh_Clusters mesh -> NoDup (peer_Name <$> desired_of s);
  distinct_across : forall s s' d d', s ∈ mesh_Clusters mesh -> s' ∈ mesh_Clusters mesh ->
    d ∈ desired_of s -> d' ∈ desired_of s' -> peer_Name d = peer_Name d' -> s = s';
  distinct_keys : forall s s' d d', s ∈ mesh_Clusters mesh -> s' ∈ mesh_Clusters mesh ->
    d ∈ desired_of s -> d' ∈ desired_of s' ->
    spec_PublicKey (peer_Spec d) = spec_PublicKey (peer_Spec d') -> peer_Name d = peer_Name d';
}.

(** On [c], the names and keys of the mesh's peers are free, or used by the peers
    the operator manages under those names. *)
Record unclaimed (c : C) (w : W) : Prop := {
  unclaimed_keys : forall s d y p, s ∈ mesh_Clusters mesh -> d ∈ desired_of s -> peers c w !! y = Some p ->
    spec_PublicKey (peer_Spec p) = spec_PublicKey (peer_Spec d) -> y = peer_Name d;
  unclaimed_names : forall s d p, s ∈ mesh_Clusters mesh -> d ∈ desired_of s -> peers c w !! peer_Name d = Some p ->
    OrphanSelector (mesh_Name mesh) (entry_Name s) (peer_Labels p) = true;
}.

Lemma same_entry s s' :
  distinct_peers -> s ∈ mesh_Clusters mesh -> s' ∈ mesh_Clusters mesh -> entry_Name s = entry_Name s' -> s = s'.
Proof.
  intros HD Hs Hs'. exact (NoDup_fmap_inj entry_Name _ s s' (distinct_clusters HD) Hs Hs').
Qed.

Lemma desired_of_labels s d :
  d ∈ desired_of s -> peer_Labels d = Labels (mesh_Name mesh) (entry_Name s).
Proof.
  unfold desired_of. destruct (Client registry _) as [cs|]; [|by intros ?%not_elem_of_nil].
  destruct (buildDesiredPeers _ _ _ _) as [ps|] eqn:E; [|by intros ?%not_elem_of_nil].
  intros Hd. by destruct (buildDesiredPeers_names _ _ _ _ _ d E Hd) as (n & _ & _ & ?).
Qed.

Lemma desired_of_generated meshes s d : mesh_Name mesh ∈ meshes -> d ∈ desired_of s -> generated meshes d.
Proof.
  unfold desired_of. intros Hm. destruct (Client registry _) as [cs|]; [|by intros ?%not_elem_of_nil].
  destruct (buildDesiredPeers _ _ _ _) as [ps|] eqn:E; [|by intros ?%not_elem_of_nil].
  intros Hd. destruct (buildDesiredPeers_names _ _ _ _ _ d E Hd) as (n & _ & ? & ?). by do 3 eexists.
Qed.

Lemma Labels_selected m s : OrphanSelector m s (Labels m s) = true.
Proof. by apply OrphanSelector_spec. Qed.

Lemma selected_source m s s' l : OrphanSelector m s l = true -> OrphanSelector m s' l = true -> s = s'.
Proof. unfold OrphanSelector. rewrite !bool_decide_eq_true. intros [_ H1] [_ H2]. congruence. Qed.

(** Enriching keeps names, labels and keys. *)
Lemma enrichOne_keeps m p :
  peer_Name (enrichOne m p) = peer_Name p /\ peer_Labels (enrichOne m p) = peer_Labels p /\
  spec_PublicKey (peer_Spec (enrichOne m p)) = spec_PublicKey (peer_Spec p).
Proof. destruct (enrichOne_cases m p) as [->|(? & ? & _ & _ & ->)]; done. Qed.

Lemma wanted_names c s : peer_Name <$> wanted c s = peer_Name <$> desired_of s.
Proof.
  unfold wanted. case_decide; [done|]. rewrite <- list_fmap_compose. apply list_fmap_ext.
  intros i p _. apply enrichOne_keeps.
Qed.

Lemma wanted_elem c s d :
  d ∈ wanted c s -> exists d0, d0 ∈ desired_of s /\ peer_Name d = peer_Name d0 /\ peer_Labels d = peer_Labels d0 /\
    spec_PublicKey (peer_Spec d) = spec_PublicKey (peer_Spec d0).
Proof.
  unfold wanted. case_decide; [by exists d|]. intros (d0 & -> & Hd)%list_elem_of_fmap.
  exists d0. split; [done|]. apply enrichOne_keeps.
Qed.

Lemma unclaimed_ready meshes c s w :
  mesh_Name mesh ∈ meshes -> distinct_peers -> s ∈ mesh_Clusters mesh -> unclaimed c w ->
  ready meshes c (mesh_Name mesh) (entry_Name s) (wanted c s) w.
Proof.
  intros Hm HD Hs [Hk Hn]. constructor.
  - rewrite wanted_names. by apply (distinct_names HD).
  - intros d (d0 & Hd0 & En & El & _)%wanted_elem. destruct (desired_of_generated meshes s d0 Hm Hd0) as (m & src & n & ? & ? & ?).
    exists m, src, n. by rewrite En, El.
  - intros d (d0 & Hd0 & _ & -> & _)%wanted_elem. rewrite (desired_of_labels s d0 Hd0). apply Labels_selected.
  - intros d y p (d0 & Hd0 & -> & _ & ->)%wanted_elem. by eapply Hk.
  - intros d p (d0 & Hd0 & -> & _ & _)%wanted_elem. by eapply Hn.
Qed.

Context {up : C -> Prop}.
Context (living : list string) (I : W -> Prop) (HI : calm_on (up := up) nodes living I) (HD : distinct_peers).
Context (Hliv : mesh_Name mesh ∈ living).

Lemma converged_same c s w w' : peers c w' = peers c w -> converged c s w -> converged c s w'.
Proof. unfold converged. by intros ->. Qed.

Lemma unclaimed_same c w w' : peers c w' = peers c w -> unclaimed c w -> unclaimed c w'.
Proof. intros E [H1 H2]. constructor; rewrite E; done. Qed.

(** The effect of one push on its target. *)
Record pushed (c : C) (s : ClusterEntry) (w w' : W) : Prop := {
  pushed_wanted : forall d, d ∈ wanted c s -> realizes (mesh_Name mesh) (entry_Name s) d (peers c w' !! peer_Name d);
  pushed_rest : forall y p, y ∉ (peer_Name <$> desired_of s) ->
    peers c w' !! y = Some p <->
    peers c w !! y = Some p /\ OrphanSelector (mesh_Name mesh) (entry_Name s) (peer_Labels p) = false;
  pushed_other : forall c', c <> c' -> peers c' w' = peers c' w;
}.

Lemma ReconcilePeers_pushed c s w :
  up c -> s ∈ mesh_Clusters mesh -> I w -> unclaimed c w ->
  let r := ReconcilePeers c (mesh_Name mesh) (entry_Name s) (wanted c s) w in
  r.1 = [] /\ I r.2 /\ pushed c s w r.2.
Proof.
  intros Hup Hs Hw Hu. pose proof (unclaimed_ready living c s w Hliv HD Hs Hu) as Hr.
  destruct (ReconcilePeers_calm nodes living I HI c _ _ _ w Hup Hw Hr) as [E1 I1].
  pose proof (calm_ok _ _ _ HI w Hw) as Hok. destruct Hr as [R1 _ R2 R3 R4]. do 2 (split; [done|]).
  destruct (ReconcilePeers_converges_aux c _ _ _ w Hok (calm_synced _ _ _ HI c w Hw) R1 R2 R3 E1) as [A1 A2].
  constructor; [done| |].
  - intros y p Hy. rewrite A2 by by rewrite wanted_names. destruct (peers c w !! y) as [q|]; [|naive_solver].
    destruct (OrphanSelector _ _ (peer_Labels q)) eqn:Eq; split; [done| |by intros [= <-]|by intros [? _]].
    intros [[= <-] ?]. congruence.
  - intros c' Hc. destruct (ReconcilePeers_touches c (mesh_Name mesh) (entry_Name s) (wanted c s) w Hok) as (N & F & _).
    by apply (fr_other _ _ _ _ F).
Qed.

(** A peer of [c] after a push: a wanted one, or one that was there. *)
Lemma pushed_cases c s w w' y p :
  pushed c s w w' -> peers c w' !! y = Some p ->
  (exists d, d ∈ desired_of s /\ y = peer_Name d /\ spec_PublicKey (peer_Spec p) = spec_PublicKey (peer_Spec d) /\
     OrphanSelector (mesh_Name mesh) (entry_Name s) (peer_Labels p) = true) \/
  ((y ∉ (peer_Name <$> desired_of s)) /\ peers c w !! y = Some p /\
     OrphanSelector (mesh_Name mesh) (entry_Name s) (peer_Labels p) = false).
Proof.
  intros [P1 P2 _] Hp. destruct (decide (y ∈ (peer_Name <$> desired_of s))) as [Hy|Hy].
  - left. rewrite <- (wanted_names c s) in Hy. apply list_elem_of_fmap in Hy as (d & -> & Hd).
    destruct (P1 d Hd) as (q & Hq & Heq & Hl). rewrite Hp in Hq. injection Hq as <-.
    destruct (wanted_elem c s d Hd) as (d0 & Hd0 & Hn & _ & Hk). exists d0.
    rewrite (se_key _ _ Heq). done.
  - right. by apply P2 in Hp.
Qed.

Lemma pushed_converged c s w w' : pushed c s w w' -> converged c s w'.
Proof.
  intros HP. split; [apply (pushed_wanted _ _ _ _ HP)|]. intros y p Hp Hl.
  destruct (pushed_cases _ _ _ _ _ _ HP Hp) as [(d & Hd & -> & _)|(_ & _ & ?)]; [by apply list_elem_of_fmap_2|congruence].
Qed.

Lemma pushed_unclaimed c s w w' :
  s ∈ mesh_Clusters mesh -> pushed c s w w' -> unclaimed c w -> unclaimed c w'.
Proof.
  intros Hs HP [Hk Hn]. constructor.
  - intros s2 d2 y p Hs2 Hd2 Hp Hkey.
    destruct (pushed_cases _ _ _ _ _ _ HP Hp) as [(d & Hd & -> & Hdk & _)|(_ & ? & _)]; [|by eapply Hk].
    apply (distinct_keys HD s s2 d d2); done || congruence.
  - intros s2 d2 p Hs2 Hd2 Hp.
    destruct (pushed_cases _ _ _ _ _ _ HP Hp) as [(d & Hd & E & _ & Hl)|(_ & ? & _)]; [|by eapply Hn].
    by rewrite (distinct_across HD s2 s d2 d).
Qed.

(** A push leaves what other sources have on the target. *)
Lemma pushed_keeps c s s' w w' :
  s ∈ mesh_Clusters mesh -> s' ∈ mesh_Clusters mesh -> s <> s' -> pushed c s w w' ->
  converged c s' w -> converged c s' w'.
Proof.
  intros Hs Hs' Hne HP [C1 C2]. split.
  - intros d Hd. destruct (C1 d Hd) as (q & Hq & Heq & Hl). exists q. split; [|done].
    apply (pushed_rest _ _ _ _ HP).
    + intros (d0 & E & Hd0)%list_elem_of_fmap. destruct (wanted_elem c s' d Hd) as (d1 & Hd1 & E1 & _).
      apply Hne. apply (distinct_across HD s s' d0 d1); done || congruence.
    + split; [done|]. destruct (OrphanSelector _ (entry_Name s) _) eqn:E; [|done].
      exfalso. apply Hne, (same_entry s s' HD Hs Hs'). by eapply selected_source.
  - intros y p Hp Hl. destruct (pushed_cases _ _ _ _ _ _ HP Hp) as [(d & _ & _ & _ & Hl')|(_ & Hp' & _)]; [|by eapply C2].
    exfalso. apply Hne, (same_entry s s' HD Hs Hs'). by eapply selected_source.
Qed.

(** *** What a run does to others *)

(** Peers of other living owners stay as they are, and new peers have the names and
    keys of the mesh's own. *)
Record moved (w w' : W) : Prop := {
  mv_foreign : forall c y p, peer_Labels p !! LabelMesh <> Some (mesh_Name mesh) -> ~ ghost living p ->
    peers c w' !! y = Some p <-> peers c w !! y = Some p;
  mv_origin : forall c y p, peers c w' !! y = Some p -> peers c w !! y = Some p \/
    exists s d, s ∈ mesh_Clusters mesh /\ d ∈ desired_of s /\ y = peer_Name d /\
      spec_PublicKey (peer_Spec p) = spec_PublicKey (peer_Spec d) /\
      OrphanSelector (mesh_Name mesh) (entry_Name s) (peer_Labels p) = true;
}.

Lemma moved_same w w' : (forall c, peers c w' = peers c w) -> moved w w'.
Proof. intros E. constructor; intros c y p; rewrite E; auto. Qed.

Lemma moved_trans w1 w2 w3 : moved w1 w2 -> moved w2 w3 -> moved w1 w3.
Proof.
  intros [F1 O1] [F2 O2]. constructor.
  - intros c y p Hf Hg. by rewrite F2, F1.
  - intros c y p [Hp|?]%O2; [by apply O1|by right].
Qed.

Lemma selected_mesh m s l : OrphanSelector m s l = true -> l !! LabelMesh = Some m.
Proof. unfold OrphanSelector. by intros [? _]%bool_decide_eq_true. Qed.

Lemma pushed_moved c s w w' : s ∈ mesh_Clusters mesh -> unclaimed c w -> pushed c s w w' -> moved w w'.
Proof.
  intros Hs Hu HP. constructor; intros c' y p.
  - intros Hf _. destruct (decide (c = c')) as [<-|Hne]; [|by rewrite (pushed_other _ _ _ _ HP)]. split; intros Hp.
    + destruct (pushed_cases _ _ _ _ _ _ HP Hp) as [(d & _ & _ & _ & Hl)|(_ & ? & _)]; [|done].
      by apply selected_mesh in Hl.
    + apply (pushed_rest _ _ _ _ HP).
      * intros (d & -> & Hd)%list_elem_of_fmap. apply Hf. by eapply selected_mesh, (unclaimed_names c w Hu s d).
      * split; [done|]. destruct (OrphanSelector _ _ _) eqn:E; [|done]. by apply selected_mesh in E.
  - intros Hp. destruct (decide (c = c')) as [<-|Hne]; [|left; by rewrite <- (pushed_other _ _ _ _ HP)].
    destruct (pushed_cases _ _ _ _ _ _ HP Hp) as [(d & Hd & Hy & Hk & Hl)|(_ & ? & _)]; [|by left].
    right. by exists s, d.
Qed.

(** *** The loops *)

Definition settled (w : W) : Prop :=
  I w /\ forall n c, Client registry n = Some c -> unclaimed c w.

(** From [w] to [w'] nothing that had converged is lost. *)
Definition progress (w w' : W) : Prop :=
  settled w' /\
  (forall n c s, Client registry n = Some c -> s ∈ mesh_Clusters mesh -> converged c s w -> converged c s w') /\ moved w w'.

Lemma progress_refl w : settled w -> progress w w.
Proof. intros Hw. split; [done|]. split; [done|by apply moved_same]. Qed.

Lemma progress_trans w1 w2 w3 : progress w1 w2 -> progress w2 w3 -> progress w1 w3.
Proof.
  intros (_ & P1 & M1) (S2 & P2 & M2). split; [done|]. split; [eauto|by eapply moved_trans].
Qed.

Lemma progress_same w w' : settled w -> I w' -> (forall c, peers c w' = peers c w) -> progress w w'.
Proof.
  intros [_ Hu] Hw' Hp. split; [split; [done|]|split; [|by apply moved_same]].
  - intros n c Hc. apply (unclaimed_same c w); [done|by eapply Hu].
  - intros n c s _ _. by apply (converged_same c s w).
Qed.

Lemma ListNodes_progress c w : settled w -> progress w (ListNodes c w).2.
Proof.
  intros Hw. apply progress_same; [done|by apply (calm_ListNodes _ _ _ HI), Hw|].
  apply ListNodes_quiet. by apply (calm_ok _ _ _ HI), Hw.
Qed.

Lemma ListNodes_calm c w :
  up c -> settled w -> exists w1, ListNodes c w = (Ok (nodes c), w1) /\ progress w w1.
Proof.
  intros Hup Hw. pose proof (ListNodes_progress c w Hw) as HP.
  pose proof (calm_nodes nodes living I HI c w Hup (proj1 Hw)) as E1.
  destruct (ListNodes c w) as [r w1]. cbn [fst snd] in *. subst r. by exists w1.
Qed.

Lemma enrich_run c s w :
  up c -> I w -> enrichEndpointsFromDiscovered c (desired_of s) w = (Ok (wanted c s), (ListNodes c w).2).
Proof.
  intros Hup Hw. pose proof (calm_nodes nodes living I HI c w Hup Hw) as E1.
  unfold enrichEndpointsFromDiscovered, wanted. rewrite st_bind_run, E1. cbn [DiscoveredEndpointsByKey].
  by case_decide.
Qed.

Lemma enrich_calm c s w :
  up c -> settled w -> exists w1, enrichEndpointsFromDiscovered c (desired_of s) w = (Ok (wanted c s), w1) /\ progress w w1.
Proof.
  intros Hup Hw. destruct (ListNodes_calm c w Hup Hw) as (w1 & E1 & P1). exists w1. split; [|done].
  by rewrite enrich_run, E1 by (done || apply Hw).
Qed.

Lemma push_one n c s w :
  Client registry n = Some c -> up c -> s ∈ mesh_Clusters mesh -> settled w ->
  exists w1, ReconcilePeers c (mesh_Name mesh) (entry_Name s) (wanted c s) w = ([], w1) /\
    progress w w1 /\ converged c s w1.
Proof.
  intros Hc Hup Hs [Hw Hu]. destruct (ReconcilePeers_pushed c s w Hup Hs Hw (Hu n c Hc)) as (E1 & I1 & P1).
  destruct (ReconcilePeers c _ _ _ w) as [errs w1]. cbn [fst snd] in *. subst errs. exists w1.
  pose proof (pushed_converged _ _ _ _ P1) as HC. split; [done|]. split; [|done].
  split; [split; [done|]|split; [|by apply (pushed_moved c s); [|eapply Hu|]]].
  - intros n' c' Hc'. destruct (decide (c = c')) as [<-|Hne]; [by eapply pushed_unclaimed, Hu|].
    eapply unclaimed_same; [by eapply pushed_other|by eapply Hu].
  - intros n' c' s' Hc' Hs' Hcv. destruct (decide (c = c')) as [<-|Hne].
    + destruct (decide (entry_Name s = entry_Name s')) as [E|E].
      * by rewrite <- (same_entry s s' HD Hs Hs' E).
      * apply (pushed_keeps c s s' w w1); [done|done|by intros ->|done|done].
    + eapply converged_same; [by eapply pushed_other|done].
Qed.

(** From here on, the registered clusters are up. *)
Context (Hup : forall n c, Client registry n = Some c -> up c).

Lemma pushLoop_calm s targets w :
  s ∈ mesh_Clusters mesh -> settled w ->
  let r := pushLoop registry (mesh_Name mesh) s (desired_of s) targets w in
  r.1 = None /\ progress w r.2 /\
  forall t c, t ∈ targets -> entry_Name t <> entry_Name s -> Client registry (entry_Name t) = Some c -> converged c s r.2.
Proof.
  intros Hs. revert w; induction targets as [|t targets IH]; intros w Hw; cbn [pushLoop].
  { split; [done|]. split; [by apply progress_refl|]. by intros t c ?%not_elem_of_nil. }
  case_decide as Ht.
  { destruct (IH w Hw) as (E & P & HC). do 2 (split; [done|]). intros t' c [->|?]%elem_of_cons; [done|by eauto]. }
  destruct (Client registry (entry_Name t)) as [ct|] eqn:Ec.
  2:{ destruct (IH w Hw) as (E & P & HC). do 2 (split; [done|]). intros t' c [->|?]%elem_of_cons; [congruence|by eauto]. }
  destruct (enrich_calm ct s w (Hup _ _ Ec) Hw) as (w1 & E1 & P1). rewrite st_bind_run, E1. cbn [fst snd].
  destruct (push_one (entry_Name t) ct s w1 Ec (Hup _ _ Ec) Hs (proj1 P1)) as (w2 & E2 & P2 & C2). rewrite st_bind_run, E2. cbn [fst snd].
  destruct (IH w2 (proj1 P2)) as (E3 & P3 & C3). split; [done|]. split; [by eapply progress_trans, progress_trans|].
  intros t' c [->|Ht']%elem_of_cons Hne Hc; [|by eapply C3]. rewrite Ec in Hc. injection Hc as <-.
  by eapply (proj1 (proj2 P3)).
Qed.

(** *** The source clusters *)

Context (Hport : forall s, s ∈ mesh_Clusters mesh -> 0 <= entry_WireguardPort s < 65536).

(** Sources in [l] have reached all their targets. *)
Definition reached (l : list ClusterEntry) (w : W) : Prop :=
  forall s t cs c, s ∈ l -> t ∈ mesh_Clusters mesh -> entry_Name t <> entry_Name s ->
    Client registry (entry_Name s) = Some cs -> Client registry (entry_Name t) = Some c -> converged c s w.

Lemma reached_progress l w w' :
  (forall s, s ∈ l -> s ∈ mesh_Clusters mesh) -> progress w w' -> reached l w -> reached l w'.
Proof. intros Hl (_ & P & _) H s t cs c Hs Ht Hne Hcs Hc. eapply P; [done|by apply Hl|by eapply H]. Qed.

(** Building the peers of a source does not fail. *)
Lemma desired_of_built s cs :
  s ∈ mesh_Clusters mesh -> Client registry (entry_Name s) = Some cs ->
  buildDesiredPeers (mesh_Name mesh) s (filterNodes (nodes cs) s).1.1 (meshPersistentKeepalive mesh) = Ok (desired_of s).
Proof.
  intros Hs Ec. unfold desired_of. rewrite Ec. unfold buildDesiredPeers.
  destruct (buildLoop_Ok (mesh_Name mesh) s (filterNodes (nodes cs) s).1.1
    (CollectAnchorCIDRs s (filterNodes (nodes cs) s).1.1) (meshPersistentKeepalive mesh)) as (ps & -> & _); [by apply Hport| |done].
  intros n Hn. by apply (filterNodes_eligible (nodes cs)).
Qed.

Lemma reconcileSource_calm s w :
  s ∈ mesh_Clusters mesh -> settled w ->
  exists status w1, reconcileSource registry mesh s w = (Ok status, w1) /\ progress w w1 /\ reached [s] w1.
Proof.
  intros Hs Hw. unfold reconcileSource. destruct (Client registry (entry_Name s)) as [cs|] eqn:Ec.
  2:{ exists (None, true), w. split; [done|]. split; [by apply progress_refl|].
      intros s' t cs c ->%list_elem_of_singleton _ _. congruence. }
  destruct (ListNodes_calm cs w (Hup _ _ Ec) Hw) as (w1 & E1 & P1). rewrite st_bind_run, E1. cbn [fst snd].
  destruct (filterNodes (nodes cs) s) as [[valid skipped] transient] eqn:Ef.
  pose proof (desired_of_built s cs Hs Ec) as Hd. rewrite Ef in Hd. cbn [fst] in Hd.
  destruct (pushLoop_calm s (mesh_Clusters mesh) w1 Hs (proj1 P1)) as (E2 & P2 & C2).
  unfold pushPeersToTargets. rewrite Hd. st_run. destruct (pushLoop _ _ _ _ _ w1) as [err w2]. cbn [fst snd] in *. subst err.
  st_run. eexists _, w2. split; [done|]. split; [by eapply progress_trans|].
  intros s' t cs' c ->%list_elem_of_singleton Ht Hne _ Hc. by eapply C2.
Qed.

Lemma reconcileSources_calm l w :
  (forall s, s ∈ l -> s ∈ mesh_Clusters mesh) -> settled w ->
  exists statuses w1, reconcileSources registry mesh l w = (Ok statuses, w1) /\ progress w w1 /\ reached l w1.
Proof.
  revert w; induction l as [|s l IH]; intros w Hl Hw; cbn [reconcileSources].
  { exists ([], false), w. split; [done|]. split; [by apply progress_refl|]. by intros s t cs c ?%not_elem_of_nil. }
  destruct (reconcileSource_calm s w) as (st & w1 & E1 & P1 & R1); [apply Hl; left|done|].
  destruct (IH w1) as (sts & w2 & E2 & P2 & R2); [intros; apply Hl; by right|by apply P1|].
  rewrite st_bind_run, E1. destruct st as [st inc]. cbn [fst snd]. rewrite st_bind_run, E2. destruct sts as [sts inc'].
  st_run. eexists _, w2. split; [done|]. split; [by eapply progress_trans|].
  intros s' t cs c [->|Hs']%elem_of_cons; [|by apply R2].
  eapply (reached_progress [s]); [|done|done|left]. intros s0 ->%list_elem_of_singleton. apply Hl. left.
Qed.

(** *** The sweeps *)

(** Different clusters have different clients. *)
Context (Hinj : forall n n' c, Client registry n = Some c -> Client registry n' = Some c -> n = n').

(** Peers only disappear. *)
Definition shrinks (w w' : W) : Prop :=
  I w' /\ forall c y p, peers c w' !! y = Some p -> peers c w !! y = Some p.

(** The mesh's peers on cluster [n] are of its sources. *)
Definition swept (n : string) (c : C) (w : W) : Prop :=
  forall y p, peers c w !! y = Some p -> peer_Labels p !! LabelMesh = Some (mesh_Name mesh) ->
    n ∈ (entry_Name <$> mesh_Clusters mesh) /\
    default "" (peer_Labels p !! LabelSourceCluster) ∈ (entry_Name <$> mesh_Clusters mesh).

Lemma shrinks_refl w : I w -> shrinks w w.
Proof. by split. Qed.
Lemma shrinks_trans w1 w2 w3 : shrinks w1 w2 -> shrinks w2 w3 -> shrinks w1 w3.
Proof. intros [_ H1] [H2 H3]. split; [done|]. eauto. Qed.
Lemma shrinks_moved w w' :
  shrinks w w' ->
  (forall c y p, peer_Labels p !! LabelMesh <> Some (mesh_Name mesh) -> ~ ghost living p ->
     peers c w !! y = Some p -> peers c w' !! y = Some p) ->
  moved w w'.
Proof. intros [_ Hs] Hk. constructor; [|by auto]. intros c y p Hf Hg. split; [apply Hs|by apply Hk]. Qed.
Lemma shrinks_swept n c w w' : shrinks w w' -> swept n c w -> swept n c w'.
Proof. intros [_ H] Hs y p Hp. by eapply Hs, H. Qed.

(** Peers of the mesh's own sources survive a step that only removes others. *)
Lemma converged_shrinks c s w w' :
  shrinks w w' ->
  (forall y p, peers c w !! y = Some p -> OrphanSelector (mesh_Name mesh) (entry_Name s) (peer_Labels p) = true ->
     peers c w' !! y = Some p) ->
  converged c s w -> converged c s w'.
Proof.
  intros [_ Hsh] Hk [C1 C2]. split.
  - intros d Hd. destruct (C1 d Hd) as (q & Hq & Heq & Hl). exists q. split; [by apply Hk|done].
  - intros y p Hp. by apply C2, Hsh.
Qed.

Lemma DeleteStale_calm c valid w :
  up c -> I w ->
  let w' := (DeleteStaleSourceClusters c (mesh_Name mesh) valid w).2 in
  shrinks w w' /\ (forall c', c <> c' -> peers c' w' = peers c' w) /\
  (forall y p, peers c w' !! y = Some p <-> peers c w !! y = Some p /\ ~ stale (mesh_Name mesh) valid p).
Proof.
  intros Hcup Hw w'. pose proof (calm_ok _ _ _ HI w Hw) as Hok.
  assert (Hc : (DeleteStaleSourceClusters c (mesh_Name mesh) valid w).1 = [] /\ I w').
  { subst w'. unfold DeleteStaleSourceClusters. st_run.
    destruct (calm_listed nodes living I HI c (MeshSelector (mesh_Name mesh)) w Hcup Hw) as (items & w1 & -> & I1 & P1 & Hnd & Hit).
    cbn [fst snd]. rewrite (collect_named peer_Name). apply (calm_loop I c); [by rewrite <- list_fmap_compose|done|].
    intros x a w2 (p & [= -> ->] & Hp)%list_elem_of_fmap I2 Hsame. cbn [snd]. unfold deleteStaleOne.
    case_decide; [done|]. st_run. destruct (calm_Delete _ _ _ HI c p w2 I2) as [D1 D2].
    destruct (D2 Hcup) as [u Eu]; [rewrite Hsame, P1; apply Hit in Hp as [-> _]; done|].
    destruct (Delete c p w2) as [r w3] eqn:E. cbn [fst snd] in *. subst r. st_run. do 2 (split; [done|]).
    intros y Hy. apply Delete_Ok in E as ->; [|by apply (calm_ok _ _ _ HI)]. by rewrite lookup_delete_ne. }
  destruct Hc as [E Iw'].
  assert (Hother : forall c', c <> c' -> peers c' w' = peers c' w).
  { intros c' Hne. subst w'. unfold DeleteStaleSourceClusters. st_run.
    pose proof (List_peers c (MeshSelector (mesh_Name mesh)) w c') as HL.
    destruct (List c _ w) as [[items|er] w1]; cbn [fst snd] in *; [|done].
    apply (st_collect_inv (fun w1 => peers c' w1 = peers c' w)); [|done]. intros p w2 _ H2. unfold deleteStaleOne.
    case_decide; [done|]. st_run. pose proof (Delete_other c c' p w2 Hne) as Hd.
    destruct (Delete c p w2) as [[u|[]] w3]; cbn [fst snd] in *; st_run; by rewrite Hd. }
  pose proof (DeleteStale_exact_aux c _ valid w Hok (calm_synced _ _ _ HI c w Hw) E) as Hx. fold w' in Hx.
  assert (Hiff : forall y p, peers c w' !! y = Some p <-> peers c w !! y = Some p /\ ~ stale (mesh_Name mesh) valid p).
  { intros y p. rewrite Hx. destruct (peers c w !! y) as [q|]; [case_decide|]; naive_solver. }
  split; [|done]. split; [done|]. intros c' y p. destruct (decide (c = c')) as [<-|Hne]; [by intros [? _]%Hiff|].
  by rewrite Hother.
Qed.

Lemma cleanupStale_step n c w :
  Client registry n = Some c -> I w -> reached (mesh_Clusters mesh) w ->
  let valid := entry_Name <$> mesh_Clusters mesh in
  let w' := (DeleteStaleSourceClusters c (mesh_Name mesh) (if decide (n ∈ valid) then valid else []) w).2 in
  shrinks w w' /\ reached (mesh_Clusters mesh) w' /\ swept n c w' /\ moved w w'.
Proof.
  intros Hc Hw HR valid. set (sources := if decide (n ∈ valid) then valid else []). intros w'.
  destruct (DeleteStale_calm c sources w (Hup _ _ Hc) Hw) as (Hsh & Ho & Hd). fold w' in Hsh, Ho, Hd. split; [done|]. split.
  - intros s t cs ct Hs Ht Hne Hcs Hct. apply (converged_shrinks ct s w); [done| |by eapply HR]. intros y p Hp Hl.
    destruct (decide (c = ct)) as [<-|E]; [|by rewrite Ho]. apply Hd. split; [done|].
    pose proof (Hinj _ _ _ Hct Hc) as <-. unfold sources. rewrite decide_True by by apply list_elem_of_fmap_2.
    unfold OrphanSelector in Hl. apply bool_decide_eq_true in Hl as [_ Hsrc]. intros [_ Hnot]. apply Hnot.
    rewrite Hsrc. cbn. by apply list_elem_of_fmap_2.
  - split; [|apply shrinks_moved; [done|]; intros c' y p Hf _ Hp; destruct (decide (c = c')) as [<-|Hne];
      [apply Hd; by split; [|intros [? _]]|by rewrite Ho]].
    intros y p [Hp Hns]%Hd Hm. unfold stale, sources in Hns. case_decide as Hn.
    + split; [done|]. destruct (decide (default "" (peer_Labels p !! LabelSourceCluster) ∈ valid)); naive_solver.
    + exfalso. apply Hns. split; [done|]. apply not_elem_of_nil.
Qed.

Lemma cleanupStale_loop names w :
  I w -> reached (mesh_Clusters mesh) w ->
  let valid := entry_Name <$> mesh_Clusters mesh in
  let w' := (st_iter (fun name =>
    match Client registry name with
    | None => mret tt
    | Some tgtClient =>
        let sources := if decide (name ∈ valid) then valid else [] in
        _ ← DeleteStaleSourceClusters tgtClient (mesh_Name mesh) sources;
        mret tt
    end) names w).2 in
  shrinks w w' /\ reached (mesh_Clusters mesh) w' /\ moved w w' /\
  forall n c, n ∈ names -> Client registry n = Some c -> swept n c w'.
Proof.
  revert w; induction names as [|n names IH]; intros w Hw HR valid; cbn [st_iter].
  { split; [by apply shrinks_refl|]. split; [done|]. split; [by apply moved_same|]. by intros n c ?%not_elem_of_nil. }
  rewrite st_bind_run. destruct (Client registry n) as [c|] eqn:Ec; cbn [fst snd].
  2:{ st_run. destruct (IH w Hw HR) as (Hsh & HR' & HM & Hs). do 3 (split; [done|]).
      intros n' c' [->|?]%elem_of_cons; [congruence|by apply Hs]. }
  rewrite st_bind_run. rewrite st_ret_run. cbn [fst snd].
  destruct (cleanupStale_step n c w Ec Hw HR) as (Hsh & HR' & Hsw & HM). fold valid in Hsh, HR', Hsw, HM.
  set (w1 := (DeleteStaleSourceClusters c _ _ w).2) in *.
  destruct (IH w1 (proj1 Hsh) HR') as (Hsh2 & HR2 & HM2 & Hs2). split; [by eapply shrinks_trans|]. split; [done|].
  split; [by eapply moved_trans|].
  intros n' c' [->|?]%elem_of_cons Hc'; [|by apply Hs2]. rewrite Ec in Hc'. injection Hc' as <-.
  by eapply shrinks_swept.
Qed.

Lemma reached_same w w' : (forall c, peers c w' = peers c w) -> reached (mesh_Clusters mesh) w -> reached (mesh_Clusters mesh) w'.
Proof. intros Hp HR s t cs c Hs Ht Hne Hcs Hc. apply (converged_same c s w); [done|]. by eapply HR. Qed.

Lemma cleanupStale_calm w :
  I w -> reached (mesh_Clusters mesh) w ->
  let w' := (cleanupStaleSourceClusters registry mesh w).2 in
  I w' /\ reached (mesh_Clusters mesh) w' /\ moved w w' /\ forall n c, Client registry n = Some c -> swept n c w'.
Proof.
  intros Hw HR. unfold cleanupStaleSourceClusters. rewrite st_bind_run.
  destruct (rangeClusters_quiet (reg_clusters registry) w (calm_ok _ _ _ HI w Hw)) as (_ & _ & P0).
  pose proof (calm_rangeClusters _ _ _ HI (reg_clusters registry) w Hw) as I0.
  pose proof (rangeClusters_perm (reg_clusters registry) w) as Hperm.
  destruct (rangeClusters _ w) as [names w0]. cbn [fst snd] in *.
  destruct (cleanupStale_loop names w0 I0) as (Hsh & HR' & HM & Hs); [by apply (reached_same w)|].
  split; [apply Hsh|]. split; [done|]. split; [by eapply moved_trans, HM; apply moved_same|]. intros n c Hc. apply Hs; [|done].
  rewrite Hperm. unfold Client in Hc. destruct (reg_clusters registry !! n) as [c'|] eqn:E; [|done].
  apply list_elem_of_fmap. exists (n, c'). split; [done|]. by apply elem_of_map_to_list.
Qed.

(** Deleting listed peers of dead meshes. *)
Lemma sweep_loop c names items w :
  up c -> I w -> NoDup (peer_Name <$> items) -> (forall p, p ∈ items -> peers c w !! peer_Name p = Some p) ->
  let w' := (st_iter (sweepOne c (list_to_set names)) items w).2 in
  I w' /\ (forall c', c <> c' -> peers c' w' = peers c' w) /\
  forall y p, peers c w' !! y = Some p <-> peers c w !! y = Some p /\ ~ (p ∈ items /\ peer_Name p = y /\ ghost names p).
Proof.
  intros Hcup. revert w; induction items as [|q items IH]; intros w Hw Hnd Hit; cbn [st_iter].
  { split; [done|]. split; [done|]. intros y p. split; [|by intros [? _]]. intros Hp. split; [done|].
    by intros [?%not_elem_of_nil _]. }
  rewrite st_bind_run. cbn [fmap list_fmap] in Hnd. apply list.NoDup_cons in Hnd as [Hq Hnd].
  assert (Hne : forall p, p ∈ items -> peer_Name p <> peer_Name q).
  { intros p Hp E. apply Hq. rewrite <- E. by apply list_elem_of_fmap_2. }
  destruct (decide (ghost names q)) as [Hg|Hg].
  - assert (Eq : sweepOne c (list_to_set names) q w = (tt, (Delete c q w).2)).
    { unfold sweepOne. rewrite decide_False by apply Hg. rewrite decide_False by (rewrite elem_of_list_to_set; apply Hg).
      st_run. done. }
    rewrite Eq. cbn [fst snd].
    destruct (calm_Delete _ _ _ HI c q w Hw) as [I1 HDel]. destruct (HDel Hcup) as [u Eu]; [by rewrite Hit; [|left]|].
    pose proof (fun c' => Delete_other c c' q w) as Ho. destruct (Delete c q w) as [r w1] eqn:E. cbn [fst snd] in *. subst r.
    pose proof (Delete_Ok c q w u w1 (calm_ok _ _ _ HI w Hw) E) as Hd.
    destruct (IH w1 I1 Hnd) as (I2 & O2 & P2).
    { intros p Hp. rewrite Hd, lookup_delete_ne; [apply Hit; by right|]. by apply not_eq_sym, Hne. }
    split; [done|]. split; [intros c' Hc; by rewrite O2, Ho|]. intros y p. rewrite P2, Hd, lookup_delete_Some. split.
    + intros [[Hy Hp] Hn]. split; [done|]. intros (Hpi & <- & Hgp). apply elem_of_cons in Hpi as [->|Hpi]; [done|]. by apply Hn.
    + intros [Hp Hn]. split; [split; [|done]|].
      * intros <-. apply Hn. rewrite Hit in Hp by left. injection Hp as <-. split; [left|done].
      * intros (Hpi & Hy & Hgp). apply Hn. split; [by right|done].
  - assert (Eskip : sweepOne c (list_to_set names) q w = (tt, w)).
    { unfold sweepOne. case_decide; [done|]. rewrite decide_True; [done|]. apply elem_of_list_to_set.
      destruct (decide (default "" (peer_Labels q !! LabelMesh) ∈ names)); [done|]. exfalso. by apply Hg. }
    rewrite Eskip. cbn [fst snd]. destruct (IH w Hw Hnd) as (I2 & O2 & P2); [intros; apply Hit; by right|].
    split; [done|]. split; [done|]. intros y p. rewrite P2. split; intros [Hp Hn]; (split; [done|]).
    + intros (Hpi & <- & Hgp). apply elem_of_cons in Hpi as [->|Hpi]; [done|]. by apply Hn.
    + intros (Hpi & Hy & Hgp). apply Hn. split; [by right|done].
Qed.

Lemma sweep_calm c names w :
  up c -> I w ->
  let w' := (sweepOrphanPeersInCluster c (list_to_set names) w).2 in
  shrinks w w' /\ (forall c', c <> c' -> peers c' w' = peers c' w) /\
  (forall y p, peers c w' !! y = Some p <-> peers c w !! y = Some p /\ ~ ghost names p).
Proof.
  intros Hcup Hw. unfold sweepOrphanPeersInCluster. st_run. pose proof (calm_ok _ _ _ HI w Hw) as Hok.
  destruct (calm_listed nodes living I HI c everything w Hcup Hw) as (items & w1 & E & I1 & _ & Hnd & Hit).
  pose proof (fun c' => List_peers c everything w c') as P1. rewrite E in P1 |- *. cbn [fst snd] in *.
  destruct (sweep_loop c names items w1 Hcup I1 Hnd) as (I2 & O2 & P2).
  { intros p Hp. rewrite P1. by apply Hit. }
  set (w2 := (st_iter _ items w1).2) in *.
  assert (Hiff : forall y p, peers c w2 !! y = Some p <-> peers c w !! y = Some p /\ ~ ghost names p).
  { intros y p. rewrite P2, P1. split; intros [Hp Hn]; (split; [done|]).
    - intros Hg. apply Hn. pose proof (peers_name c w y p Hok Hp) as <-. split; [by apply Hit|done].
    - intros (_ & _ & Hg). done. }
  split; [|split; [intros c' Hc; by rewrite O2|done]].
  split; [done|]. intros c' y p. destruct (decide (c = c')) as [<-|Hne]; [by intros [? _]%Hiff|]. by rewrite O2, P1.
Qed.

(** What a converged reconcile leaves behind. *)
Definition mesh_converged (w : W) : Prop :=
  reached (mesh_Clusters mesh) w /\ forall n c, Client registry n = Some c -> swept n c w.

Lemma mesh_converged_shrinks w w' :
  shrinks w w' ->
  (forall c y p, peers c w !! y = Some p -> peer_Labels p !! LabelMesh = Some (mesh_Name mesh) -> peers c w' !! y = Some p) ->
  mesh_converged w -> mesh_converged w'.
Proof.
  intros Hsh Hk [HR Hs]. split.
  - intros s t cs c Hs' Ht Hne Hcs Hc. apply (converged_shrinks c s w); [done| |by eapply HR].
    intros y p Hp Hl. apply Hk; [done|]. unfold OrphanSelector in Hl. by apply bool_decide_eq_true in Hl as [? _].
  - intros n c Hc. eapply shrinks_swept; [done|by apply Hs].
Qed.

Lemma mesh_converged_same w w' : (forall c, peers c w' = peers c w) -> mesh_converged w -> mesh_converged w'.
Proof.
  intros Hp [HR Hs]. split; [by apply (reached_same w)|]. intros n c Hc y p. rewrite Hp. by apply Hs.
Qed.

(** No peer of a dead mesh is left on a registered cluster. *)
Definition ghost_free (w : W) : Prop :=
  forall n c y p, Client registry n = Some c -> peers c w !! y = Some p -> ~ ghost living p.

Lemma cleanupOrphans_loop names w :
  I w -> mesh_converged w ->
  let w' := (st_iter (fun name =>
    match Client registry name with
    | None => mret tt
    | Some tgtClient => sweepOrphanPeersInCluster tgtClient (list_to_set living)
    end) names w).2 in
  I w' /\ mesh_converged w' /\ shrinks w w' /\ moved w w' /\
  forall n c y p, n ∈ names -> Client registry n = Some c -> peers c w' !! y = Some p -> ~ ghost living p.
Proof.
  revert w; induction names as [|n names IH]; intros w Hw HC; cbn [st_iter].
  { do 2 (split; [done|]). split; [by apply shrinks_refl|]. split; [by apply moved_same|].
    by intros n c y p ?%not_elem_of_nil. }
  rewrite st_bind_run. destruct (Client registry n) as [c|] eqn:Ec; cbn [fst snd].
  2:{ st_run. destruct (IH w Hw HC) as (I' & C' & S' & M' & G'). do 4 (split; [done|]).
      intros n' c' y p [->|?]%elem_of_cons; [congruence|by eapply G']. }
  destruct (sweep_calm c living w (Hup _ _ Ec) Hw) as (Hsh & Ho & Hg). set (w1 := (sweepOrphanPeersInCluster c _ w).2) in *.
  assert (HC1 : mesh_converged w1).
  { apply (mesh_converged_shrinks w); [done| |done]. intros c' y p Hp Hl.
    destruct (decide (c = c')) as [<-|Hne]; [|by rewrite Ho]. apply Hg. split; [done|].
    unfold ghost. rewrite Hl. by intros [_ ?]. }
  assert (HM1 : moved w w1).
  { apply shrinks_moved; [done|]. intros c' y p _ Hng Hp. destruct (decide (c = c')) as [<-|Hne]; [by apply Hg|by rewrite Ho]. }
  destruct (IH w1 (proj1 Hsh) HC1) as (I' & C' & S' & M' & G'). do 2 (split; [done|]). split; [by eapply shrinks_trans|].
  split; [by eapply moved_trans|].
  intros n' c' y p [->|?]%elem_of_cons Hc' Hp; [|by eapply G']. rewrite Ec in Hc'. injection Hc' as <-.
  apply S' in Hp. by apply Hg in Hp as [_ ?].
Qed.

Lemma rangeClusters_all n c w : Client registry n = Some c -> n ∈ (rangeClusters (reg_clusters registry) w).1.
Proof.
  intros Hc. rewrite rangeClusters_perm. unfold Client in Hc.
  destruct (reg_clusters registry !! n) as [c'|] eqn:E; [|done].
  apply list_elem_of_fmap. exists (n, c'). split; [done|]. by apply elem_of_map_to_list.
Qed.

Lemma cleanupOrphans_calm w :
  I w -> mesh_converged w ->
  let w' := (cleanupOrphanMeshPeers registry w).2 in I w' /\ mesh_converged w' /\ moved w w' /\ ghost_free w'.
Proof.
  intros Hw HC. unfold cleanupOrphanMeshPeers, collectLivingMeshes. rewrite !st_bind_run.
  destruct (ListMeshes_quiet None w (calm_ok _ _ _ HI w Hw)) as (_ & _ & P1).
  pose proof (calm_ListMeshes _ _ _ HI None w Hw) as I1. destruct (calm_living _ _ _ HI w Hw) as (ms & -> & Hms).
  set (w1 := (ListMeshes None w).2) in *. rewrite st_ret_run. cbn [fst snd]. rewrite st_bind_run, Hms.
  destruct (rangeClusters_quiet (reg_clusters registry) w1 (calm_ok _ _ _ HI w1 I1)) as (_ & _ & P2).
  pose proof (calm_rangeClusters _ _ _ HI (reg_clusters registry) w1 I1) as I2.
  destruct (cleanupOrphans_loop (rangeClusters (reg_clusters registry) w1).1 (rangeClusters (reg_clusters registry) w1).2 I2)
    as (I3 & C3 & _ & M3 & G3).
  { apply (mesh_converged_same w); [|done]. intros c. by rewrite P2, P1. }
  do 2 (split; [done|]). split; [eapply moved_trans, M3; apply moved_same; intros c; by rewrite P2, P1|]. intros n c y p Hc. apply (G3 n c); [by eapply rangeClusters_all|done].
Qed.

Lemma reconcileLive_calm w :
  settled w ->
  exists sts inc w3 w4,
    reconcileAllClusters registry mesh w = (Ok (sts, inc), w3) /\
    w4 = (cleanupOrphanMeshPeers registry (cleanupStaleSourceClusters registry mesh w3).2).2 /\
    I w4 /\ mesh_converged w4 /\ moved w w4 /\ ghost_free w4.
Proof.
  intros Hw. destruct (reconcileSources_calm (mesh_Clusters mesh) w) as (sts & w3 & E3 & P3 & R3); [done|done|].
  destruct sts as [sts inc]. destruct P3 as ([I3 _] & _ & M3).
  destruct (cleanupStale_calm w3 I3 R3) as (I4 & R4 & M4 & S4).
  destruct (cleanupOrphans_calm _ I4 (conj R4 S4)) as (I5 & C5 & M5 & G5).
  eexists sts, inc, w3, _. do 4 (split; [done|]). split; [|done]. by eapply moved_trans, moved_trans.
Qed.

End Mesh.

(** ** Claims of another specification *)

(** A reconcile of [mesh] takes no name or key that [mesh'] will need, on other nodes
    perhaps, when peers of the two with the same key have the same name, and peers
    with the same name are of the same mesh and source. *)
Lemma moved_unclaimed {C W : Type} {api : PeerAPI C W} {laws : PeerAPILaws C W} {capi : ControllerAPI C W}
    registry (mesh mesh' : ClusterMesh) (nodes nodes' : C -> list Node) living c (w w' : W) :
  (forall s s' d d', s ∈ mesh_Clusters mesh -> s' ∈ mesh_Clusters mesh' ->
     d ∈ desired_of registry mesh nodes s -> d' ∈ desired_of registry mesh' nodes' s' ->
     spec_PublicKey (peer_Spec d) = spec_PublicKey (peer_Spec d') -> peer_Name d = peer_Name d') ->
  (forall s s' d d', s ∈ mesh_Clusters mesh -> s' ∈ mesh_Clusters mesh' ->
     d ∈ desired_of registry mesh nodes s -> d' ∈ desired_of registry mesh' nodes' s' -> peer_Name d = peer_Name d' ->
     mesh_Name mesh = mesh_Name mesh' /\ entry_Name s = entry_Name s') ->
  moved registry mesh nodes living w w' ->
  unclaimed registry mesh' nodes' c w -> unclaimed registry mesh' nodes' c w'.
Proof.
  intros HK HN [_ HO] [U1 U2]. constructor.
  - intros s d y p Hs Hd [Hp|(s0 & d0 & Hs0 & Hd0 & -> & Hk & _)]%HO Hkey; [by eapply U1|].
    eapply HK; [exact Hs0|exact Hs|done..|congruence].
  - intros s d p Hs Hd [Hp|(s0 & d0 & Hs0 & Hd0 & Hn & _ & Hl)]%HO; [by eapply U2|].
    destruct (HN s0 s d0 d Hs0 Hs Hd0 Hd) as [<- <-]; [congruence|done].
Qed.

(** ** A whole reconcile *)

Section Whole.
Context {C W : Type} {api : PeerAPI C W} {laws : PeerAPILaws C W}.
Context {capi : ControllerAPI C W} {claws : ControllerLaws C W} {C_eq : EqDecision C}.
Context (registry : ClusterRegistry C) (message : mesh_error -> string).

(** The way of a live and valid mesh through [reconcile] to [reconcileLive]. *)
Lemma reconcile_to_live {up : C -> Prop} nodes living I ns name mesh w w1 :
  calm_on (up := up) nodes living I -> I w ->
  GetMesh ns name w = (Ok mesh, w1) -> mesh_Deleting mesh = false -> ContainsFinalizer mesh = true ->
  (forall items w2, ListMeshes (Some (mesh_Namespace mesh)) w1 = (Ok items, w2) -> ValidateMeshNetworks items = None) ->
  exists w2, reconcile registry message ns name w = reconcileLive registry mesh w2 /\ I w2 /\
    forall c, peers c w2 = peers c w.
Proof.
  intros HI Hw Eg Hdel Hfin Hval. unfold reconcile. rewrite st_bind_run, Eg. cbn [fst snd].
  destruct (GetMesh_quiet ns name w (calm_ok _ _ _ HI w Hw)) as (_ & _ & P1).
  pose proof (calm_GetMesh _ _ _ HI ns name w Hw) as I1. rewrite Eg in P1, I1. cbn [snd] in P1, I1.
  rewrite Hdel, Hfin. cbn [negb]. unfold validateMeshNetworks. rewrite !st_bind_run.
  destruct (ListMeshes_quiet (Some (mesh_Namespace mesh)) w1 (calm_ok _ _ _ HI w1 I1)) as (_ & _ & P2).
  pose proof (calm_ListMeshes _ _ _ HI (Some (mesh_Namespace mesh)) w1 I1) as I2.
  assert (Hnone : forall r w2, ListMeshes (Some (mesh_Namespace mesh)) w1 = (r, w2) ->
    (match r with Err _ => mret None | Ok items => mret (ValidateMeshNetworks items) end : ST W (option mesh_error)) w2 = (None, w2)).
  { intros [items|e] w2 E; [|done]. by rewrite (Hval items w2 E). }
  destruct (ListMeshes (Some (mesh_Namespace mesh)) w1) as [r w2] eqn:EL. cbn [fst snd] in *. rewrite (Hnone r w2 eq_refl).
  exists w2. split; [done|]. split; [done|]. intros c. by rewrite P2.
Qed.

Lemma reconcile_calm {up : C -> Prop} nodes living I ns name mesh w w1 :
  calm_on (up := up) nodes living I -> (forall n c, Client registry n = Some c -> up c) -> I w ->
  GetMesh ns name w = (Ok mesh, w1) -> mesh_Deleting mesh = false -> ContainsFinalizer mesh = true ->
  (forall items w2, ListMeshes (Some (mesh_Namespace mesh)) w1 = (Ok items, w2) -> ValidateMeshNetworks items = None) ->
  mesh_Name mesh ∈ living ->
  (forall s, s ∈ mesh_Clusters mesh -> 0 <= entry_WireguardPort s < 65536) ->
  (forall n n' c, Client registry n = Some c -> Client registry n' = Some c -> n = n') ->
  distinct_peers registry mesh nodes ->
  (forall n c, Client registry n = Some c -> unclaimed registry mesh nodes c w) ->
  let r := reconcile registry message ns name w in
  mesh_converged registry mesh nodes r.2 /\ ghost_free registry living r.2 /\
  (r.1.2 = None \/ exists e, r.1.2 = Some (UpdatingStatus e)) /\
  (r.1.1 = reconcileStateBootstrap \/ r.1.1 = reconcileStateSynced) /\ world_ok r.2 /\
  moved registry mesh nodes living w r.2 /\
  (exists m w4, I w4 /\ r.2 = (UpdateMeshStatus m w4).2 /\ mesh_Namespace m = mesh_Namespace mesh /\
     mesh_Name m = mesh_Name mesh /\ mesh_Clusters m = mesh_Clusters mesh /\ mesh_Deleting m = mesh_Deleting mesh /\
     mesh_Finalizers m = mesh_Finalizers mesh).
Proof.
  intros HI Hup Hw Eg Hdel Hfin Hval Hm Hport Hinj HD Hu r. subst r.
  destruct (reconcile_to_live nodes living I ns name mesh w w1 HI Hw Eg Hdel Hfin Hval) as (w2 & -> & I2 & P2).
  unfold reconcileLive. set (m' := setCondition mesh _ _ _ _).
  assert (Hset : settled registry m' nodes I w2).
  { split; [done|]. intros n c Hc. apply (unclaimed_same registry m' nodes c w); [by rewrite P2|].
    destruct (Hu n c Hc) as [U1 U2]. constructor; [exact U1|exact U2]. }
  assert (HD' : distinct_peers registry m' nodes).
  { destruct HD as [D1 D2 D3 D4]. constructor; [exact D1|exact D2|exact D3|exact D4]. }
  destruct (reconcileLive_calm registry m' nodes living I HI HD' Hm Hup Hport Hinj w2 Hset) as (sts & inc & w3 & w4 & E3 & E4 & I4 & C4 & M4 & G4).
  rewrite st_bind_run, E3. cbn [fst snd]. rewrite !st_bind_run. cbn [fst snd]. rewrite <- E4.
  unfold updateStatus. rewrite st_bind_run.
  set (m5 := setCondition (with_StatusClusters m' sts) "Ready" ConditionTrue "Reconciled" "all clusters reconciled successfully").
  destruct (UpdateMeshStatus_quiet m5 w4 (calm_ok _ _ _ HI w4 I4)) as (O5 & _ & P5).
  assert (M5 : moved registry mesh nodes living w (UpdateMeshStatus m5 w4).2).
  { eapply moved_trans; [by apply moved_same; intros c; rewrite P2|].
    eapply (moved_trans registry mesh nodes living w2 w4); [|by apply moved_same]. destruct M4 as [A1 A2]. by constructor. }
  assert (U5 : exists m w5, I w5 /\ (UpdateMeshStatus m5 w4).2 = (UpdateMeshStatus m w5).2 /\ mesh_Namespace m = mesh_Namespace mesh /\
     mesh_Name m = mesh_Name mesh /\ mesh_Clusters m = mesh_Clusters mesh /\ mesh_Deleting m = mesh_Deleting mesh /\
     mesh_Finalizers m = mesh_Finalizers mesh) by (by exists m5, w4).
  destruct (UpdateMeshStatus m5 w4) as [[u|e] w5]; cbn [fst snd] in *; rewrite !st_ret_run; cbn [fst snd];
    (split; [by apply (mesh_converged_same registry mesh nodes w4)|];
     split; [intros n c y p Hc Hp; rewrite P5 in Hp; by eapply G4|]; split; [eauto|split; [destruct inc; eauto|split; [exact O5|split; [exact M5|exact U5]]]]).
Qed.

(** C1. Convergence of a whole mesh. In a calm environment (every cluster answers,
    reads are current, nobody else writes), one reconcile of a live mesh whose
    networks are valid, whose peers have distinct names and keys that no foreign
    peer uses, does its work without error: afterwards, on every registered cluster,
    the peers of every other registered source cluster are exactly the wanted ones
    (one per valid node, with the endpoints the target has discovered), no peer of
    the mesh from an unlisted source is left, clusters outside the mesh hold
    none of its peers, and no peer labelled with a mesh that does not exist is left
    on any registered cluster. The only error it can report is that of the final status
    update, and it always asks to be run again later. *)
Theorem reconcile_converges nodes living I ns name mesh w w1 :
  calm nodes living I -> I w ->
  GetMesh ns name w = (Ok mesh, w1) -> mesh_Deleting mesh = false -> ContainsFinalizer mesh = true ->
  (forall items w2, ListMeshes (Some (mesh_Namespace mesh)) w1 = (Ok items, w2) -> ValidateMeshNetworks items = None) ->
  mesh_Name mesh ∈ living ->
  (forall s, s ∈ mesh_Clusters mesh -> 0 <= entry_WireguardPort s < 65536) ->
  (forall n n' c, Client registry n = Some c -> Client registry n' = Some c -> n = n') ->
  distinct_peers registry mesh nodes ->
  (forall n c, Client registry n = Some c -> unclaimed registry mesh nodes c w) ->
  let r := reconcile registry message ns name w in
  mesh_converged registry mesh nodes r.2 /\ ghost_free registry living r.2 /\
  (r.1.2 = None \/ exists e, r.1.2 = Some (UpdatingStatus e)) /\
  (r.1.1 = reconcileStateBootstrap \/ r.1.1 = reconcileStateSynced).
Proof.
  intros HI Hw Eg Hdel Hfin Hval Hm Hport Hinj HD Hu.
  by destruct (reconcile_calm (up := fun _ => True) nodes living I ns name mesh w w1) as (? & ? & ? & ? & _).
Qed.

(** Nodes of a cluster that the mesh does not list make no difference to it. *)
Lemma wanted_elsewhere nodes nodes' cluster mesh s t c :
  (forall e, e ∈ mesh_Clusters mesh -> entry_Name e <> cluster) ->
  (forall n c', n <> cluster -> Client registry n = Some c' -> nodes' c' = nodes c') ->
  s ∈ mesh_Clusters mesh -> t ∈ mesh_Clusters mesh -> Client registry (entry_Name t) = Some c ->
  wanted registry mesh nodes' c s = wanted registry mesh nodes c s.
Proof.
  intros Hne Hsame Hs Ht Hc. unfold wanted. rewrite (Hsame (entry_Name t) c) by auto.
  assert (E : desired_of registry mesh nodes' s = desired_of registry mesh nodes s); [|by rewrite E].
  unfold desired_of. destruct (Client registry (entry_Name s)) as [cs|] eqn:Ecs; [|done].
  by rewrite (Hsame (entry_Name s) cs) by auto.
Qed.

(** The same nodes everywhere, the same peers. *)
Lemma wanted_same_nodes nodes nodes' mesh s c :
  nodes' c = nodes c -> (forall cs, Client registry (entry_Name s) = Some cs -> nodes' cs = nodes cs) ->
  wanted registry mesh nodes' c s = wanted registry mesh nodes c s.
Proof.
  intros Hc Hs. unfold wanted. rewrite Hc.
  assert (E : desired_of registry mesh nodes' s = desired_of registry mesh nodes s); [|by rewrite E].
  unfold desired_of. destruct (Client registry (entry_Name s)) as [cs|]; [|done]. by rewrite Hs.
Qed.

End Whole.

(** ** The in-memory environment is calm *)

Module MemoryCalm.
Import Memory.

(** The nodes are [ns], and the meshes satisfy [P]. *)
Definition holding (ns : gmap string (list Node)) (P : list ClusterMesh -> Prop) (w : world) : Prop :=
  ok w /\ w_nodes w = ns /\ P (w_meshes w).

Definition steady (ns : gmap string (list Node)) (ms : list ClusterMesh) : world -> Prop :=
  holding ns (fun ms' => ms' = ms).

Definition nodes_in (ns : gmap string (list Node)) (c : string) : list Node := default [] (ns !! c).

Lemma put_holding ns P c p w : holding ns P w -> holding ns P (put c p w).
Proof. intros (Hok & Hn & Hm). split; [by apply put_ok|done]. Qed.

Lemma holding_calm ns P living :
  (forall ms, P ms -> mesh_Name <$> ms = living) -> calm (nodes_in ns) living (holding ns P).
Proof.
  intros HP. constructor.
  - by intros w [? _].
  - done.
  - intros c sel w Hw. split; [done|]. intros _. by eexists.
  - intros c p w Hw _. simpl. unfold create. split.
    + destruct (objects c w !! _); [done|by apply put_holding].
    + intros _ ->. by eexists.
  - intros c p w Hw _. simpl. unfold update. split.
    + destruct (objects c w !! _); [|done]. case_decide; [by apply put_holding|done].
    + intros _ cur -> Hrv. rewrite decide_True by done. by eexists.
  - intros c p w Hw. simpl. split.
    + destruct Hw as (Hok & Hn & Hm). split; [by apply delete_ok|]. unfold delete_. by destruct (objects c w !! _).
    + unfold delete_. intros _ [cur ->]. by eexists.
  - done.
  - done.
  - intros c w (Hok & <- & Hm). by split; [|left].
  - done.
  - done.
  - intros w (_ & _ & Hw). eexists. split; [done|by apply HP].
Qed.

Lemma memory_calm ns ms : calm (nodes_in ns) (mesh_Name <$> ms) (steady ns ms).
Proof. apply holding_calm. by intros ms' ->. Qed.

End MemoryCalm.

(** ** A concrete mesh *)

Module Witness.
Import Controller.Scenario.

Definition two : ClusterMesh := mesh "ns" [a; b].
Definition nodes_of : string -> list Node := MemoryCalm.nodes_in nodes.
Definition wants (s : ClusterEntry) : list Peer := desired_of everywhere two nodes_of s.

(** Each of the two clusters asks for one peer. *)
Lemma wants_one s :
  s ∈ mesh_Clusters two ->
  exists p, wants s = [p] /\ peer_Name p = Name "m" (entry_Name s) ("n" +:+ entry_Name s) /\
    spec_PublicKey (peer_Spec p) = "key-n" +:+ entry_Name s.
Proof.
  intros [->|[->|[]%not_elem_of_nil]%elem_of_cons]%elem_of_cons; eexists; (split; [vm_compute; reflexivity|]);
    split; vm_compute; reflexivity.
Qed.

Lemma two_distinct : distinct_peers everywhere two nodes_of.
Proof.
  assert (Hpair : forall s s' d d', s ∈ mesh_Clusters two -> s' ∈ mesh_Clusters two ->
    d ∈ wants s -> d' ∈ wants s' ->
    peer_Name d = peer_Name d' \/ spec_PublicKey (peer_Spec d) = spec_PublicKey (peer_Spec d') -> s = s' /\ d = d').
  { intros s s' d d' Hs Hs' Hd Hd'.
    destruct (wants_one s Hs) as (p & Ep & Hn & Hk), (wants_one s' Hs') as (p' & Ep' & Hn' & Hk').
    rewrite Ep in Hd. rewrite Ep' in Hd'. apply list_elem_of_singleton in Hd as ->, Hd' as ->. rewrite Hn, Hn', Hk, Hk'.
    apply elem_of_cons in Hs as [->|Hs]; [|apply list_elem_of_singleton in Hs as ->];
      (apply elem_of_cons in Hs' as [->|Hs']; [|apply list_elem_of_singleton in Hs' as ->]);
      (rewrite Ep in Ep'; injection Ep' as <-; done) || (intros [E|E]; vm_compute in E; discriminate E). }
  constructor.
  - vm_compute. repeat constructor; set_solver.
  - intros s Hs. destruct (wants_one s Hs) as (p & Ep & _). change (NoDup (peer_Name <$> wants s)). rewrite Ep.
    apply NoDup_singleton.
  - intros s s' d d' Hs Hs' Hd Hd' E. apply (Hpair s s' d d'); auto.
  - intros s s' d d' Hs Hs' Hd Hd' E. destruct (Hpair s s' d d') as [_ ->]; auto.
Qed.

Lemma everywhere_injective n n' c :
  Client everywhere n = Some c -> Client everywhere n' = Some c -> n = n'.
Proof.
  assert (H : forall m c, Client everywhere m = Some c -> m = c); [|intros H1%H H2%H; congruence].
  intros m d. unfold Client, everywhere. cbn [reg_clusters].
  destruct (_ !! m) as [e|] eqn:E; [|done]. intros [= ->].
  apply lookup_insert_Some in E as [[<- <-]|[_ E]]; [done|].
  apply lookup_insert_Some in E as [[<- <-]|[_ E]]; [done|].
  by apply lookup_singleton_Some in E as [<- <-].
Qed.

Lemma start_unclaimed c : unclaimed everywhere two nodes_of c (start [two]).
Proof.
  assert (E : peers c (start [two]) = ∅) by done.
  constructor; intros *; rewrite E; by rewrite lookup_empty.
Qed.

End Witness.

Lemma reconcile_converges_witness :
  mesh_converged Controller.Scenario.everywhere Witness.two Witness.nodes_of
    (Controller.Scenario.run Controller.Scenario.everywhere "ns" (Controller.Scenario.start [Witness.two])).2.
Proof.
  apply (reconcile_converges Controller.Scenario.everywhere (fun _ => "overlap") Witness.nodes_of [mesh_Name Witness.two]
    (MemoryCalm.steady Controller.Scenario.nodes [Witness.two]) "ns" "m" Witness.two
    (Controller.Scenario.start [Witness.two]) (Controller.Scenario.start [Witness.two])).
  - exact (MemoryCalm.memory_calm Controller.Scenario.nodes [Witness.two]).
  - split; [apply Controller.Witness.mesh_start_ok|split; reflexivity].
  - reflexivity.
  - reflexivity.
  - reflexivity.
  - intros items w2 [= <- _]. vm_compute. reflexivity.
  - left.
  - intros s [->|[->|[]%not_elem_of_nil]%elem_of_cons]%elem_of_cons; cbn; lia.
  - apply Witness.everywhere_injective.
  - apply Witness.two_distinct.
  - intros n c _. apply Witness.start_unclaimed.
Defined.
