(* ===== verification/Retry.v ===== *)
(** * Retrying after failures

    What a reconcile leaves behind when calls fail, replies are lost and reads are
    stale ([stormy]), and why repeating it is enough: no attempt takes a name or a
    key that a later one needs, so the first attempt after the failures have ceased
    converges. *)

From Stdlib Require Import String.
From S2P Require Import Prelude GoStrings GoNet Types Kilonode ValidationMesh ValidationNode Naming Builder.
From S2P Require Import Kube PeerReconciler Registry Controller Convergence.
Open Scope Z_scope.
Open Scope go_scope.

(** ** Where peers come from *)

Section Origin.
Context {C W : Type} {api : PeerAPI C W} {laws : PeerAPILaws C W}.
Context (c : C) (mesh src : string) (desired : list Peer).

(** A peer of [w'] was there in [w], with the same labels and key, or has the name
    and key of a desired peer and the labels of (mesh, source). *)
Record derived (w w' : W) : Prop := {
  dv_ok : world_ok w';
  dv_seen : forall p, seen c w p -> seen c w' p;
  dv_from : forall y p, peers c w' !! y = Some p ->
    (exists cur, peers c w !! y = Some cur /\ peer_Labels p = peer_Labels cur /\
       spec_PublicKey (peer_Spec p) = spec_PublicKey (peer_Spec cur)) \/
    (exists d, d ∈ desired /\ peer_Name d = y /\ spec_PublicKey (peer_Spec p) = spec_PublicKey (peer_Spec d) /\
       OrphanSelector mesh src (peer_Labels p) = true);
}.

Lemma derived_refl w : world_ok w -> derived w w.
Proof. intros Hok. constructor; [done|done|]. intros y p Hp. left. by exists p. Qed.

Lemma derived_trans w1 w2 w3 : derived w1 w2 -> derived w2 w3 -> derived w1 w3.
Proof.
  intros [_ S1 F1] [Hok S2 F2]. constructor; [done|by auto|].
  intros y p [(q & Hq & El & Ek)|?]%F2; [|by right].
  apply F1 in Hq as [(r & Hr & El' & Ek')|(d & Hd & Hn & Hk & Hs)].
  - left. exists r. by rewrite El, Ek.
  - right. exists d. by rewrite El, Ek.
Qed.

Lemma framed_derived N w w' :
  framed c N w w' ->
  (forall y p, y ∈ N -> peers c w' !! y = Some p -> peers c w !! y = Some p \/
     exists d, d ∈ desired /\ peer_Name d = y /\ spec_PublicKey (peer_Spec p) = spec_PublicKey (peer_Spec d) /\
       OrphanSelector mesh src (peer_Labels p) = true) ->
  derived w w'.
Proof.
  intros F HN. constructor; [by eapply fr_ok|by apply (fr_seen _ _ _ _ F)|]. intros y p Hp.
  destruct (decide (y ∈ N)) as [Hy|Hy].
  - destruct (HN y p Hy Hp) as [Hw|?]; [|by right]. left. by exists p.
  - destruct (peers c w !! y) as [cur|] eqn:Ec; [|by rewrite (fr_absent _ _ _ _ F) in Hp].
    destruct (fr_kept _ _ _ _ F y cur Ec Hy) as (p' & Hp' & [Hs _]). rewrite Hp in Hp'. injection Hp' as <-.
    left. exists cur. apply stored_spec in Hs as [E1 E2]. rewrite E1, E2. by destruct cur.
Qed.

Lemma derived_quiet w w' : framed c ∅ w w' -> derived w w'.
Proof. intros F. apply (framed_derived ∅); [done|]. intros y p Hy. by apply not_elem_of_empty in Hy. Qed.

Lemma Delete_derived p w : world_ok w -> derived w (Delete c p w).2.
Proof.
  intros Hok. apply (framed_derived {[peer_Name p]}); [by apply Delete_framed|]. intros y q _ Hq. left.
  destruct (Delete c p w) as [[u|e] w'] eqn:E; simpl in Hq.
  - apply Delete_Ok in E as Ep; [|done]. rewrite Ep in Hq. by apply lookup_delete_Some in Hq as [_ ?].
  - apply Delete_Err in E as [Ep|Ep]; [| |done]; rewrite Ep in Hq; [done|]. by apply lookup_delete_Some in Hq as [_ ?].
Qed.

Lemma Create_derived d w :
  world_ok w -> d ∈ desired -> OrphanSelector mesh src (peer_Labels d) = true -> derived w (Create c d w).2.
Proof.
  intros Hok Hd Hs. apply (framed_derived {[peer_Name d]}); [by apply Create_framed|].
  assert (Hq : forall q, stored q d -> forall y p, <[peer_Name d := q]> (peers c w) !! y = Some p ->
    peers c w !! y = Some p \/ exists d, d ∈ desired /\ peer_Name d = y /\
      spec_PublicKey (peer_Spec p) = spec_PublicKey (peer_Spec d) /\ OrphanSelector mesh src (peer_Labels p) = true).
  { intros q [E1 E2]%stored_spec y p [[<- <-]|[_ ?]]%lookup_insert_Some; [right|by left].
    exists d. by rewrite E1, E2. }
  intros y p _ Hp. destruct (Create c d w) as [[u|e] w'] eqn:E; simpl in Hp.
  - apply Create_Ok in E as (_ & q & Hst & Ep); [|done]. rewrite Ep in Hp. by eapply Hq.
  - apply Create_Err in E as [Ep|(_ & q & Hst & Ep)]; [| |done]; rewrite Ep in Hp; [by left|by eapply Hq].
Qed.

Lemma Update_derived d e w :
  world_ok w -> d ∈ desired -> peer_Name e = peer_Name d -> seen c w e ->
  OrphanSelector mesh src (peer_Labels e) = true -> derived w (Update c (with_Spec e (peer_Spec d)) w).2.
Proof.
  intros Hok Hd Hn He Hs. set (u := with_Spec e (peer_Spec d)).
  assert (Hrv : peer_ResourceVersion u <> "") by exact (seen_versioned c w e Hok He).
  apply (framed_derived {[peer_Name u]}); [by apply Update_framed|]. intros y p _ Hp.
  destruct (Update_changes c u w Hok Hrv) as [E|(cur & q & _ & _ & Hst & E)]; rewrite E in Hp; [by left|].
  apply stored_spec in Hst as [E1 E2]. apply lookup_insert_Some in Hp as [[<- <-]|[_ ?]]; [right|by left].
  exists d. rewrite E1, E2. by repeat split.
Qed.

Lemma reconcileOne_derived existing allBy x d w :
  world_ok w -> d ∈ desired -> peer_Name d = x -> OrphanSelector mesh src (peer_Labels d) = true ->
  (forall e, existing !! x = Some e -> peer_Name e = x /\ seen c w e /\ OrphanSelector mesh src (peer_Labels e) = true) ->
  (forall k p, allBy !! k = Some p -> seen c w p) ->
  derived w (reconcileOne c existing allBy (x, d) w).2.
Proof.
  intros Hok Hd Hn Hs He Ha. unfold reconcileOne. destruct (existing !! x) as [e|] eqn:Ee.
  - destruct (He e eq_refl) as (Hne & Hse & Hle). destruct (peerSpecEqual _ _); [by apply derived_refl|]. st_run.
    pose proof (Update_derived d e w Hok Hd ltac:(congruence) Hse Hle) as HU. by destruct (Update c _ w) as [[u|er] w'].
  - pose proof (Create_derived d w Hok Hd Hs) as HC.
    assert (HC' : derived w (createPeer c x d w).2).
    { unfold createPeer. st_run. by destruct (Create c d w) as [[u|er] w']. }
    unfold createOrMerge. destruct (allBy !! _) as [can|] eqn:Ea; [|done]. case_decide; [|done].
    apply derived_quiet, mergeIntoCanonical_framed; [done|by eapply Ha].
Qed.

Lemma loop_derived {A B} (f : A -> ST W (list B)) l w :
  world_ok w -> (forall x w1, x ∈ l -> derived w w1 -> derived w1 (f x w1).2) -> derived w (st_collect f l w).2.
Proof.
  intros Hok Hf. apply (st_collect_inv (derived w)); [|by apply derived_refl].
  intros x w1 Hx H1. eapply derived_trans; [done|by apply Hf].
Qed.

(** Whatever fails, a reconcile only adds peers of its own. *)
Lemma ReconcilePeers_derived w :
  world_ok w -> (forall d, d ∈ desired -> OrphanSelector mesh src (peer_Labels d) = true) ->
  derived w (ReconcilePeers c mesh src desired w).2.
Proof.
  intros Hok Hs. rewrite ReconcilePeers_run.
  pose proof (List_framed c ∅ everything w Hok) as F1.
  destruct (List c everything w) as [[items|e] w1] eqn:E1; simpl in F1; [|by apply derived_quiet].
  assert (Hok1 : world_ok w1) by by eapply fr_ok.
  pose proof (List_framed c ∅ (OrphanSelector mesh src) w1 Hok1) as F2.
  destruct (List c (OrphanSelector mesh src) w1) as [[existing|e] w2] eqn:E2; simpl in F2.
  2:{ apply derived_quiet. by eapply framed_trans. }
  destruct (listed_inputs_ok c w _ _ _ _ _ desired Hok E1 E2) as (Hin & Hok2 & Hex).
  assert (D2 : derived w w2) by (apply derived_quiet; by eapply framed_trans).
  assert (D3 : derived w2 (reconcileDesired c (buildDesiredMap desired) (buildExistingMap existing)
                             (foldl recordByPublicKey ∅ items) w2).2).
  { unfold reconcileDesired. st_run. pose proof (range_framed c ∅ (buildDesiredMap desired) w2 Hok2) as Fr.
    eapply derived_trans; [by apply derived_quiet|]. apply loop_derived; [by eapply fr_ok|].
    intros [x d] w3 Hx%range_elem D. destruct Hin as [Hd He Ha].
    assert (Hseen : forall p, seen c w2 p -> seen c w3 p) by (intros p Hp; by eapply dv_seen, fr_seen).
    apply by_name_from in Hx as [Hx|[Hx Hn]]; [by rewrite lookup_empty in Hx|].
    apply reconcileOne_derived; [by eapply dv_ok|done|done|by apply Hs| |].
    - intros e Ee. destruct (He x e Ee) as [? ?]. destruct (Hex x e Ee) as (_ & _ & ?). auto.
    - intros k p Hp. by eapply Hseen, Ha. }
  destruct (reconcileDesired _ _ _ _ w2) as [errs1 w3]. cbn [snd] in D3.
  assert (D4 : derived w3 (deleteOrphans c (buildDesiredMap desired) (buildExistingMap existing) w3).2).
  { assert (Hok3 : world_ok w3) by by eapply dv_ok. unfold deleteOrphans. st_run.
    pose proof (range_framed c ∅ (buildExistingMap existing) w3 Hok3) as Fr.
    eapply derived_trans; [by apply derived_quiet|]. apply loop_derived; [by eapply fr_ok|].
    intros [x e] w4 _ D. unfold deleteOne. destruct (_ !! x); [apply derived_refl; by eapply dv_ok|]. st_run.
    pose proof (Delete_derived e w4 (dv_ok _ _ D)) as HD. by destruct (Delete c e w4) as [[u|er] w5]. }
  destruct (deleteOrphans _ _ _ w3) as [errs2 w4]. cbn [snd] in *. by eapply derived_trans, derived_trans.
Qed.

End Origin.

(** ** Attempts during a storm *)

Section Storm.
Context {C W : Type} {api : PeerAPI C W} {laws : PeerAPILaws C W}.
Context {capi : ControllerAPI C W} {claws : ControllerLaws C W} {C_eq : EqDecision C}.
Context (registry : ClusterRegistry C) (message : mesh_error -> string).
Context (mesh : ClusterMesh) (nodes : C -> list Node).

(** The resource as it may be read: its specification does not change, its
    status does. *)
Record live (m : ClusterMesh) : Prop := {
  live_namespace : mesh_Namespace m = mesh_Namespace mesh;
  live_name : mesh_Name m = mesh_Name mesh;
  live_clusters : mesh_Clusters m = mesh_Clusters mesh;
  live_deleting : mesh_Deleting m = false;
  live_finalizer : ContainsFinalizer m = true;
}.

(** [I] holds throughout: calls may fail, with or without effect, and reads of
    peers may be stale; the specification of the mesh and the nodes do not change. *)
Record stormy (I : W -> Prop) : Prop := {
  storm_ok : forall w, I w -> world_ok w;
  storm_List : forall c sel w, I w -> I (List c sel w).2;
  storm_Create : forall c p w, I w -> I (Create c p w).2;
  storm_Update : forall c p w, I w -> I (Update c p w).2;
  storm_Delete : forall c p w, I w -> I (Delete c p w).2;
  storm_range : forall m w, I w -> I (range m w).2;
  storm_rangeClusters : forall m w, I w -> I (rangeClusters m w).2;
  storm_ListNodes : forall c w, I w -> I (ListNodes c w).2;
  storm_GetMesh : forall w, I w -> I (GetMesh (mesh_Namespace mesh) (mesh_Name mesh) w).2;
  storm_ListMeshes : forall ns w, I w -> I (ListMeshes ns w).2;
  storm_UpdateMeshStatus : forall m w, live m -> I w -> I (UpdateMeshStatus m w).2;
  storm_nodes : forall c w l, I w -> (ListNodes c w).1 = Ok l -> l = nodes c;
  storm_mesh : forall w, I w ->
    match (GetMesh (mesh_Namespace mesh) (mesh_Name mesh) w).1 with Ok m => live m | Err e => e <> NotFound end;
  storm_valid : forall w items, I w ->
    (ListMeshes (Some (mesh_Namespace mesh)) w).1 = Ok items -> ValidateMeshNetworks items = None;
}.

Context (I : W -> Prop) (HS : stormy I) (HD : distinct_peers registry mesh nodes).

(** Names and keys stay available on every registered cluster. *)
Abbreviation ready := (settled registry mesh nodes I).
Definition keeps {A} (m : ST W A) : Prop := forall w, ready w -> ready (m w).2.

Lemma keeps_ret {A} (a : A) : keeps (mret a).
Proof. by intros w. Qed.

Lemma keeps_bind_result {A B} (m : ST W A) (f : A -> ST W B) (Q : A -> Prop) :
  keeps m -> (forall w, ready w -> Q (m w).1) -> (forall a, Q a -> keeps (f a)) -> keeps (m ≫= f).
Proof. intros Hm HQ Hf w Hw. rewrite st_bind_run. apply Hf; [by apply HQ|by apply Hm]. Qed.

Lemma keeps_bind {A B} (m : ST W A) (f : A -> ST W B) : keeps m -> (forall a, keeps (f a)) -> keeps (m ≫= f).
Proof. intros Hm Hf. by apply (keeps_bind_result m f (fun _ => True)). Qed.

Lemma keeps_iter {A} (f : A -> ST W unit) l : (forall a, a ∈ l -> keeps (f a)) -> keeps (st_iter f l).
Proof. intros Hf w Hw. apply (st_iter_inv ready); [|done]. intros a w1 Ha. by apply Hf. Qed.

Lemma keeps_collect {A B} (f : A -> ST W (list B)) l : (forall a, a ∈ l -> keeps (f a)) -> keeps (st_collect f l).
Proof. intros Hf w Hw. apply (st_collect_inv ready); [|done]. intros a w1 Ha. by apply Hf. Qed.

Lemma unclaimed_subset c w w' :
  (forall y p, peers c w' !! y = Some p -> peers c w !! y = Some p) ->
  unclaimed registry mesh nodes c w -> unclaimed registry mesh nodes c w'.
Proof. intros Hs [H1 H2]. constructor; eauto. Qed.

Lemma keeps_quiet {A} (m : ST W A) :
  (forall w, I w -> I (m w).2) -> (forall w, world_ok w -> quiet w (m w).2) -> keeps m.
Proof.
  intros Hi Hq w [Hw Hu]. split; [by apply Hi|]. intros n c Hc.
  destruct (Hq w (storm_ok I HS w Hw)) as (_ & _ & Hp).
  apply (unclaimed_same registry mesh nodes c w); [done|by eapply Hu].
Qed.

Lemma keeps_List c sel : keeps (List c sel).
Proof.
  intros w [Hw Hu]. split; [by apply (storm_List I HS)|]. intros n c' Hc.
  apply (unclaimed_same registry mesh nodes c' w); [apply List_peers|by eapply Hu].
Qed.

Lemma keeps_Delete c p : keeps (Delete c p).
Proof.
  intros w [Hw Hu]. split; [by apply (storm_Delete I HS)|]. intros n c' Hc.
  apply (unclaimed_subset c' w); [|by eapply Hu]. intros y q Hq.
  pose proof (storm_ok I HS w Hw) as Hok.
  destruct (decide (c = c')) as [<-|Hne]; [|by rewrite Delete_other in Hq].
  destruct (Delete c p w) as [[u|e] w'] eqn:E; simpl in Hq.
  - apply Delete_Ok in E as Ep; [|done]. rewrite Ep in Hq. by apply lookup_delete_Some in Hq as [_ ?].
  - apply Delete_Err in E as [Ep|Ep]; [| |done]; rewrite Ep in Hq; [done|]. by apply lookup_delete_Some in Hq as [_ ?].
Qed.

(** *** Pushing *)

(** The pushed peers are those of source [s], up to endpoints. *)
Definition pushes (s : ClusterEntry) (ps : list Peer) : Prop :=
  forall d, d ∈ ps -> exists d0, d0 ∈ desired_of registry mesh nodes s /\ peer_Name d = peer_Name d0 /\
    peer_Labels d = peer_Labels d0 /\ spec_PublicKey (peer_Spec d) = spec_PublicKey (peer_Spec d0).

Lemma derived_unclaimed c s ps w w' :
  s ∈ mesh_Clusters mesh -> pushes s ps -> derived c (mesh_Name mesh) (entry_Name s) ps w w' ->
  unclaimed registry mesh nodes c w -> unclaimed registry mesh nodes c w'.
Proof.
  intros Hs Hps [_ _ Hfrom] [Hk Hn]. constructor.
  - intros s2 d2 y p Hs2 Hd2 Hp Hkey. apply Hfrom in Hp as [(cur & Hc & _ & E)|(d & Hd & <- & E & _)].
    + eapply Hk; [done|done|done|congruence].
    + destruct (Hps d Hd) as (d0 & Hd0 & -> & _ & Ek). apply (distinct_keys _ _ _ HD s s2 d0 d2); done || congruence.
  - intros s2 d2 p Hs2 Hd2 Hp. apply Hfrom in Hp as [(cur & Hc & -> & _)|(d & Hd & E & _ & Hl)]; [by eapply Hn|].
    destruct (Hps d Hd) as (d0 & Hd0 & En & _). rewrite (distinct_across _ _ _ HD s2 s d2 d0); done || congruence.
Qed.

Lemma keeps_I_reconcileOne c existing allBy x d w : I w -> I (reconcileOne c existing allBy (x, d) w).2.
Proof.
  intros Hw. unfold reconcileOne. destruct (existing !! x) as [e|].
  - destruct (peerSpecEqual _ _); [done|]. rewrite st_bind_run.
    pose proof (storm_Update I HS c (with_Spec e (peer_Spec d)) w Hw) as H4. by destruct (Update c _ w) as [[u|er] w'].
  - assert (HC : I (createPeer c x d w).2).
    { unfold createPeer. rewrite st_bind_run. pose proof (storm_Create I HS c d w Hw) as H4.
      by destruct (Create c d w) as [[u|er] w']. }
    unfold createOrMerge. destruct (allBy !! _) as [can|]; [|done]. case_decide; [|done]. unfold mergeIntoCanonical.
    destruct (allowedIPsEqual _ _); [done|]. rewrite st_bind_run. set (u := with_AllowedIPs can _).
    pose proof (storm_Update I HS c u w Hw) as H4. by destruct (Update c u w) as [[?|er] w'].
Qed.

Lemma keeps_I_ReconcilePeers c m src ps w : I w -> I (ReconcilePeers c m src ps w).2.
Proof.
  intros Hw. rewrite ReconcilePeers_run.
  pose proof (storm_List I HS c everything w Hw) as H1.
  destruct (List c everything w) as [[items|e] w1]; cbn [snd] in *; [|done].
  pose proof (storm_List I HS c (OrphanSelector m src) w1 H1) as H2.
  destruct (List c (OrphanSelector m src) w1) as [[existing|e] w2]; cbn [snd] in *; [|done].
  set (dm := buildDesiredMap ps). set (em := buildExistingMap existing).
  assert (H3 : I (reconcileDesired c dm em (foldl recordByPublicKey ∅ items) w2).2).
  { unfold reconcileDesired. rewrite st_bind_run. apply (st_collect_inv I); [|by apply (storm_range I HS)].
    intros [x d] w3 _. apply keeps_I_reconcileOne. }
  destruct (reconcileDesired _ _ _ _ w2) as [errs1 w3]. cbn [snd] in H3.
  assert (H4 : I (deleteOrphans c dm em w3).2); [|by destruct (deleteOrphans _ _ _ w3)].
  unfold deleteOrphans. rewrite st_bind_run. apply (st_collect_inv I); [|by apply (storm_range I HS)].
  intros [x e] w4 _ Hw4. unfold deleteOne. destruct (_ !! x); [done|]. st_run.
  pose proof (storm_Delete I HS c e w4 Hw4) as H5. by destruct (Delete c e w4) as [[u|er] w5].
Qed.

Lemma keeps_ReconcilePeers c s ps :
  s ∈ mesh_Clusters mesh -> pushes s ps -> keeps (ReconcilePeers c (mesh_Name mesh) (entry_Name s) ps).
Proof.
  intros Hs Hps w [Hw Hu]. split; [by apply keeps_I_ReconcilePeers|]. intros n c' Hc.
  pose proof (storm_ok I HS w Hw) as Hok. destruct (decide (c = c')) as [<-|Hne].
  - eapply derived_unclaimed; [done|done| |by eapply Hu]. apply ReconcilePeers_derived; [done|].
    intros d (d0 & Hd0 & _ & -> & _)%Hps. rewrite (desired_of_labels registry mesh nodes s d0 Hd0). apply Labels_selected.
  - destruct (ReconcilePeers_touches c (mesh_Name mesh) (entry_Name s) ps w Hok) as (N & F & _).
    apply (unclaimed_same registry mesh nodes c' w); [by apply (fr_other _ _ _ _ F)|by eapply Hu].
Qed.

Lemma enrich_elem tgt ps (w : W) qs q :
  (enrichEndpointsFromDiscovered (C := C) tgt ps w).1 = Ok qs -> q ∈ qs ->
  exists p, p ∈ ps /\ peer_Name q = peer_Name p /\ peer_Labels q = peer_Labels p /\
    spec_PublicKey (peer_Spec q) = spec_PublicKey (peer_Spec p).
Proof.
  unfold enrichEndpointsFromDiscovered. st_run.
  destruct (DiscoveredEndpointsByKey _ _) as [m|]; [|done].
  case_decide; rewrite st_ret_run; cbn [fst]; intros [= <-]; [by exists q|].
  intros (p & -> & Hp)%list_elem_of_fmap. exists p. split; [done|]. apply enrichOne_keeps.
Qed.

Lemma pushes_enriched s tgt ps (w : W) qs :
  pushes s ps -> (enrichEndpointsFromDiscovered (C := C) tgt ps w).1 = Ok qs -> pushes s qs.
Proof.
  intros Hps E q Hq. destruct (enrich_elem tgt ps w qs q E Hq) as (p & Hp & -> & -> & ->). by apply Hps.
Qed.

Lemma keeps_ListNodes c : keeps (ListNodes c).
Proof. apply keeps_quiet; [apply (storm_ListNodes I HS)|intros; by apply ListNodes_quiet]. Qed.

Lemma keeps_enrich tgt ps : keeps (enrichEndpointsFromDiscovered (C := C) tgt ps).
Proof.
  unfold enrichEndpointsFromDiscovered. apply keeps_bind; [apply keeps_ListNodes|].
  intros r. destruct (DiscoveredEndpointsByKey _ _); [case_decide|]; apply keeps_ret.
Qed.

Lemma keeps_pushLoop s ps targets :
  s ∈ mesh_Clusters mesh -> pushes s ps -> keeps (pushLoop registry (mesh_Name mesh) s ps targets).
Proof.
  intros Hs Hps. induction targets as [|t targets IH]; [apply keeps_ret|]. cbn [pushLoop].
  case_decide; [done|]. destruct (Client registry (entry_Name t)) as [tgt|]; [|done].
  apply (keeps_bind_result _ _ (fun r => forall qs, r = Ok qs -> pushes s qs)).
  - apply keeps_enrich.
  - intros w _ qs. by apply pushes_enriched.
  - intros r Hr. apply keeps_bind.
    + apply keeps_ReconcilePeers; [done|]. destruct r as [qs|]; [by apply Hr|done].
    + intros [|e es]; [done|apply keeps_ret].
Qed.

Lemma keeps_reconcileSource m s : live m -> s ∈ mesh_Clusters mesh -> keeps (reconcileSource registry m s).
Proof.
  intros Hm Hs. unfold reconcileSource. destruct (Client registry (entry_Name s)) as [cs|] eqn:Ec; [|apply keeps_ret].
  apply (keeps_bind_result _ _ (fun r => forall l, r = Ok l -> l = nodes cs)); [apply keeps_ListNodes| |].
  { intros w [Hw _] l. by apply (storm_nodes I HS). }
  intros [l|e] Hl; [|apply keeps_ret]. specialize (Hl l eq_refl). subst l.
  destruct (filterNodes (nodes cs) s) as [[valid skipped] transient] eqn:Ef.
  apply keeps_bind; [|intros [n|e]; apply keeps_ret].
  unfold pushPeersToTargets, meshPersistentKeepalive. rewrite (live_name m Hm), (live_clusters m Hm).
  destruct (buildDesiredPeers _ _ _ _) as [ps|[n e]] eqn:Eb; [|apply keeps_ret].
  apply keeps_bind; [|intros [e|]; apply keeps_ret]. apply keeps_pushLoop; [done|].
  intros d Hd. exists d. split; [|done]. unfold desired_of. rewrite Ec, Ef. cbn [fst].
  unfold meshPersistentKeepalive. by rewrite Eb.
Qed.

Lemma keeps_reconcileSources m l :
  live m -> (forall s, s ∈ l -> s ∈ mesh_Clusters mesh) -> keeps (reconcileSources registry m l).
Proof.
  intros Hm. induction l as [|s l IH]; intros Hl; [apply keeps_ret|]. cbn [reconcileSources].
  apply keeps_bind; [apply keeps_reconcileSource; [done|apply Hl; left]|].
  intros [[st inc]|e]; [|apply keeps_ret]. apply keeps_bind; [apply IH; intros; apply Hl; by right|].
  intros [[sts inc']|e]; apply keeps_ret.
Qed.

(** *** Sweeping *)

Lemma keeps_rangeClusters m : keeps (rangeClusters m).
Proof. apply keeps_quiet; [apply (storm_rangeClusters I HS)|intros; by apply rangeClusters_quiet]. Qed.

Lemma keeps_ListMeshes ns : keeps (ListMeshes ns).
Proof. apply keeps_quiet; [apply (storm_ListMeshes I HS)|intros; by apply ListMeshes_quiet]. Qed.

Lemma keeps_DeleteStale c m valid : keeps (DeleteStaleSourceClusters c m valid).
Proof.
  unfold DeleteStaleSourceClusters. apply keeps_bind; [apply keeps_List|]. intros [items|e]; [|apply keeps_ret].
  apply keeps_collect. intros p _. unfold deleteStaleOne. case_decide; [apply keeps_ret|].
  apply keeps_bind; [apply keeps_Delete|]. intros [u|[]]; apply keeps_ret.
Qed.

Lemma keeps_cleanupStale m : keeps (cleanupStaleSourceClusters registry m).
Proof.
  unfold cleanupStaleSourceClusters. apply keeps_bind; [apply keeps_rangeClusters|]. intros names. apply keeps_iter.
  intros n _. destruct (Client registry n); [|apply keeps_ret]. apply keeps_bind; [apply keeps_DeleteStale|].
  intros; apply keeps_ret.
Qed.

Lemma keeps_cleanupOrphans : keeps (cleanupOrphanMeshPeers registry).
Proof.
  unfold cleanupOrphanMeshPeers, collectLivingMeshes. apply keeps_bind.
  - apply keeps_bind; [apply keeps_ListMeshes|]. intros [items|e]; apply keeps_ret.
  - intros [living|]; [|apply keeps_ret]. apply keeps_bind; [apply keeps_rangeClusters|]. intros names. apply keeps_iter.
    intros n _. destruct (Client registry n); [|apply keeps_ret]. unfold sweepOrphanPeersInCluster.
    apply keeps_bind; [apply keeps_List|]. intros [items|e]; [|apply keeps_ret]. apply keeps_iter. intros p _.
    unfold sweepOne. case_decide; [apply keeps_ret|]. case_decide; [apply keeps_ret|].
    apply keeps_bind; [apply keeps_Delete|intros; apply keeps_ret].
Qed.

(** *** One attempt *)

Lemma live_setCondition m t st r msg : live m -> live (setCondition m t st r msg).
Proof. by intros []. Qed.

Lemma keeps_reconcileLive m : live m -> keeps (reconcileLive registry m).
Proof.
  intros Hm. unfold reconcileLive. set (m' := setCondition m _ _ _ _).
  assert (Hm' : live m') by by apply live_setCondition.
  apply keeps_bind.
  { unfold reconcileAllClusters. apply keeps_reconcileSources; [done|]. intros s. by rewrite (live_clusters m' Hm'). }
  intros [[sts inc]|e]; [|apply keeps_ret]. apply keeps_bind; [apply keeps_cleanupStale|]. intros _.
  apply keeps_bind; [apply keeps_cleanupOrphans|]. intros _. apply keeps_bind; [|intros; apply keeps_ret].
  unfold updateStatus. apply keeps_bind; [|intros [u|e]; apply keeps_ret].
  apply keeps_quiet; [|intros; by apply UpdateMeshStatus_quiet]. intros w. apply (storm_UpdateMeshStatus I HS).
  apply live_setCondition. by destruct Hm'.
Qed.

Definition attempt : ST W (reconcileState * option controller_error) :=
  reconcile registry message (mesh_Namespace mesh) (mesh_Name mesh).

(** What an attempt runs after it has read the resource. *)
Lemma attempt_run w :
  ready w ->
  let r := GetMesh (mesh_Namespace mesh) (mesh_Name mesh) w in
  match r.1 with
  | Err e => attempt w = ((reconcileStateDone, Some (FetchingMesh e)), r.2)
  | Ok m => live m /\ attempt w = reconcileLive registry m (ListMeshes (Some (mesh_Namespace mesh)) r.2).2
  end.
Proof.
  intros [Hw _]. unfold attempt, reconcile. rewrite st_bind_run.
  pose proof (storm_mesh I HS w Hw) as Hmesh. pose proof (storm_GetMesh I HS w Hw) as Hw1.
  destruct (GetMesh _ _ w) as [[m|e] w1]; cbn [fst snd] in *; [|by destruct e].
  split; [done|]. rewrite (live_deleting m Hmesh), (live_finalizer m Hmesh). cbn [negb].
  unfold validateMeshNetworks. rewrite !st_bind_run, (live_namespace m Hmesh).
  pose proof (storm_valid I HS w1) as Hv.
  destruct (ListMeshes _ w1) as [[items|e] w2]; cbn [fst snd] in *; [|done].
  st_run. by rewrite (Hv items Hw1 eq_refl).
Qed.

Lemma keeps_attempt : keeps attempt.
Proof.
  intros w Hw. pose proof (attempt_run w Hw) as E. cbn zeta in E.
  assert (H1 : ready (GetMesh (mesh_Namespace mesh) (mesh_Name mesh) w).2).
  { apply (keeps_quiet (GetMesh (mesh_Namespace mesh) (mesh_Name mesh))); [|intros; by apply GetMesh_quiet|done].
    apply (storm_GetMesh I HS). }
  destruct (GetMesh _ _ w) as [[m|e] w1]; cbn [fst snd] in *; [|by rewrite E].
  destruct E as [Hm ->]. by apply keeps_reconcileLive, keeps_ListMeshes.
Qed.

(** The result asks for another run: an error, which the work queue retries with
    backoff, or a requeue delay. *)
Definition requeued (r : Z * option controller_error) : Prop := r.2 <> None \/ 0 < r.1.

Lemma attempt_requeued w : ready w -> requeued (selectResult (attempt w).1.1 (attempt w).1.2).
Proof.
  intros Hw. pose proof (attempt_run w Hw) as E. cbn zeta in E.
  destruct (GetMesh _ _ w) as [[m|e] w1]; cbn [fst snd] in *; [|rewrite E; by left].
  destruct E as [_ ->]. unfold reconcileLive. rewrite st_bind_run.
  destruct (reconcileAllClusters _ _ _) as [[[sts inc]|e] w2]; cbn [fst snd]; [|by left].
  rewrite !st_bind_run, st_ret_run. cbn [fst snd].
  destruct (updateStatus _ _ _).1; [by left|right]. by destruct inc.
Qed.

End Storm.

(** ** Eventual convergence *)

Section Eventually.
Context {C W : Type} {api : PeerAPI C W} {laws : PeerAPILaws C W}.
Context {capi : ControllerAPI C W} {claws : ControllerLaws C W} {C_eq : EqDecision C}.
Context (registry : ClusterRegistry C) (message : mesh_error -> string).
Context (mesh : ClusterMesh) (nodes : C -> list Node) (living : list string).

(** A storm that ends: [left w] failures are still to come, no operation adds
    one, reading the resource uses one up, and without failures all is calm. *)
Record fading (I : W -> Prop) (left : W -> nat) : Prop := {
  fade_stormy : forall n, stormy mesh nodes (fun w => I w /\ (left w <= n)%nat);
  fade_strict : forall w n, I w -> left w = S n ->
    (left (GetMesh (mesh_Namespace mesh) (mesh_Name mesh) w).2 <= n)%nat;
  fade_calm : calm nodes living (fun w => I w /\ left w = 0%nat);
  fade_mesh : forall w, I w -> left w = 0%nat ->
    exists m, (GetMesh (mesh_Namespace mesh) (mesh_Name mesh) w).1 = Ok m;
}.

(** The world after [k] attempts. *)
Fixpoint attempts (k : nat) (w : W) : W :=
  match k with
  | O => w
  | S k' => (attempt registry message mesh (attempts k' w)).2
  end.

(** The specification of a mesh does not depend on its status. *)
Lemma distinct_live m : live mesh m -> distinct_peers registry mesh nodes -> distinct_peers registry m nodes.
Proof.
  destruct m, mesh. intros [E1 E2 E3 _ _]. simpl in *. subst. intros [D1 D2 D3 D4].
  constructor; [exact D1|exact D2|exact D3|exact D4].
Qed.

Lemma unclaimed_live m c w : live mesh m -> unclaimed registry mesh nodes c w -> unclaimed registry m nodes c w.
Proof.
  destruct m, mesh. intros [E1 E2 E3 _ _]. simpl in *. subst. intros [U1 U2]. constructor; [exact U1|exact U2].
Qed.

Lemma converged_live m w : live mesh m -> mesh_converged registry m nodes w -> mesh_converged registry mesh nodes w.
Proof. destruct m, mesh. intros [E1 E2 E3 _ _]. simpl in *. by subst. Qed.

Context (I : W -> Prop) (left : W -> nat) (HF : fading I left) (HD : distinct_peers registry mesh nodes).

Abbreviation ready_in n := (settled registry mesh nodes (fun w => I w /\ (left w <= n)%nat)).

Lemma ready_weaken n m w : (n <= m)%nat -> ready_in n w -> ready_in m w.
Proof. intros Hnm [[Hw Hl] Hu]. split; [split; [done|lia]|done]. Qed.

(** An attempt uses up at least one failure. *)
Lemma attempt_fades n w : ready_in (S n) w -> ready_in n (attempt registry message mesh w).2.
Proof.
  intros Hw. destruct (decide (left w <= n)%nat) as [Hle|Hgt].
  { apply (keeps_attempt registry message mesh nodes _ (fade_stormy I left HF n) HD).
    destruct Hw as [[? _] ?]. done. }
  pose proof (attempt_run registry message mesh nodes _ (fade_stormy I left HF (S n)) w Hw) as E. cbn zeta in E.
  destruct Hw as [[Hw Hl] Hu]. pose proof (fade_strict I left HF w n Hw ltac:(lia)) as Hl1.
  destruct (storm_GetMesh _ _ _ (fade_stormy I left HF (S n)) w (conj Hw Hl)) as [I1 _].
  destruct (GetMesh_quiet (mesh_Namespace mesh) (mesh_Name mesh) w (storm_ok _ _ _ (fade_stormy I left HF (S n)) w (conj Hw Hl)))
    as (_ & _ & P1).
  destruct (GetMesh _ _ w) as [r w1]. cbn [fst snd] in *.
  assert (H1 : ready_in n w1).
  { split; [done|]. intros k c Hc. apply (unclaimed_same registry mesh nodes c w); [done|by eapply Hu]. }
  destruct r as [m|e]; [|by rewrite E]. destruct E as [Hm ->].
  by apply (keeps_reconcileLive registry mesh nodes _ (fade_stormy I left HF n) HD m Hm),
    (keeps_ListMeshes registry mesh nodes _ (fade_stormy I left HF n)).
Qed.

Lemma attempts_ready k w : ready_in (left w) w -> ready_in (left w - k) (attempts k w).
Proof.
  intros Hw. induction k as [|k IH]; cbn [attempts]; [by rewrite Nat.sub_0_r|].
  destruct (left w - k)%nat as [|n] eqn:E.
  - replace (left w - S k)%nat with 0%nat by lia. apply attempt_fades. by apply (ready_weaken 0); [lia|].
  - replace (left w - S k)%nat with n by lia. by apply attempt_fades.
Qed.

Context (Hport : forall s, s ∈ mesh_Clusters mesh -> 0 <= entry_WireguardPort s < 65536).
Context (Hinj : forall n n' c, Client registry n = Some c -> Client registry n' = Some c -> n = n').
Context (Hliving : mesh_Name mesh ∈ living).

Lemma attempt_converges w :
  ready_in 0 w ->
  mesh_converged registry mesh nodes (attempt registry message mesh w).2 /\
  ghost_free registry living (attempt registry message mesh w).2.
Proof.
  intros [[Hw Hl] Hu]. assert (H0 : left w = 0%nat) by lia.
  pose proof (storm_mesh _ _ _ (fade_stormy I left HF 0) w (conj Hw Hl)) as Hm.
  destruct (storm_GetMesh _ _ _ (fade_stormy I left HF 0) w (conj Hw Hl)) as [I1 L1].
  destruct (fade_mesh I left HF w Hw H0) as [m Em]. rewrite Em in Hm.
  destruct (GetMesh _ _ w) as [r w1] eqn:Eg. cbn [fst snd] in *. subst r.
  destruct (reconcile_calm (up := fun _ => True) registry message nodes living (fun w => I w /\ left w = 0%nat)
    (mesh_Namespace mesh) (mesh_Name mesh) m w w1) as (HC & HG & _); try done.
  - by apply (fade_calm I left HF).
  - by apply (live_deleting mesh m).
  - by apply (live_finalizer mesh m).
  - intros items w2 EL. rewrite (live_namespace mesh m Hm) in EL.
    apply (storm_valid _ _ _ (fade_stormy I left HF 0) w1); [done|by rewrite EL].
  - by rewrite (live_name mesh m Hm).
  - intros s. rewrite (live_clusters mesh m Hm). apply Hport.
  - by apply distinct_live.
  - intros n c Hc. apply unclaimed_live; [done|by eapply Hu].
  - split; [by apply (converged_live m)|done].
Qed.

End Eventually.

Section Liveness.
Context {C W : Type} {api : PeerAPI C W} {laws : PeerAPILaws C W}.
Context {capi : ControllerAPI C W} {claws : ControllerLaws C W} {C_eq : EqDecision C}.
Context (registry : ClusterRegistry C) (message : mesh_error -> string).

(** C2. Liveness: whatever goes wrong, the mesh converges. As long as calls fail,
    replies are lost or reads are stale, every attempt asks to be repeated (by an
    error or a requeue delay); and once the [left w] failures to come have passed,
    every further attempt leaves the mesh converged: on each registered cluster
    exactly the wanted peers of every other one and none of a dead mesh, whatever the
    failed attempts left behind. Attempts cannot wedge the mesh. *)
Theorem reconcile_eventually_converges mesh nodes living I left w :
  fading mesh nodes living I left -> distinct_peers registry mesh nodes ->
  (forall s, s ∈ mesh_Clusters mesh -> 0 <= entry_WireguardPort s < 65536) ->
  (forall n n' c, Client registry n = Some c -> Client registry n' = Some c -> n = n') ->
  mesh_Name mesh ∈ living ->
  I w -> (forall n c, Client registry n = Some c -> unclaimed registry mesh nodes c w) ->
  (forall k, let r := attempt registry message mesh (attempts registry message mesh k w) in
     requeued (selectResult r.1.1 r.1.2)) /\
  (forall k, (left w < k)%nat -> mesh_converged registry mesh nodes (attempts registry message mesh k w) /\
     ghost_free registry living (attempts registry message mesh k w)).
Proof.
  intros HF HD Hport Hinj Hliv Hw Hu.
  assert (H0 : settled registry mesh nodes (fun w' => I w' /\ (left w' <= left w)%nat) w) by (by split).
  pose proof (fun k => attempts_ready registry message mesh nodes living I left HF HD k w H0) as Hk. split.
  - intros k. apply (attempt_requeued registry message mesh nodes _ (fade_stormy _ _ _ I left HF (left w - k))). apply Hk.
  - intros [|k] Hlt; [lia|]. cbn [attempts].
    apply (attempt_converges registry message mesh nodes living I left HF HD Hport Hinj Hliv).
    replace 0%nat with (left w - k)%nat by lia. apply Hk.
Qed.

End Liveness.
