(* ===== verification/Faults.v ===== *)
(** * An API server that fails

    The in-memory server of [Kube] and [Controller], driven by a script of faults:
    each request takes the next one. It satisfies the same laws, and when the script
    is used up it is calm: a storm that ends. *)

From Stdlib Require Import String.
From S2P Require Import Prelude GoStrings Types Kilonode ValidationMesh ValidationNode Naming.
From S2P Require Import Kube PeerReconciler Registry Controller Convergence Retry.
Open Scope Z_scope.

(** A request is refused; it is executed but the reply is lost; a list of peers is
    answered from an old snapshot. *)
Inductive fault : Type :=
| Refused
| LostReply
| StaleRead.

Record fworld : Type := mkFaulty {
  f_mem : Memory.world;
  f_script : list fault;
  f_old : gmap string (gmap string Peer);
}.

Definition unavailable : kube_error := OtherError "unavailable".
Definition timeout : kube_error := OtherError "timeout".

Definition lost {A} (r : result kube_error A) : result kube_error A :=
  match r with Ok _ => Err timeout | Err e => Err e end.

Definition faulty {A} (f : ST Memory.world (result kube_error A)) : ST fworld (result kube_error A) := fun w =>
  match f_script w with
  | [] => let '(r, m) := f (f_mem w) in (r, mkFaulty m [] (f_old w))
  | Refused :: s => (Err unavailable, mkFaulty (f_mem w) s (f_old w))
  | LostReply :: s => let '(r, m) := f (f_mem w) in (lost r, mkFaulty m s (f_old w))
  | StaleRead :: s => let '(r, m) := f (f_mem w) in (r, mkFaulty m s (f_old w))
  end.

(** The server as it was when the snapshot was taken. *)
Definition snapshot (w : fworld) : Memory.world :=
  Memory.mkWorld (f_old w) (Memory.w_history (f_mem w)) (Memory.w_next (f_mem w))
    (Memory.w_nodes (f_mem w)) (Memory.w_meshes (f_mem w)).

Definition list_faulty (c : string) (sel : selector) : ST fworld (result kube_error (list Peer)) := fun w =>
  match f_script w with
  | StaleRead :: s => ((Memory.listPeers c sel (snapshot w)).1, mkFaulty (f_mem w) s (f_old w))
  | _ => faulty (Memory.listPeers c sel) w
  end.

#[export] Instance faulty_api : PeerAPI string fworld := {
  List := list_faulty;
  Create c p := faulty (Memory.create c p);
  Update c p := faulty (Memory.update c p);
  Delete c p := faulty (Memory.delete_ c p);
  range m w := (map_to_list m, w);
}.

Definition f_ok (w : fworld) : Prop := Memory.ok (f_mem w) /\ Memory.ok (snapshot w).

(** ** The laws *)

(** What a faulty request did. *)
Lemma faulty_inv {A} (f : ST Memory.world (result kube_error A)) w r w' :
  faulty f w = (r, w') ->
  f_old w' = f_old w /\ f_script w' = tail (f_script w) /\
  ((r = Err unavailable /\ f_mem w' = f_mem w /\ f_script w <> []) \/
   (exists r0, f (f_mem w) = (r0, f_mem w') /\ (r = r0 \/ (r = lost r0 /\ f_script w <> [])))).
Proof.
  unfold faulty. destruct (f_script w) as [|[] s] eqn:Es; [| | |].
  - destruct (f (f_mem w)) as [r0 m] eqn:E. intros [= <- <-]. do 2 (split; [done|]). right. exists r0. auto.
  - intros [= <- <-]. do 2 (split; [done|]). by left.
  - destruct (f (f_mem w)) as [r0 m] eqn:E. intros [= <- <-]. do 2 (split; [done|]). right. exists r0. auto.
  - destruct (f (f_mem w)) as [r0 m] eqn:E. intros [= <- <-]. do 2 (split; [done|]). right. exists r0. auto.
Qed.

(** The memory after a faulty request: untouched, or as the request leaves it. *)
Lemma faulty_mem {A} (f : ST Memory.world (result kube_error A)) w :
  f_mem (faulty f w).2 = f_mem w \/ f_mem (faulty f w).2 = (f (f_mem w)).2.
Proof.
  destruct (faulty f w) as [r w'] eqn:E. cbn [snd].
  apply faulty_inv in E as (_ & _ & [(_ & -> & _)|(r0 & -> & _)]); auto.
Qed.

(** Requests extend the history of the server. *)
Definition extends {A} (f : ST Memory.world A) : Prop :=
  forall m, Memory.ok m -> Memory.ok (f m).2 /\
    (forall c p, Memory.was c m p -> Memory.was c (f m).2 p).

Lemma snapshot_ok m m' old :
  Memory.ok m' -> (forall c p, Memory.was c m p -> Memory.was c m' p) ->
  Memory.ok (snapshot (mkFaulty m [] old)) -> Memory.ok (snapshot (mkFaulty m' [] old)).
Proof.
  intros Hm' Hs [H1 _ _]. constructor; [|apply (Memory.ok_versions _ Hm')|apply (Memory.ok_unique _ Hm')].
  intros c x p Hp. destruct (H1 c x p Hp) as [? ?]. split; [done|]. by apply Hs.
Qed.

Lemma faulty_ok {A} (f : ST Memory.world (result kube_error A)) w : extends f -> f_ok w -> f_ok (faulty f w).2.
Proof.
  intros Hf [H1 H2]. destruct (Hf _ H1) as [H3 H4]. destruct (faulty f w) as [r w'] eqn:E.
  apply faulty_inv in E as (Eo & _ & E). destruct w as [m s old], w' as [m' s' old']. cbn in *. subst old'.
  destruct E as [(_ & -> & _)|(r0 & E & _)]; [done|]. rewrite E in H3, H4. cbn in H3, H4.
  split; [done|]. by apply (snapshot_ok m).
Qed.

Lemma faulty_seen {A} (f : ST Memory.world (result kube_error A)) w c p :
  extends f -> f_ok w -> Memory.was c (f_mem w) p -> Memory.was c (f_mem (faulty f w).2) p.
Proof. intros Hf [H1 _] Hp. destruct (faulty_mem f w) as [->| ->]; [done|]. by apply (Hf _ H1). Qed.

Lemma extends_refl {A} (f : ST Memory.world A) : (forall m, (f m).2 = m) -> extends f.
Proof. intros E m Hm. by rewrite E. Qed.

Lemma extends_create c p : extends (Memory.create c p).
Proof. intros m Hm. split; [exact (@Create_ok _ _ _ Memory.laws c p m Hm)|]. intros c' q. exact (@Create_keeps _ _ _ Memory.laws c p m q c' Hm). Qed.
Lemma extends_update c p : extends (Memory.update c p).
Proof. intros m Hm. split; [exact (@Update_ok _ _ _ Memory.laws c p m Hm)|]. intros c' q. exact (@Update_keeps _ _ _ Memory.laws c p m q c' Hm). Qed.
Lemma extends_delete c p : extends (Memory.delete_ c p).
Proof. intros m Hm. split; [exact (@Delete_ok _ _ _ Memory.laws c p m Hm)|]. intros c' q. exact (@Delete_keeps _ _ _ Memory.laws c p m q c' Hm). Qed.

(** Lists leave the memory alone. *)
Lemma list_faulty_mem c sel w :
  f_mem (list_faulty c sel w).2 = f_mem w /\ f_old (list_faulty c sel w).2 = f_old w /\
  f_script (list_faulty c sel w).2 = tail (f_script w).
Proof. unfold list_faulty, faulty. destruct (f_script w) as [|[] s] eqn:E; cbn; by rewrite ?E. Qed.

Lemma list_faulty_Ok c sel w l w' :
  list_faulty c sel w = (Ok l, w') ->
  l = base.filter (fun p => sel (peer_Labels p) = true) (map_to_list (Memory.objects c (f_mem w))).*2 \/
  (f_script w <> [] /\
   l = base.filter (fun p => sel (peer_Labels p) = true) (map_to_list (Memory.objects c (snapshot w))).*2).
Proof.
  unfold list_faulty, faulty, Memory.listPeers, lost.
  destruct (f_script w) as [|[] s]; cbn; intros [= <- <-]; auto.
Qed.

#[export] Hint Resolve extends_create extends_update extends_delete : effects.

#[export] Program Instance faulty_laws : PeerAPILaws string fworld := {
  peers c w := Memory.objects c (f_mem w); seen c w := Memory.was c (f_mem w);
  synced _ w := f_script w = []; world_ok := f_ok;
}.
Next Obligation.
  intros c sel [m s old] [H1 H2]. cbn. destruct (list_faulty_mem c sel (mkFaulty m s old)) as (E1 & E2 & _).
  destruct (list_faulty c sel _).2 as [m' s' old']. cbn in *. subst. by split.
Qed.
Next Obligation. intros c p w H. apply faulty_ok; auto with effects. Qed.
Next Obligation. intros c p w H. apply faulty_ok; auto with effects. Qed.
Next Obligation. intros c p w H. apply faulty_ok; auto with effects. Qed.
Next Obligation. done. Qed.
Next Obligation. intros c w x p [H _] Hx. by apply (Memory.ok_objects _ H c). Qed.
Next Obligation. intros c sel w c'. cbn. by destruct (list_faulty_mem c sel w) as (-> & _). Qed.
Next Obligation. done. Qed.
Next Obligation. done. Qed.
Next Obligation. done. Qed.
Next Obligation.
  intros c sel w l w' p [H1 H2] E Hp. apply list_faulty_Ok in E as [->|[_ ->]];
    apply Memory.elem_of_list in Hp as [[x Hx] Hs]; (split; [|done]).
  - by apply (Memory.ok_objects _ H1) in Hx as [_ ?].
  - by apply (Memory.ok_objects _ H2) in Hx as [_ ?].
Qed.
Next Obligation.
  intros c sel w l w' [H1 H2] E. apply list_faulty_Ok in E as [->|[_ ->]]; by apply Memory.list_names_NoDup.
Qed.
Next Obligation.
  intros c sel w l w' [H1 H2] Hs E. split.
  - pose proof (list_faulty_mem c sel w) as (_ & _ & Et). change (List c sel w) with (list_faulty c sel w) in E.
    rewrite E, Hs in Et. done.
  - apply list_faulty_Ok in E as [->|[? _]]; [|done]. intros p. rewrite Memory.elem_of_list.
    split; intros [Hx Hsel]; (split; [|done]); [|eauto]. destruct Hx as [x Hx].
    by destruct (Memory.ok_objects _ H1 _ _ _ Hx) as [-> _].
Qed.
Next Obligation. intros c sel w p c'. cbn. by destruct (list_faulty_mem c sel w) as (-> & _). Qed.
Next Obligation. intros c q w p c' H. apply faulty_seen; auto with effects. Qed.
Next Obligation. intros c q w p c' H. apply faulty_seen; auto with effects. Qed.
Next Obligation. intros c q w p c' H. apply faulty_seen; auto with effects. Qed.
Next Obligation. done. Qed.
Next Obligation.
  intros c w p cur [H _] Hp Hc E. by apply (@seen_version _ _ _ Memory.laws c (f_mem w) p cur).
Qed.
Next Obligation. intros c w p [H _] Hp. by apply (@seen_versioned _ _ _ Memory.laws c (f_mem w) p). Qed.
Next Obligation. intros c w x p [H _] Hx. by apply (@peers_seen _ _ _ Memory.laws c (f_mem w) x p). Qed.
Next Obligation. intros c sel w c' p. cbn. by destruct (list_faulty_mem c sel w) as (-> & _). Qed.
Next Obligation. done. Qed.
Next Obligation.
  intros c q w c' p. cbn. destruct (faulty_mem (Memory.create c q) w) as [->| ->]; [by left|].
  apply (@Create_history _ _ _ Memory.laws c q (f_mem w) c' p).
Qed.
Next Obligation.
  intros c q w c' p. cbn. destruct (faulty_mem (Memory.update c q) w) as [->| ->]; [by left|].
  apply (@Update_history _ _ _ Memory.laws c q (f_mem w) c' p).
Qed.
Next Obligation.
  intros c q w c' p. cbn. destruct (faulty_mem (Memory.delete_ c q) w) as [->| ->]; [done|].
  apply (@Delete_history _ _ _ Memory.laws c q (f_mem w) c' p).
Qed.
Next Obligation.
  intros c p w u w' [H _] E. apply faulty_inv in E as (_ & _ & [(? & _)|(r0 & E & Er)]); [done|].
  destruct r0 as [u0|e]; [|destruct Er as [?|[? _]]; done]. by eapply (@Create_Ok _ _ _ Memory.laws c p (f_mem w)).
Qed.
Next Obligation.
  intros c p w e w' [H _] E. apply faulty_inv in E as (_ & _ & [(_ & -> & _)|(r0 & E & _)]); [by left|].
  destruct r0 as [u0|e0]; [right; by eapply (@Create_Ok _ _ _ Memory.laws c p (f_mem w))|by eapply (@Create_Err _ _ _ Memory.laws c p (f_mem w))].
Qed.
Next Obligation.
  intros c p w u w' [H _] Hrv E. apply faulty_inv in E as (_ & _ & [(? & _)|(r0 & E & Er)]); [done|].
  destruct r0 as [u0|e]; [|destruct Er as [?|[? _]]; done]. by eapply (@Update_Ok _ _ _ Memory.laws c p (f_mem w)).
Qed.
Next Obligation.
  intros c p w e w' [H _] Hrv E. apply faulty_inv in E as (_ & _ & [(_ & -> & _)|(r0 & E & _)]); [by left|].
  destruct r0 as [u0|e0]; [right; by eapply (@Update_Ok _ _ _ Memory.laws c p (f_mem w))|by eapply (@Update_Err _ _ _ Memory.laws c p (f_mem w))].
Qed.
Next Obligation.
  intros c p w u w' [H _] E. apply faulty_inv in E as (_ & _ & [(? & _)|(r0 & E & Er)]); [done|].
  destruct r0 as [u0|e]; [|destruct Er as [?|[? _]]; done]. by eapply (@Delete_Ok _ _ _ Memory.laws c p (f_mem w)).
Qed.
Next Obligation.
  intros c p w e w' [H _] E. apply faulty_inv in E as (_ & _ & [(_ & -> & _)|(r0 & E & _)]); [by left|].
  destruct r0 as [u0|e0]; [right; by eapply (@Delete_Ok _ _ _ Memory.laws c p (f_mem w))|by eapply (@Delete_Err _ _ _ Memory.laws c p (f_mem w))].
Qed.
Next Obligation.
  intros c p w w' [H _] E. apply faulty_inv in E as (_ & _ & [(? & _)|(r0 & E & Er)]); [done|].
  destruct r0 as [u0|e]; [destruct Er as [?|[? _]]; done|].
  assert (e = NotFound) as -> by (destruct Er as [[= ->]|[[= ->] _]]; done). by eapply (@Delete_NotFound _ _ _ Memory.laws c p (f_mem w)).
Qed.
Next Obligation.
  intros c c' p w Hc. cbn. destruct (faulty_mem (Memory.create c p) w) as [->| ->]; [done|]. by apply (@Create_other _ _ _ Memory.laws c c' p (f_mem w)).
Qed.
Next Obligation.
  intros c c' p w Hc. cbn. destruct (faulty_mem (Memory.update c p) w) as [->| ->]; [done|]. by apply (@Update_other _ _ _ Memory.laws c c' p (f_mem w)).
Qed.
Next Obligation.
  intros c c' p w Hc. cbn. destruct (faulty_mem (Memory.delete_ c p) w) as [->| ->]; [done|]. by apply (@Delete_other _ _ _ Memory.laws c c' p (f_mem w)).
Qed.

(** ** The controller's requests *)

Import MemoryController.

#[export] Instance faulty_capi : ControllerAPI string fworld := {
  ListNodes c := faulty (ListNodes c);
  GetMesh ns name := faulty (GetMesh ns name);
  ListMeshes ns := faulty (ListMeshes (C := string) ns);
  UpdateMesh m := faulty (UpdateMesh (C := string) m);
  UpdateMeshStatus m := faulty (UpdateMeshStatus (C := string) m);
  rangeClusters m w := ((map_to_list m).*1, w);
  unmarshalDiscovered _ := None;
}.

(** Requests about nodes and meshes leave the peers and their history. *)
Definition aside {A} (f : ST Memory.world A) : Prop :=
  forall m, Memory.ok m -> quiet (C := string) m (f m).2.

Lemma faulty_quiet {A} (f : ST Memory.world (result kube_error A)) w :
  aside f -> f_ok w -> quiet (C := string) w (faulty f w).2.
Proof.
  intros Hf Hw. destruct (Hf _ (proj1 Hw)) as (H1 & H2 & H3).
  split; [|split]; cbn.
  - apply faulty_ok; [|done]. intros m Hm. destruct (Hf m Hm) as (H4 & H5 & _). split; [done|]. intros c p. apply H5.
  - intros c p. destruct (faulty_mem f w) as [->| ->]; [done|]. apply H2.
  - intros c. destruct (faulty_mem f w) as [->| ->]; [done|]. apply H3.
Qed.

#[export] Program Instance faulty_claws : ControllerLaws string fworld := {}.
Next Obligation. intros c w H. apply faulty_quiet; [|done]. intros m Hm. by apply ListNodes_quiet. Qed.
Next Obligation. intros ns n w H. apply faulty_quiet; [|done]. intros m Hm. by apply GetMesh_quiet. Qed.
Next Obligation. intros ns w H. apply faulty_quiet; [|done]. intros m Hm. by apply (ListMeshes_quiet (C := string)). Qed.
Next Obligation. intros x w H. apply faulty_quiet; [|done]. intros m Hm. by apply (UpdateMesh_quiet (C := string)). Qed.
Next Obligation. intros x w H. apply faulty_quiet; [|done]. intros m Hm. by apply (UpdateMeshStatus_quiet (C := string)). Qed.
Next Obligation. intros m w H. by split. Qed.
Next Obligation. done. Qed.
Next Obligation.
  intros ns name w m w' E. apply faulty_inv in E as (_ & _ & [(? & _)|(r0 & E & Er)]); [done|].
  destruct r0 as [m0|e]; [|destruct Er as [?|[? _]]; done].
  destruct Er as [[= ->]|[? _]]; [|done]. by apply (GetMesh_name ns name (f_mem w) m0 (f_mem w')).
Qed.

(** ** A storm that ends *)

Section Fading.
Context (mesh : ClusterMesh) (ns : gmap string (list Node)).
Context (Hvalid : ValidateMeshNetworks [mesh] = None).

(** The memory during the storm: the nodes are fixed, and there is one mesh, whose
    status alone changes. *)
Definition on_course (m : Memory.world) : Prop :=
  Memory.w_nodes m = ns /\ exists x, Memory.w_meshes m = [x] /\ live mesh x.

Definition steered {A} (f : ST Memory.world A) : Prop := forall m, on_course m -> on_course (f m).2.

Definition sailing (w : fworld) : Prop := f_ok w /\ on_course (f_mem w).

Lemma faulty_steered {A} (f : ST Memory.world (result kube_error A)) n w :
  steered f -> f_ok (faulty f w).2 ->
  sailing w /\ (length (f_script w) <= n)%nat ->
  sailing (faulty f w).2 /\ (length (f_script (faulty f w).2) <= n)%nat.
Proof.
  intros Hf Hok [[_ Hw] Hn]. split; [split; [done|]|].
  - destruct (faulty_mem f w) as [->| ->]; [done|]. by apply Hf.
  - destruct (faulty f w) as [r w'] eqn:E. apply faulty_inv in E as (_ & E & _). cbn. rewrite E.
    destruct (f_script w); cbn in *; lia.
Qed.

Lemma steered_create c p : steered (Memory.create c p).
Proof. intros m Hm. unfold Memory.create. by destruct (Memory.objects c m !! _). Qed.
Lemma steered_update c p : steered (Memory.update c p).
Proof. intros m Hm. unfold Memory.update. destruct (Memory.objects c m !! _); [|done]. by case_decide. Qed.
Lemma steered_delete c p : steered (Memory.delete_ c p).
Proof. intros m Hm. unfold Memory.delete_. by destruct (Memory.objects c m !! _). Qed.
Lemma steered_read {A} (f : ST Memory.world A) : (forall m, (f m).2 = m) -> steered f.
Proof. intros Hf m Hm. by rewrite Hf. Qed.
Lemma steered_status x : live mesh x -> steered (UpdateMeshStatus (C := string) x).
Proof.
  intros Hx m (Hn & y & Ey & Hy). split; [done|]. cbn. rewrite Ey. cbn. unfold same_mesh.
  rewrite bool_decide_eq_true_2; [by exists x|].
  rewrite (live_namespace _ _ Hx), (live_namespace _ _ Hy), (live_name _ _ Hx), (live_name _ _ Hy). done.
Qed.

Lemma GetMesh_on_course m :
  on_course m -> exists x, GetMesh (mesh_Namespace mesh) (mesh_Name mesh) m = (Ok x, m) /\ live mesh x.
Proof.
  intros (_ & x & Ex & Hx). exists x. split; [|done]. cbn. rewrite Ex. cbn. rewrite bool_decide_eq_true_2; [done|].
  by rewrite (live_namespace _ _ Hx), (live_name _ _ Hx).
Qed.

Lemma valid_live x : live mesh x -> ValidateMeshNetworks [x] = None.
Proof. revert Hvalid. destruct x, mesh. intros Hv [E1 E2 E3 _ _]. simpl in *. subst. exact Hv. Qed.

Lemma faulty_stormy n :
  stormy mesh (MemoryCalm.nodes_in ns) (fun w => sailing w /\ (length (f_script w) <= n)%nat).
Proof.
  constructor.
  - by intros w [[? _] _].
  - intros c sel w [[Hok Hw] Hn]. split; [split|].
    + exact (@List_ok _ _ _ faulty_laws c sel w Hok).
    + cbn. by destruct (list_faulty_mem c sel w) as (-> & _).
    + cbn. destruct (list_faulty_mem c sel w) as (_ & _ & ->). destruct (f_script w); cbn in *; lia.
  - intros c p w Hw. apply faulty_steered; [apply steered_create|exact (@Create_ok _ _ _ faulty_laws c p w (proj1 (proj1 Hw)))|done].
  - intros c p w Hw. apply faulty_steered; [apply steered_update|exact (@Update_ok _ _ _ faulty_laws c p w (proj1 (proj1 Hw)))|done].
  - intros c p w Hw. apply faulty_steered; [apply steered_delete|exact (@Delete_ok _ _ _ faulty_laws c p w (proj1 (proj1 Hw)))|done].
  - done.
  - done.
  - intros c w Hw. apply faulty_steered; [by apply steered_read|exact (proj1 (@ListNodes_quiet _ _ _ faulty_laws _ faulty_claws c w (proj1 (proj1 Hw))))|done].
  - intros w Hw. apply faulty_steered; [by apply steered_read|exact (proj1 (@GetMesh_quiet _ _ _ faulty_laws _ faulty_claws _ _ w (proj1 (proj1 Hw))))|done].
  - intros o w Hw. apply faulty_steered; [by apply steered_read|exact (proj1 (@ListMeshes_quiet _ _ _ faulty_laws _ faulty_claws o w (proj1 (proj1 Hw))))|done].
  - intros x w Hx Hw. apply faulty_steered; [by apply steered_status|exact (proj1 (@UpdateMeshStatus_quiet _ _ _ faulty_laws _ faulty_claws x w (proj1 (proj1 Hw))))|done].
  - intros c w l [[_ [Hn _]] _]. destruct (ListNodes c w) as [r w'] eqn:E. cbn. intros ->.
    apply faulty_inv in E as (_ & _ & [(? & _)|(r0 & E & Er)]); [done|]. injection E as <- _.
    rewrite <- Hn. destruct Er as [[= ->]|[? _]]; done.
  - intros w [[_ Hc] _]. destruct (GetMesh_on_course _ Hc) as (x & Ex & Hx).
    destruct (GetMesh _ _ w) as [r w'] eqn:E. cbn [fst].
    apply faulty_inv in E as (_ & _ & [(-> & _)|(r0 & E & Er)]); [done|]. rewrite Ex in E. injection E as <- _.
    by destruct Er as [->|[-> _]].
  - intros w items [[_ (_ & x & Ex & Hx)] _]. destruct (ListMeshes _ w) as [r w'] eqn:E. cbn. intros ->.
    apply faulty_inv in E as (_ & _ & [(? & _)|(r0 & E & Er)]); [done|]. injection E as <- _.
    assert (items = [x]) as ->; [|by apply valid_live].
    destruct Er as [[= ->]|[? _]]; [|done]. rewrite Ex. cbn. rewrite (live_namespace _ _ Hx). by rewrite decide_True.
Qed.

(** Without faults left, a request is that of the in-memory server. *)
Lemma faulty_none {A} (f : ST Memory.world (result kube_error A)) w :
  f_script w = [] -> faulty f w = ((f (f_mem w)).1, mkFaulty (f (f_mem w)).2 [] (f_old w)).
Proof. unfold faulty. intros ->. by destruct (f (f_mem w)). Qed.

Lemma sailing_kept {A} (f : ST fworld A) w :
  (forall n w, sailing w /\ (length (f_script w) <= n)%nat -> sailing (f w).2 /\ (length (f_script (f w).2) <= n)%nat) ->
  sailing w /\ length (f_script w) = 0%nat -> sailing (f w).2 /\ length (f_script (f w).2) = 0%nat.
Proof. intros Hf [Hw H0]. destruct (Hf 0%nat w) as [H1 H2]; [split; [done|lia]|]. split; [done|lia]. Qed.

Lemma faulty_calm :
  calm (MemoryCalm.nodes_in ns) [mesh_Name mesh] (fun w => sailing w /\ length (f_script w) = 0%nat).
Proof.
  constructor.
  - by intros w [[? _] _].
  - by intros c w [_ ?%nil_length_inv].
  - intros c sel w Hw. split; [apply sailing_kept; [intros n; apply (storm_List _ _ _ (faulty_stormy n))|done]|].
    destruct Hw as [_ H0%nil_length_inv]. cbn. unfold list_faulty. rewrite H0, faulty_none by done. intros _. by eexists.
  - intros c p w Hw _. split; [apply sailing_kept; [intros n; apply (storm_Create _ _ _ (faulty_stormy n))|done]|].
    destruct Hw as [_ H0%nil_length_inv]. cbn. rewrite faulty_none by done. unfold Memory.create. intros _ ->. by eexists.
  - intros c p w Hw _. split; [apply sailing_kept; [intros n; apply (storm_Update _ _ _ (faulty_stormy n))|done]|].
    destruct Hw as [_ H0%nil_length_inv]. cbn. rewrite faulty_none by done. unfold Memory.update.
    intros _ cur -> Hrv. rewrite decide_True by done. by eexists.
  - intros c p w Hw. split; [apply sailing_kept; [intros n; apply (storm_Delete _ _ _ (faulty_stormy n))|done]|].
    destruct Hw as [_ H0%nil_length_inv]. cbn. rewrite faulty_none by done. unfold Memory.delete_.
    intros _ [cur ->]. by eexists.
  - done.
  - done.
  - intros c w Hw. split; [apply sailing_kept; [intros n; apply (storm_ListNodes _ _ _ (faulty_stormy n))|done]|].
    destruct Hw as [[_ [<- _]] H0%nil_length_inv]. cbn. left. by rewrite faulty_none.
  - intros a b w Hw. apply sailing_kept; [|done]. intros n w' Hw'. apply faulty_steered; [by apply steered_read| |done].
    exact (proj1 (@GetMesh_quiet _ _ _ faulty_laws _ faulty_claws a b w' (proj1 (proj1 Hw')))).
  - intros o w Hw. apply sailing_kept; [intros n; apply (storm_ListMeshes _ _ _ (faulty_stormy n))|done].
  - intros w [[_ (_ & x & Ex & Hx)] H0%nil_length_inv]. exists [x]. cbn. rewrite faulty_none by done. cbn. rewrite Ex.
    by rewrite (live_name _ _ Hx).
Qed.

Lemma faulty_fading :
  fading mesh (MemoryCalm.nodes_in ns) [mesh_Name mesh] sailing (fun w => length (f_script w)).
Proof.
  constructor.
  - apply faulty_stormy.
  - intros w n _ E. destruct (GetMesh _ _ w) as [r w'] eqn:Eg. apply faulty_inv in Eg as (_ & Es & _). cbn.
    rewrite Es. destruct (f_script w); cbn in *; lia.
  - apply faulty_calm.
  - intros w [_ Hc] H0%nil_length_inv. destruct (GetMesh_on_course _ Hc) as (x & Ex & _). exists x.
    change (GetMesh (mesh_Namespace mesh) (mesh_Name mesh) w) with
      (faulty (GetMesh (mesh_Namespace mesh) (mesh_Name mesh)) w).
    by rewrite faulty_none, Ex.
Qed.

End Fading.

(** ** A stormy start *)

Module Storm.
Import Controller.Scenario.

(** Two clusters come up while requests are refused, replies get lost and a list of
    peers is stale. *)
Definition faults : list fault :=
  [Refused; StaleRead; StaleRead; StaleRead; LostReply; StaleRead; LostReply; StaleRead; StaleRead; Refused].
Definition harbour : fworld := mkFaulty (start [Witness.two]) faults ∅.

Lemma harbour_sailing : sailing Witness.two nodes harbour.
Proof.
  split; [split; apply Controller.Witness.mesh_start_ok|]. split; [reflexivity|]. exists Witness.two. split; [reflexivity|].
  constructor; reflexivity.
Qed.

End Storm.

Lemma reconcile_eventually_converges_witness :
  mesh_converged Controller.Scenario.everywhere Witness.two Witness.nodes_of
    (attempts Controller.Scenario.everywhere (fun _ => "overlap") Witness.two 11 Storm.harbour).
Proof.
  apply (reconcile_eventually_converges Controller.Scenario.everywhere (fun _ => "overlap") Witness.two Witness.nodes_of
    [mesh_Name Witness.two] (sailing Witness.two Controller.Scenario.nodes) (fun w => length (f_script w)) Storm.harbour).
  - apply faulty_fading. vm_compute. reflexivity.
  - apply Witness.two_distinct.
  - intros s [->|[->|[]%not_elem_of_nil]%elem_of_cons]%elem_of_cons; cbn; lia.
  - apply Witness.everywhere_injective.
  - left.
  - apply Storm.harbour_sailing.
  - intros n c _. constructor; intros *; (change (peers c Storm.harbour) with (∅ : gmap string Peer)); by rewrite lookup_empty.
  - cbn. lia.
Defined.
