(* ===== verification/Outage.v ===== *)
(** * Clusters that refuse their peers

    What a reconcile does while the peers of some registered clusters cannot be
    listed: the API server is unreachable, access is denied, or the discovery data
    does not know the kind. The loop over (source, target) pairs stops at the first
    one it cannot serve, with what comes before done and what comes after undone. *)

From Stdlib Require Import String.
From S2P Require Import Prelude GoStrings GoNet Types Kilonode ValidationMesh ValidationNode Naming Builder.
From S2P Require Import Kube PeerReconciler Registry Controller Convergence.
Open Scope Z_scope.
Open Scope go_scope.

Section Outage.
Context {C W : Type} {api : PeerAPI C W} {laws : PeerAPILaws C W}.
Context {capi : ControllerAPI C W} {claws : ControllerLaws C W} {C_eq : EqDecision C}.
Context (registry : ClusterRegistry C) (mesh : ClusterMesh) (nodes : C -> list Node).
Context {up : C -> Prop} {up_dec : forall c, Decision (up c)} (refusal : kube_error).
Context (living : list string) (I : W -> Prop) (HI : calm_on (up := up) nodes living I).
Context (HD : distinct_peers registry mesh nodes).
Context (Hliv : mesh_Name mesh ∈ living).

(** Clusters that are not up refuse to list their peers. *)
Definition refuses : Prop := forall c sel w, I w -> ~ up c -> (List c sel w).1 = Err refusal.

Context (Hrefuses : refuses).
Context (Hport : forall s, s ∈ mesh_Clusters mesh -> 0 <= entry_WireguardPort s < 65536).

Abbreviation settled := (settled registry mesh nodes I).
Abbreviation progress := (progress registry mesh nodes living I).
Abbreviation converged := (converged registry mesh nodes).

(** *** What is written *)

(** Only peers of [pairs] have changed: of the source of a pair, on its target. *)
Definition only (pairs : list (ClusterEntry * ClusterEntry)) (w w' : W) : Prop :=
  forall c y p,
    (forall s t, (s, t) ∈ pairs -> Client registry (entry_Name t) = Some c ->
       OrphanSelector (mesh_Name mesh) (entry_Name s) (peer_Labels p) = false) ->
    peers c w' !! y = Some p <-> peers c w !! y = Some p.

Definition pairs_of (s : ClusterEntry) (targets : list ClusterEntry) : list (ClusterEntry * ClusterEntry) :=
  (fun t => (s, t)) <$> targets.

Lemma only_same pairs w w' : (forall c, peers c w' = peers c w) -> only pairs w w'.
Proof. intros E c y p _. by rewrite E. Qed.

Lemma only_trans l1 l2 w1 w2 w3 : only l1 w1 w2 -> only l2 w2 w3 -> only (l1 ++ l2) w1 w3.
Proof.
  intros H1 H2 c y p Hl. rewrite (H2 c y p), (H1 c y p); [done|..]; intros s t Hs; apply Hl, elem_of_app; auto.
Qed.

Lemma only_after pairs w1 w2 w3 : (forall c, peers c w2 = peers c w1) -> only pairs w2 w3 -> only pairs w1 w3.
Proof. intros E H c y p Hl. by rewrite (H c y p Hl), E. Qed.

Lemma only_weaken l1 l2 w w' : (forall x, x ∈ l1 -> x ∈ l2) -> only l1 w w' -> only l2 w w'.
Proof. intros Hl H c y p Hs. apply H. eauto. Qed.

Lemma pushed_only c s t w w' :
  Client registry (entry_Name t) = Some c -> s ∈ mesh_Clusters mesh ->
  unclaimed registry mesh nodes c w -> pushed registry mesh nodes c s w w' -> only [(s, t)] w w'.
Proof.
  intros Hc Hs Hu HP c' y p Hl.
  destruct (decide (c = c')) as [<-|Hne]; [|by rewrite (pushed_other _ _ _ _ _ _ _ HP)].
  specialize (Hl s t ltac:(left) Hc). split; intros Hp.
  - destruct (pushed_cases _ _ _ _ _ _ _ _ _ HP Hp) as [(d & _ & _ & _ & ?)|(_ & ? & _)]; [congruence|done].
  - apply (pushed_rest _ _ _ _ _ _ _ HP); [|done]. intros (d & -> & Hd)%list_elem_of_fmap.
    pose proof (unclaimed_names _ _ _ c w Hu s d p Hs Hd Hp). congruence.
Qed.

Lemma push_only c s t w :
  Client registry (entry_Name t) = Some c -> up c -> s ∈ mesh_Clusters mesh -> settled w ->
  only [(s, t)] w (ReconcilePeers c (mesh_Name mesh) (entry_Name s) (wanted registry mesh nodes c s) w).2.
Proof.
  intros Hc Hup Hs [Hw Hu]. apply (pushed_only c); [done|done|by eapply Hu|].
  by apply (ReconcilePeers_pushed registry mesh nodes living I HI HD Hliv c s w Hup Hs Hw (Hu _ c Hc)).
Qed.

Lemma ListNodes_same c w : I w -> forall c', peers c' (ListNodes c w).2 = peers c' w.
Proof. intros Hw. apply ListNodes_quiet. by apply (calm_ok _ _ _ HI). Qed.

(** *** The loops *)

(** The loop over [targets] stopped at one that does not answer, after [before]. *)
Inductive stopped (s : ClusterEntry) (targets : list ClusterEntry) (w : W) : list ClusterEntry -> controller_error -> Prop :=
| stopped_at before t after c :
    targets = before ++ t :: after ->
    entry_Name t <> entry_Name s -> Client registry (entry_Name t) = Some c -> ~ up c ->
    (forall t' c', t' ∈ before -> entry_Name t' <> entry_Name s -> Client registry (entry_Name t') = Some c' ->
       up c' /\ converged c' s w) ->
    stopped s targets w before (ReconcilingPair (entry_Name s) (entry_Name t) [ListingAllPeers refusal]).

(** The work on source [s] broke off: the targets served, and the error. *)
Inductive cut (s : ClusterEntry) (w : W) : list ClusterEntry -> controller_error -> Prop :=
| cut_source cs w0 e :
    Client registry (entry_Name s) = Some cs -> ~ up cs -> I w0 -> (ListNodes cs w0).1 = Err e ->
    cut s w [] (ListingNodes (entry_Name s) e)
| cut_target before e : stopped s (mesh_Clusters mesh) w before e -> cut s w before e.

(** The targets of [s] have been served. *)
Definition served (s : ClusterEntry) (targets : list ClusterEntry) (w : W) : Prop :=
  forall t c, t ∈ targets -> entry_Name t <> entry_Name s -> Client registry (entry_Name t) = Some c ->
    up c /\ converged c s w.

Lemma ReconcilePeers_refused c s ps w :
  I w -> ~ up c ->
  exists w', ReconcilePeers c (mesh_Name mesh) s ps w = ([ListingAllPeers refusal], w') /\
    I w' /\ forall c', peers c' w' = peers c' w.
Proof.
  intros Hw Hc. rewrite ReconcilePeers_run. pose proof (Hrefuses c everything w Hw Hc) as E.
  destruct (calm_List _ _ _ HI c everything w Hw) as [I1 _]. pose proof (List_peers c everything w) as HP.
  destruct (List c everything w) as [r w']. cbn [fst snd] in *. subst r. by exists w'.
Qed.

Lemma stopped_cons s t targets w before e :
  (forall c, entry_Name t <> entry_Name s -> Client registry (entry_Name t) = Some c -> up c /\ converged c s w) ->
  stopped s targets w before e -> stopped s (t :: targets) w (t :: before) e.
Proof.
  intros Ht [before' t' after c -> Hne Hc Hd Hb]. eapply stopped_at; [done..|].
  intros t1 c1 [->|?]%elem_of_cons; [apply Ht|by apply Hb].
Qed.

Lemma served_cons s t targets w :
  (forall c, entry_Name t <> entry_Name s -> Client registry (entry_Name t) = Some c -> up c /\ converged c s w) ->
  served s targets w -> served s (t :: targets) w.
Proof. intros Ht Hs t' c [->|?]%elem_of_cons; [apply Ht|by apply Hs]. Qed.

Lemma pushLoop_outage s targets w :
  s ∈ mesh_Clusters mesh -> settled w ->
  let r := pushLoop registry (mesh_Name mesh) s (desired_of registry mesh nodes s) targets w in
  progress w r.2 /\
  match r.1 with
  | None => served s targets r.2 /\ only (pairs_of s targets) w r.2
  | Some e => exists before, stopped s targets r.2 before e /\ only (pairs_of s before) w r.2
  end.
Proof.
  intros Hs. revert w; induction targets as [|t targets IH]; intros w Hw; cbn [pushLoop].
  { split; [by apply progress_refl|]. split; [by intros t c ?%not_elem_of_nil|by apply only_same]. }
  assert (Hskip : (forall c, entry_Name t <> entry_Name s -> Client registry (entry_Name t) = Some c -> False) ->
    let r := pushLoop registry (mesh_Name mesh) s (desired_of registry mesh nodes s) targets w in
    progress w r.2 /\
    match r.1 with
    | None => served s (t :: targets) r.2 /\ only (pairs_of s (t :: targets)) w r.2
    | Some e => exists before, stopped s (t :: targets) r.2 before e /\ only (pairs_of s before) w r.2
    end).
  { intros Hno. destruct (IH w Hw) as (P & R). split; [done|]. destruct (pushLoop _ _ _ _ _ w).1.
    - destruct R as (before & R & O). exists (t :: before). split; [|by eapply (only_weaken (pairs_of s before)); [right|]].
      apply stopped_cons; [|done]. intros ? H1 H2. by destruct (Hno _ H1 H2).
    - destruct R as (R & O). split; [|by eapply (only_weaken (pairs_of s targets)); [right|]].
      apply served_cons; [|done]. intros ? H1 H2. by destruct (Hno _ H1 H2). }
  case_decide as Ht; [by apply Hskip|]. destruct (Client registry (entry_Name t)) as [ct|] eqn:Ec.
  2:{ apply Hskip. congruence. }
  clear Hskip. rewrite st_bind_run.
  pose proof (ListNodes_progress registry mesh nodes living I HI ct w Hw) as P1.
  pose proof (ListNodes_same ct w (proj1 Hw)) as S1. destruct (decide (up ct)) as [Hup|Hdown].
  - rewrite (enrich_run registry mesh nodes living I HI ct s w Hup (proj1 Hw)). cbn [fst snd].
    set (w1 := (ListNodes ct w).2) in *.
    destruct (push_one registry mesh nodes living I HI HD Hliv (entry_Name t) ct s w1 Ec Hup Hs (proj1 P1)) as (w2 & E2 & P2 & C2).
    pose proof (push_only ct s t w1 Ec Hup Hs (proj1 P1)) as O2. rewrite E2 in O2.
    rewrite st_bind_run, E2. cbn [fst snd]. destruct (IH w2 (proj1 P2)) as (P3 & R3). cbn [fst snd] in *.
    split; [by eapply progress_trans, progress_trans|].
    assert (Hc2 : forall c, entry_Name t <> entry_Name s -> Client registry (entry_Name t) = Some c ->
      up c /\ converged c s (pushLoop registry (mesh_Name mesh) s (desired_of registry mesh nodes s) targets w2).2).
    { intros c _ Hc. rewrite Ec in Hc. injection Hc as <-. split; [done|]. by eapply (proj1 (proj2 P3)). }
    destruct (pushLoop _ _ _ _ targets w2).1.
    + destruct R3 as (before & R3 & O3). exists (t :: before). split; [by apply stopped_cons|].
      by eapply only_after, (only_trans [(s, t)]).
    + destruct R3 as (R3 & O3). split; [by apply served_cons|]. by eapply only_after, (only_trans [(s, t)]).
  - assert (E1 : (enrichEndpointsFromDiscovered ct (desired_of registry mesh nodes s) w).2 = (ListNodes ct w).2).
    { unfold enrichEndpointsFromDiscovered. rewrite st_bind_run.
      destruct (DiscoveredEndpointsByKey _ _); [case_decide|]; done. }
    destruct (enrichEndpointsFromDiscovered _ _ w) as [r w1]. cbn [fst snd] in *. subst w1. rewrite st_bind_run.
    destruct (ReconcilePeers_refused ct (entry_Name s)
      (match r with Ok ps => ps | Err _ => desired_of registry mesh nodes s end) _ (proj1 (proj1 P1)) Hdown)
      as (w2 & E2 & I2 & S2). rewrite E2. cbn [fst snd].
    split; [eapply progress_trans; [exact P1|by apply progress_same; [apply P1|..]]|]. exists [].
    split; [eapply (stopped_at _ _ _ []); [done..|]; by intros t' c' ?%not_elem_of_nil|].
    apply only_same. intros c'. by rewrite S2, S1.
Qed.

Lemma reconcileSource_outage s w :
  s ∈ mesh_Clusters mesh -> settled w ->
  let r := reconcileSource registry mesh s w in
  progress w r.2 /\
  match r.1 with
  | Ok _ => (is_Some (Client registry (entry_Name s)) -> served s (mesh_Clusters mesh) r.2) /\
      only (pairs_of s (mesh_Clusters mesh)) w r.2
  | Err e => exists before, cut s r.2 before e /\ only (pairs_of s before) w r.2
  end.
Proof.
  intros Hs Hw. unfold reconcileSource. destruct (Client registry (entry_Name s)) as [cs|] eqn:Ec.
  2:{ split; [by apply progress_refl|]. split; [by intros [? ?]|by apply only_same]. }
  pose proof (ListNodes_progress registry mesh nodes living I HI cs w Hw) as P1.
  pose proof (ListNodes_same cs w (proj1 Hw)) as S1. rewrite st_bind_run.
  destruct (calm_ListNodes _ _ _ HI cs w (proj1 Hw)) as [_ [E1|[Hd [k E1]]]].
  2:{ pose proof (cut_source s (ListNodes cs w).2 cs w k Ec Hd (proj1 Hw) E1) as Hcut.
      destruct (ListNodes cs w) as [r w1]. cbn [fst snd] in *. subst r. split; [done|]. exists []. split; [done|by apply only_same]. }
  destruct (ListNodes cs w) as [r w1]. cbn [fst snd] in *. subst r.
  destruct (filterNodes (nodes cs) s) as [[valid skipped] transient] eqn:Ef.
  pose proof (desired_of_built registry mesh nodes Hport s cs Hs Ec) as Hb. rewrite Ef in Hb. cbn [fst] in Hb.
  destruct (pushLoop_outage s (mesh_Clusters mesh) w1 Hs (proj1 P1)) as (P2 & R2).
  unfold pushPeersToTargets. rewrite Hb. st_run. destruct (pushLoop _ _ _ _ _ w1) as [[e|] w2]; cbn [fst snd] in *; st_run;
    rewrite !st_ret_run; cbn [fst snd]; (split; [by eapply progress_trans|]).
  - destruct R2 as (before & R2 & O2). exists before. split; [by apply cut_target|by eapply only_after].
  - destruct R2 as (R2 & O2). split; [done|by eapply only_after].
Qed.

(** The loop over the sources in [l] broke off at [s], after [before]; of [s], the
    targets [tgts] have been served. *)
Record broken_off (l : list ClusterEntry) (w w' : W) (e : controller_error)
    (before : list ClusterEntry) (s : ClusterEntry) (tgts : list ClusterEntry) : Prop := {
  bo_list : exists after, l = before ++ s :: after;
  bo_source : is_Some (Client registry (entry_Name s));
  bo_served : forall s', s' ∈ before -> is_Some (Client registry (entry_Name s')) -> served s' (mesh_Clusters mesh) w';
  bo_cut : cut s w' tgts e;
  bo_only : only ((before ≫= fun s' => pairs_of s' (mesh_Clusters mesh)) ++ pairs_of s tgts) w w';
}.

Lemma served_progress s w w' :
  s ∈ mesh_Clusters mesh -> progress w w' -> served s (mesh_Clusters mesh) w -> served s (mesh_Clusters mesh) w'.
Proof. intros Hs (_ & P & _) H t c Ht Hne Hc. destruct (H t c Ht Hne Hc) as [Hup HC]. split; [done|]. by eapply P. Qed.

Lemma reconcileSources_outage l w :
  (forall s, s ∈ l -> s ∈ mesh_Clusters mesh) -> settled w ->
  let r := reconcileSources registry mesh l w in
  progress w r.2 /\
  match r.1 with
  | Ok _ => forall s, s ∈ l -> is_Some (Client registry (entry_Name s)) -> served s (mesh_Clusters mesh) r.2
  | Err e => exists before s tgts, broken_off l w r.2 e before s tgts
  end.
Proof.
  revert w; induction l as [|s l IH]; intros w Hl Hw; cbn [reconcileSources].
  { split; [by apply progress_refl|]. by intros s ?%not_elem_of_nil. }
  assert (Hs : s ∈ mesh_Clusters mesh) by (apply Hl; left).
  destruct (reconcileSource_outage s w Hs Hw) as (P1 & R1). rewrite st_bind_run.
  destruct (reconcileSource registry mesh s w) as [[[st inc]|e] w1] eqn:Es; cbn [fst snd] in *.
  2:{ st_run. split; [done|]. destruct R1 as (tgts & R1 & O1). exists [], s, tgts. constructor; [by exists l| | |done|done].
      - unfold reconcileSource in Es. destruct (Client registry (entry_Name s)); [done|]. by injection Es.
      - by intros s' ?%not_elem_of_nil. }
  destruct R1 as [R1 O1].
  destruct (IH w1) as (P2 & R2); [intros; apply Hl; by right|by apply P1|]. rewrite st_bind_run.
  destruct (reconcileSources registry mesh l w1) as [[[sts inc']|e] w2]; cbn [fst snd] in *; st_run;
    (split; [by eapply progress_trans|]).
  - intros s' [->|Hin]%elem_of_cons Hc; [|by apply R2]. eapply served_progress; [done|exact P2|by apply R1].
  - destruct R2 as (before & s' & tgts & [[after ->] Hc Hb Hcut Ho]). exists (s :: before), s', tgts.
    constructor; [by exists after|done| |done|rewrite bind_cons, <- app_assoc; by eapply only_trans].
    intros s1 [->|Hin]%elem_of_cons Hc1; [|by apply Hb]. eapply served_progress; [done|exact P2|by apply R1].
Qed.

End Outage.

(** ** A whole reconcile *)

Section Whole.
Context {C W : Type} {api : PeerAPI C W} {laws : PeerAPILaws C W}.
Context {capi : ControllerAPI C W} {claws : ControllerLaws C W} {C_eq : EqDecision C}.
Context (registry : ClusterRegistry C) (message : mesh_error -> string).

(** Some target of the mesh does not answer. *)
Definition blocked (mesh : ClusterMesh) (up : C -> Prop) : Prop :=
  exists s t cs c, s ∈ mesh_Clusters mesh /\ t ∈ mesh_Clusters mesh /\ entry_Name t <> entry_Name s /\
    Client registry (entry_Name s) = Some cs /\ Client registry (entry_Name t) = Some c /\ ~ up c.

(** Without an error, every pair of the mesh is served; with one, the loop broke
    off before the sweeps, and no peer lost its claim. *)
Lemma reconcile_outage {up : C -> Prop} {up_dec : forall c, Decision (up c)} refusal nodes living I ns name mesh w w1 :
  calm_on (up := up) nodes living I -> refuses refusal (up := up) I -> I w ->
  GetMesh ns name w = (Ok mesh, w1) -> mesh_Deleting mesh = false -> ContainsFinalizer mesh = true ->
  (forall items w2, ListMeshes (Some (mesh_Namespace mesh)) w1 = (Ok items, w2) -> ValidateMeshNetworks items = None) ->
  mesh_Name mesh ∈ living ->
  (forall s, s ∈ mesh_Clusters mesh -> 0 <= entry_WireguardPort s < 65536) ->
  distinct_peers registry mesh nodes ->
  (forall n c, Client registry n = Some c -> unclaimed registry mesh nodes c w) ->
  blocked mesh up ->
  let r := reconcile registry message ns name w in
  exists e, r.1 = (reconcileStateDone, Some e) /\
    (exists before s tgts, broken_off registry mesh nodes (up := up) refusal I (mesh_Clusters mesh) w r.2 e before s tgts) /\
    settled registry mesh nodes I r.2.
Proof.
  intros HI HR Hw Eg Hdel Hfin Hval Hm Hport HD Hu (s & t & cs & c & Hs & Ht & Hne & Hcs & Hc & Hd) r. subst r.
  destruct (reconcile_to_live registry message nodes living I ns name mesh w w1 HI Hw Eg Hdel Hfin Hval) as (w2 & -> & I2 & P2).
  unfold reconcileLive. set (m' := setCondition mesh _ _ _ _).
  assert (Hset : settled registry m' nodes I w2).
  { split; [done|]. intros n c' Hc'. apply (unclaimed_same registry m' nodes c' w); [done|].
    destruct (Hu n c' Hc') as [U1 U2]. constructor; [exact U1|exact U2]. }
  assert (HD' : distinct_peers registry m' nodes).
  { destruct HD as [D1 D2 D3 D4]. constructor; [exact D1|exact D2|exact D3|exact D4]. }
  destruct (reconcileSources_outage registry m' nodes refusal living I HI HD' Hm HR Hport (mesh_Clusters m') w2)
    as [[[I3 U3] _] R3]; [done|done|].
  rewrite st_bind_run. unfold reconcileAllClusters. destruct (reconcileSources registry m' _ w2) as [[[sts inc]|e] w3]; cbn [fst snd] in *.
  { exfalso. apply Hd. eapply (R3 s Hs); done. }
  rewrite st_ret_run. cbn [fst snd]. exists e. split; [done|]. split; [|split; [done|]].
  - destruct R3 as (before & s' & tgts & [HL HS Hb Hcut Ho]). exists before, s', tgts.
    constructor; [done|done|exact Hb| |exact (only_after _ _ _ _ _ _ P2 Ho)].
    destruct Hcut as [cs' w0 k H1 H2 H3 H4|b0 e0 [b1 t1 a1 c1 E1 H1 H2 H3 H4]]; [by eapply cut_source|].
    eapply cut_target, stopped_at; [done..|exact H4].
  - intros n c' Hc'. destruct (U3 n c' Hc') as [U1 U2]. constructor; [exact U1|exact U2].
Qed.

(** C7. One cluster that does not answer stops the reconcile of the mesh. Let the
    environment be calm but for the clusters that are not [up], which refuse to list
    their peers (and perhaps their nodes), and let one of them be a target of the
    mesh. Then the reconcile ends with an error and no requeue delay. It has served
    the sources before some source [s], and of [s] the targets before the one that
    refused; the peers of all other pairs, and those of removed clusters and dead
    meshes, are exactly as before, although their clusters answer. *)
Theorem reconcile_stops_at_outage (up : C -> Prop) (up_dec : forall c, Decision (up c)) refusal nodes living I ns name mesh w w1 :
  calm_on (up := up) nodes living I -> refuses refusal (up := up) I -> I w ->
  GetMesh ns name w = (Ok mesh, w1) -> mesh_Deleting mesh = false -> ContainsFinalizer mesh = true ->
  (forall items w2, ListMeshes (Some (mesh_Namespace mesh)) w1 = (Ok items, w2) -> ValidateMeshNetworks items = None) ->
  mesh_Name mesh ∈ living ->
  (forall s, s ∈ mesh_Clusters mesh -> 0 <= entry_WireguardPort s < 65536) ->
  distinct_peers registry mesh nodes ->
  (forall n c, Client registry n = Some c -> unclaimed registry mesh nodes c w) ->
  blocked mesh up ->
  let r := reconcile registry message ns name w in
  exists e before s tgts,
    selectResult r.1.1 r.1.2 = (0, Some e) /\
    broken_off registry mesh nodes (up := up) refusal I (mesh_Clusters mesh) w r.2 e before s tgts.
Proof.
  intros HI HR Hw Eg Hdel Hfin Hval Hm Hport HD Hu Hb r.
  destruct (reconcile_outage refusal nodes living I ns name mesh w w1 HI HR Hw Eg Hdel Hfin Hval Hm Hport HD Hu Hb)
    as (e & E & (before & s & tgts & HB) & _).
  exists e, before, s, tgts. subst r. by rewrite E.
Qed.

End Whole.
