(* ===== verification/Fleet.v ===== *)
(** * Several meshes

    The operator serves all ClusterMesh resources with one worker: their reconciles
    follow one another, in whatever order the work queue hands them out. This file
    composes the single-mesh result of [Convergence]: the reconcile of one mesh
    neither undoes what another has reached nor takes the names and keys it needs,
    so that after any schedule every mesh that was served has converged. *)

From Stdlib Require Import String.
From S2P Require Import Prelude GoStrings GoNet Types Kilonode ValidationMesh ValidationNode Naming Builder.
From S2P Require Import Kube PeerReconciler Registry Controller Convergence Retry.
Open Scope Z_scope.
Open Scope go_scope.

Section Fleet.
Context {C W : Type} {api : PeerAPI C W} {laws : PeerAPILaws C W}.
Context {capi : ControllerAPI C W} {claws : ControllerLaws C W} {C_eq : EqDecision C}.
Context (registry : ClusterRegistry C) (message : mesh_error -> string).
Context (nodes : C -> list Node) (living : list string) (meshes : list ClusterMesh).

(** All peers the meshes ask for, each with its mesh and source cluster. *)
Definition fleet_peers : list (ClusterMesh * ClusterEntry * Peer) :=
  meshes ≫= fun m => mesh_Clusters m ≫= fun s => (fun d => (m, s, d)) <$> desired_of registry m nodes s.

Definition tag_name (x : ClusterMesh * ClusterEntry * Peer) : string := peer_Name x.2.
Definition tag_key (x : ClusterMesh * ClusterEntry * Peer) : string := spec_PublicKey (peer_Spec x.2).

(** The meshes exist, are valid, and keep to themselves: no two have the same name,
    and no two peers of theirs the same name or public key. *)
Record fleet (I : W -> Prop) : Prop := {
  fl_calm : calm nodes living I;
  fl_get : forall m w, m ∈ meshes -> I w ->
    exists m', (GetMesh (mesh_Namespace m) (mesh_Name m) w).1 = Ok m' /\ live m m';
  fl_status : forall m m' w, m ∈ meshes -> live m m' -> I w -> I (UpdateMeshStatus m' w).2;
  fl_valid : forall m w items, m ∈ meshes -> I w ->
    (ListMeshes (Some (mesh_Namespace m)) w).1 = Ok items -> ValidateMeshNetworks items = None;
  fl_living : forall m, m ∈ meshes -> mesh_Name m ∈ living;
  fl_ports : forall m s, m ∈ meshes -> s ∈ mesh_Clusters m -> 0 <= entry_WireguardPort s < 65536;
  fl_meshes : NoDup (mesh_Name <$> meshes);
  fl_clusters : forall m, m ∈ meshes -> NoDup (entry_Name <$> mesh_Clusters m);
  fl_names : NoDup (tag_name <$> fleet_peers);
  fl_keys : NoDup (tag_key <$> fleet_peers);
}.

(** One reconcile after the other. *)
Fixpoint serve (schedule : list ClusterMesh) (w : W) : W :=
  match schedule with
  | [] => w
  | m :: schedule' => serve schedule' (reconcile registry message (mesh_Namespace m) (mesh_Name m) w).2
  end.

(** *** Names and keys of the fleet *)

Lemma fleet_peers_elem m s d :
  (m, s, d) ∈ fleet_peers <-> m ∈ meshes /\ s ∈ mesh_Clusters m /\ d ∈ desired_of registry m nodes s.
Proof.
  unfold fleet_peers. rewrite list_elem_of_bind. setoid_rewrite list_elem_of_bind.
  setoid_rewrite list_elem_of_fmap. naive_solver.
Qed.

Section Distinct.
Context (Hnames : NoDup (tag_name <$> fleet_peers)) (Hkeys : NoDup (tag_key <$> fleet_peers)).

Lemma same_name_same_peer m m' s s' d d' :
  (m, s, d) ∈ fleet_peers -> (m', s', d') ∈ fleet_peers -> peer_Name d = peer_Name d' -> (m, s, d) = (m', s', d').
Proof. by apply (NoDup_fmap_inj tag_name). Qed.

Lemma same_key_same_peer m m' s s' d d' :
  (m, s, d) ∈ fleet_peers -> (m', s', d') ∈ fleet_peers ->
  spec_PublicKey (peer_Spec d) = spec_PublicKey (peer_Spec d') -> (m, s, d) = (m', s', d').
Proof. by apply (NoDup_fmap_inj tag_key). Qed.

Lemma fleet_distinct m :
  m ∈ meshes -> NoDup (entry_Name <$> mesh_Clusters m) -> distinct_peers registry m nodes.
Proof.
  intros Hm Hcl. constructor.
  - done.
  - intros s Hs. pose proof Hnames as Hnd. unfold fleet_peers in Hnd.
    eapply NoDup_fmap_bind_part in Hnd; [|exact Hm]. eapply NoDup_fmap_bind_part in Hnd; [|exact Hs].
    by rewrite <- list_fmap_compose in Hnd.
  - intros s s' d d' Hs Hs' Hd Hd' E. assert ((m, s, d) = (m, s', d')) as [= -> _]; [|done].
    by apply same_name_same_peer; [apply fleet_peers_elem..|].
  - intros s s' d d' Hs Hs' Hd Hd' E. assert ((m, s, d) = (m, s', d')) as [= _ ->]; [|done].
    by apply same_key_same_peer; [apply fleet_peers_elem..|].
Qed.

End Distinct.

Context (I : W -> Prop) (HF : fleet I).
Context (Hinj : forall n n' c, Client registry n = Some c -> Client registry n' = Some c -> n = n').

(** *** One reconcile *)

(** Every mesh can still have its names and keys. *)
Definition fleet_settled (w : W) : Prop :=
  I w /\ forall m n c, m ∈ meshes -> Client registry n = Some c -> unclaimed registry m nodes c w.

Lemma fleet_unclaimed m m' c w w' :
  m ∈ meshes -> m' ∈ meshes -> moved registry m nodes living w w' ->
  unclaimed registry m' nodes c w -> unclaimed registry m' nodes c w'.
Proof.
  intros Hm Hm'. apply moved_unclaimed; intros s s' d d' Hs Hs' Hd Hd' E.
  - assert ((m, s, d) = (m', s', d')) as [= _ _ ->]; [|done].
    by apply same_key_same_peer; [apply (fl_keys I HF)|apply fleet_peers_elem..|].
  - assert ((m, s, d) = (m', s', d')) as [= -> -> _]; [|done].
    by apply same_name_same_peer; [apply (fl_names I HF)|apply fleet_peers_elem..|].
Qed.

(** The peers of a living mesh are only touched by its own reconciles. *)
Lemma moved_converged m m' w w' :
  m' ∈ meshes -> mesh_Name m' <> mesh_Name m -> moved registry m nodes living w w' ->
  mesh_converged registry m' nodes w -> mesh_converged registry m' nodes w'.
Proof.
  intros Hm' Hne [HM _] [HR HS].
  assert (Hown : forall c y p, peer_Labels p !! LabelMesh = Some (mesh_Name m') ->
    peers c w' !! y = Some p <-> peers c w !! y = Some p).
  { intros c y p Hl. apply HM; [congruence|]. unfold ghost. rewrite Hl. cbn. intros [_ Hg]. by apply Hg, (fl_living I HF). }
  split.
  - intros s t cs c Hs Ht Hst Hcs Hc. destruct (HR s t cs c Hs Ht Hst Hcs Hc) as [C1 C2]. split.
    + intros d (q & Hq & He & Hl)%C1. exists q. split; [|done]. apply Hown; [|done]. by eapply selected_mesh.
    + intros y p Hp Hl. apply (C2 y p); [|done]. apply Hown; [by eapply selected_mesh|done].
  - intros n c Hc y p Hp Hl. apply (HS n c Hc y p); [by apply Hown|done].
Qed.

Lemma moved_live m m' w w' : live m m' -> moved registry m' nodes living w w' -> moved registry m nodes living w w'.
Proof. destruct m, m'. intros [E1 E2 E3 _ _]. simpl in *. subst. intros [M1 M2]. by constructor. Qed.

Lemma fleet_step m w :
  m ∈ meshes -> fleet_settled w ->
  let w' := (reconcile registry message (mesh_Namespace m) (mesh_Name m) w).2 in
  fleet_settled w' /\ mesh_converged registry m nodes w' /\ ghost_free registry living w' /\
  forall m', m' ∈ meshes -> mesh_converged registry m' nodes w -> mesh_converged registry m' nodes w'.
Proof.
  intros Hm [Hw Hu] w'. pose proof (fl_calm I HF) as HI.
  destruct (fl_get I HF m w Hm Hw) as (m1 & Eg & Hl). pose proof (calm_GetMesh _ _ _ HI (mesh_Namespace m) (mesh_Name m) w Hw) as I1.
  destruct (GetMesh (mesh_Namespace m) (mesh_Name m) w) as [r w1] eqn:E. cbn [fst snd] in *. subst r.
  destruct (reconcile_calm registry message nodes living I (mesh_Namespace m) (mesh_Name m) m1 w w1 HI (fun _ _ _ => Logic.I) Hw E)
    as (HC & HG & _ & _ & _ & HM & m5 & w4 & I4 & E4 & F1 & F2 & F3 & F4 & F5).
  - by apply (live_deleting m m1).
  - by apply (live_finalizer m m1).
  - intros items w2 EL. rewrite (live_namespace m m1 Hl) in EL. apply (fl_valid I HF m w1); [done..|by rewrite EL].
  - rewrite (live_name m m1 Hl). by apply (fl_living I HF).
  - intros s. rewrite (live_clusters m m1 Hl). by apply (fl_ports I HF).
  - done.
  - apply (distinct_live registry m nodes m1 Hl), fleet_distinct; [apply (fl_names I HF)|apply (fl_keys I HF)|done|].
    by apply (fl_clusters I HF).
  - intros n c Hc. apply (unclaimed_live registry m nodes m1 c w Hl). by eapply Hu.
  - fold w' in HC, HG, HM, E4. apply (moved_live m m1 _ _ Hl) in HM. apply (converged_live registry m nodes m1 _ Hl) in HC.
    split; [split|split; [done|split; [done|]]].
    + rewrite E4. apply (fl_status I HF m); [done| |done]. destruct Hl as [L1 L2 L3 L4 L5].
      constructor; [congruence..|]. unfold ContainsFinalizer in *. by rewrite F5.
    + intros m' n c Hm' Hc. eapply (fleet_unclaimed m); [done..|by eapply Hu].
    + intros m' Hm' HC'. destruct (decide (mesh_Name m' = mesh_Name m)) as [En|Hne].
      * by rewrite (NoDup_fmap_inj mesh_Name meshes m' m (fl_meshes I HF) Hm' Hm En).
      * by eapply moved_converged.
Qed.

Lemma serve_calm schedule w :
  (forall m, m ∈ schedule -> m ∈ meshes) -> fleet_settled w ->
  fleet_settled (serve schedule w) /\
  forall m, m ∈ meshes -> m ∈ schedule \/ mesh_converged registry m nodes w ->
    mesh_converged registry m nodes (serve schedule w).
Proof.
  revert w; induction schedule as [|m schedule IH]; intros w Hs Hw; cbn [serve].
  { split; [done|]. by intros m _ [?%not_elem_of_nil|?]. }
  destruct (fleet_step m w (Hs m ltac:(left)) Hw) as (Hw1 & HC & _ & HK). cbn zeta in *.
  destruct (IH _ ltac:(intros m' ?; apply Hs; by right) Hw1) as [HW Hall]. split; [done|].
  intros m' Hm' [[->|Hin]%elem_of_cons|Hc]; apply Hall; auto.
Qed.

End Fleet.

Section Served.
Context {C W : Type} {api : PeerAPI C W} {laws : PeerAPILaws C W}.
Context {capi : ControllerAPI C W} {claws : ControllerLaws C W} {C_eq : EqDecision C}.
Context (registry : ClusterRegistry C) (message : mesh_error -> string).

(** C6. Meshes do not disturb each other. For live, valid meshes of different names
    whose peers share no name and no key, in a calm environment, serve reconciles in
    any order and any number: every mesh that was served at least once, or had
    converged before, has converged at the end, whatever was served after it. *)
Theorem fleet_converges nodes living meshes I schedule w :
  fleet registry nodes living meshes I ->
  (forall n n' c, Client registry n = Some c -> Client registry n' = Some c -> n = n') ->
  I w -> (forall m n c, m ∈ meshes -> Client registry n = Some c -> unclaimed registry m nodes c w) ->
  (forall m, m ∈ schedule -> m ∈ meshes) ->
  forall m, m ∈ meshes -> m ∈ schedule \/ mesh_converged registry m nodes w ->
    mesh_converged registry m nodes (serve registry message schedule w).
Proof.
  intros HF Hinj Hw Hu Hs. by apply (serve_calm registry message nodes living meshes I HF Hinj schedule w).
Qed.

(** Two meshes of one name, one of which has a source the other lacks, cannot both
    have converged: the sweep of the second takes the peers of the first for stale. *)
Lemma same_name_incompatible nodes m m' s t cs c w :
  mesh_Name m = mesh_Name m' ->
  s ∈ mesh_Clusters m -> t ∈ mesh_Clusters m -> entry_Name t <> entry_Name s ->
  Client registry (entry_Name s) = Some cs -> Client registry (entry_Name t) = Some c ->
  desired_of registry m nodes s <> [] -> entry_Name s ∉ (entry_Name <$> mesh_Clusters m') ->
  mesh_converged registry m nodes w -> mesh_converged registry m' nodes w -> False.
Proof.
  intros En Hs Ht Hne Hcs Hc Hd Hnot [HR _] [_ HS]. destruct (HR s t cs c Hs Ht Hne Hcs Hc) as [C1 _].
  assert (Hw : wanted registry m nodes c s <> []).
  { intros E. apply Hd. apply (fmap_nil_inv peer_Name). by rewrite <- (wanted_names registry m nodes c s), E. }
  destruct (wanted registry m nodes c s) as [|d ds]; [done|]. destruct (C1 d ltac:(left)) as (q & Hq & _ & Hl).
  unfold OrphanSelector in Hl. apply bool_decide_eq_true in Hl as [Hm Hsrc].
  destruct (HS (entry_Name t) c Hc (peer_Name d) q Hq) as [_ Hin]; [congruence|]. by rewrite Hsrc in Hin.
Qed.

(** C38. Meshes of the same name in two namespaces never settle: peers carry the name
    of their mesh only. When one has a source with valid nodes that the other lacks,
    then in a calm environment the reconcile of the other, which reports no error but
    possibly that of the status update, always leaves the first unconverged. *)
Theorem same_name_meshes_never_settle nodes living I ns name m m' s t cs c w w1 :
  calm nodes living I -> I w ->
  GetMesh ns name w = (Ok m', w1) -> mesh_Deleting m' = false -> ContainsFinalizer m' = true ->
  (forall items w2, ListMeshes (Some (mesh_Namespace m')) w1 = (Ok items, w2) -> ValidateMeshNetworks items = None) ->
  mesh_Name m' ∈ living ->
  (forall s, s ∈ mesh_Clusters m' -> 0 <= entry_WireguardPort s < 65536) ->
  (forall n n' c, Client registry n = Some c -> Client registry n' = Some c -> n = n') ->
  distinct_peers registry m' nodes ->
  (forall n c, Client registry n = Some c -> unclaimed registry m' nodes c w) ->
  mesh_Name m = mesh_Name m' -> s ∈ mesh_Clusters m -> t ∈ mesh_Clusters m -> entry_Name t <> entry_Name s ->
  Client registry (entry_Name s) = Some cs -> Client registry (entry_Name t) = Some c ->
  desired_of registry m nodes s <> [] -> entry_Name s ∉ (entry_Name <$> mesh_Clusters m') ->
  let r := reconcile registry message ns name w in
  ~ mesh_converged registry m nodes r.2 /\ (r.1.2 = None \/ exists e, r.1.2 = Some (UpdatingStatus e)).
Proof.
  intros HI Hw Eg Hdel Hfin Hval Hliv Hport Hinj HD Hu En Hs Ht Hne Hcs Hc Hd Hnot r.
  destruct (reconcile_calm registry message nodes living I ns name m' w w1 HI (fun _ _ _ => Logic.I) Hw Eg)
    as (HC & _ & HE & _); [done..|].
  split; [|done]. intros HC'. by apply (same_name_incompatible nodes m m' s t cs c r.2).
Qed.

End Served.

(** ** Two meshes over four clusters *)

Module Pair.
Import Controller.Scenario.

Definition d : ClusterEntry := entry "d" "4".
Definition first : ClusterMesh := mesh "ns" [a; b].
Definition second : ClusterMesh := mkClusterMesh "ns" "m2" 1 false [finalizerName] [c; d] [] [].
Definition all : list ClusterMesh := [first; second].

Definition nodes4 : gmap string (list Node) := <["d" := [node "nd" "4"]]> nodes.
Definition registry4 : ClusterRegistry string := mkRegistry {["a" := "a"; "b" := "b"; "c" := "c"; "d" := "d"]} "a".
Definition start4 : Memory.world := Memory.mkWorld ∅ [] 1 nodes4 all.

(** The stored resources are the two meshes, with any status. *)
Definition variants (ms : list ClusterMesh) : Prop := Forall2 live all ms.
Definition running : Memory.world -> Prop := MemoryCalm.holding nodes4 variants.

Lemma variants_inv ms :
  variants ms -> exists m1 m2, ms = [m1; m2] /\ live first m1 /\ live second m2.
Proof. intros (m1 & ms1 & H1 & (m2 & ms2 & H2 & Hn%Forall2_nil_inv_l & ->)%Forall2_cons_inv_l & ->)%Forall2_cons_inv_l. subst. eauto. Qed.

Lemma variants_names ms : variants ms -> mesh_Name <$> ms = mesh_Name <$> all.
Proof. intros (m1 & m2 & -> & H1 & H2)%variants_inv. cbn. by rewrite (live_name _ _ H1), (live_name _ _ H2). Qed.

Lemma running_fleet : fleet registry4 (MemoryCalm.nodes_in nodes4) (mesh_Name <$> all) all running.
Proof.
  constructor.
  - apply MemoryCalm.holding_calm, variants_names.
  - intros m w Hm (_ & _ & (m1 & m2 & E & H1 & H2)%variants_inv). simpl. rewrite E. cbn [List.find].
    rewrite (live_namespace _ _ H1), (live_name _ _ H1), (live_namespace _ _ H2), (live_name _ _ H2).
    apply elem_of_cons in Hm as [->|[->|[]%not_elem_of_nil]%elem_of_cons]; [by exists m1|by exists m2].
  - intros m m' w Hm Hl (Hok & Hn & (m1 & m2 & E & H1 & H2)%variants_inv). split; [|split; [done|]].
    { by apply (MemoryController.quiet_meshes w). }
    simpl. rewrite E. unfold MemoryController.replace, MemoryController.same_mesh. cbn [fmap list_fmap].
    rewrite (live_namespace _ _ H1), (live_name _ _ H1), (live_namespace _ _ H2), (live_name _ _ H2),
      (live_namespace _ _ Hl), (live_name _ _ Hl).
    by apply elem_of_cons in Hm as [->|[->|[]%not_elem_of_nil]%elem_of_cons];
      (apply Forall2_cons; [done|]; apply Forall2_cons; [done|]; apply Forall2_nil).
  - intros m w items Hm (_ & _ & (m1 & m2 & E & H1 & H2)%variants_inv). simpl. rewrite E.
    destruct m1, m2, H1 as [E1 E2 E3 _ _], H2 as [F1 F2 F3 _ _]. simpl in *. subst.
    by apply elem_of_cons in Hm as [->|[->|[]%not_elem_of_nil]%elem_of_cons]; intros [= <-]; vm_compute.
  - intros m Hm. by apply list_elem_of_fmap_2.
  - intros m s [->|[->|[]%not_elem_of_nil]%elem_of_cons]%elem_of_cons
      [->|[->|[]%not_elem_of_nil]%elem_of_cons]%elem_of_cons; cbn; lia.
  - apply (bool_decide_unpack _). by vm_compute.
  - intros m [->|[->|[]%not_elem_of_nil]%elem_of_cons]%elem_of_cons; apply (bool_decide_unpack _); by vm_compute.
  - apply (bool_decide_unpack _). by vm_compute.
  - apply (bool_decide_unpack _). by vm_compute.
Qed.

Lemma start4_ok : Memory.ok start4.
Proof. destruct (Controller.Witness.mesh_start_ok all) as [H1 H2 H3]. by constructor. Qed.

Lemma registry4_injective n n' c :
  Client registry4 n = Some c -> Client registry4 n' = Some c -> n = n'.
Proof.
  assert (H : forall m c, Client registry4 m = Some c -> m = c); [|intros H1%H H2%H; congruence].
  intros m x. unfold Client, registry4. cbn [reg_clusters]. destruct (_ !! m) as [e|] eqn:E; [|done]. intros [= ->].
  by repeat (apply lookup_insert_Some in E as [[<- <-]|[_ E]]; [done|]); apply lookup_singleton_Some in E as [<- <-].
Qed.

End Pair.

(** Serving the second mesh after the first, twice, leaves the first converged. *)
Lemma fleet_converges_witness :
  mesh_converged Pair.registry4 Pair.first (MemoryCalm.nodes_in Pair.nodes4)
    (serve Pair.registry4 (fun _ => "overlap") [Pair.first; Pair.second; Pair.second] Pair.start4).
Proof.
  apply (fleet_converges Pair.registry4 (fun _ => "overlap") (MemoryCalm.nodes_in Pair.nodes4) (mesh_Name <$> Pair.all)
    Pair.all Pair.running [Pair.first; Pair.second; Pair.second] Pair.start4).
  - exact Pair.running_fleet.
  - exact Pair.registry4_injective.
  - split; [|split; [reflexivity|]].
    + exact Pair.start4_ok.
    + repeat constructor.
  - intros m n c _ _. assert (E : peers c Pair.start4 = ∅) by reflexivity.
    constructor; intros *; rewrite E, lookup_empty; discriminate.
  - intros m [->|[->|[->|[]%not_elem_of_nil]%elem_of_cons]%elem_of_cons]%elem_of_cons; [left|right; left|right; left].
  - left.
  - left. left.
Defined.

(** Tenant 2 meshes a and c under the name tenant 1 uses for a and b: its reconcile
    undoes a converged mesh. *)
Module Tenants.
Import Controller.Scenario.

Definition one : ClusterMesh := mesh "tenant-1" [a; b].
Definition two : ClusterMesh := mesh "tenant-2" [a; c].

Lemma tenants_distinct : distinct_peers everywhere two (MemoryCalm.nodes_in nodes).
Proof.
  apply (fleet_distinct everywhere (MemoryCalm.nodes_in nodes) [two]); [..|left|]; apply (bool_decide_unpack _); by vm_compute.
Qed.

End Tenants.

Lemma same_name_meshes_never_settle_witness :
  ~ mesh_converged Controller.Scenario.everywhere Tenants.one (MemoryCalm.nodes_in Controller.Scenario.nodes)
      (Controller.Scenario.run Controller.Scenario.everywhere "tenant-2" (Controller.Scenario.start [Tenants.one; Tenants.two])).2.
Proof.
  apply (same_name_meshes_never_settle Controller.Scenario.everywhere (fun _ => "overlap") (MemoryCalm.nodes_in Controller.Scenario.nodes)
    ["m"; "m"] (MemoryCalm.steady Controller.Scenario.nodes [Tenants.one; Tenants.two]) "tenant-2" "m" Tenants.one Tenants.two
    Controller.Scenario.b Controller.Scenario.a "b" "a"
    (Controller.Scenario.start [Tenants.one; Tenants.two]) (Controller.Scenario.start [Tenants.one; Tenants.two])).
  - exact (MemoryCalm.memory_calm Controller.Scenario.nodes [Tenants.one; Tenants.two]).
  - split; [apply Controller.Witness.mesh_start_ok|split; reflexivity].
  - reflexivity.
  - reflexivity.
  - reflexivity.
  - intros items w2 [= <- _]. vm_compute. reflexivity.
  - left.
  - intros s [->|[->|[]%not_elem_of_nil]%elem_of_cons]%elem_of_cons; cbn; lia.
  - exact Convergence.Witness.everywhere_injective.
  - exact Tenants.tenants_distinct.
  - intros n c _. assert (E : peers c (Controller.Scenario.start [Tenants.one; Tenants.two]) = ∅) by reflexivity.
    constructor; intros *; rewrite E, lookup_empty; discriminate.
  - reflexivity.
  - right. left.
  - left.
  - discriminate.
  - reflexivity.
  - reflexivity.
  - vm_compute. discriminate.
  - apply (bool_decide_unpack _). vm_compute. reflexivity.
Defined.
