(* ===== verification/Churn.v ===== *)
(** * A mesh that changes

    Over its life a mesh gains and loses clusters, its clusters gain and lose nodes,
    and people delete peers. A [config] is what the mesh and the nodes are like for a
    while. Each reconcile runs on the configuration of its moment; this file shows
    that whatever came before, the last one leaves what the last configuration asks
    for, and nothing of the earlier ones. *)

From Stdlib Require Import String.
From S2P Require Import Prelude GoStrings GoNet Types Kilonode ValidationMesh ValidationNode Naming Builder.
From S2P Require Import Kube PeerReconciler Registry Controller Convergence Retry Fleet.
Open Scope Z_scope.
Open Scope go_scope.

Record config (C : Type) : Type := mkConfig {
  cfg_mesh : ClusterMesh;
  cfg_nodes : C -> list Node;
  cfg_living : list string;
}.
Arguments mkConfig {_}.
Arguments cfg_mesh {_}.
Arguments cfg_nodes {_}.
Arguments cfg_living {_}.

Section Churn.
Context {C W : Type} {api : PeerAPI C W} {laws : PeerAPILaws C W}.
Context {capi : ControllerAPI C W} {claws : ControllerLaws C W} {C_eq : EqDecision C}.
Context (registry : ClusterRegistry C) (message : mesh_error -> string).
Context (ns name : string) (configs : list (config C)).

(** The peers of a configuration, by source. *)
Abbreviation asks k s := (desired_of registry (cfg_mesh k) (cfg_nodes k) s).
Abbreviation claims k w := (forall n c, Client registry n = Some c -> unclaimed registry (cfg_mesh k) (cfg_nodes k) c w).

(** In each configuration the mesh is live and valid and the environment calm. Over
    all of them, a public key stays with its node: peers with the same key have the
    same name, and peers with the same name are of the same source. *)
Record churn (I : config C -> W -> Prop) : Prop := {
  ch_calm : forall k, k ∈ configs -> calm (cfg_nodes k) (cfg_living k) (I k);
  ch_named : forall k, k ∈ configs -> mesh_Namespace (cfg_mesh k) = ns /\ mesh_Name (cfg_mesh k) = name;
  ch_get : forall k w, k ∈ configs -> I k w -> exists m, (GetMesh ns name w).1 = Ok m /\ live (cfg_mesh k) m;
  ch_valid : forall k w items, k ∈ configs -> I k w -> (ListMeshes (Some ns) w).1 = Ok items -> ValidateMeshNetworks items = None;
  ch_living : forall k, k ∈ configs -> name ∈ cfg_living k;
  ch_ports : forall k s, k ∈ configs -> s ∈ mesh_Clusters (cfg_mesh k) -> 0 <= entry_WireguardPort s < 65536;
  ch_distinct : forall k, k ∈ configs -> distinct_peers registry (cfg_mesh k) (cfg_nodes k);
  ch_keys : forall k k' s s' d d', k ∈ configs -> k' ∈ configs ->
    s ∈ mesh_Clusters (cfg_mesh k) -> s' ∈ mesh_Clusters (cfg_mesh k') -> d ∈ asks k s -> d' ∈ asks k' s' ->
    spec_PublicKey (peer_Spec d) = spec_PublicKey (peer_Spec d') -> peer_Name d = peer_Name d';
  ch_names : forall k k' s s' d d', k ∈ configs -> k' ∈ configs ->
    s ∈ mesh_Clusters (cfg_mesh k) -> s' ∈ mesh_Clusters (cfg_mesh k') -> d ∈ asks k s -> d' ∈ asks k' s' ->
    peer_Name d = peer_Name d' -> entry_Name s = entry_Name s';
}.

(** Between two reconciles anything may happen that does not take a name or a key
    the mesh needs in one of its configurations: nodes and specification change,
    peers are deleted, others write theirs. *)
Definition disturbed (w w' : W) : Prop := forall k, k ∈ configs -> claims k w -> claims k w'.

Inductive life (I : config C -> W -> Prop) : list (config C) -> W -> W -> Prop :=
| life_nil w : life I [] w w
| life_step k ks w w1 w' :
    k ∈ configs -> disturbed w w1 -> I k w1 ->
    life I ks (reconcile registry message ns name w1).2 w' -> life I (k :: ks) w w'.

Context (I : config C -> W -> Prop) (HC : churn I).
Context (Hinj : forall n n' c, Client registry n = Some c -> Client registry n' = Some c -> n = n').

Lemma churn_step k w :
  k ∈ configs -> I k w -> (forall k', k' ∈ configs -> claims k' w) ->
  let w' := (reconcile registry message ns name w).2 in
  mesh_converged registry (cfg_mesh k) (cfg_nodes k) w' /\ ghost_free registry (cfg_living k) w' /\
  world_ok w' /\ forall k', k' ∈ configs -> claims k' w'.
Proof.
  intros Hk Hw Hu w'. pose proof (ch_calm I HC k Hk) as HI. destruct (ch_named I HC k Hk) as [En Em].
  destruct (ch_get I HC k w Hk Hw) as (m & Eg & Hl). pose proof (calm_GetMesh _ _ _ HI ns name w Hw) as I1.
  destruct (GetMesh ns name w) as [r w1] eqn:E. cbn [fst snd] in *. subst r.
  destruct (reconcile_calm registry message (cfg_nodes k) (cfg_living k) (I k) ns name m w w1 HI (fun _ _ _ => Logic.I) Hw E)
    as (HM & HG & _ & _ & HO & HV & _).
  - by apply (live_deleting (cfg_mesh k) m).
  - by apply (live_finalizer (cfg_mesh k) m).
  - intros items w2 EL. rewrite (live_namespace _ m Hl), En in EL. apply (ch_valid I HC k w1); [done..|by rewrite EL].
  - rewrite (live_name _ m Hl), Em. by apply (ch_living I HC).
  - intros s. rewrite (live_clusters _ m Hl). by apply (ch_ports I HC).
  - done.
  - apply (distinct_live registry (cfg_mesh k) (cfg_nodes k) m Hl). by apply (ch_distinct I HC).
  - intros n c Hc. apply (unclaimed_live registry (cfg_mesh k) (cfg_nodes k) m c w Hl). by eapply Hu.
  - fold w' in HM, HG, HV. split; [by apply (converged_live registry (cfg_mesh k) (cfg_nodes k) m)|]. do 2 (split; [done|]).
    intros k' Hk' n c Hc. destruct (ch_named I HC k' Hk') as [_ Em'].
    assert (HV' : moved registry (cfg_mesh k) (cfg_nodes k) (cfg_living k) w w').
    { destruct m, (cfg_mesh k), Hl as [E1 E2 E3 _ _]. simpl in *. subst. destruct HV as [M1 M2]. by constructor. }
    eapply moved_unclaimed; [| |exact HV'|by eapply Hu].
    + intros s s' d d'. by apply (ch_keys I HC).
    + intros s s' d d' Hs Hs' Hd Hd' Ed. split; [congruence|]. by eapply (ch_names I HC k k').
Qed.

Lemma life_converges ks w w' :
  life I ks w w' -> (forall k, k ∈ configs -> claims k w) ->
  (forall k, k ∈ configs -> claims k w') /\
  forall k, list.last ks = Some k -> mesh_converged registry (cfg_mesh k) (cfg_nodes k) w' /\ ghost_free registry (cfg_living k) w'.
Proof.
  induction 1 as [w|k ks w w1 w' Hk Hd Hw HL IH]; intros Hu; [done|].
  destruct (churn_step k w1 Hk Hw) as (HM & HG & _ & HU); [by intros k' Hk'; apply Hd, Hu|].
  destruct (IH HU) as [HU' Hlast]. split; [done|]. intros k' Ek.
  destruct ks as [|k2 ks]; [|by apply Hlast]. injection Ek as <-. by inversion HL; subst.
Qed.

End Churn.

Section Result.
Context {C W : Type} {api : PeerAPI C W} {laws : PeerAPILaws C W}.
Context {capi : ControllerAPI C W} {claws : ControllerLaws C W} {C_eq : EqDecision C}.

(** C5. The mesh follows its configuration. Let the specification of the mesh and the
    nodes of its clusters change any number of times, with a reconcile after each
    change and with other people deleting or writing peers in between, as long as keys
    stay with their nodes and nobody takes a name or key the mesh needs. Then the last
    reconcile leaves exactly the peers of the last configuration: those of nodes and
    clusters that have gone are removed. *)
Theorem churn_converges (registry : ClusterRegistry C) message ns name configs I ks k (w w' : W) :
  churn registry ns name configs I ->
  (forall n n' c, Client registry n = Some c -> Client registry n' = Some c -> n = n') ->
  life registry message ns name configs I (ks ++ [k]) w w' ->
  (forall k n c, k ∈ configs -> Client registry n = Some c -> unclaimed registry (cfg_mesh k) (cfg_nodes k) c w) ->
  mesh_converged registry (cfg_mesh k) (cfg_nodes k) w' /\ ghost_free registry (cfg_living k) w'.
Proof.
  intros HC Hinj HL Hu.
  destruct (life_converges registry message ns name configs I HC Hinj _ w w' HL) as [_ H]; [by intros; eapply Hu|].
  apply H. by rewrite last_snoc.
Qed.

End Result.

(** ** A node joins, then a cluster leaves and another joins *)

Module Changing.
Import Controller.Scenario.

Definition nb2 : Node :=
  mkNode "nb2" (<[AnnotationWireguardIP := "100.2.0.2/16"]> {[AnnotationPublicKey := "key-nb2"]})
         ["10.2.2.0/24"] [mkNodeAddress NodeExternalIP "192.0.2.12"].
Definition more_nodes : gmap string (list Node) := <["b" := [node "nb" "2"; nb2]]> nodes.

Definition config_of (clusters : list ClusterEntry) (ns : gmap string (list Node)) : config string :=
  mkConfig (mesh "ns" clusters) (MemoryCalm.nodes_in ns) ["m"].
Definition k1 : config string := config_of [a; b] nodes.
Definition k2 : config string := config_of [a; b] more_nodes.
Definition k3 : config string := config_of [a; c] more_nodes.
Definition configs : list (config string) := [k1; k2; k3].

(** The nodes of a configuration, as the server stores them. *)
Definition nodes_of (k : config string) : gmap string (list Node) :=
  if (length (cfg_nodes k "b") =? 1)%nat then nodes else more_nodes.

Definition present (k : config string) : Memory.world -> Prop :=
  MemoryCalm.holding (nodes_of k) (fun ms => exists x, ms = [x] /\ live (cfg_mesh k) x).

(** All peers that are asked for at some time. *)
Definition asked : list (config string * ClusterEntry * Peer) :=
  configs ≫= fun k => mesh_Clusters (cfg_mesh k) ≫= fun s =>
    (fun d => (k, s, d)) <$> desired_of everywhere (cfg_mesh k) (cfg_nodes k) s.

(** What has to be compared of them. *)
Definition facets : list (string * string * string) :=
  (fun x => (spec_PublicKey (peer_Spec x.2), peer_Name x.2, entry_Name x.1.2)) <$> asked.

Lemma asked_elem k s d :
  k ∈ configs -> s ∈ mesh_Clusters (cfg_mesh k) -> d ∈ desired_of everywhere (cfg_mesh k) (cfg_nodes k) s ->
  (spec_PublicKey (peer_Spec d), peer_Name d, entry_Name s) ∈ facets.
Proof.
  intros Hk Hs Hd. unfold facets, asked. apply list_elem_of_fmap. exists (k, s, d). split; [done|].
  apply list_elem_of_bind. exists k. split; [|done]. apply list_elem_of_bind. exists s. split; [|done].
  by apply list_elem_of_fmap_2.
Qed.

Lemma facets_agree :
  Forall (fun x => Forall (fun y => (x.1.1 = y.1.1 -> x.1.2 = y.1.2) /\ (x.1.2 = y.1.2 -> x.2 = y.2)) facets) facets.
Proof. apply (bool_decide_unpack _). by vm_compute. Qed.

Lemma agree x y : x ∈ facets -> y ∈ facets -> (x.1.1 = y.1.1 -> x.1.2 = y.1.2) /\ (x.1.2 = y.1.2 -> x.2 = y.2).
Proof. intros Hx Hy. pose proof (proj1 (Forall_elem _ _) facets_agree x Hx) as H. by apply (proj1 (Forall_elem _ _) H). Qed.

Lemma config_distinct k : k ∈ configs -> distinct_peers everywhere (cfg_mesh k) (cfg_nodes k).
Proof.
  intros Hk. apply (fleet_distinct everywhere (cfg_nodes k) [cfg_mesh k]); [..|left|];
    (apply elem_of_cons in Hk as [->|[->|[->|[]%not_elem_of_nil]%elem_of_cons]%elem_of_cons];
     apply (bool_decide_unpack _); by vm_compute).
Qed.

Lemma present_churn : churn everywhere "ns" "m" configs present.
Proof.
  assert (Hin : forall k, k ∈ configs -> mesh_Namespace (cfg_mesh k) = "ns" /\ mesh_Name (cfg_mesh k) = "m" /\
    cfg_nodes k = MemoryCalm.nodes_in (nodes_of k) /\ cfg_living k = ["m"] /\ ValidateMeshNetworks [cfg_mesh k] = None).
  { intros k [->|[->|[->|[]%not_elem_of_nil]%elem_of_cons]%elem_of_cons]%elem_of_cons; (do 4 (split; [done|]); by vm_compute). }
  constructor.
  - intros k Hk. destruct (Hin k Hk) as (_ & En & -> & -> & _). apply MemoryCalm.holding_calm. intros ms (x & -> & Hx).
    cbn. by rewrite (live_name _ _ Hx), En.
  - intros k Hk. by destruct (Hin k Hk) as (? & ? & _).
  - intros k w Hk (_ & _ & x & E & Hx). destruct (Hin k Hk) as (E1 & E2 & _). exists x. split; [|done].
    cbn. rewrite E. cbn [List.find]. by rewrite (live_namespace _ _ Hx), (live_name _ _ Hx), E1, E2, bool_decide_true.
  - intros k w items Hk (_ & _ & x & E & Hx). destruct (Hin k Hk) as (E1 & E2 & _ & _ & Hv). cbn. rewrite E.
    cbn [base.filter list_filter]. rewrite (live_namespace _ _ Hx), E1, decide_True by done. intros [= <-].
    destruct x, (cfg_mesh k), Hx as [F1 F2 F3 _ _]. simpl in *. by subst.
  - intros k Hk. destruct (Hin k Hk) as (_ & _ & _ & -> & _). left.
  - intros k s [->|[->|[->|[]%not_elem_of_nil]%elem_of_cons]%elem_of_cons]%elem_of_cons
      [->|[->|[]%not_elem_of_nil]%elem_of_cons]%elem_of_cons; cbn; lia.
  - exact config_distinct.
  - intros k k' s s' d d' Hk Hk' Hs Hs' Hd Hd'. by apply (agree _ _ (asked_elem k s d Hk Hs Hd) (asked_elem k' s' d' Hk' Hs' Hd')).
  - intros k k' s s' d d' Hk Hk' Hs Hs' Hd Hd'. by apply (agree _ _ (asked_elem k s d Hk Hs Hd) (asked_elem k' s' d' Hk' Hs' Hd')).
Qed.

(** Users and kubelets change the nodes and the mesh. *)
Definition becomes (k : config string) (w : Memory.world) : Memory.world :=
  Memory.mkWorld (Memory.w_peers w) (Memory.w_history w) (Memory.w_next w) (nodes_of k) [cfg_mesh k].

Definition run : ST Memory.world (reconcileState * option controller_error) := reconcile everywhere (fun _ => "overlap") "ns" "m".
Definition w1 : Memory.world := becomes k1 (start []).
Definition w2 : Memory.world := becomes k2 (run w1).2.
Definition w3 : Memory.world := becomes k3 (run w2).2.

Lemma becomes_disturbed k w : disturbed everywhere configs w (becomes k w).
Proof. intros k' _ H n c Hc. by apply (unclaimed_same _ _ _ c w); [|eapply H]. Qed.

Lemma becomes_present k w : mesh_Deleting (cfg_mesh k) = false -> ContainsFinalizer (cfg_mesh k) = true ->
  world_ok (C := string) w -> present k (becomes k w).
Proof.
  intros H1 H2 [O1 O2 O3]. split; [by constructor|]. split; [done|]. exists (cfg_mesh k). by split; [|constructor].
Qed.

Lemma start_claims k n c :
  k ∈ configs -> Client everywhere n = Some c -> unclaimed everywhere (cfg_mesh k) (cfg_nodes k) c (start []).
Proof.
  intros _ _. assert (E : peers c (start []) = ∅) by done. constructor; intros *; rewrite E; by rewrite lookup_empty.
Qed.

Lemma next_step k w :
  k ∈ configs -> world_ok (C := string) w ->
  (forall k', k' ∈ configs -> forall n c, Client everywhere n = Some c -> unclaimed everywhere (cfg_mesh k') (cfg_nodes k') c w) ->
  present k (becomes k w) /\ world_ok (C := string) (run (becomes k w)).2 /\
  forall k', k' ∈ configs -> forall n c, Client everywhere n = Some c -> unclaimed everywhere (cfg_mesh k') (cfg_nodes k') c (run (becomes k w)).2.
Proof.
  intros Hk Hok Hu. assert (HP : present k (becomes k w)).
  { apply becomes_present; [..|done];
      by apply elem_of_cons in Hk as [->|[->|[->|[]%not_elem_of_nil]%elem_of_cons]%elem_of_cons]. }
  split; [done|]. destruct (churn_step everywhere (fun _ => "overlap") "ns" "m" configs present present_churn
    Witness.everywhere_injective k (becomes k w) Hk HP) as (_ & _ & HO & HU); [|done].
  intros k' Hk'. apply (becomes_disturbed k w k' Hk'). by apply Hu.
Qed.

Lemma whole_life : life everywhere (fun _ => "overlap") "ns" "m" configs present ([k1; k2] ++ [k3]) (start []) (run w3).2.
Proof.
  assert (H1 : k1 ∈ configs) by left. assert (H2 : k2 ∈ configs) by (right; left). assert (H3 : k3 ∈ configs) by (right; right; left).
  destruct (next_step k1 (start []) H1 (Controller.Witness.mesh_start_ok [])) as (P1 & O1 & U1); [by intros; eapply start_claims|].
  destruct (next_step k2 (run w1).2 H2 O1 U1) as (P2 & O2 & U2). destruct (next_step k3 (run w2).2 H3 O2 U2) as (P3 & _ & _).
  apply (life_step _ _ _ _ _ _ k1 _ _ w1); [done|apply becomes_disturbed|done|].
  apply (life_step _ _ _ _ _ _ k2 _ _ w2); [done|apply becomes_disturbed|done|].
  apply (life_step _ _ _ _ _ _ k3 _ _ w3); [done|apply becomes_disturbed|done|]. apply life_nil.
Qed.

End Changing.

(** After all, a and c are meshed, and b, which has left, holds no peer. *)
Lemma churn_converges_witness :
  mesh_converged Controller.Scenario.everywhere (cfg_mesh Changing.k3) (cfg_nodes Changing.k3) (Changing.run Changing.w3).2 /\
  map_to_list (peers "b" (Changing.run Changing.w3).2) = [] /\ map_to_list (peers "b" (Changing.run Changing.w2).2) <> [].
Proof.
  split; [|split; [vm_compute; reflexivity|vm_compute; discriminate]].
  apply (churn_converges Controller.Scenario.everywhere (fun _ => "overlap") "ns" "m" Changing.configs Changing.present
    [Changing.k1; Changing.k2] Changing.k3 (Controller.Scenario.start []) (Changing.run Changing.w3).2).
  - exact Changing.present_churn.
  - exact Witness.everywhere_injective.
  - exact Changing.whole_life.
  - exact Changing.start_claims.
Defined.
