(* ===== verification/Steady.v ===== *)
(** * Steady states and deletion

    Two exact statements about a whole reconcile in a calm environment: a mesh that
    has converged is left alone, down to the resource versions of its peers; and a
    mesh that is being deleted loses its own peers and no others. *)

From Stdlib Require Import String.
From S2P Require Import Prelude GoStrings GoNet Types Kilonode ValidationMesh ValidationNode Naming Builder.
From S2P Require Import Kube PeerReconciler Registry Controller Convergence Retry Outage.
Open Scope Z_scope.
Open Scope go_scope.

(** ** A converged mesh *)

Section Rest.
Context {C W : Type} {api : PeerAPI C W} {laws : PeerAPILaws C W}.
Context {capi : ControllerAPI C W} {claws : ControllerLaws C W} {C_eq : EqDecision C}.
Context (registry : ClusterRegistry C) (mesh : ClusterMesh) (nodes : C -> list Node).
Context (living : list string) (I : W -> Prop) (HI : calm nodes living I) (w0 : W).

(** No peer has changed since [w0]. *)
Definition still (w : W) : Prop := I w /\ forall c, peers c w = peers c w0.

Lemma still_same w w' : still w -> I w' -> (forall c, peers c w' = peers c w) -> still w'.
Proof. intros [_ H] Hw' E. split; [done|]. intros c. by rewrite E. Qed.

Lemma still_shrinks c w w' :
  still w -> shrinks I w w' -> (forall c', c <> c' -> peers c' w' = peers c' w) ->
  (forall y p, peers c w !! y = Some p -> peers c w' !! y = Some p) -> still w'.
Proof.
  intros Hw [Hw' Hsh] Ho Hk. apply (still_same w); [done|done|]. intros c'.
  destruct (decide (c = c')) as [<-|Hne]; [|by apply Ho]. apply map_eq. intros y. apply option_eq. intros p.
  split; [apply Hsh|apply Hk].
Qed.

Context (Hnames : forall s, s ∈ mesh_Clusters mesh -> NoDup (peer_Name <$> desired_of registry mesh nodes s)).
Context (Hport : forall s, s ∈ mesh_Clusters mesh -> 0 <= entry_WireguardPort s < 65536).
Context (Hconv : mesh_converged registry mesh nodes w0) (Hghost : ghost_free registry living w0).

Lemma ReconcilePeers_still c s w :
  s ∈ mesh_Clusters mesh -> converged registry mesh nodes c s w0 -> still w ->
  let r := ReconcilePeers c (mesh_Name mesh) (entry_Name s) (wanted registry mesh nodes c s) w in r.1 = [] /\ still r.2.
Proof.
  intros Hs [C1 C2] Hw. pose proof (proj2 Hw c) as Hp.
  destruct (calm_listed nodes living I HI c everything w Logic.I (proj1 Hw)) as (items & w1 & E1 & I1 & P1 & _).
  destruct (calm_listed nodes living I HI c (OrphanSelector (mesh_Name mesh) (entry_Name s)) w1 Logic.I I1)
    as (existing & w2 & E2 & _).
  pose proof (calm_ok _ _ _ HI w (proj1 Hw)) as Hok.
  destruct (ReconcilePeers_stable_aux c (mesh_Name mesh) (entry_Name s) (wanted registry mesh nodes c s) w items w1 existing w2)
    as (H1 & H2 & H3); [done|by apply (calm_synced _ _ _ HI), Hw|by rewrite wanted_names; apply Hnames|done|done| | |].
  - intros d Hd. rewrite Hp. by apply C1.
  - intros y p. rewrite Hp, wanted_names. apply C2.
  - split; [done|]. apply (still_same w); [done| |done]. apply H3; [|apply (calm_range _ _ _ HI)|by apply Hw].
    intros sel w'. apply (calm_List _ _ _ HI).
Qed.

Lemma pushLoop_still s cs targets w :
  s ∈ mesh_Clusters mesh -> Client registry (entry_Name s) = Some cs ->
  (forall t, t ∈ targets -> t ∈ mesh_Clusters mesh) -> still w ->
  let r := pushLoop registry (mesh_Name mesh) s (desired_of registry mesh nodes s) targets w in r.1 = None /\ still r.2.
Proof.
  intros Hs Hcs. revert w; induction targets as [|t targets IH]; intros w Ht Hw; cbn [pushLoop]; [done|].
  assert (IH' : forall w, still w -> let r := pushLoop registry (mesh_Name mesh) s (desired_of registry mesh nodes s) targets w in
    r.1 = None /\ still r.2) by (intros w1; apply IH; intros t' Ht'; apply Ht; by right).
  case_decide as Hne; [by apply IH'|]. destruct (Client registry (entry_Name t)) as [ct|] eqn:Ec; [|by apply IH'].
  rewrite st_bind_run, (enrich_run registry mesh nodes living I HI) by (done || apply Hw). cbn [fst snd].
  assert (H1 : still (ListNodes ct w).2).
  { apply (still_same w); [done|by apply (calm_ListNodes _ _ _ HI), Hw|]. apply ListNodes_quiet. by apply (calm_ok _ _ _ HI), Hw. }
  destruct (ReconcilePeers_still ct s (ListNodes ct w).2 Hs) as [E2 H2];
    [apply (proj1 Hconv s t cs ct); [done|apply Ht; left|done..]|done|].
  rewrite st_bind_run. destruct (ReconcilePeers ct _ _ _ _) as [errs w2]. cbn [fst snd] in *. subst errs. by apply IH'.
Qed.

Lemma reconcileSource_still s w :
  s ∈ mesh_Clusters mesh -> still w ->
  exists st, (reconcileSource registry mesh s w).1 = Ok st /\ still (reconcileSource registry mesh s w).2.
Proof.
  intros Hs Hw. unfold reconcileSource. destruct (Client registry (entry_Name s)) as [cs|] eqn:Ec; [|by eexists].
  destruct (calm_ListNodes _ _ _ HI cs w (proj1 Hw)) as [I1 _].
  pose proof (calm_nodes nodes living I HI cs w Logic.I (proj1 Hw)) as E1.
  assert (H1 : still (ListNodes cs w).2).
  { apply (still_same w); [done|done|]. apply ListNodes_quiet. by apply (calm_ok _ _ _ HI), Hw. }
  rewrite st_bind_run. destruct (ListNodes cs w) as [r w1]. cbn [fst snd] in *. subst r.
  pose proof (desired_of_built registry mesh nodes Hport s cs Hs Ec) as Hd.
  destruct (filterNodes (nodes cs) s) as [[valid skipped] transient]. cbn [fst] in Hd.
  unfold pushPeersToTargets. rewrite Hd. st_run.
  destruct (pushLoop_still s cs (mesh_Clusters mesh) w1 Hs Ec ltac:(done) H1) as [E2 H2].
  destruct (pushLoop _ _ _ _ _ w1) as [err w2]. cbn [fst snd] in *. subst err. st_run. by eexists.
Qed.

Lemma reconcileSources_still l w :
  (forall s, s ∈ l -> s ∈ mesh_Clusters mesh) -> still w ->
  exists st, (reconcileSources registry mesh l w).1 = Ok st /\ still (reconcileSources registry mesh l w).2.
Proof.
  revert w; induction l as [|s l IH]; intros w Hl Hw; cbn [reconcileSources]; [by eexists|].
  destruct (reconcileSource_still s w) as ([st inc] & E1 & H1); [apply Hl; left|done|].
  rewrite st_bind_run. destruct (reconcileSource registry mesh s w) as [r w1]. cbn [fst snd] in *. subst r.
  destruct (IH w1) as ([sts inc'] & E2 & H2); [intros; apply Hl; by right|done|].
  rewrite st_bind_run. destruct (reconcileSources registry mesh l w1) as [r w2]. cbn [fst snd] in *. subst r. by eexists.
Qed.

Lemma rangeClusters_still m w : still w -> still (rangeClusters m w).2.
Proof.
  intros Hw. apply (still_same w); [done|by apply (calm_rangeClusters _ _ _ HI), Hw|].
  apply rangeClusters_quiet. by apply (calm_ok _ _ _ HI), Hw.
Qed.

Lemma ListMeshes_still ns w : still w -> still (ListMeshes ns w).2.
Proof.
  intros Hw. apply (still_same w); [done|by apply (calm_ListMeshes _ _ _ HI), Hw|].
  apply ListMeshes_quiet. by apply (calm_ok _ _ _ HI), Hw.
Qed.

Lemma cleanupStale_still w : still w -> still (cleanupStaleSourceClusters registry mesh w).2.
Proof.
  intros Hw. unfold cleanupStaleSourceClusters. rewrite st_bind_run. apply (st_iter_inv still); [|by apply rangeClusters_still].
  generalize (rangeClusters (reg_clusters registry) w).1 as names. clear w Hw. intros names n w _ Hw. destruct (Client registry n) as [c|] eqn:Ec; [|done]. st_run.
  set (valid := if decide (n ∈ _) then _ else _).
  destruct (DeleteStale_calm mesh nodes living I HI Hport c valid w Logic.I (proj1 Hw)) as (Hsh & Ho & Hd).
  destruct (DeleteStaleSourceClusters c _ valid w) as [errs w']. cbn [snd] in *.
  apply (still_shrinks c w); [done|done|done|]. intros y p Hp. apply Hd. split; [done|]. intros [Hm Hns]. apply Hns.
  rewrite (proj2 Hw) in Hp. destruct (proj2 Hconv n c Ec y p Hp Hm) as [Hn Hsrc].
  unfold valid. by rewrite decide_True.
Qed.

Lemma cleanupOrphans_still w : still w -> still (cleanupOrphanMeshPeers registry w).2.
Proof.
  intros Hw. unfold cleanupOrphanMeshPeers, collectLivingMeshes. rewrite !st_bind_run.
  destruct (calm_living _ _ _ HI w (proj1 Hw)) as (ms & -> & Hms). rewrite st_ret_run. cbn [fst snd]. rewrite st_bind_run, Hms.
  apply (st_iter_inv still); [|by apply rangeClusters_still, ListMeshes_still].
  generalize (rangeClusters (reg_clusters registry) (ListMeshes None w).2).1 as names. clear Hw. clear w. intros names n w _ Hw. destruct (Client registry n) as [c|] eqn:Ec; [|done].
  destruct (sweep_calm nodes living I HI c living w Logic.I (proj1 Hw)) as (Hsh & Ho & Hd).
  apply (still_shrinks c w); [done|done|done|]. intros y p Hp. apply Hd. split; [done|].
  rewrite (proj2 Hw) in Hp. by eapply Hghost.
Qed.

End Rest.

(** ** Deletion *)

Section Deletion.
Context {C W : Type} {api : PeerAPI C W} {laws : PeerAPILaws C W}.
Context {capi : ControllerAPI C W} {claws : ControllerLaws C W} {C_eq : EqDecision C}.
Context (registry : ClusterRegistry C) (mesh : ClusterMesh).
Context {up : C -> Prop} {up_dec : forall c, Decision (up c)} {refusal : kube_error}.
Context {nodes : C -> list Node} {living : list string} {I : W -> Prop}.
Context (HI : calm_on (up := up) nodes living I) (Hrefuses : refuses refusal (up := up) I).

(** Peers of the pairs [(source, target)] in [pairs] are gone from the target, if it
    is up; all others are as in [w]. *)
Definition doomed (pairs : list (string * string)) (c : C) (p : Peer) : Prop :=
  up c /\ exists s t, (s, t) ∈ pairs /\ s <> t /\ Client registry t = Some c /\
    OrphanSelector (mesh_Name mesh) s (peer_Labels p) = true.

Definition removed (pairs : list (string * string)) (w w' : W) : Prop :=
  I w' /\ forall c y p, peers c w' !! y = Some p <-> peers c w !! y = Some p /\ ~ doomed pairs c p.

Lemma removed_nil w : I w -> removed [] w w.
Proof.
  intros Hw. split; [done|]. intros c y p. split; [|by intros [? _]]. intros Hp. split; [done|].
  by intros (_ & s & t & ?%not_elem_of_nil & _).
Qed.

Lemma removed_app ps qs w1 w2 w3 : removed ps w1 w2 -> removed qs w2 w3 -> removed (ps ++ qs) w1 w3.
Proof.
  intros [_ H1] [I3 H2]. split; [done|]. intros c y p. rewrite H2, H1. unfold doomed. setoid_rewrite elem_of_app. naive_solver.
Qed.

(** Reconciling with nothing desired removes exactly the peers of (mesh, source). *)
Lemma ReconcilePeers_empty c s w :
  up c -> I w ->
  let w' := (ReconcilePeers c (mesh_Name mesh) s [] w).2 in
  I w' /\ (forall c', c <> c' -> peers c' w' = peers c' w) /\
  forall y p, peers c w' !! y = Some p <-> peers c w !! y = Some p /\ OrphanSelector (mesh_Name mesh) s (peer_Labels p) = false.
Proof.
  intros Hup Hw. pose proof (calm_ok _ _ _ HI w Hw) as Hok.
  assert (Hr : ready living c (mesh_Name mesh) s [] w).
  { constructor; [constructor|..]; by intros * ?%not_elem_of_nil. }
  destruct (ReconcilePeers_calm nodes living I HI c _ _ _ w Hup Hw Hr) as [E1 I1]. destruct Hr as [R1 _ R2 R3 R4].
  destruct (ReconcilePeers_converges_aux c _ _ _ w Hok (calm_synced _ _ _ HI c w Hw) R1 R2 R3 E1) as [_ A2].
  destruct (ReconcilePeers_touches c (mesh_Name mesh) s [] w Hok) as (N & F & _).
  split; [done|]. split; [apply (fr_other _ _ _ _ F)|]. intros y p. rewrite A2 by apply not_elem_of_nil.
  destruct (peers c w !! y) as [q|]; [|naive_solver]. destruct (OrphanSelector _ s (peer_Labels q)) eqn:E; naive_solver congruence.
Qed.

Lemma deletePair_removed s t w :
  I w -> removed [(entry_Name s, entry_Name t)] w (deletePair registry mesh s t w).2.
Proof.
  intros Hw. unfold deletePair.
  assert (Hno : forall w', I w' -> (forall c, peers c w' = peers c w) ->
    (forall c, ~ (up c /\ entry_Name s <> entry_Name t /\ Client registry (entry_Name t) = Some c)) ->
    removed [(entry_Name s, entry_Name t)] w w').
  { intros w' Hw' E Hn. split; [done|]. intros c y p. rewrite E. split; [|by intros [? _]]. intros Hp. split; [done|].
    intros (Hup & s' & t' & [= -> ->]%list_elem_of_singleton & Hne & Hc & _). by apply (Hn c). }
  case_decide as Hne; [by apply Hno; [..|intros c (_ & ? & _)]|].
  destruct (Client registry (entry_Name t)) as [c|] eqn:Ec; [|by apply Hno; [..|intros c (_ & _ & ?)]]. st_run.
  destruct (decide (up c)) as [Hup|Hdown].
  2:{ destruct (ReconcilePeers_refused mesh nodes refusal living I HI Hrefuses c (entry_Name s) [] w Hw Hdown) as (w' & -> & I1 & P1).
      cbn [snd]. apply Hno; [done|done|]. intros c' (? & _ & [= <-]). done. }
  destruct (ReconcilePeers_empty c (entry_Name s) w Hup Hw) as (I1 & O1 & P1).
  destruct (ReconcilePeers c _ _ _ w) as [errs w']. cbn [snd] in *. split; [done|]. intros c' y p.
  destruct (decide (c = c')) as [<-|Hc].
  - rewrite P1. unfold doomed. setoid_rewrite list_elem_of_singleton. split; intros [Hp Hn]; (split; [done|]).
    + intros (_ & s' & t' & [= -> ->] & _ & _ & ?). congruence.
    + destruct (OrphanSelector _ _ _) eqn:E; [|done]. exfalso. apply Hn. split; [done|]. eexists _, _. by split_and!; [|apply not_eq_sym|..].
  - rewrite O1 by done. split; [|by intros [? _]]. intros Hp. split; [done|].
    intros (_ & s' & t' & [= -> ->]%list_elem_of_singleton & _ & ? & _). congruence.
Qed.

(** A loop of removals. *)
Lemma iter_removed {A} (f : A -> ST W unit) (pairs : A -> list (string * string)) l w :
  (forall a w, a ∈ l -> I w -> removed (pairs a) w (f a w).2) -> I w ->
  removed (l ≫= pairs) w (st_iter f l w).2.
Proof.
  revert w; induction l as [|a l IH]; intros w Hf Hw; cbn [st_iter]; [by apply removed_nil|].
  rewrite st_bind_run. cbn [mbind list_bind]. pose proof (Hf a w ltac:(left) Hw) as H1.
  eapply removed_app; [done|]. apply IH; [|by apply H1]. intros b w1 Hb. apply Hf. by right.
Qed.

Definition mesh_pairs : list (string * string) :=
  mesh_Clusters mesh ≫= fun s => mesh_Clusters mesh ≫= fun t => [(entry_Name s, entry_Name t)].

Lemma mesh_pairs_elem s t :
  (s, t) ∈ mesh_pairs <-> s ∈ (entry_Name <$> mesh_Clusters mesh) /\ t ∈ (entry_Name <$> mesh_Clusters mesh).
Proof.
  unfold mesh_pairs. rewrite list_elem_of_bind. setoid_rewrite list_elem_of_bind. setoid_rewrite list_elem_of_singleton.
  rewrite !list_elem_of_fmap. naive_solver.
Qed.

(** The peers [handleDeletion] looks for: of the mesh, from a source that the spec
    still lists, on the registered client of another cluster it still lists. *)
Definition listed_peer (c : C) (p : Peer) : Prop :=
  exists s t, s ∈ (entry_Name <$> mesh_Clusters mesh) /\ t ∈ (entry_Name <$> mesh_Clusters mesh) /\ s <> t /\
    Client registry t = Some c /\ OrphanSelector (mesh_Name mesh) s (peer_Labels p) = true.

(** Peers of the mesh that it does not look for: of a source that has been taken out
    of the spec, or on a cluster that has. *)
Definition left_over (c : C) (p : Peer) : Prop :=
  peer_Labels p !! LabelMesh = Some (mesh_Name mesh) /\
  (default "" (peer_Labels p !! LabelSourceCluster) ∉ (entry_Name <$> mesh_Clusters mesh) \/
   forall n, n ∈ (entry_Name <$> mesh_Clusters mesh) -> Client registry n <> Some c).

Lemma left_over_not_listed c p : left_over c p -> ~ listed_peer c p.
Proof.
  intros [_ Hl] (s & t & Hs & Ht & _ & Hc & [_ E]%bool_decide_eq_true). destruct Hl as [Hl|Hl]; [|by apply (Hl t)].
  apply Hl. by rewrite E.
Qed.

Lemma listed_peer_doomed c p : doomed mesh_pairs c p <-> up c /\ listed_peer c p.
Proof.
  split; intros [Hup H]; (split; [done|]).
  - destruct H as (s & t & [Hs Ht]%mesh_pairs_elem & H). by exists s, t.
  - destruct H as (s & t & Hs & Ht & H). exists s, t. split; [by apply mesh_pairs_elem|done].
Qed.

Lemma handleDeletion_calm w :
  I w -> ContainsFinalizer mesh = true ->
  exists w1, handleDeletion registry mesh w =
      (match (UpdateMesh (RemoveFinalizer mesh) w1).1 with Ok _ => None | Err e => Some (RemovingFinalizer e) end,
       (UpdateMesh (RemoveFinalizer mesh) w1).2) /\
    I w1 /\ forall c y p, peers c w1 !! y = Some p <-> peers c w !! y = Some p /\ ~ (up c /\ listed_peer c p).
Proof.
  intros Hw Hf. unfold handleDeletion. rewrite Hf. cbn [negb].
  assert (HR : removed mesh_pairs w
    (st_iter (fun entry => st_iter (deletePair registry mesh entry) (mesh_Clusters mesh)) (mesh_Clusters mesh) w).2).
  { apply iter_removed; [|done]. intros s w1 _ H1. apply iter_removed; [|done]. intros t w2 _ H2. by apply deletePair_removed. }
  rewrite st_bind_run. set (w1 := (st_iter _ _ w).2) in *. exists w1. split; [|split; [apply HR|]].
  - st_run. by destruct (UpdateMesh _ w1) as [[u|e] w2].
  - intros c y p. destruct HR as [_ ->]. by rewrite listed_peer_doomed.
Qed.

End Deletion.

(** ** Whole reconciles *)

Section Whole.
Context {C W : Type} {api : PeerAPI C W} {laws : PeerAPILaws C W}.
Context {capi : ControllerAPI C W} {claws : ControllerLaws C W} {C_eq : EqDecision C}.
Context (registry : ClusterRegistry C) (message : mesh_error -> string).

(** C8. A converged mesh is at rest. In a calm environment, the reconcile of a live,
    valid mesh that has converged, when no peer of a dead mesh is left, writes no
    peer on any cluster: the stored peers are the same, resource versions included.
    It reports no error but possibly that of the final status update. *)
Theorem reconcile_idempotent nodes living I ns name mesh w w1 :
  calm nodes living I -> I w ->
  GetMesh ns name w = (Ok mesh, w1) -> mesh_Deleting mesh = false -> ContainsFinalizer mesh = true ->
  (forall items w2, ListMeshes (Some (mesh_Namespace mesh)) w1 = (Ok items, w2) -> ValidateMeshNetworks items = None) ->
  (forall s, s ∈ mesh_Clusters mesh -> NoDup (peer_Name <$> desired_of registry mesh nodes s)) ->
  (forall s, s ∈ mesh_Clusters mesh -> 0 <= entry_WireguardPort s < 65536) ->
  mesh_converged registry mesh nodes w -> ghost_free registry living w ->
  let r := reconcile registry message ns name w in
  (forall c, peers c r.2 = peers c w) /\ (r.1.2 = None \/ exists e, r.1.2 = Some (UpdatingStatus e)).
Proof.
  intros HI Hw Eg Hdel Hfin Hval Hnd Hport HC HG r. subst r.
  destruct (reconcile_to_live registry message nodes living I ns name mesh w w1 HI Hw Eg Hdel Hfin Hval) as (w2 & -> & H2).
  unfold reconcileLive. set (m' := setCondition mesh _ _ _ _).
  destruct (reconcileSources_still registry m' nodes living I HI w Hnd Hport HC (mesh_Clusters m') w2) as ([sts inc] & E3 & H3);
    [done|done|].
  rewrite st_bind_run. unfold reconcileAllClusters in *. destruct (reconcileSources registry m' _ w2) as [r3 w3].
  cbn [fst snd] in *. subst r3. rewrite !st_bind_run. cbn [fst snd].
  pose proof (cleanupStale_still registry m' nodes living I HI w Hport HC w3 H3) as H4.
  pose proof (cleanupOrphans_still registry nodes living I HI w HG _ H4) as H5.
  set (w5 := (cleanupOrphanMeshPeers _ _).2) in *. unfold updateStatus. rewrite st_bind_run.
  destruct (UpdateMeshStatus_quiet (setCondition (with_StatusClusters m' sts) "Ready" ConditionTrue "Reconciled" "all clusters reconciled successfully")
    w5 (calm_ok _ _ _ HI w5 (proj1 H5))) as (_ & _ & P6).
  destruct (UpdateMeshStatus _ w5) as [[u|e] w6]; cbn [fst snd] in *; rewrite !st_ret_run; cbn [fst snd];
    (split; [intros c; rewrite P6; apply H5|eauto]).
Qed.

Lemma reconcile_deletes_aux {up : C -> Prop} {up_dec : forall c, Decision (up c)} refusal nodes living I ns name mesh w w1 :
  calm_on (up := up) nodes living I -> refuses refusal (up := up) I -> I w ->
  GetMesh ns name w = (Ok mesh, w1) -> mesh_Deleting mesh = true -> ContainsFinalizer mesh = true ->
  let r := reconcile registry message ns name w in
  (forall c y p, peers c r.2 !! y = Some p <-> peers c w !! y = Some p /\ ~ (up c /\ listed_peer registry mesh c p)) /\
  exists w2, r = ((reconcileStateDone,
      match (UpdateMesh (RemoveFinalizer mesh) w2).1 with Ok _ => None | Err e => Some (RemovingFinalizer e) end),
    (UpdateMesh (RemoveFinalizer mesh) w2).2).
Proof.
  intros HI HR Hw Eg Hdel Hfin r. subst r. unfold reconcile. rewrite st_bind_run, Eg. cbn [fst snd]. rewrite Hdel, st_bind_run.
  assert (I1 : I w1) by (pose proof (calm_GetMesh _ _ _ HI ns name w Hw) as I1; by rewrite Eg in I1).
  destruct (GetMesh_quiet ns name w (calm_ok _ _ _ HI w Hw)) as (_ & _ & P1). rewrite Eg in P1. cbn [snd] in P1.
  destruct (handleDeletion_calm registry mesh HI HR w1 I1 Hfin) as (w2 & -> & I2 & P2). rewrite st_ret_run. cbn [fst snd].
  destruct (UpdateMesh_quiet (RemoveFinalizer mesh) w2 (calm_ok _ _ _ HI w2 I2)) as (_ & _ & P3).
  split; [|by exists w2]. intros c y p. by rewrite P3, P2, P1.
Qed.

(** C9. What a deletion removes, and what it leaves. In a calm environment, the
    reconcile of a mesh that is being deleted and still has its finalizer removes the
    peers between two clusters that the spec still lists, when the target is
    registered, and no other peer anywhere. Peers of the mesh from a source that was
    taken out of the spec before, or on a target that was, stay, although the comment
    of [handleDeletion] says that all peers are removed from every cluster. Then the
    removal of the finalizer is requested, and nothing but a failure of that request
    is reported. *)
Theorem reconcile_deletes_exactly nodes living I ns name mesh w w1 :
  calm nodes living I -> I w ->
  GetMesh ns name w = (Ok mesh, w1) -> mesh_Deleting mesh = true -> ContainsFinalizer mesh = true ->
  let r := reconcile registry message ns name w in
  (forall c y p, peers c r.2 !! y = Some p <-> peers c w !! y = Some p /\ ~ listed_peer registry mesh c p) /\
  (forall c y p, peers c w !! y = Some p -> left_over registry mesh c p -> peers c r.2 !! y = Some p) /\
  exists w2, r = ((reconcileStateDone,
      match (UpdateMesh (RemoveFinalizer mesh) w2).1 with Ok _ => None | Err e => Some (RemovingFinalizer e) end),
    (UpdateMesh (RemoveFinalizer mesh) w2).2).
Proof.
  intros HI Hw Eg Hdel Hfin r. subst r.
  destruct (reconcile_deletes_aux (up := fun _ => True) NotFound nodes living I ns name mesh w w1) as [H1 H2]; [done|by intros ???? []|done..|].
  split; [|split; [|done]]; intros c y p.
  - rewrite H1. by split; intros [Hp Hn]; (split; [done|]); [intros Ho; apply Hn|intros [_ Ho]].
  - intros Hp Hl. apply H1. split; [done|]. intros [_ Ho]. by eapply left_over_not_listed.
Qed.

(** C39. Deletion gives up on clusters that do not answer. When the clusters that are
    not [up] refuse to list their peers, the reconcile of a mesh that is being
    deleted removes exactly the mesh's own peers on those that are up, leaves every
    peer on the others, and asks for the removal of the finalizer all the same,
    reporting no failure of the clean-up. *)
Theorem deletion_abandons_outage (up : C -> Prop) (up_dec : forall c, Decision (up c)) refusal nodes living I ns name mesh w w1 :
  calm_on (up := up) nodes living I -> refuses refusal (up := up) I -> I w ->
  GetMesh ns name w = (Ok mesh, w1) -> mesh_Deleting mesh = true -> ContainsFinalizer mesh = true ->
  let r := reconcile registry message ns name w in
  (forall c y p, up c -> peers c r.2 !! y = Some p <-> peers c w !! y = Some p /\ ~ listed_peer registry mesh c p) /\
  (forall c, ~ up c -> peers c r.2 = peers c w) /\
  exists w2, r = ((reconcileStateDone,
      match (UpdateMesh (RemoveFinalizer mesh) w2).1 with Ok _ => None | Err e => Some (RemovingFinalizer e) end),
    (UpdateMesh (RemoveFinalizer mesh) w2).2).
Proof.
  intros HI HR Hw Eg Hdel Hfin r. subst r.
  destruct (reconcile_deletes_aux refusal nodes living I ns name mesh w w1 HI HR Hw Eg Hdel Hfin) as [H1 H2].
  split; [|split; [|done]].
  - intros c y p Hup. rewrite H1. by split; intros [Hp Hn]; (split; [done|]); [intros Ho; apply Hn|intros [_ Ho]].
  - intros c Hdown. apply map_eq. intros y. apply option_eq. intros p. rewrite H1. naive_solver.
Qed.

End Whole.

(** ** A concrete mesh *)

Module Rested.
Import Controller.Scenario Convergence.Witness.

(** The world after the first reconcile of the two-cluster mesh, and the resource
    with the status it wrote. *)
Definition world1 : Memory.world := (run everywhere "ns" (start [two])).2.
Definition two1 : ClusterMesh := default two (head (Memory.w_meshes world1)).

Lemma world1_facts :
  mesh_converged everywhere two nodes_of world1 /\ ghost_free everywhere [mesh_Name two] world1 /\
  world_ok (C := string) world1.
Proof.
  destruct (reconcile_calm (up := fun _ => True) everywhere (fun _ => "overlap") nodes_of [mesh_Name two] (MemoryCalm.steady nodes [two])
    "ns" "m" two (start [two]) (start [two])) as (HC & HG & _ & _ & HO & _); [|done| |done..| | | | | | |done].
  - exact (MemoryCalm.memory_calm nodes [two]).
  - split; [apply Controller.Witness.mesh_start_ok|done].
  - intros items w2 [= <- _]. vm_compute. reflexivity.
  - left.
  - intros s [->|[->|[]%not_elem_of_nil]%elem_of_cons]%elem_of_cons; cbn; lia.
  - apply everywhere_injective.
  - apply two_distinct.
  - intros n c _. apply start_unclaimed.
Qed.

Lemma two1_live : live two two1.
Proof. by constructor; vm_compute. Qed.

Lemma live_two1 : live two1 two.
Proof. by constructor; vm_compute. Qed.

Lemma two1_distinct : distinct_peers everywhere two1 nodes_of.
Proof. apply (distinct_live everywhere two nodes_of two1 two1_live), two_distinct. Qed.

Lemma two1_converged : mesh_converged everywhere two1 nodes_of world1.
Proof. apply (converged_live everywhere two1 nodes_of two world1 live_two1), world1_facts. Qed.

Lemma world1_steady : MemoryCalm.steady nodes [two1] world1.
Proof. split; [apply world1_facts|]. split; vm_compute; reflexivity. Qed.

(** The user deletes the mesh. *)
Definition world2 : Memory.world := MemoryController.with_meshes world1 [deleting two1].

Lemma world2_steady : MemoryCalm.steady nodes [deleting two1] world2.
Proof.
  split; [|split; [apply world1_steady|done]]. apply (MemoryController.quiet_meshes world1), world1_facts.
Qed.

(** The same with a peer on cluster b of a source that the mesh no longer lists. *)
Definition stray : Peer :=
  mkPeer "m--gone--n" (Labels "m" "gone") "" (mkPeerSpec ["10.7.1.0/24"] None 0 "" "key-gone").
Definition world3 : Memory.world := Memory.put "b" stray world2.

Lemma world3_steady : MemoryCalm.steady nodes [deleting two1] world3.
Proof. apply MemoryCalm.put_holding, world2_steady. Qed.

End Rested.

Lemma reconcile_idempotent_witness :
  peers "a" (Controller.Scenario.run Controller.Scenario.everywhere "ns" Rested.world1).2 = peers "a" Rested.world1.
Proof.
  apply (reconcile_idempotent Controller.Scenario.everywhere (fun _ => "overlap") Witness.nodes_of [mesh_Name Rested.two1]
    (MemoryCalm.steady Controller.Scenario.nodes [Rested.two1]) "ns" "m" Rested.two1 Rested.world1 Rested.world1).
  - exact (MemoryCalm.memory_calm Controller.Scenario.nodes [Rested.two1]).
  - exact Rested.world1_steady.
  - vm_compute. reflexivity.
  - vm_compute. reflexivity.
  - vm_compute. reflexivity.
  - intros items w2 E.
    refine (eq_trans (eq_sym (f_equal (fun r => match fst r with Ok l => ValidateMeshNetworks l | Err _ => None end) E)) _).
    vm_compute. reflexivity.
  - exact (distinct_names _ _ _ Rested.two1_distinct).
  - intros s. rewrite (live_clusters _ _ Rested.two1_live).
    intros [->|[->|[]%not_elem_of_nil]%elem_of_cons]%elem_of_cons; cbn; lia.
  - exact Rested.two1_converged.
  - rewrite (live_name _ _ Rested.two1_live). apply Rested.world1_facts.
Defined.

(** Cluster b had peers of cluster a and of one no longer listed: the first is gone,
    the second is still there. *)
Lemma reconcile_deletes_exactly_witness :
  let r := Controller.Scenario.run Controller.Scenario.everywhere "ns" Rested.world3 in
  is_Some (peers "b" Rested.world3 !! Name "m" "a" "na") /\ peers "b" r.2 !! Name "m" "a" "na" = None /\
  is_Some (peers "b" r.2 !! "m--gone--n").
Proof.
  destruct (reconcile_deletes_exactly Controller.Scenario.everywhere (fun _ => "overlap") Witness.nodes_of
    [mesh_Name (Controller.Scenario.deleting Rested.two1)]
    (MemoryCalm.steady Controller.Scenario.nodes [Controller.Scenario.deleting Rested.two1]) "ns" "m"
    (Controller.Scenario.deleting Rested.two1) Rested.world3 Rested.world3) as (H & HL & _).
  - exact (MemoryCalm.memory_calm Controller.Scenario.nodes [Controller.Scenario.deleting Rested.two1]).
  - exact Rested.world3_steady.
  - vm_compute. reflexivity.
  - reflexivity.
  - vm_compute. reflexivity.
  - assert (Hsome : bool_decide (is_Some (peers "b" Rested.world3 !! Name "m" "a" "na")) = true) by (vm_compute; reflexivity).
    split; [exact (proj1 (bool_decide_eq_true _) Hsome)|]. split.
    + destruct (peers "b" (Controller.Scenario.run Controller.Scenario.everywhere "ns" Rested.world3).2 !! Name "m" "a" "na")
        as [p|] eqn:E; [exfalso|reflexivity].
      apply H in E as [Hp Hn]. apply Hn. exists "a", "b".
      assert (Hl : (OrphanSelector "m" "a" ∘ peer_Labels) <$> (peers "b" Rested.world3 !! Name "m" "a" "na") = Some true)
        by (vm_compute; reflexivity).
      rewrite Hp in Hl. injection Hl as Hl. split; [left|]. split; [right; left|]. split; [discriminate|]. split; [reflexivity|exact Hl].
    + assert (Hs : is_Some (peers "b" Rested.world3 !! "m--gone--n")) by (apply (bool_decide_unpack _); vm_compute; exact Logic.I).
      assert (El : (fun p => (peer_Labels p !! LabelMesh, peer_Labels p !! LabelSourceCluster)) <$> (peers "b" Rested.world3 !! "m--gone--n")
        = Some (Some "m", Some "gone")) by (vm_compute; reflexivity).
      destruct Hs as [p Hp]. rewrite Hp in El. injection El as E1 E2. exists p. apply HL; [exact Hp|].
      split; [exact E1|]. left. rewrite E2. apply (bool_decide_unpack _). vm_compute. exact Logic.I.
Defined.
