(* ===== verification/Bystanders.v ===== *)
(** * Reconciling while others work on the clusters

    [Convergence] assumes that nobody else writes while a reconcile runs. Here others
    write before every request: they create, change and delete peers of their own,
    which carry no mesh label, on any cluster. As long as they keep away from the
    names the operator generates and from the keys of the mesh, a reconcile converges
    all the same.

    The proof hides what the others do. Two runs are compared: on the crowded servers,
    and on a view of them that shows managed peers only. The view obeys the laws of
    [PeerAPILaws], so [Convergence] applies to it; and the two runs take the same
    steps, because the code acts on managed peers only. *)

From Stdlib Require Import String Ascii.
From S2P Require Import Prelude GoStrings GoNet Types Kilonode ValidationMesh ValidationNode Naming Builder.
From S2P Require Import Kube PeerReconciler Registry Controller Convergence.
Open Scope Z_scope.
Open Scope go_scope.

(** The peer carries a mesh label. *)
Definition managed (p : Peer) : bool := bool_decide (is_Some (peer_Labels p !! LabelMesh)).

Lemma managed_labels p q : peer_Labels p = peer_Labels q -> managed p = managed q.
Proof. unfold managed. by intros ->. Qed.

Lemma managed_selected mesh src p : OrphanSelector mesh src (peer_Labels p) = true -> managed p = true.
Proof. intros [H _]%bool_decide_eq_true. apply bool_decide_eq_true. by rewrite H. Qed.

Lemma generated_managed meshes p : generated meshes p -> managed p = true.
Proof. intros (mesh & src & node & _ & _ & Hl). unfold managed. by rewrite Hl. Qed.

Lemma managed_stored q p : stored q p -> managed q = managed p.
Proof. intros [_ E]%stored_spec. by apply managed_labels. Qed.

Abbreviation managed_only l := (base.filter (fun p => managed p = true) l).

(** ** The crowded servers, and the view *)

Section Crowd.
Context {C W : Type} {api : PeerAPI C W} {laws : PeerAPILaws C W}.
Context {capi : ControllerAPI C W} {claws : ControllerLaws C W}.
(** What the others do before a request. *)
Context (others : W -> W).

Definition after_others {A} (m : ST W A) : ST W A := fun w => m (others w).

Definition crowd_api : PeerAPI C W := {|
  List c sel := after_others (List c sel);
  Create c p := after_others (Create c p);
  Update c p := after_others (Update c p);
  Delete c p := after_others (Delete c p);
  range := range;
|}.

Definition crowd_capi : ControllerAPI C W := {|
  ListNodes c := after_others (ListNodes c);
  GetMesh ns name := after_others (GetMesh ns name);
  ListMeshes ns := after_others (ListMeshes ns);
  UpdateMesh m := after_others (UpdateMesh m);
  UpdateMeshStatus m := after_others (UpdateMeshStatus m);
  rangeClusters := rangeClusters;
  unmarshalDiscovered := unmarshalDiscovered;
|}.

Definition managed_peers (c : C) (w : W) : gmap string Peer :=
  base.filter (fun kv => managed kv.2 = true) (peers c w).

(** The others leave managed peers alone. *)
Record bystanders : Prop := {
  by_ok : forall w, world_ok w -> world_ok (others w);
  by_synced : forall c w, synced c w -> synced c (others w);
  by_peers : forall c w, managed_peers c (others w) = managed_peers c w;
  by_seen : forall c w p, seen c w p -> seen c (others w) p;
  by_history : forall c w p, managed p = true -> seen c (others w) p -> seen c w p;
}.

(** An update would not hit a peer of the others. *)
Definition own_version (c : C) (p : Peer) (w : W) : bool :=
  match peers c w !! peer_Name p with
  | Some cur => negb (bool_decide (peer_ResourceVersion cur = peer_ResourceVersion p)) || managed cur
  | None => true
  end.

(** The view: lists show managed peers, and only managed peers are written. *)
Definition view_api : PeerAPI C W := {|
  List c sel w := let '(r, w') := List c sel (others w) in ((fun l => managed_only l) <$> r, w');
  Create c p w := if managed p then Create c p (others w) else (Err Conflict, others w);
  Update c p w := if managed p && own_version c p (others w) then Update c p (others w) else (Err Conflict, others w);
  Delete c p := after_others (Delete c p);
  range := range;
|}.

Context (HB : bystanders).

Lemma managed_peers_lookup c w x p : managed_peers c w !! x = Some p <-> peers c w !! x = Some p /\ managed p = true.
Proof. unfold managed_peers. apply map_lookup_filter_Some. Qed.

Lemma managed_peers_None c w x : peers c w !! x = None -> managed_peers c w !! x = None.
Proof. intros H. apply map_lookup_filter_None. by left. Qed.

Lemma managed_peers_same c w w' : peers c w' = peers c w -> managed_peers c w' = managed_peers c w.
Proof. unfold managed_peers. by intros ->. Qed.

Lemma managed_peers_insert c x q w w' :
  peers c w' = <[x := q]> (peers c w) -> managed q = true -> managed_peers c w' = <[x := q]> (managed_peers c w).
Proof. unfold managed_peers. intros -> Hq. by rewrite map_filter_insert_True. Qed.

Lemma managed_peers_delete c x w w' :
  peers c w' = delete x (peers c w) -> managed_peers c w' = delete x (managed_peers c w).
Proof. unfold managed_peers. intros ->. apply map_filter_delete. Qed.

Lemma others_managed c w x p : managed_peers c w !! x = Some p -> peers c (others w) !! x = Some p /\ managed p = true.
Proof. rewrite <- (by_peers HB). apply managed_peers_lookup. Qed.

Lemma others_None c w x : peers c (others w) !! x = None -> managed_peers c w !! x = None.
Proof. intros H. rewrite <- (by_peers HB). by apply managed_peers_None. Qed.

(** Writes as the view shows them. *)
Lemma others_same c w w' : peers c w' = peers c (others w) -> managed_peers c w' = managed_peers c w.
Proof. intros E. rewrite <- (by_peers HB c w). by apply managed_peers_same. Qed.

Lemma others_insert c x q w w' :
  peers c w' = <[x := q]> (peers c (others w)) -> managed q = true -> managed_peers c w' = <[x := q]> (managed_peers c w).
Proof. intros E Hq. rewrite <- (by_peers HB c w). by apply managed_peers_insert. Qed.

Lemma others_delete c x w w' :
  peers c w' = delete x (peers c (others w)) -> managed_peers c w' = delete x (managed_peers c w).
Proof. intros E. rewrite <- (by_peers HB c w). by apply managed_peers_delete. Qed.

Definition view_seen (c : C) (w : W) (p : Peer) : Prop := seen c w p /\ managed p = true.

Lemma view_seen_others c w p : view_seen c (others w) p <-> view_seen c w p.
Proof.
  split; intros [H Hm]; (split; [|done]); [by apply (by_history HB)|by apply (by_seen HB)].
Qed.

Lemma view_List c sel w l w' :
  @List C W view_api c sel w = (Ok l, w') ->
  exists l', List c sel (others w) = (Ok l', w') /\ l = managed_only l'.
Proof. cbn. destruct (List c sel (others w)) as [[l'|e] w1]; [|done]. intros [= <- <-]. by exists l'. Qed.

Lemma view_List_world c sel w : (@List C W view_api c sel w).2 = (List c sel (others w)).2.
Proof. cbn. by destruct (List c sel (others w)). Qed.

Lemma view_Create c p w r w' :
  @Create C W view_api c p w = (r, w') ->
  (managed p = true /\ Create c p (others w) = (r, w')) \/ (r = Err Conflict /\ w' = others w).
Proof. cbn. destruct (managed p); [by left|]. intros [= <- <-]. by right. Qed.

Lemma view_Update c p w r w' :
  @Update C W view_api c p w = (r, w') ->
  (managed p = true /\ own_version c p (others w) = true /\ Update c p (others w) = (r, w')) \/
  (r = Err Conflict /\ w' = others w).
Proof.
  cbn. destruct (managed p); cbn [andb]; [|intros [= <- <-]; by right].
  destruct (own_version c p (others w)); [by left|]. intros [= <- <-]. by right.
Qed.

Lemma view_Delete c p w : @Delete C W view_api c p w = Delete c p (others w).
Proof. done. Qed.

(** An update that hits changes a managed peer. *)
Lemma view_Update_hit c p w w' cur q :
  managed p = true -> own_version c p (others w) = true ->
  peers c (others w) !! peer_Name p = Some cur -> peer_ResourceVersion cur = peer_ResourceVersion p ->
  stored q p -> peers c w' = <[peer_Name p := q]> (peers c (others w)) ->
  managed_peers c w !! peer_Name p = Some cur /\ managed_peers c w' = <[peer_Name p := q]> (managed_peers c w).
Proof.
  unfold own_version. intros Hp Ho Hc Hv Hq E. rewrite Hc, bool_decide_eq_true_2 in Ho by done. cbn in Ho. split.
  - rewrite <- (by_peers HB). by apply managed_peers_lookup.
  - apply others_insert; [done|]. by rewrite (managed_stored q p Hq).
Qed.

#[program] Definition view_laws : @PeerAPILaws C W view_api := {|
  peers := managed_peers; seen := view_seen; synced := synced; world_ok := world_ok;
|}.
Next Obligation. intros c sel w Hok. rewrite view_List_world. by apply List_ok, (by_ok HB). Qed.
Next Obligation.
  intros c p w Hok. apply (by_ok HB) in Hok. destruct (@Create C W view_api c p w) as [r w'] eqn:E.
  apply view_Create in E as [[_ E]|[_ ->]]; [|done]. pose proof (Create_ok c p _ Hok) as H. by rewrite E in H.
Qed.
Next Obligation.
  intros c p w Hok. apply (by_ok HB) in Hok. destruct (@Update C W view_api c p w) as [r w'] eqn:E.
  apply view_Update in E as [(_ & _ & E)|[_ ->]]; [|done]. pose proof (Update_ok c p _ Hok) as H. by rewrite E in H.
Qed.
Next Obligation. intros c p w Hok. rewrite view_Delete. by apply Delete_ok, (by_ok HB). Qed.
Next Obligation. intros m w. exact (range_ok m w). Qed.
Next Obligation. intros c w x p Hok [Hp _]%managed_peers_lookup. by eapply peers_name. Qed.
Next Obligation. intros c sel w c'. rewrite view_List_world. apply others_same, List_peers. Qed.
Next Obligation. intros m w c. exact (managed_peers_same c w _ (range_peers m w c)). Qed.
Next Obligation. exact (@range_perm C W api laws). Qed.
Next Obligation. exact (@range_synced C W api laws). Qed.
Next Obligation.
  intros c sel w l w' p Hok (l' & E & ->)%view_List [Hm Hp]%list_elem_of_filter.
  destruct (List_seen c sel _ l' w' p (by_ok HB w Hok) E Hp) as [Hs ?]. split; [|done].
  by apply view_seen_others.
Qed.
Next Obligation.
  intros c sel w l w' Hok (l' & E & ->)%view_List. pose proof (List_NoDup c sel _ l' w' (by_ok HB w Hok) E) as Hnd.
  eapply sublist_NoDup; [exact Hnd|apply fmap_sublist, sublist_filter].
Qed.
Next Obligation.
  intros c sel w l w' Hok Hsy (l' & E & ->)%view_List.
  destruct (List_synced c sel _ l' w' (by_ok HB w Hok) (by_synced HB c w Hsy) E) as [H1 H2]. split; [done|].
  intros p. rewrite list_elem_of_filter, H2, <- (by_peers HB), managed_peers_lookup. tauto.
Qed.
Next Obligation.
  intros c sel w p c' Hp%view_seen_others. rewrite view_List_world. destruct Hp as [Hp Hm]. split; [|done].
  by apply List_keeps.
Qed.
Next Obligation.
  intros c q w p c' Hok Hp%view_seen_others. destruct (@Create C W view_api c q w) as [r w'] eqn:E.
  apply view_Create in E as [[_ E]|[_ ->]]; [|done]. destruct Hp as [Hp Hm]. split; [|done].
  pose proof (Create_keeps c q _ p c' (by_ok HB w Hok) Hp) as H. by rewrite E in H.
Qed.
Next Obligation.
  intros c q w p c' Hok Hp%view_seen_others. destruct (@Update C W view_api c q w) as [r w'] eqn:E.
  apply view_Update in E as [(_ & _ & E)|[_ ->]]; [|done]. destruct Hp as [Hp Hm]. split; [|done].
  pose proof (Update_keeps c q _ p c' (by_ok HB w Hok) Hp) as H. by rewrite E in H.
Qed.
Next Obligation.
  intros c q w p c' Hok Hp%view_seen_others. destruct Hp as [Hp Hm]. split; [|done].
  rewrite view_Delete. by apply Delete_keeps; [apply (by_ok HB)|].
Qed.
Next Obligation. intros m w p c' [Hp Hm]. split; [exact (range_keeps m w p c' Hp)|done]. Qed.
Next Obligation. intros c w p cur Hok [Hp _] [Hc _]%managed_peers_lookup. by eapply seen_version. Qed.
Next Obligation. intros c w p Hok [Hp _]. by eapply seen_versioned. Qed.
Next Obligation. intros c w x p Hok [Hp ?]%managed_peers_lookup. split; [by eapply peers_seen|done]. Qed.
Next Obligation.
  intros c sel w c' p. rewrite view_List_world. intros [Hp Hm]. apply view_seen_others. split; [|done].
  by eapply List_history.
Qed.
Next Obligation. intros m w c' p [Hp Hm]. split; [exact (range_history m w c' p Hp)|done]. Qed.
Next Obligation.
  intros c q w c' p. destruct (@Create C W view_api c q w) as [r w'] eqn:E. cbn [snd]. intros [Hp Hm].
  apply view_Create in E as [[_ E]|[_ ->]]; [|left; by apply view_seen_others].
  pose proof (Create_history c q (others w) c' p) as H. rewrite E in H. destruct (H Hp) as [Hs|[-> Hs]].
  - left. apply view_seen_others. by split.
  - right. split; [done|]. by apply managed_peers_lookup.
Qed.
Next Obligation.
  intros c q w c' p. destruct (@Update C W view_api c q w) as [r w'] eqn:E. cbn [snd]. intros [Hp Hm].
  apply view_Update in E as [(_ & _ & E)|[_ ->]]; [|left; by apply view_seen_others].
  pose proof (Update_history c q (others w) c' p) as H. rewrite E in H. destruct (H Hp) as [Hs|[-> Hs]].
  - left. apply view_seen_others. by split.
  - right. split; [done|]. by apply managed_peers_lookup.
Qed.
Next Obligation.
  intros c q w c' p. rewrite view_Delete. intros [Hp Hm]. apply view_seen_others. split; [|done]. by eapply Delete_history.
Qed.
Next Obligation.
  intros c p w u w' Hok E. apply view_Create in E as [[Hm E]|[? _]]; [|done].
  apply Create_Ok in E as (Hn & q & Hq & E); [|by apply (by_ok HB)]. split; [by apply others_None|].
  exists q. split; [done|]. apply others_insert; [done|]. by rewrite (managed_stored q p).
Qed.
Next Obligation.
  intros c p w e w' Hok E. apply view_Create in E as [[Hm E]|[_ ->]]; [|left; by apply others_same].
  apply Create_Err in E as [E|(Hn & q & Hq & E)]; [left; by apply others_same|right|by apply (by_ok HB)].
  split; [by apply others_None|]. exists q. split; [done|]. apply others_insert; [done|]. by rewrite (managed_stored q p).
Qed.
Next Obligation.
  intros c p w u w' Hok Hrv E. apply view_Update in E as [(Hm & Ho & E)|[? _]]; [|done].
  apply Update_Ok in E as (cur & q & Hc & Hv & Hq & E); [|by apply (by_ok HB)|done].
  destruct (view_Update_hit c p w w' cur q) as [? ?]; [done..|]. by exists cur, q.
Qed.
Next Obligation.
  intros c p w e w' Hok Hrv E. apply view_Update in E as [(Hm & Ho & E)|[_ ->]]; [|left; by apply others_same].
  apply Update_Err in E as [E|(cur & q & Hc & Hv & Hq & E)]; [left; by apply others_same|right|by apply (by_ok HB)|done].
  destruct (view_Update_hit c p w w' cur q) as [? ?]; [done..|]. by exists cur, q.
Qed.
Next Obligation.
  intros c p w u w' Hok. rewrite view_Delete. intros E. apply others_delete. by eapply Delete_Ok; [apply (by_ok HB)|].
Qed.
Next Obligation.
  intros c p w e w' Hok. rewrite view_Delete. intros E. apply Delete_Err in E as [E|E]; [left; by apply others_same|right; by apply others_delete|].
  by apply (by_ok HB).
Qed.
Next Obligation.
  intros c p w w' Hok. rewrite view_Delete. intros E. apply Delete_NotFound in E as [Hn E]; [|by apply (by_ok HB)].
  split; [by apply others_None|by apply others_same].
Qed.
Next Obligation.
  intros c c' p w Hc. destruct (@Create C W view_api c p w) as [r w'] eqn:E. apply others_same. cbn [snd].
  apply view_Create in E as [[_ E]|[_ ->]]; [|done]. pose proof (Create_other c c' p (others w) Hc) as H. by rewrite E in H.
Qed.
Next Obligation.
  intros c c' p w Hc. destruct (@Update C W view_api c p w) as [r w'] eqn:E. apply others_same. cbn [snd].
  apply view_Update in E as [(_ & _ & E)|[_ ->]]; [|done]. pose proof (Update_other c c' p (others w) Hc) as H. by rewrite E in H.
Qed.
Next Obligation. intros c c' p w Hc. rewrite view_Delete. by apply others_same, Delete_other. Qed.

Lemma view_quiet w w' : world_ok w -> quiet (others w) w' -> @quiet C W view_api view_laws w w'.
Proof.
  intros Hok (H1 & H2 & H3). split; [done|]. split; [|intros c; by apply others_same].
  intros c p. cbn. rewrite <- (view_seen_others c w p). unfold view_seen. by rewrite H2.
Qed.

Lemma view_claws : @ControllerLaws C W view_api view_laws crowd_capi.
Proof.
  constructor.
  - intros c w Hok. exact (view_quiet w _ Hok (ListNodes_quiet c (others w) (by_ok HB w Hok))).
  - intros ns name w Hok. exact (view_quiet w _ Hok (GetMesh_quiet ns name (others w) (by_ok HB w Hok))).
  - intros ns w Hok. exact (view_quiet w _ Hok (ListMeshes_quiet ns (others w) (by_ok HB w Hok))).
  - intros m w Hok. exact (view_quiet w _ Hok (UpdateMesh_quiet m (others w) (by_ok HB w Hok))).
  - intros m w Hok. exact (view_quiet w _ Hok (UpdateMeshStatus_quiet m (others w) (by_ok HB w Hok))).
  - intros m w Hok. destruct (@rangeClusters_quiet C W api laws capi claws m w Hok) as (H1 & H2 & H3). split; [done|]. split.
    + intros c p. cbn. unfold view_seen. by rewrite H2.
    + intros c. by apply managed_peers_same.
  - intros m w. exact (@rangeClusters_perm C W api laws capi claws m w).
  - intros ns name w m w'. exact (GetMesh_name ns name (others w) m w').
Qed.

(** ** A calm environment but for the others *)

Context (nodes : C -> list Node) (living : list string) (I : W -> Prop) (HI : calm nodes living I).
(** The keys of the mesh. *)
Context (keys : string -> Prop).

(** The others keep the environment calm, and their peers have neither generated
    names nor keys of the mesh. *)
Record considerate : Prop := {
  co_calm : forall w, I w -> I (others w);
  co_names : forall c w p mesh src node, I w -> seen c w p -> managed p = false -> mesh ∈ living ->
    peer_Name p <> Name mesh src node;
  co_keys : forall c w p, I w -> seen c w p -> managed p = false -> ~ keys (spec_PublicKey (peer_Spec p));
}.
Context (HC : considerate).

Lemma I_ok w : I w -> world_ok w.
Proof. apply (calm_ok _ _ _ HI). Qed.

Lemma view_calm : @calm C W view_api view_laws crowd_capi nodes living I.
Proof.
  constructor.
  - exact I_ok.
  - intros c w Hw. by apply (calm_synced _ _ _ HI).
  - intros c sel w Hw%(co_calm HC). destruct (calm_List _ _ _ HI c sel _ Hw) as [H1 H2]. rewrite view_List_world.
    split; [done|]. intros Hup. destruct (H2 Hup) as [l El]. cbn.
    destruct (List c sel (others w)) as [r w']. cbn in El |- *. subst r. by eexists.
  - intros c p w Hw%(co_calm HC) Hg. destruct (calm_Create _ _ _ HI c p _ Hw Hg) as [H1 H2]. cbn.
    rewrite (generated_managed living p Hg). split; [done|]. intros _ Hn.
    apply H2; [done|]. destruct (peers c (others w) !! peer_Name p) as [q|] eqn:Eq; [|done]. exfalso.
    destruct (managed q) eqn:Hq.
    + change (managed_peers c w !! peer_Name p = None) in Hn. rewrite <- (by_peers HB c w) in Hn.
      rewrite (proj2 (managed_peers_lookup c (others w) _ q)) in Hn; done.
    + pose proof (peers_name _ _ _ _ (I_ok _ Hw) Eq) as En. destruct Hg as (mesh & src & node & Hm & Hg & _).
      eapply (co_names HC c (others w) q mesh src node); [done|by eapply peers_seen, Eq; apply I_ok|done|done|congruence].
  - intros c p w Hw%(co_calm HC) Hl. destruct (calm_Update _ _ _ HI c p _ Hw Hl) as [H1 H2]. cbn.
    destruct (managed p && own_version c p (others w)) eqn:Hm; (split; [done|]);
      intros _ cur Hc%others_managed Hv; destruct Hc as [Hc Hmc]; [by eapply H2|exfalso].
    unfold managed at 1, own_version in Hm. rewrite bool_decide_eq_true_2, Hc in Hm by done.
    rewrite Hmc, orb_true_r in Hm. done.
  - intros c p w Hw%(co_calm HC). destruct (calm_Delete _ _ _ HI c p _ Hw) as [H1 H2]. split; [done|].
    intros _ [q Hq%others_managed]. apply H2; [done|]. exists q. by destruct Hq.
  - exact (calm_range _ _ _ HI).
  - exact (calm_rangeClusters _ _ _ HI).
  - intros c w Hw%(co_calm HC). exact (calm_ListNodes _ _ _ HI c _ Hw).
  - intros ns name w Hw%(co_calm HC). exact (calm_GetMesh _ _ _ HI ns name _ Hw).
  - intros ns w Hw%(co_calm HC). exact (calm_ListMeshes _ _ _ HI ns _ Hw).
  - intros w Hw%(co_calm HC). exact (calm_living _ _ _ HI _ Hw).
Qed.

(** ** Two runs

    [agrees F m1 m2 Q]: from a world in which the peers [F] have been read, [m1] and
    [m2] end in the same world, with results and peers read that satisfy [Q]. *)

Implicit Types F : list (C * Peer).

Definition known F (w : W) : Prop := forall c p, (c, p) ∈ F -> seen c w p /\ managed p = true.

Definition agrees {A1 A2} F (m1 : ST W A1) (m2 : ST W A2) (Q : A1 -> A2 -> list (C * Peer) -> Prop) : Prop :=
  forall w, I w -> known F w ->
    (m1 w).2 = (m2 w).2 /\ I (m1 w).2 /\ (forall c p, seen c w p -> seen c (m1 w).2 p) /\
    exists F', known F' (m1 w).2 /\ Q (m1 w).1 (m2 w).1 F'.

(** With the same result. *)
Abbreviation agree F m1 m2 := (agrees F m1 m2 (fun a b _ => a = b)).

Lemma known_app F F' w : known (F ++ F') w <-> known F w /\ known F' w.
Proof. unfold known. split; [intros H; split; intros c p Hp; apply H, elem_of_app; auto|]. intros [H1 H2] c p [?|?]%elem_of_app; auto. Qed.

Lemma known_nil w : known [] w.
Proof. by intros c p ?%not_elem_of_nil. Qed.

Lemma agrees_ret {A1 A2} F (a1 : A1) (a2 : A2) (Q : A1 -> A2 -> list (C * Peer) -> Prop) :
  Q a1 a2 [] -> agrees F (mret a1) (mret a2) Q.
Proof. intros HQ w Hw _. do 3 (split; [done|]). exists []. split; [apply known_nil|done]. Qed.

Lemma agree_ret {A} F (a : A) : agree F (mret a) (mret a).
Proof. by apply agrees_ret. Qed.

Lemma agrees_bind {A1 A2 B1 B2} F (m1 : ST W A1) (m2 : ST W A2) (f1 : A1 -> ST W B1) (f2 : A2 -> ST W B2) Q R :
  agrees F m1 m2 Q -> (forall a1 a2 F', Q a1 a2 F' -> agrees (F' ++ F) (f1 a1) (f2 a2) R) ->
  agrees F (m1 ≫= f1) (m2 ≫= f2) R.
Proof.
  intros Hm Hf w Hw HF. rewrite !st_bind_run. destruct (Hm w Hw HF) as (E1 & I1 & S1 & F1 & HF1 & HQ). rewrite <- E1.
  destruct (Hf _ _ F1 HQ (m1 w).2 I1) as (E2 & I2 & S2 & F2 & HF2 & HR).
  { apply known_app. split; [done|]. intros c p Hp. destruct (HF c p Hp). auto. }
  split; [done|]. split; [done|]. split; [auto|]. by exists F2.
Qed.

Lemma agree_bind {A B1 B2} F (m1 m2 : ST W A) (f1 : A -> ST W B1) (f2 : A -> ST W B2) R :
  agree F m1 m2 -> (forall a F', agrees (F' ++ F) (f1 a) (f2 a) R) -> agrees F (m1 ≫= f1) (m2 ≫= f2) R.
Proof. intros Hm Hf. eapply agrees_bind; [exact Hm|]. intros a1 a2 F' ->. apply Hf. Qed.

Lemma agrees_mono {A1 A2} F F' (m1 : ST W A1) (m2 : ST W A2) Q : F ⊆ F' -> agrees F m1 m2 Q -> agrees F' m1 m2 Q.
Proof. intros HF Hm w Hw HK. apply Hm; [done|]. intros c p Hp. by apply HK, HF. Qed.

Lemma agrees_weaken {A1 A2} F (m1 : ST W A1) (m2 : ST W A2) (Q R : A1 -> A2 -> list (C * Peer) -> Prop) :
  agrees F m1 m2 Q -> (forall a1 a2 F', Q a1 a2 F' -> R a1 a2 F') -> agrees F m1 m2 R.
Proof. intros Hm HR w Hw HF. destruct (Hm w Hw HF) as (? & ? & ? & F1 & ? & ?). eauto 8. Qed.

Lemma agree_collect {A B} F (f1 f2 : A -> ST W (list B)) l :
  (forall x, x ∈ l -> agree F (f1 x) (f2 x)) -> agree F (st_collect f1 l) (st_collect f2 l).
Proof.
  induction l as [|x l IH]; intros Hf; cbn [st_collect]; [apply agree_ret|].
  apply agree_bind; [apply Hf; left|]. intros bs F1.
  apply agree_bind; [|intros; apply agree_ret]. eapply agrees_mono, IH; [set_solver|]. intros y Hy. apply Hf. by right.
Qed.

Lemma agree_iter {A} F (f1 f2 : A -> ST W unit) l :
  (forall x, x ∈ l -> agree F (f1 x) (f2 x)) -> agree F (st_iter f1 l) (st_iter f2 l).
Proof.
  induction l as [|x l IH]; intros Hf; cbn [st_iter]; [apply agree_ret|].
  apply agree_bind; [apply Hf; left|]. intros [] F1.
  eapply agrees_mono, IH; [set_solver|]. intros y Hy. apply Hf. by right.
Qed.

(** A loop may skip what it does nothing for. *)
Lemma agree_iter_filter {A} F (P : A -> Prop) `{!forall x, Decision (P x)} (f1 f2 : A -> ST W unit) l :
  (forall x, x ∈ l -> P x -> agree F (f1 x) (f2 x)) -> (forall x, ~ P x -> f1 x = mret tt) ->
  agree F (st_iter f1 l) (st_iter f2 (base.filter P l)).
Proof.
  intros Hf Hskip. induction l as [|x l IH]; [apply agree_ret|]. rewrite filter_cons. cbn [st_iter].
  assert (IH' : agree F (st_iter f1 l) (st_iter f2 (base.filter P l))) by (apply IH; intros y Hy; apply Hf; by right).
  case_decide as Hx.
  - cbn [st_iter]. apply agree_bind; [apply Hf; [left|done]|]. intros [] F1. eapply agrees_mono; [|exact IH']. set_solver.
  - rewrite (Hskip x Hx). exact IH'.
Qed.

(** The same request of both, on a world the others have worked on. *)
Lemma agrees_shared {A} F (m : ST W A) (Q : A -> A -> list (C * Peer) -> Prop) :
  (forall w, I w -> I (m w).2 /\ (forall c p, seen c w p -> seen c (m w).2 p)) ->
  (forall w, I w -> Q (m (others w)).1 (m (others w)).1 []) -> agrees F (after_others m) (after_others m) Q.
Proof.
  intros Hm HQ w Hw _. unfold after_others. destruct (Hm (others w)) as [H1 H2]; [by apply (co_calm HC)|].
  split; [done|]. split; [done|]. split; [intros c p Hp; by apply H2, (by_seen HB)|].
  exists []. split; [apply known_nil|by apply HQ].
Qed.

Lemma agree_quiet {A} F (m : ST W A) :
  (forall w, I w -> I (m w).2) -> (forall w, world_ok w -> quiet w (m w).2) -> agree F (after_others m) (after_others m).
Proof.
  intros H1 H2. apply agrees_shared; [|done]. intros w Hw. split; [by apply H1|]. intros c p Hp.
  destruct (H2 w (I_ok w Hw)) as (_ & Hs & _). by apply Hs.
Qed.

Lemma agree_local {A} F (m : ST W A) :
  (forall w, I w -> I (m w).2) -> (forall w c p, world_ok w -> seen c w p -> seen c (m w).2 p) -> agree F m m.
Proof.
  intros H1 H2 w Hw _. split; [done|]. split; [by apply H1|]. split; [intros c p; by apply H2, I_ok|].
  exists []. split; [apply known_nil|done].
Qed.

(** *** Lists *)

Lemma agrees_List F c sel :
  agrees F (@List C W crowd_api c sel) (@List C W view_api c sel) (fun r1 r2 F' =>
    match r1 with
    | Err e => r2 = Err e
    | Ok l => r2 = Ok (managed_only l) /\ F' = pair c <$> managed_only l /\
        (forall p, p ∈ l -> sel (peer_Labels p) = true) /\
        forall p, p ∈ l -> managed p = false -> ~ keys (spec_PublicKey (peer_Spec p))
    end).
Proof.
  intros w Hw _. apply (co_calm HC) in Hw as Hw'. destruct (calm_List _ _ _ HI c sel _ Hw') as [H1 _].
  rewrite view_List_world. cbn. unfold after_others. split; [done|]. split; [done|].
  split; [intros c' p Hp; by apply List_keeps, (by_seen HB)|].
  destruct (List c sel (others w)) as [r w'] eqn:E. cbn in H1 |- *.
  assert (Hl : forall l p, r = Ok l -> p ∈ l -> seen c w' p /\ sel (peer_Labels p) = true).
  { intros l p -> Hp. destruct (List_seen c sel _ l w' p (I_ok _ Hw') E Hp) as [Hs ?]. split; [|done].
    pose proof (List_keeps c sel (others w) p c Hs) as Hk. by rewrite E in Hk. }
  destruct r as [l|e]; [|exists []; split; [apply known_nil|done]].
  exists (pair c <$> managed_only l). split.
  - intros c' p (q & [= -> ->] & [Hm Hq]%list_elem_of_filter)%list_elem_of_fmap. split; [by eapply Hl|done].
  - split; [done|]. split; [done|]. split; intros p Hp; [by eapply Hl|]. intros Hm.
    by apply (co_keys HC c w'); [|eapply Hl|].
Qed.

Lemma managed_only_all (l : list Peer) : (forall p, p ∈ l -> managed p = true) -> managed_only l = l.
Proof.
  induction l as [|p l IH]; intros H; [done|]. rewrite filter_cons_True by (apply H; left).
  f_equal. apply IH. intros q Hq. apply H. by right.
Qed.

(** A list by label is the same for both. *)
Lemma agrees_List_labelled F c sel :
  (forall p, sel (peer_Labels p) = true -> managed p = true) ->
  agrees F (@List C W crowd_api c sel) (@List C W view_api c sel) (fun r1 r2 F' =>
    r1 = r2 /\ forall l p, r1 = Ok l -> p ∈ l -> (c, p) ∈ F').
Proof.
  intros Hsel. eapply agrees_weaken; [apply agrees_List|]. intros [l|e] r2 F'.
  - intros (-> & -> & Hl & _). rewrite managed_only_all by auto. split; [done|]. intros l' p [= <-] Hp.
    apply list_elem_of_fmap. by exists p.
  - intros ->. split; [done|]. by intros.
Qed.

(** *** Writes *)

Lemma agree_Create F c p :
  generated living p -> agree F (@Create C W crowd_api c p) (@Create C W view_api c p).
Proof.
  intros Hg w Hw _. apply (co_calm HC) in Hw as Hw'. destruct (calm_Create _ _ _ HI c p _ Hw' Hg) as [H1 _].
  cbn. rewrite (generated_managed living p Hg). unfold after_others. split; [done|]. split; [done|].
  split; [intros c' q Hq; by apply Create_keeps, (by_seen HB); [apply I_ok|]|]. exists []. split; [apply known_nil|done].
Qed.

Lemma agree_Delete F c p : agree F (@Delete C W crowd_api c p) (@Delete C W view_api c p).
Proof.
  apply agrees_shared; [|done]. intros w Hw. destruct (calm_Delete _ _ _ HI c p _ Hw) as [H1 _]. split; [done|].
  intros c' q Hq. by apply Delete_keeps; [apply I_ok|].
Qed.

(** The object that is written back has been read: if the server still has that
    version, it is that object. *)
Lemma agree_Update F c e p :
  (c, e) ∈ F -> peer_Name p = peer_Name e -> peer_Labels p = peer_Labels e ->
  peer_ResourceVersion p = peer_ResourceVersion e ->
  agree F (@Update C W crowd_api c p) (@Update C W view_api c p).
Proof.
  intros He Hn Hl Hv w Hw HF. destruct (HF c e He) as [Hs Hm]. apply (co_calm HC) in Hw as Hw'.
  assert (Hlp : is_Some (peer_Labels p !! LabelMesh)) by (rewrite Hl; by apply bool_decide_eq_true in Hm).
  destruct (calm_Update _ _ _ HI c p _ Hw' Hlp) as [H1 _].
  assert (Ho : own_version c p (others w) = true).
  { unfold own_version. destruct (peers c (others w) !! peer_Name p) as [cur|] eqn:Ec; [|done].
    case_bool_decide as E; [|done]. cbn. rewrite Hn in Ec. rewrite Hv in E.
    by rewrite (seen_version c (others w) e cur (I_ok _ Hw') (by_seen HB c w e Hs) Ec E). }
  cbn. rewrite (managed_labels p e Hl), Hm, Ho. unfold after_others. cbn [andb]. split; [done|]. split; [done|].
  split; [intros c' q Hq; by apply Update_keeps, (by_seen HB); [apply I_ok|]|]. exists []. split; [apply known_nil|done].
Qed.

Lemma agree_range F (m : gmap string Peer) :
  agrees F (@range C W crowd_api m) (@range C W view_api m) (fun l1 l2 _ => l1 = l2 /\ forall x p, (x, p) ∈ l1 -> m !! x = Some p).
Proof.
  intros w Hw _. split; [done|]. split; [by apply (calm_range _ _ _ HI)|].
  split; [intros c p; exact (range_keeps m w p c)|]. exists []. split; [apply known_nil|]. split; [done|].
  intros x p. exact (proj1 (@range_elem C W api laws m w x p)).
Qed.

Lemma agree_reply {A B} F (m1 m2 : ST W A) (f : A -> ST W B) :
  agree F m1 m2 -> (forall a, exists b, f a = mret b) -> agree F (m1 ≫= f) (m2 ≫= f).
Proof. intros Hm Hf. apply agree_bind; [exact Hm|]. intros a F'. destruct (Hf a) as [b ->]. apply agree_ret. Qed.

(** ** The code takes the same steps *)

Lemma recordByPublicKey_other m p k : spec_PublicKey (peer_Spec p) <> k -> recordByPublicKey m p !! k = m !! k.
Proof.
  intros Hk. unfold recordByPublicKey. destruct (m !! spec_PublicKey (peer_Spec p)); [destruct (str_ltb _ _)|];
    by rewrite ?lookup_insert_ne.
Qed.

Lemma recordByPublicKey_same m m' p k : m !! k = m' !! k -> recordByPublicKey m p !! k = recordByPublicKey m' p !! k.
Proof.
  intros E. destruct (decide (spec_PublicKey (peer_Spec p) = k)) as [<-|Hk]; [|by rewrite !recordByPublicKey_other].
  unfold recordByPublicKey. rewrite E. destruct (m' !! spec_PublicKey (peer_Spec p)) as [q|] eqn:Em; [|by rewrite !lookup_insert_eq].
  destruct (str_ltb _ _); rewrite ?lookup_insert_eq; congruence.
Qed.

(** Peers of others do not change which peer a key of the mesh belongs to. *)
Lemma record_managed_only l m m' k :
  m !! k = m' !! k -> (forall p, p ∈ l -> managed p = false -> spec_PublicKey (peer_Spec p) <> k) ->
  foldl recordByPublicKey m l !! k = foldl recordByPublicKey m' (managed_only l) !! k.
Proof.
  revert m m'; induction l as [|p l IH]; intros m m' E Hl; [done|]. rewrite filter_cons.
  assert (Hl' : forall q, q ∈ l -> managed q = false -> spec_PublicKey (peer_Spec q) <> k) by (intros q Hq; apply Hl; by right).
  case_decide as Hp; cbn [foldl]; apply IH; [by apply recordByPublicKey_same|done| |done].
  rewrite recordByPublicKey_other; [done|]. apply Hl; [left|]. by destruct (managed p).
Qed.

(** What [ReconcilePeers] is given. *)
Definition own_peer (d : Peer) : Prop := generated living d /\ keys (spec_PublicKey (peer_Spec d)).

Lemma agree_createPeer F c x d : generated living d -> agree F (@createPeer C W crowd_api c x d) (@createPeer C W view_api c x d).
Proof. intros Hm. apply agree_reply; [by apply agree_Create|intros []; eauto]. Qed.

Lemma agree_reconcileOne F c existing (all1 all2 : gmap string Peer) x d :
  own_peer d -> (forall e, existing !! x = Some e -> (c, e) ∈ F) ->
  (forall k, keys k -> all1 !! k = all2 !! k) -> (forall k can, keys k -> all2 !! k = Some can -> (c, can) ∈ F) ->
  agree F (@reconcileOne C W crowd_api c existing all1 (x, d)) (@reconcileOne C W view_api c existing all2 (x, d)).
Proof.
  intros [Hm Hk] He Hall Hin. unfold reconcileOne. destruct (existing !! x) as [e|].
  - destruct (peerSpecEqual _ _); [apply agree_ret|]. apply agree_reply; [|intros []; eauto].
    apply (agree_Update F c e); [by apply He|done..].
  - unfold createOrMerge. rewrite (Hall _ Hk). destruct (all2 !! _) as [can|] eqn:Ec; [|by apply agree_createPeer].
    case_decide; [|by apply agree_createPeer]. unfold mergeIntoCanonical. destruct (allowedIPsEqual _ _); [apply agree_ret|].
    apply agree_reply; [|intros []; eauto]. apply (agree_Update F c can); [by eapply Hin|done..].
Qed.

Lemma agrees_buildAll F c :
  agrees F (@buildAllPeersByPublicKey C W crowd_api c) (@buildAllPeersByPublicKey C W view_api c) (fun r1 r2 F' =>
    match r1 with
    | Err e => r2 = Err e
    | Ok m1 => exists m2, r2 = Ok m2 /\ (forall k, keys k -> m1 !! k = m2 !! k) /\
        forall k can, m2 !! k = Some can -> (c, can) ∈ F'
    end).
Proof.
  intros w Hw HF. destruct (agrees_List F c everything w Hw HF) as (E & I1 & S1 & F1 & HF1 & HQ).
  unfold buildAllPeersByPublicKey. rewrite !st_bind_run.
  destruct (@List C W crowd_api c everything w) as [r1 w1], (@List C W view_api c everything w) as [r2 w2].
  cbn [fst snd] in *. subst w2. destruct r1 as [l|e].
  - destruct HQ as (-> & -> & _ & Hk). rewrite !st_ret_run. do 3 (split; [done|]). eexists. split; [exact HF1|].
    cbn [fst]. eexists. split; [done|]. split.
    + intros k Hkey. apply record_managed_only; [done|]. intros p Hp Hm E. apply (Hk p Hp Hm). by rewrite E.
    + intros k can Hcan. pose proof (recordByPublicKey_all (managed_only l) k) as H. rewrite Hcan in H.
      destruct H as (Hin & _). apply list_elem_of_fmap. by exists can.
  - subst r2. rewrite !st_ret_run. do 3 (split; [done|]). exists []. split; [apply known_nil|done].
Qed.

Lemma agree_ReconcilePeers F c mesh src ds :
  (forall d, d ∈ ds -> own_peer d) ->
  agree F (@ReconcilePeers C W crowd_api c mesh src ds) (@ReconcilePeers C W view_api c mesh src ds).
Proof.
  intros Hds. unfold ReconcilePeers. eapply agrees_bind; [apply agrees_buildAll|].
  intros [all1|e] r2 F1; [|intros ->; apply agree_ret]. intros (all2 & -> & Hall & Hin).
  eapply agrees_bind; [apply agrees_List_labelled, managed_selected|].
  intros r ? F2 [<- HF2]. destruct r as [existing|e]; [|apply agree_ret]. cbn zeta.
  assert (Hex : forall x e, buildExistingMap existing !! x = Some e -> (c, e) ∈ F2).
  { intros x e [Hx|[Hx _]]%by_name_from; [by rewrite lookup_empty in Hx|]. by eapply HF2. }
  apply agree_bind.
  - unfold reconcileDesired. eapply agrees_bind; [apply agree_range|]. intros kvs ? F3 [<- Hkvs].
    apply agree_collect. intros [x d] Hx%Hkvs. apply agree_reconcileOne.
    + apply Hds. by apply by_name_from in Hx as [Hx|[? _]]; [rewrite lookup_empty in Hx|].
    + intros e He. apply elem_of_app. right. apply elem_of_app. left. by eapply Hex.
    + done.
    + intros k can _ Hcan. apply elem_of_app. right. apply elem_of_app. right. apply elem_of_app. left. by eapply Hin.
  - intros errs1 F3. apply agree_bind; [|intros; apply agree_ret].
    unfold deleteOrphans. eapply agrees_bind; [apply agree_range|]. intros kvs ? F4 [<- _].
    apply agree_collect. intros [x d] _. unfold deleteOne. destruct (_ !! x); [apply agree_ret|].
    apply agree_reply; [apply agree_Delete|intros []; eauto].
Qed.

Lemma agree_DeleteStale F c mesh sources :
  agree F (@DeleteStaleSourceClusters C W crowd_api c mesh sources) (@DeleteStaleSourceClusters C W view_api c mesh sources).
Proof.
  unfold DeleteStaleSourceClusters. eapply agrees_bind.
  { apply agrees_List_labelled. intros p H%bool_decide_eq_true. apply bool_decide_eq_true. by rewrite H. }
  intros r ? F1 [<- _]. destruct r as [items|e]; [|apply agree_ret]. apply agree_collect. intros p _.
  unfold deleteStaleOne. case_decide; [apply agree_ret|]. apply agree_reply; [apply agree_Delete|intros [|[]]; eauto].
Qed.

Lemma agree_sweep F c names :
  agree F (@sweepOrphanPeersInCluster C W crowd_api c names) (@sweepOrphanPeersInCluster C W view_api c names).
Proof.
  unfold sweepOrphanPeersInCluster. eapply agrees_bind; [apply agrees_List|]. intros [items|e] r2 F1.
  - intros (-> & _). apply agree_iter_filter.
    + intros p _ _. unfold sweepOne. repeat case_decide; try apply agree_ret. apply agree_reply; [apply agree_Delete|eauto].
    + intros p Hp. unfold sweepOne. destruct (peer_Labels p !! LabelMesh) eqn:El; [|done]. exfalso.
      apply Hp. apply bool_decide_eq_true. by rewrite El.
  - intros ->. apply agree_ret.
Qed.

(** *** The controller *)

Context (registry : ClusterRegistry C) (mesh : ClusterMesh).
Context (Hliv : mesh_Name mesh ∈ living).
Context (Hkeys : forall s d, s ∈ mesh_Clusters mesh -> d ∈ desired_of registry mesh nodes s ->
  keys (spec_PublicKey (peer_Spec d))).

Lemma agrees_ListNodes F c :
  agrees F (@ListNodes C W crowd_capi c) (@ListNodes C W crowd_capi c) (fun r1 r2 _ => r1 = Ok (nodes c) /\ r2 = r1).
Proof.
  apply agrees_shared.
  - intros w Hw. destruct (calm_ListNodes _ _ _ HI c w Hw) as [H1 _]. split; [done|]. intros c' p Hp.
    destruct (ListNodes_quiet c w (I_ok w Hw)) as (_ & Hs & _). by apply Hs.
  - intros w Hw. split; [|done]. apply (calm_nodes nodes living I HI c); [done|by apply (co_calm HC)].
Qed.

Lemma agree_ListMeshes F ns : agree F (@ListMeshes C W crowd_capi ns) (@ListMeshes C W crowd_capi ns).
Proof. apply agree_quiet; [intros w; apply (calm_ListMeshes _ _ _ HI)|apply ListMeshes_quiet]. Qed.

Lemma agree_rangeClusters F (m : gmap string C) : agree F (@rangeClusters C W crowd_capi m) (@rangeClusters C W crowd_capi m).
Proof.
  apply agree_local; [intros w; exact (calm_rangeClusters _ _ _ HI m w)|]. intros w c p Hok.
  destruct (@rangeClusters_quiet C W api laws capi claws m w Hok) as (_ & Hs & _). by apply Hs.
Qed.

Lemma own_peer_enriched by_key d : own_peer d -> own_peer (enrichOne by_key d).
Proof.
  unfold own_peer, generated. by destruct (enrichOne_keeps by_key d) as (-> & -> & ->).
Qed.

(** What is pushed to a target are the peers of the mesh. *)
Lemma agrees_enrich F c ds :
  (forall d, d ∈ ds -> own_peer d) ->
  agrees F (@enrichEndpointsFromDiscovered C W crowd_capi c ds) (@enrichEndpointsFromDiscovered C W crowd_capi c ds)
    (fun r1 r2 _ => r1 = r2 /\ forall d, d ∈ match r1 with Err _ => ds | Ok ps => ps end -> own_peer d).
Proof.
  intros Hds. unfold enrichEndpointsFromDiscovered. eapply agrees_bind; [apply agrees_ListNodes|]. intros r ? F1 [-> ->].
  destruct (DiscoveredEndpointsByKey _ _) as [by_key|e]; [|by apply agrees_ret].
  case_decide; apply agrees_ret; (split; [done|]); [done|].
  intros d (d0 & -> & Hd)%list_elem_of_fmap. by apply own_peer_enriched, Hds.
Qed.

Lemma agree_pushLoop F name s ds targets :
  (forall d, d ∈ ds -> own_peer d) ->
  agree F (@pushLoop C W crowd_api crowd_capi registry name s ds targets)
    (@pushLoop C W view_api crowd_capi registry name s ds targets).
Proof.
  intros Hds. revert F; induction targets as [|t targets IH]; intros F; cbn [pushLoop]; [apply agree_ret|].
  case_decide; [apply IH|]. destruct (Client registry (entry_Name t)) as [c|]; [|apply IH].
  eapply agrees_bind; [by apply agrees_enrich|]. intros r ? F1 [<- Hr]. cbn zeta.
  apply agree_bind; [by apply agree_ReconcilePeers|]. intros [|e errs] F2; [apply IH|apply agree_ret].
Qed.

Lemma desired_own s d : s ∈ mesh_Clusters mesh -> d ∈ desired_of registry mesh nodes s -> own_peer d.
Proof.
  intros Hs Hd. split; [by eapply desired_of_generated|by eapply Hkeys].
Qed.

(** [mesh'] is [mesh] but for its conditions. *)
Context (mesh' : ClusterMesh) (Hname : mesh_Name mesh' = mesh_Name mesh) (Hclusters : mesh_Clusters mesh' = mesh_Clusters mesh).

Lemma agree_reconcileSource F s :
  s ∈ mesh_Clusters mesh ->
  agree F (@reconcileSource C W crowd_api crowd_capi registry mesh' s) (@reconcileSource C W view_api crowd_capi registry mesh' s).
Proof.
  intros Hs. unfold reconcileSource. destruct (Client registry (entry_Name s)) as [cs|] eqn:Ec; [|apply agree_ret].
  eapply agrees_bind; [apply agrees_ListNodes|]. intros r ? F1 [-> ->].
  destruct (filterNodes (nodes cs) s) as [[valid skipped] transient] eqn:Ef. cbn zeta.
  apply agree_bind; [|intros [n|e] F2; apply agree_ret].
  unfold pushPeersToTargets. rewrite Hname.
  assert (Ek : meshPersistentKeepalive mesh' = meshPersistentKeepalive mesh) by (unfold meshPersistentKeepalive; by rewrite Hclusters).
  rewrite Ek. destruct (buildDesiredPeers _ _ _ _) as [ps|[node e]] eqn:Eb; [|apply agree_ret].
  apply agree_bind; [|intros [e|] F2; apply agree_ret]. apply agree_pushLoop.
  intros d Hd. apply (desired_own s); [done|]. unfold desired_of. rewrite Ec, Ef. cbn [fst]. by rewrite Eb.
Qed.

Lemma agree_reconcileSources F sources :
  sources ⊆ mesh_Clusters mesh ->
  agree F (@reconcileSources C W crowd_api crowd_capi registry mesh' sources)
    (@reconcileSources C W view_api crowd_capi registry mesh' sources).
Proof.
  revert F; induction sources as [|s sources IH]; intros F Hs; cbn [reconcileSources]; [apply agree_ret|].
  apply agree_bind; [apply agree_reconcileSource, Hs; left|]. intros [[status inc]|e] F1; [|apply agree_ret].
  apply agree_bind; [apply IH; set_solver|]. intros [[statuses inc']|e] F2; apply agree_ret.
Qed.

Lemma agree_cleanupStale F :
  agree F (@cleanupStaleSourceClusters C W crowd_api crowd_capi registry mesh')
    (@cleanupStaleSourceClusters C W view_api crowd_capi registry mesh').
Proof.
  unfold cleanupStaleSourceClusters. apply agree_bind; [apply agree_rangeClusters|]. intros names F1.
  apply agree_iter. intros n _. destruct (Client registry n) as [c|]; [|apply agree_ret].
  apply agree_reply; [apply agree_DeleteStale|eauto].
Qed.

Lemma agree_cleanupOrphans F :
  agree F (@cleanupOrphanMeshPeers C W crowd_api crowd_capi registry) (@cleanupOrphanMeshPeers C W view_api crowd_capi registry).
Proof.
  unfold cleanupOrphanMeshPeers, collectLivingMeshes. apply agree_bind.
  - apply agree_reply; [apply agree_ListMeshes|intros []; eauto].
  - intros [names|] F1; [|apply agree_ret]. apply agree_bind; [apply agree_rangeClusters|]. intros ns F2.
    apply agree_iter. intros n _. destruct (Client registry n) as [c|]; [|apply agree_ret]. apply agree_sweep.
Qed.

Lemma agree_run {A} (m1 m2 : ST W A) w : agree [] m1 m2 -> I w -> m1 w = m2 w /\ I (m1 w).2.
Proof.
  intros Hm Hw. destruct (Hm w Hw (known_nil w)) as (E & I1 & _ & _ & _ & Ea). split; [|done].
  rewrite (surjective_pairing (m1 w)), (surjective_pairing (m2 w)). by rewrite E, Ea.
Qed.

End Crowd.

(** ** A whole reconcile *)

Section Whole.
Context {C W : Type} {api : PeerAPI C W} {laws : PeerAPILaws C W}.
Context {capi : ControllerAPI C W} {claws : ControllerLaws C W} {C_eq : EqDecision C}.
Context (others : W -> W) (HB : bystanders others).
Context (registry : ClusterRegistry C) (message : mesh_error -> string) (mesh : ClusterMesh) (nodes : C -> list Node).

Definition mesh_keys (key : string) : Prop :=
  exists s d, s ∈ mesh_Clusters mesh /\ d ∈ desired_of registry mesh nodes s /\ spec_PublicKey (peer_Spec d) = key.

Context (living : list string) (I : W -> Prop) (HI : calm nodes living I) (HC : considerate others living I mesh_keys).
Context (Hliv : mesh_Name mesh ∈ living).

Lemma reconcileLive_same w :
  I w ->
  @reconcileLive C W (crowd_api others) (crowd_capi others) registry mesh w =
  @reconcileLive C W (view_api others) (crowd_capi others) registry mesh w.
Proof.
  intros Hw. unfold reconcileLive, reconcileAllClusters. cbn zeta. set (mesh' := setCondition mesh _ _ _ _).
  assert (Hk : forall s d, s ∈ mesh_Clusters mesh -> d ∈ desired_of registry mesh nodes s ->
    mesh_keys (spec_PublicKey (peer_Spec d))) by (intros s d ? ?; by exists s, d).
  rewrite !st_bind_run.
  destruct (agree_run I _ _ w (agree_reconcileSources others HB nodes living I HI mesh_keys HC registry mesh Hliv Hk mesh'
    eq_refl eq_refl [] (mesh_Clusters mesh) ltac:(done)) Hw) as [E1 I1].
  change (mesh_Clusters mesh') with (mesh_Clusters mesh). rewrite <- E1. set (r1 := @reconcileSources _ _ _ _ _ _ _ w) in *.
  clearbody r1. destruct r1 as [[[sts inc]|e] w1]; [|done]. cbn [fst snd] in *. rewrite !st_bind_run.
  destruct (agree_run I _ _ w1 (agree_cleanupStale others HB nodes living I HI mesh_keys HC registry mesh' []) I1) as [E2 I2].
  rewrite <- E2. set (w2 := (@cleanupStaleSourceClusters _ _ _ _ _ _ w1).2) in *. clearbody w2.
  destruct (agree_run I _ _ w2 (agree_cleanupOrphans others HB nodes living I HI mesh_keys HC registry []) I2) as [E3 _].
  by rewrite <- E3.
Qed.

(** The run on the crowded servers is the run on the view. *)
Lemma reconcile_same ns name w w1 :
  I w -> @GetMesh C W (crowd_capi others) ns name w = (Ok mesh, w1) ->
  mesh_Deleting mesh = false -> ContainsFinalizer mesh = true ->
  @reconcile C W (crowd_api others) (crowd_capi others) registry message ns name w =
  @reconcile C W (view_api others) (crowd_capi others) registry message ns name w.
Proof.
  intros Hw Eg Hd Hf. unfold reconcile. rewrite !st_bind_run, Eg. cbn [fst snd]. rewrite Hd, Hf. cbn [negb].
  pose proof (calm_GetMesh _ _ _ HI ns name (others w) (co_calm _ _ _ _ HC w Hw)) as I1.
  change ((GetMesh ns name (others w)).2) with ((@GetMesh C W (crowd_capi others) ns name w).2) in I1.
  rewrite Eg in I1. cbn [snd] in I1. unfold validateMeshNetworks. rewrite !st_bind_run.
  pose proof (calm_ListMeshes _ _ _ HI (Some (mesh_Namespace mesh)) (others w1) (co_calm _ _ _ _ HC w1 I1)) as I2.
  change ((ListMeshes (Some (mesh_Namespace mesh)) (others w1)).2)
    with ((@ListMeshes C W (crowd_capi others) (Some (mesh_Namespace mesh)) w1).2) in I2.
  destruct (@ListMeshes C W (crowd_capi others) _ w1) as [[items|e] w2]; cbn [fst snd] in *; rewrite !st_ret_run; cbn [fst snd];
    [destruct (ValidateMeshNetworks items); [done|]|]; by apply reconcileLive_same.
Qed.

(** Convergence is about managed peers. *)
Lemma mesh_converged_managed w w' :
  (forall c, managed_peers c w' = managed_peers c w) ->
  mesh_converged registry mesh nodes w -> mesh_converged registry mesh nodes w'.
Proof.
  intros E.
  assert (HM : forall c y p, managed p = true -> peers c w' !! y = Some p <-> peers c w !! y = Some p).
  { intros c y p Hp. pose proof (managed_peers_lookup c w y p) as H1. pose proof (managed_peers_lookup c w' y p) as H2.
    rewrite E in H2. tauto. }
  intros [HR HS]. split.
  - intros s t cs c Hs Ht Hne Hcs Hc. destruct (HR s t cs c Hs Ht Hne Hcs Hc) as [C1 C2]. split.
    + intros d Hd. destruct (C1 d Hd) as (q & Hq & Hsp & Hl). exists q. split; [|done].
      apply HM; [by eapply managed_selected|done].
    + intros y p Hp Hl. eapply C2; [|exact Hl]. apply HM; [by eapply managed_selected|done].
  - intros n c Hc y p Hp Hl. eapply HS; [exact Hc| |exact Hl]. apply HM; [|done].
    apply bool_decide_eq_true. by rewrite Hl.
Qed.

Lemma ghost_free_managed w w' :
  (forall c, managed_peers c w' = managed_peers c w) ->
  ghost_free registry living w -> ghost_free registry living w'.
Proof.
  intros E HG n c y p Hc Hp Hg. eapply (HG n c y p Hc); [|exact Hg].
  assert (Hm : managed p = true).
  { apply bool_decide_eq_true. destruct Hg as [Hl _]. destruct (peer_Labels p !! LabelMesh); [by eexists|done]. }
  apply (managed_peers_lookup c w y p). rewrite <- E. by apply managed_peers_lookup.
Qed.

(** What the view shows of a converged mesh. *)
Lemma view_converged w :
  @mesh_converged C W (view_api others) (view_laws others HB) (crowd_capi others) registry mesh nodes w ->
  mesh_converged registry mesh nodes w.
Proof.
  intros [HR HS]. split.
  - intros s t cs c Hs Ht Hne Hcs Hc. destruct (HR s t cs c Hs Ht Hne Hcs Hc) as [C1 C2]. split.
    + intros d Hd. destruct (C1 d Hd) as (q & Hq & Hsp & Hl). exists q. split; [|done].
      by apply (managed_peers_lookup c w) in Hq as [? _].
    + intros y p Hp Hl. eapply C2; [|exact Hl]. apply managed_peers_lookup. split; [done|]. by eapply managed_selected.
  - intros n c Hc y p Hp Hl. eapply (HS n c Hc y p); [|exact Hl]. apply managed_peers_lookup. split; [done|].
    apply bool_decide_eq_true. by rewrite Hl.
Qed.

Lemma view_ghost_free w :
  @ghost_free C W (view_api others) (view_laws others HB) registry living w -> ghost_free registry living w.
Proof.
  intros HG n c y p Hc Hp Hg. eapply (HG n c y p Hc); [|exact Hg]. apply managed_peers_lookup. split; [done|].
  apply bool_decide_eq_true. destruct Hg as [Hl _]. destruct (peer_Labels p !! LabelMesh); [by eexists|done].
Qed.

Lemma view_unclaimed c w :
  unclaimed registry mesh nodes c w ->
  @unclaimed C W (view_api others) (view_laws others HB) registry mesh nodes c w.
Proof.
  intros [U1 U2]. constructor.
  - intros s d y p Hs Hd [Hp _]%managed_peers_lookup. by eapply U1.
  - intros s d p Hs Hd [Hp _]%managed_peers_lookup. by eapply U2.
Qed.

End Whole.

(** C3. Convergence among others. Let others write before every request of a
    reconcile, peers of their own on any cluster, in any way that leaves managed
    peers alone and takes neither a generated name nor a key of the mesh; let the
    environment be calm otherwise. Then the reconcile of a live valid mesh converges
    as if it were alone, and what it has reached survives whatever they do next. *)
Theorem reconcile_converges_among_others {C W : Type} {api : PeerAPI C W} {laws : PeerAPILaws C W}
    {capi : ControllerAPI C W} {claws : ControllerLaws C W} {C_eq : EqDecision C}
    (others : W -> W) registry message mesh nodes living I ns name (w w1 : W) :
  bystanders others -> calm nodes living I -> considerate others living I (mesh_keys registry mesh nodes) -> I w ->
  @GetMesh C W (crowd_capi others) ns name w = (Ok mesh, w1) ->
  mesh_Deleting mesh = false -> ContainsFinalizer mesh = true ->
  (forall items w2, @ListMeshes C W (crowd_capi others) (Some (mesh_Namespace mesh)) w1 = (Ok items, w2) ->
     ValidateMeshNetworks items = None) ->
  mesh_Name mesh ∈ living ->
  (forall s, s ∈ mesh_Clusters mesh -> 0 <= entry_WireguardPort s < 65536) ->
  (forall n n' c, Client registry n = Some c -> Client registry n' = Some c -> n = n') ->
  distinct_peers registry mesh nodes ->
  (forall n c, Client registry n = Some c -> unclaimed registry mesh nodes c w) ->
  let r := @reconcile C W (crowd_api others) (crowd_capi others) registry message ns name w in
  (forall k, mesh_converged registry mesh nodes (Nat.iter k others r.2) /\
             ghost_free registry living (Nat.iter k others r.2)) /\
  (r.1.2 = None \/ exists e, r.1.2 = Some (UpdatingStatus e)) /\
  (r.1.1 = reconcileStateBootstrap \/ r.1.1 = reconcileStateSynced).
Proof.
  intros HB HI HC Hw Eg Hdel Hfin Hval Hliv Hport Hinj HD Hu r.
  assert (Er : r = @reconcile C W (view_api others) (crowd_capi others) registry message ns name w).
  { exact (reconcile_same others HB registry message mesh nodes living I HI HC Hliv ns name w w1 Hw Eg Hdel Hfin). }
  destruct (@reconcile_calm C W (view_api others) (view_laws others HB) (crowd_capi others) (view_claws others HB) C_eq
    registry message (fun _ => True) nodes living I ns name mesh w w1) as (H1 & H2 & H3 & H4 & _); try done.
  - by apply (view_calm others HB nodes living I HI (mesh_keys registry mesh nodes)).
  - intros n c Hc. apply view_unclaimed. by eapply Hu.
  - rewrite <- Er in H1, H2, H3, H4. split; [|done]. intros k.
    assert (E : forall c, managed_peers c (Nat.iter k others r.2) = managed_peers c r.2).
    { intros c. induction k as [|k IH]; [done|]. cbn. by rewrite (by_peers others HB). }
    split.
    + apply (mesh_converged_managed registry mesh nodes r.2); [done|]. by apply (view_converged others HB).
    + apply (ghost_free_managed registry living r.2); [done|]. by apply (view_ghost_free others HB).
Qed.

(** ** A concrete crowd *)

Module Visitors.
Import Memory.

(** The visitor [p] comes to cluster [c] when it is not there, and leaves when it is. *)
Definition visit (c : string) (p : Peer) (w : world) : world :=
  match objects c w !! peer_Name p with
  | None => put c p w
  | Some cur => if managed cur then w else (delete_ c p w).2
  end.

Lemma managed_assigned p w : managed (assigned p w) = managed p.
Proof. done. Qed.

Lemma visit_ok c p w : ok w -> ok (visit c p w).
Proof.
  intros Hw. unfold visit. destruct (objects c w !! _) as [cur|]; [|by apply put_ok].
  destruct (managed cur); [done|by apply delete_ok].
Qed.

Lemma visit_peers c p w c' : managed p = false -> managed_peers c' (visit c p w) = managed_peers c' w.
Proof.
  intros Hp. unfold visit, managed_peers. cbn [peers laws].
  destruct (objects c w !! peer_Name p) as [cur|] eqn:E.
  - destruct (managed cur) eqn:Hc; [done|]. unfold delete_. rewrite E. cbn [snd]. rewrite objects_delete.
    case_decide as Hcc; [|done]. subst c'. apply map_filter_delete_not. intros q Hq. rewrite E in Hq. injection Hq as <-.
    cbn [snd]. by rewrite Hc.
  - rewrite objects_put. case_decide as Hcc; [|done]. subst c'. apply map_filter_insert_not'.
    + cbn [snd]. by rewrite managed_assigned, Hp.
    + by rewrite E.
Qed.

Lemma visit_was c p w c' q : was c' (visit c p w) q -> was c' w q \/ q = assigned p w.
Proof.
  unfold visit. destruct (objects c w !! _) as [cur|]; [destruct (managed cur); [by left|]|].
  - intros H%delete_was. by left.
  - intros [[_ ->]|?]%was_put; auto.
Qed.

Lemma visit_keeps c p w c' q : was c' w q -> was c' (visit c p w) q.
Proof.
  intros H. unfold visit. destruct (objects c w !! _) as [cur|]; [destruct (managed cur); [done|]|].
  - by apply delete_was.
  - apply was_put. by right.
Qed.

Lemma visit_bystanders c p : managed p = false -> bystanders (visit c p).
Proof.
  intros Hp. constructor.
  - by apply visit_ok.
  - done.
  - intros c' w. by apply visit_peers.
  - intros c' w q. apply visit_keeps.
  - intros c' w q Hq [?| ->]%visit_was; [done|]. by rewrite managed_assigned, Hp in Hq.
Qed.

Lemma bystanders_both f g : bystanders f -> bystanders g -> bystanders (fun w => g (f w)).
Proof.
  intros [F1 F2 F3 F4 F5] [G1 G2 G3 G4 G5]. constructor; eauto.
  intros c w. by rewrite G3, F3.
Qed.

(** A laptop that wanders between the clusters. *)
Definition laptop : Peer := mkPeer "laptop" ∅ "" (mkPeerSpec ["10.9.0.7/32"] None 0 "" "key-laptop").
Definition crowd (w : world) : world := visit "c" laptop (visit "a" laptop w).

Lemma crowd_bystanders : bystanders crowd.
Proof. exact (bystanders_both _ _ (visit_bystanders "a" laptop eq_refl) (visit_bystanders "c" laptop eq_refl)). Qed.

Import Convergence.Witness.

(** The cluster is at work, and nobody but the laptop has ever come by. *)
Definition alone_with (p : Peer) (w : world) : Prop :=
  forall c q, was c w q -> managed q = false -> peer_Name q = peer_Name p /\ peer_Spec q = peer_Spec p.

Definition calm_crowd (w : world) : Prop := MemoryCalm.steady Controller.Scenario.nodes [two] w /\ alone_with laptop w.

Lemma alone_put c q p w : managed q = true \/ q = p -> alone_with p w -> alone_with p (put c q w).
Proof.
  intros Hq H c' x [[_ ->]|Hx]%was_put Hm; [|by eapply H]. rewrite managed_assigned in Hm.
  destruct Hq as [Hq| ->]; [congruence|done].
Qed.

Lemma alone_delete c q p w : alone_with p w -> alone_with p (delete_ c q w).2.
Proof. intros H c' x Hx%delete_was. by eapply H. Qed.

Lemma alone_visit c p w : alone_with p w -> alone_with p (visit c p w).
Proof.
  intros H. unfold visit. destruct (objects c w !! _) as [cur|]; [destruct (managed cur); [done|by apply alone_delete]|].
  apply alone_put; auto.
Qed.

Lemma steady_delete ns ms c p w : MemoryCalm.steady ns ms w -> MemoryCalm.steady ns ms (delete_ c p w).2.
Proof.
  intros (Hok & Hn & Hm). split; [by apply delete_ok|]. unfold delete_. by destruct (objects c w !! _).
Qed.

Lemma steady_visit ns ms c p w : MemoryCalm.steady ns ms w -> MemoryCalm.steady ns ms (visit c p w).
Proof.
  intros Hw. unfold visit. destruct (objects c w !! _) as [cur|]; [destruct (managed cur); [done|by apply steady_delete]|].
  by apply MemoryCalm.put_holding.
Qed.

Lemma calm_crowd_calm : calm nodes_of [mesh_Name two] calm_crowd.
Proof.
  pose proof (MemoryCalm.memory_calm Controller.Scenario.nodes [two]) as HI. constructor.
  - intros w [H _]. by apply (calm_ok _ _ _ HI).
  - done.
  - intros c sel w Hw. split; [done|]. intros _. by eexists.
  - intros c p w [H1 H2] Hg. destruct (calm_Create _ _ _ HI c p w H1 Hg) as [H3 H4]. split; [split; [done|]|done].
    simpl. unfold create. destruct (objects c w !! _); [done|]. apply alone_put; [|done]. left. by eapply generated_managed.
  - intros c p w [H1 H2] Hl. destruct (calm_Update _ _ _ HI c p w H1 Hl) as [H3 H4]. split; [split; [done|]|done].
    simpl. unfold update. destruct (objects c w !! _); [|done]. case_decide; [|done]. apply alone_put; [|done].
    left. by apply bool_decide_eq_true.
  - intros c p w [H1 H2]. destruct (calm_Delete _ _ _ HI c p w H1) as [H3 H4]. split; [split; [done|]|done].
    by apply alone_delete.
  - done.
  - done.
  - intros c w Hw. split; [done|]. left. destruct Hw as [(_ & Hn & _) _]. unfold nodes_of, MemoryCalm.nodes_in. by rewrite <- Hn.
  - done.
  - done.
  - intros w [H _]. by apply (calm_living _ _ _ HI).
Qed.

Lemma crowd_considerate :
  considerate crowd [mesh_Name two] calm_crowd (mesh_keys Controller.Scenario.everywhere two nodes_of).
Proof.
  constructor.
  - intros w [H1 H2]. split; [by do 2 apply steady_visit|by do 2 apply alone_visit].
  - intros c w p mesh src node [_ H] Hs Hm ->%list_elem_of_singleton. destruct (H c p Hs Hm) as [-> _].
    destruct (Naming.Name_head "m"%char "" src node eq_refl) as [t E]. unfold two. cbn [mesh_Name Controller.Scenario.mesh]. rewrite E. discriminate.
  - intros c w p [_ H] Hs Hm (s & d & Hin & Hd & E). destruct (H c p Hs Hm) as [_ Hsp]. rewrite Hsp in E.
    destruct (wants_one s Hin) as (q & Eq & _ & Hk). unfold wants in Eq. rewrite Eq in Hd.
    apply list_elem_of_singleton in Hd as ->. rewrite Hk in E. discriminate.
Qed.

End Visitors.

(** The mesh of clusters a and b converges while a laptop comes to a and to c, or
    leaves them, before every request: more than ten times in one reconcile. *)
Lemma reconcile_converges_among_others_witness :
  let r := @reconcile string Memory.world (crowd_api Visitors.crowd) (crowd_capi Visitors.crowd)
    Controller.Scenario.everywhere (fun _ => "overlap") "ns" "m" (Controller.Scenario.start [Convergence.Witness.two]) in
  (forall k, mesh_converged Controller.Scenario.everywhere Convergence.Witness.two Convergence.Witness.nodes_of
    (Nat.iter k Visitors.crowd r.2)) /\
  Controller.Scenario.has "a" r.2 (Name "m" "b" "nb") = true /\
  (10 < length (base.filter (fun cp => peer_Name cp.2 = "laptop") (Memory.w_history r.2)))%nat.
Proof.
  intros r. split; [|split; [vm_compute; reflexivity|apply (bool_decide_unpack _); vm_compute; exact Logic.I]]. intros k.
  apply (reconcile_converges_among_others Visitors.crowd Controller.Scenario.everywhere (fun _ => "overlap") Convergence.Witness.two
    Convergence.Witness.nodes_of [mesh_Name Convergence.Witness.two] Visitors.calm_crowd "ns" "m"
    (Controller.Scenario.start [Convergence.Witness.two]) (Visitors.crowd (Controller.Scenario.start [Convergence.Witness.two]))).
  - exact Visitors.crowd_bystanders.
  - exact Visitors.calm_crowd_calm.
  - exact Visitors.crowd_considerate.
  - split; [split; [apply Controller.Witness.mesh_start_ok|split; reflexivity]|]. intros c q []%not_elem_of_nil.
  - reflexivity.
  - reflexivity.
  - reflexivity.
  - intros items w2 [= <- _]. vm_compute. reflexivity.
  - left.
  - intros s [->|[->|[]%not_elem_of_nil]%elem_of_cons]%elem_of_cons; cbn; lia.
  - exact Convergence.Witness.everywhere_injective.
  - exact Convergence.Witness.two_distinct.
  - intros n c _. apply Convergence.Witness.start_unclaimed.
Defined.
