(* ===== verification/Restart.v ===== *)
(** * [internal/restart] and [internal/multicluster/mapper.go]

    The change watcher, which restarts the operator when the configuration of the
    clusters changes, and the recovery from stale discovery data. The API client,
    [sort.Slice] (which does not fix the order of equal elements) and the
    construction of a REST mapper appear as parameters. *)

From Stdlib Require Import Ascii String.
From S2P Require Import Prelude GoStrings GoNet Sha256 Naming Types Kube.
Open Scope Z_scope.
Open Scope go_scope.

(** ** [json.Marshal] of the fingerprint data *)

Definition quote : ascii := ascii_of_N 34.
Definition str1 (c : ascii) : string := String c EmptyString.

(** [\u00XX] for the byte [b]. *)
Definition u00 (b : Z) : string := "\u00" +:+ hex_byte b.

(** The escape of an ASCII byte, with [EscapeHTML] on. *)
Definition json_ascii (b : Z) : string :=
  if (b =? 34) || (b =? 92) then String "\" (str1 (ascii_of_N (Z.to_N b)))
  else if b =? 8 then "\b" else if b =? 12 then "\f" else if b =? 10 then "\n"
  else if b =? 13 then "\r" else if b =? 9 then "\t"
  else if (b <? 32) || (b =? 60) || (b =? 62) || (b =? 38) then u00 b
  else str1 (ascii_of_N (Z.to_N b)).

Fixpoint json_runes (fuel : nat) (s : list Z) : string :=
  match fuel with
  | O => EmptyString
  | S f =>
      match s with
      | [] => EmptyString
      | b :: rest =>
          if b <? 128 then json_ascii b +:+ json_runes f rest
          else
            let '(r, w) := DecodeRune s in
            let out :=
              if (r =? RuneError) && (w =? 1)%nat then "\ufffd"
              else if r =? 0x2028 then "\u2028" else if r =? 0x2029 then "\u2029"
              else string_of ((fun b => ascii_of_N (Z.to_N b)) <$> take w s) in
            out +:+ json_runes f (drop w s)
      end
  end.
Definition json_string (s : string) : string :=
  let bs := bytes_of_string s in str1 quote +:+ json_runes (length bs) bs +:+ str1 quote.

Record clusterRef : Type := mkClusterRef {
  cr_Name : string;
  cr_SecretNamespace : string;
  cr_SecretName : string;
  cr_SecretRV : string;
}.

#[export] Instance clusterRef_eq_dec : EqDecision clusterRef.
Proof. solve_decision. Defined.

Definition json_ref (r : clusterRef) : string :=
  "{" +:+ json_string "name" +:+ ":" +:+ json_string (cr_Name r) +:+
  "," +:+ json_string "secretNamespace" +:+ ":" +:+ json_string (cr_SecretNamespace r) +:+
  "," +:+ json_string "secretName" +:+ ":" +:+ json_string (cr_SecretName r) +:+
  "," +:+ json_string "secretRV" +:+ ":" +:+ json_string (cr_SecretRV r) +:+ "}".

Fixpoint json_refs (refs : list clusterRef) : string :=
  match refs with
  | [] => "]"
  | [r] => json_ref r +:+ "]"
  | r :: refs' => json_ref r +:+ "," +:+ json_refs refs'
  end.

(** A nil slice is [null]: with no entries [refs] is never appended to. *)
Definition Marshal (refs : list clusterRef) : string :=
  match refs with [] => "null" | _ => "[" +:+ json_refs refs end.

Example Marshal_example :
  Marshal [mkClusterRef "a" "" "" ""] =
  "[{" +:+ json_string "name" +:+ ":" +:+ json_string "a" +:+ "," +:+ json_string "secretNamespace" +:+ ":" +:+
  json_string "" +:+ "," +:+ json_string "secretName" +:+ ":" +:+ json_string "" +:+ "," +:+
  json_string "secretRV" +:+ ":" +:+ json_string "" +:+ "}]".
Proof. by vm_compute. Qed.

(** ** The change watcher *)

Class WatcherAPI (W : Type) : Type := {
  WatchedMeshes : option string -> ST W (result kube_error (list ClusterMesh));
  (* Get of a Secret: its resource version *)
  GetSecretVersion : string -> string -> ST W (result kube_error string);
  (* sort.Slice by Name *)
  sortByName : list clusterRef -> list clusterRef;
}.

(** [sort.Slice] sorts, and says nothing about elements with equal names. *)
Class WatcherLaws (W : Type) `{WatcherAPI W} : Prop := {
  sortByName_perm refs : sortByName refs ≡ₚ refs;
  sortByName_sorted refs : Sorted str_le (cr_Name <$> sortByName refs);
}.

Section Watcher.
Context {W : Type} `{WatcherAPI W}.

Definition secretResourceVersion (namespace name : string) : ST W string :=
  let? rv := GetSecretVersion namespace name catch _ => mret "";
  mret rv.

Definition refOf (meshNS : string) (c : ClusterEntry) : ST W (list clusterRef) :=
  match entry_KubeconfigSecretRef c with
  | None => mret [mkClusterRef (entry_Name c) "" "" ""]
  | Some ref =>
      rv ← secretResourceVersion meshNS (ref_Name ref);
      mret [mkClusterRef (entry_Name c) meshNS (ref_Name ref) rv]
  end.

Definition collectRefs (meshes : list ClusterMesh) : ST W (list clusterRef) :=
  refs ← st_collect (fun m => st_collect (refOf (mesh_Namespace m)) (mesh_Clusters m)) meshes;
  mret (sortByName refs).

Definition computeFingerprint : ST W (result kube_error string) :=
  let? items := WatchedMeshes None catch err => mret (Err err);
  refs ← collectRefs items;
  mret (Ok (EncodeToString (Sum256 (bytes_of_string (Marshal refs))))).

(** The start-up code calls it by this name. *)
Definition ComputeFingerprint : ST W (result kube_error string) := computeFingerprint.

(** [Ok true]: [Cancel] is called. *)
Definition watcherReconcile (StartFingerprint : string) : ST W (result kube_error bool) :=
  let? f := computeFingerprint catch err => mret (Err err);
  mret (Ok (negb (bool_decide (f = StartFingerprint)))).

(** One request per matching entry. *)
Definition secretToClusterMesh (namespace name : string) : ST W (list (string * string)) :=
  let? items := WatchedMeshes (Some namespace) catch _ => mret [];
  mret (items ≫= fun m => mesh_Clusters m ≫= fun c =>
    match entry_KubeconfigSecretRef c with
    | Some ref => if decide (ref_Name ref = name) then [(mesh_Namespace m, mesh_Name m)] else []
    | None => []
    end).

End Watcher.

(** ** Stale discovery data *)

(** A REST mapper is a state [M]; [NewDynamicRESTMapper] builds a fresh one. *)
Section Mapper.
Context {M W : Type} (NewDynamicRESTMapper : ST W (option M)).

Record resettableDynamicMapper : Type := mkResettable { mapper : M }.

Definition current (r : resettableDynamicMapper) : M := mapper r.

Definition newResettableDynamicMapper : ST W (option resettableDynamicMapper) :=
  m ← NewDynamicRESTMapper;
  match m with
  | None => mret None
  | Some m => mret (Some (mkResettable m))
  end.

Definition Reset (r : resettableDynamicMapper) : ST W resettableDynamicMapper :=
  fresh ← NewDynamicRESTMapper;
  match fresh with
  | None => mret r
  | Some m => mret (mkResettable m)
  end.

(** A mapper as [RefreshMapperOnNoMatch] meets it: nil, one that cannot be
    reset, or a resettable one. The boolean is the Go result. *)
Inductive anyMapper : Type :=
| NilMapper
| PlainMapper (m : M)
| ResettableMapper (r : resettableDynamicMapper).

(** [noMatch]: whether [errors.As] finds a NoKindMatchError in the error. *)
Definition RefreshMapperOnNoMatch {E} (noMatch : E -> bool) (err : option E) (mapper : anyMapper)
    : ST W (bool * anyMapper) :=
  match err, mapper with
  | None, _ => mret (false, mapper)
  | _, NilMapper => mret (false, mapper)
  | Some e, _ =>
      if negb (noMatch e) then mret (false, mapper)
      else
        match mapper with
        | ResettableMapper r => r' ← Reset r; mret (true, ResettableMapper r')
        | _ => mret (false, mapper)
        end
  end.

End Mapper.

(** ** Properties of the fingerprint *)

Section WatcherFacts.
Context {W : Type} {wapi : WatcherAPI W} {wlaws : WatcherLaws W}.

(** The reference of an entry, for given Secret versions. *)
Definition ref_for (rv : string -> string -> string) (meshNS : string) (c : ClusterEntry) : clusterRef :=
  match entry_KubeconfigSecretRef c with
  | None => mkClusterRef (entry_Name c) "" "" ""
  | Some ref => mkClusterRef (entry_Name c) meshNS (ref_Name ref) (rv meshNS (ref_Name ref))
  end.

Definition all_refs (rv : string -> string -> string) (meshes : list ClusterMesh) : list clusterRef :=
  meshes ≫= fun m => ref_for rv (mesh_Namespace m) <$> mesh_Clusters m.

(** Throughout [J], the Secrets have the versions [rv] (empty when unreadable). *)
Definition versions (J : W -> Prop) (rv : string -> string -> string) : Prop :=
  forall ns n w, J w -> (secretResourceVersion ns n w).1 = rv ns n /\ J (secretResourceVersion ns n w).2.

Lemma st_collect_pure {A B} (J : W -> Prop) (f : A -> ST W (list B)) (g : A -> list B) l w :
  (forall a w, a ∈ l -> J w -> (f a w).1 = g a /\ J (f a w).2) -> J w ->
  (st_collect f l w).1 = l ≫= g /\ J (st_collect f l w).2.
Proof.
  revert w; induction l as [|a l IH]; intros w Hf Hw; [done|]. cbn [st_collect]. rewrite bind_cons, st_bind_run.
  destruct (Hf a w ltac:(left) Hw) as [-> H1]. rewrite st_bind_run, st_ret_run. cbn [fst snd].
  destruct (IH (f a w).2) as [-> H2]; [|done|done]. intros b w' Hb. apply Hf. by right.
Qed.

Lemma collectRefs_run J rv meshes w :
  versions J rv -> J w ->
  (collectRefs meshes w).1 = sortByName (all_refs rv meshes) /\ J (collectRefs meshes w).2.
Proof.
  intros Hrv Hw. unfold collectRefs, all_refs.
  destruct (st_collect_pure J (fun m => st_collect (refOf (mesh_Namespace m)) (mesh_Clusters m))
    (fun m => ref_for rv (mesh_Namespace m) <$> mesh_Clusters m) meshes w) as [E1 E2]; [|done|].
  - clear w Hw. intros m w _ Hw.
    destruct (st_collect_pure J (refOf (mesh_Namespace m)) (fun c => [ref_for rv (mesh_Namespace m) c]) (mesh_Clusters m) w)
      as [-> H1]; [|done|].
    + clear w Hw. intros c w _ Hw. unfold refOf, ref_for. destruct (entry_KubeconfigSecretRef c) as [ref|]; [|done].
      rewrite st_bind_run, st_ret_run. cbn [fst snd]. by destruct (Hrv (mesh_Namespace m) (ref_Name ref) w Hw) as [-> ?].
    + split; [|done]. clear H1. induction (mesh_Clusters m) as [|c cs IH]; [done|]. by rewrite bind_cons, IH.
  - rewrite st_bind_run, st_ret_run. cbn [fst snd]. by rewrite E1.
Qed.

Lemma collectRefs_refs J rv meshes w :
  versions J rv -> J w -> (collectRefs meshes w).1 = sortByName (all_refs rv meshes).
Proof. intros Hrv Hw. by apply (collectRefs_run J). Qed.

Lemma refs_sorted_unique (l1 l2 : list clusterRef) :
  (forall a b, a ∈ l1 -> b ∈ l2 -> cr_Name a = cr_Name b -> a = b) ->
  Sorted str_le (cr_Name <$> l1) -> Sorted str_le (cr_Name <$> l2) -> l1 ≡ₚ l2 -> l1 = l2.
Proof.
  intros Hu S1 S2 Hp. set (R := fun a b => str_le (cr_Name a) (cr_Name b)).
  assert (Htr : Transitive R) by (intros a b c; unfold R; apply transitivity).
  assert (HS : forall l, Sorted str_le (cr_Name <$> l) -> StronglySorted R l).
  { clear -Htr. intros l H. apply Sorted_StronglySorted; [exact Htr|].
    induction l as [|a l IH]; [constructor|]. cbn [fmap list_fmap] in H. apply Sorted_inv in H as [H1 H2].
    constructor; [by apply IH|]. destruct l as [|b l]; constructor. by inversion H2. }
  apply (StronglySorted_unique_strong R); [|by apply HS|by apply HS|done].
  intros a b Ha Hb H1 H2. apply Hu; [done|done|]. by apply (anti_symm str_le).
Qed.

Lemma all_refs_perm rv meshes meshes' : meshes ≡ₚ meshes' -> all_refs rv meshes ≡ₚ all_refs rv meshes'.
Proof. intros H. unfold all_refs. by rewrite H. Qed.

(** The fingerprint does not depend on the order in which meshes are listed,
    nor on how [sort.Slice] orders equal names, as long as entries of the same
    cluster name refer to the same Secret: no spurious restart. *)
Theorem collectRefs_order_independent rv meshes meshes' w w' :
  (forall ns n w1, (secretResourceVersion ns n w1).1 = rv ns n) ->
  meshes ≡ₚ meshes' ->
  (forall a b, a ∈ all_refs rv meshes -> b ∈ all_refs rv meshes -> cr_Name a = cr_Name b -> a = b) ->
  (collectRefs meshes w).1 = (collectRefs meshes' w').1.
Proof.
  intros Hrv Hp Hu. assert (HV : versions (fun _ => True) rv) by (intros ns n w1 _; split; [apply Hrv|done]).
  rewrite !(collectRefs_refs (fun _ => True) rv) by done. pose proof (all_refs_perm rv _ _ Hp) as Hr.
  apply refs_sorted_unique; [|apply sortByName_sorted..|by rewrite !sortByName_perm].
  intros a b. rewrite !sortByName_perm, <- Hr. by apply Hu.
Qed.

(** Another choice of Secret keys, and of which cluster is local. *)
Definition with_keys (key : ClusterEntry -> string) (local : ClusterEntry -> bool) (m : ClusterMesh) : ClusterMesh :=
  mkClusterMesh (mesh_Namespace m) (mesh_Name m) (mesh_Generation m) (mesh_Deleting m) (mesh_Finalizers m)
    ((fun e => mkClusterEntry (entry_Name e) (local e)
                 ((fun r => mkSecretKeyRef (ref_Name r) (key e)) <$> entry_KubeconfigSecretRef e)
                 (entry_AllowedNetworks e) (entry_WireguardPort e) (entry_PersistentKeepalive e)) <$> mesh_Clusters m)
    (mesh_StatusClusters m) (mesh_Conditions m).

Lemma st_collect_map {A A' B} (g : A -> A') (f : A' -> ST W (list B)) (f' : A -> ST W (list B)) l w :
  (forall a w, f (g a) w = f' a w) -> st_collect f (g <$> l) w = st_collect f' l w.
Proof.
  intros Hf. revert w; induction l as [|a l IH]; intros w; [done|]. cbn [st_collect fmap list_fmap].
  unfold mbind, ST_bind. rewrite Hf. destruct (f' a w) as [bs w1]. change (list_fmap A A' g l) with (g <$> l).
  by rewrite IH.
Qed.

(** The fingerprint does not see which key of a Secret holds the kubeconfig,
    nor which entry is local, although the registry is built from both: editing
    them in a ClusterMesh does not trigger the restart that would apply them. *)
Theorem fingerprint_ignores_key_and_local key local meshes w :
  collectRefs (with_keys key local <$> meshes) w = collectRefs meshes w.
Proof.
  unfold collectRefs. rewrite !st_bind_run.
  rewrite (st_collect_map _ _ (fun m => st_collect (refOf (mesh_Namespace m)) (mesh_Clusters m))); [done|].
  intros m w1. apply st_collect_map. intros e w2. unfold refOf. simpl.
  by destruct (entry_KubeconfigSecretRef e).
Qed.

End WatcherFacts.

(** ** Equal names *)

Module Scenario.

(** The world is the order in which the two meshes are listed. *)
Definition entry : ClusterEntry :=
  mkClusterEntry "hub" false (Some (mkSecretKeyRef "admin" "value")) ["10.0.0.0/8"] 51820 0.
Definition mesh_in (ns : string) : ClusterMesh := mkClusterMesh ns "m" 1 false [] [entry] [] [].

(** A stable sort by name. *)
Definition by_name (a b : clusterRef) : Prop := str_le (cr_Name a) (cr_Name b).
#[export] Instance by_name_dec : RelDecision by_name.
Proof. intros a b. unfold by_name. apply _. Defined.

#[export] Instance api : WatcherAPI (list ClusterMesh) := {
  WatchedMeshes _ w := (Ok w, w);
  GetSecretVersion ns _ w := (Ok ("1"), w);
  sortByName := merge_sort by_name;
}.

#[export] Instance laws : WatcherLaws (list ClusterMesh).
Proof.
  split.
  - intros refs. apply merge_sort_Permutation.
  - intros refs. assert (Htot : Total by_name) by (intros a b; unfold by_name; apply (total str_le)).
    assert (Hs : Sorted by_name (sortByName refs)) by apply Sorted_merge_sort, _.
    induction (sortByName refs) as [|a l IH]; [constructor|]. apply Sorted_inv in Hs as [H1 H2].
    cbn [fmap list_fmap]. constructor; [by apply IH|]. destruct l; constructor. by inversion H2.
Qed.

Definition fingerprint (order : list ClusterMesh) : string :=
  match (computeFingerprint order).1 with Ok f => f | Err _ => "" end.

End Scenario.

#[local] Existing Instances Scenario.api Scenario.laws.

(** The condition of [collectRefs_order_independent] is needed: when two
    namespaces hold a mesh that lists a cluster of the same name, each with its own
    Secret, the fingerprint depends on the order of the list, and a watcher started
    with one order restarts the operator when it sees the other. *)
Theorem fingerprint_depends_on_list_order :
  let m1 := Scenario.mesh_in "tenant-a" in
  let m2 := Scenario.mesh_in "tenant-b" in
  (watcherReconcile (Scenario.fingerprint [m1; m2]) [m1; m2]).1 = Ok false /\
  (watcherReconcile (Scenario.fingerprint [m1; m2]) [m2; m1]).1 = Ok true.
Proof. by vm_compute. Qed.

(** ** An in-memory store of meshes and Secrets *)

Module Store.
Import Scenario.

Record store : Type := mkStore {
  st_meshes : list ClusterMesh;
  st_secrets : gmap (string * string) string;
}.

#[export] Instance store_api : WatcherAPI store := {
  WatchedMeshes ns w :=
    (Ok (match ns with None => st_meshes w | Some n => base.filter (fun m => mesh_Namespace m = n) (st_meshes w) end), w);
  GetSecretVersion ns name w :=
    (match st_secrets w !! (ns, name) with Some rv => Ok rv | None => Err NotFound end, w);
  sortByName := merge_sort by_name;
}.

#[export] Instance store_laws : WatcherLaws store.
Proof. split; [exact Scenario.laws.(@sortByName_perm _ _)|exact Scenario.laws.(@sortByName_sorted _ _)]. Qed.

(** Reads leave the store alone, and versions are looked up in it. *)
Lemma store_versions w : versions (fun w' => w' = w) (fun ns n => default "" (st_secrets w !! (ns, n))).
Proof.
  intros ns n w' ->. unfold secretResourceVersion. st_run. cbn. by destruct (st_secrets w !! (ns, n)).
Qed.

End Store.

#[export] Existing Instances Store.store_api Store.store_laws.

(** ** Concrete instances *)

Definition mesh_of (ns cluster : string) : ClusterMesh :=
  mkClusterMesh ns "m" 1 false [] [mkClusterEntry cluster false (Some (mkSecretKeyRef "admin" "value")) [] 51820 0] [] [].

Lemma collectRefs_order_independent_witness :
  (collectRefs [mesh_of "t1" "hub"; mesh_of "t2" "edge"] []).1 = (collectRefs [mesh_of "t2" "edge"; mesh_of "t1" "hub"] []).1.
Proof.
  apply (collectRefs_order_independent (fun _ _ => "1")).
  - intros ns n w1. reflexivity.
  - apply Permutation_swap.
  - intros a b Ha Hb. cbn in Ha, Hb.
    apply elem_of_cons in Ha as [->|Ha]; [|apply list_elem_of_singleton in Ha as ->];
      (apply elem_of_cons in Hb as [->|Hb]; [|apply list_elem_of_singleton in Hb as ->]); cbn; intros E;
      reflexivity || discriminate E.
Defined.
