(* ===== verification/Mapper.v ===== *)
(** * [internal/multicluster/mapper.go]: lookups and concurrent resets

    The proxy methods of the resettable mapper, and its behaviour when lookups and
    resets run concurrently. A dynamic mapper is lazy: a new one holds no discovery
    data, and fetches what a lookup needs when it is first used. *)

From Stdlib Require Import String.
From stdpp Require Import relations.
From S2P Require Import Prelude Types Kube Restart.
Open Scope Z_scope.
Open Scope go_scope.

(** ** The proxy methods *)

(** [meta.RESTMapper], with [gvr], [gvk], [gk] and [mapping] its types. *)
Class RESTMapper (M W gvr gvk gk mapping : Type) : Type := {
  kindFor : M -> gvr -> ST W (result kube_error gvk);
  kindsFor : M -> gvr -> ST W (result kube_error (list gvk));
  resourceFor : M -> gvr -> ST W (result kube_error gvr);
  resourcesFor : M -> gvr -> ST W (result kube_error (list gvr));
  restMapping : M -> gk -> list string -> ST W (result kube_error mapping);
  restMappings : M -> gk -> list string -> ST W (result kube_error (list mapping));
  resourceSingularizer : M -> string -> ST W (result kube_error string);
}.

Section Proxies.
Context {M W gvr gvk gk mapping : Type} `{RESTMapper M W gvr gvk gk mapping}.

Definition KindFor (r : resettableDynamicMapper) (input : gvr) : ST W (result kube_error gvk) := kindFor (current r) input.
Definition KindsFor (r : resettableDynamicMapper) (input : gvr) : ST W (result kube_error (list gvk)) := kindsFor (current r) input.
Definition ResourceFor (r : resettableDynamicMapper) (input : gvr) : ST W (result kube_error gvr) := resourceFor (current r) input.
Definition ResourcesFor (r : resettableDynamicMapper) (input : gvr) : ST W (result kube_error (list gvr)) :=
  resourcesFor (current r) input.
Definition RESTMapping (r : resettableDynamicMapper) (k : gk) (versions : list string) : ST W (result kube_error mapping) :=
  restMapping (current r) k versions.
Definition RESTMappings (r : resettableDynamicMapper) (k : gk) (versions : list string)
    : ST W (result kube_error (list mapping)) :=
  restMappings (current r) k versions.
Definition ResourceSingularizer (r : resettableDynamicMapper) (resource : string) : ST W (result kube_error string) :=
  resourceSingularizer (current r) resource.

End Proxies.

(** ** Concurrent use *)

(** Mappers are objects with identities. [cache]: when the oldest data a mapper
    holds was discovered, [None] if it holds none. [cell] is the guarded pointer,
    [swapped] the time it was last written, [now] the clock. A goroutine that has
    called [NewDynamicRESTMapper] holds the new mapper until it swaps it in
    ([building]); one that has called [current] holds what it read, with the time of
    the last swap before the read ([reading]). *)
Record shared : Type := mkShared {
  cache : gmap nat (option nat);
  cell : nat;
  swapped : nat;
  now : nat;
  building : gset nat;
  reading : list (nat * nat);
}.

(** When the data that a lookup uses was discovered: what the mapper holds, or
    what it fetches now. *)
Definition lookup_data (t : nat) (c : option nat) : nat := default t c.

Inductive mapper_step : shared -> shared -> Prop :=
| ms_tick s :
    mapper_step s (mkShared (cache s) (cell s) (swapped s) (S (now s)) (building s) (reading s))
| ms_build s m :
    (* Reset, first half: a new mapper, without data *)
    cache s !! m = None ->
    mapper_step s (mkShared (<[m := None]> (cache s)) (cell s) (swapped s) (now s) ({[m]} ∪ building s) (reading s))
| ms_swap s m :
    (* Reset, second half, under the write lock *)
    m ∈ building s ->
    mapper_step s (mkShared (cache s) m (now s) (now s) (building s ∖ {[m]}) (reading s))
| ms_read s :
    (* current, under the read lock *)
    mapper_step s (mkShared (cache s) (cell s) (swapped s) (now s) (building s) ((cell s, swapped s) :: reading s))
| ms_use s m u l1 l2 c :
    (* the lookup itself, on what was read *)
    reading s = l1 ++ (m, u) :: l2 -> cache s !! m = Some c ->
    mapper_step s (mkShared (<[m := Some (lookup_data (now s) c)]> (cache s)) (cell s) (swapped s) (now s) (building s) (l1 ++ l2)).

(** The start: one mapper, unused, installed at time 0. *)
Definition fresh_mapper : shared := mkShared {[0%nat := None]} 0 0 0 ∅ [].

(** [since m] is when [m] was installed, if it was. A mapper that holds data was
    installed before the data was discovered. *)
Record coherent (since : nat -> option nat) (s : shared) : Prop := {
  coh_cell : since (cell s) = Some (swapped s) /\ is_Some (cache s !! cell s);
  coh_past : (swapped s <= now s)%nat;
  coh_data : forall m t, cache s !! m = Some (Some t) -> exists u, since m = Some u /\ (u <= t)%nat;
  coh_building : forall m, m ∈ building s -> since m = None /\ cache s !! m = Some None;
  coh_known : forall m, cache s !! m = None -> since m = None;
  coh_reading : forall m u, (m, u) ∈ reading s -> since m = Some u /\ (u <= now s)%nat /\ is_Some (cache s !! m);
}.

Lemma coherent_build since s m :
  coherent since s -> cache s !! m = None ->
  coherent since (mkShared (<[m := None]> (cache s)) (cell s) (swapped s) (now s) ({[m]} ∪ building s) (reading s)).
Proof.
  intros [[Hc1 Hc2] Hp Hd Hb Hk Hr] Hm. constructor; cbn.
  - split; [done|]. apply lookup_insert_is_Some'. by right.
  - done.
  - intros k t [[_ [=]]|[_ Hk']]%lookup_insert_Some. by apply Hd.
  - intros k [->%elem_of_singleton|Hin]%elem_of_union; [by rewrite lookup_insert_eq; auto|].
    destruct (Hb k Hin) as [H1 H2]. rewrite lookup_insert_ne; [done|]. intros ->. congruence.
  - intros k [Hn _]%lookup_insert_None. by apply Hk.
  - intros k u Hin. destruct (Hr k u Hin) as (? & ? & ?). split; [done|]. split; [done|]. apply lookup_insert_is_Some'. by right.
Qed.

Lemma coherent_swap since s m :
  coherent since s -> m ∈ building s ->
  coherent (fun k => if decide (k = m) then Some (now s) else since k)
    (mkShared (cache s) m (now s) (now s) (building s ∖ {[m]}) (reading s)).
Proof.
  intros [[Hc1 Hc2] Hp Hd Hb Hk Hr] Hm. destruct (Hb m Hm) as [Hs Hn]. constructor; cbn.
  - rewrite decide_True by done. by rewrite Hn.
  - done.
  - intros k t Hkt. rewrite decide_False by (intros ->; congruence). by apply Hd.
  - intros k [Hin Hne]%elem_of_difference. rewrite decide_False by set_solver. by apply Hb.
  - intros k Hkn. rewrite decide_False by (intros ->; congruence). by apply Hk.
  - intros k u Hin. destruct (Hr k u Hin) as (H1 & H2 & H3). rewrite decide_False by (intros ->; congruence). done.
Qed.

Lemma coherent_use since s m u l1 l2 c :
  coherent since s -> reading s = l1 ++ (m, u) :: l2 -> cache s !! m = Some c ->
  coherent since (mkShared (<[m := Some (lookup_data (now s) c)]> (cache s)) (cell s) (swapped s) (now s) (building s) (l1 ++ l2)).
Proof.
  intros [[Hc1 Hc2] Hp Hd Hb Hk Hr] E Ec. destruct (Hr m u) as (Hm1 & Hm2 & _); [rewrite E; set_solver|]. constructor; cbn.
  - split; [done|]. apply lookup_insert_is_Some'. by right.
  - done.
  - intros k t [[<- [= <-]]|[_ Hkt]]%lookup_insert_Some; [|by apply Hd]. exists u. split; [done|].
    destruct c as [d|]; [|done]. destruct (Hd m d Ec) as (u' & Hu' & Hle). cbn. congruence.
  - intros k Hin. destruct (Hb k Hin) as [H1 H2]. rewrite lookup_insert_ne; [done|]. intros ->. congruence.
  - intros k [Hn _]%lookup_insert_None. by apply Hk.
  - intros k v Hin. destruct (Hr k v) as (? & ? & ?); [rewrite E; set_solver|]. split; [done|]. split; [done|].
    apply lookup_insert_is_Some'. by right.
Qed.

Lemma coherent_step since s s' : coherent since s -> mapper_step s s' -> exists since', coherent since' s'.
Proof.
  intros HC Hs. inversion Hs as [?|? m Hm|? m Hm|?|? m u l1 l2 c E Ec]; subst.
  - exists since. destruct HC as [Hc Hp Hd Hb Hk Hr]. constructor; cbn; [done|lia|done|done|done|].
    intros m u Hin. destruct (Hr m u Hin) as (? & ? & ?). repeat split; [done|lia|done].
  - exists since. by apply coherent_build.
  - eexists. by apply coherent_swap.
  - exists since. destruct HC as [Hc Hp Hd Hb Hk Hr]. constructor; cbn; [done..|].
    intros m u [[= -> ->]|Hin]%elem_of_cons; [|by apply Hr]. by destruct Hc.
  - exists since. by eapply coherent_use.
Qed.

Lemma fresh_coherent : coherent (fun k => if decide (k = 0%nat) then Some 0%nat else None) fresh_mapper.
Proof.
  constructor; cbn.
  - split; [done|]. by eexists.
  - lia.
  - intros m t [_ ?]%lookup_singleton_Some. done.
  - intros m ?%elem_of_empty. done.
  - intros m Hm. case_decide; [subst; by rewrite lookup_singleton_eq in Hm|done].
  - intros m u ?%not_elem_of_nil. done.
Qed.

(** C20. Lookups see resets: however goroutines interleave, a lookup through the
    mapper uses discovery data fetched at or after the last swap that preceded its
    read of the pointer. In particular a lookup that starts after [Reset] has
    returned never uses data from before that reset, even when another [Reset]
    installs a mapper it had built earlier. *)
Theorem lookup_after_reset_fresh s l1 l2 m u c :
  rtc mapper_step fresh_mapper s ->
  reading s = l1 ++ (m, u) :: l2 -> cache s !! m = Some c ->
  (u <= lookup_data (now s) c)%nat.
Proof.
  intros Hr E Ec. assert (HC : exists since, coherent since s).
  { revert Hr. apply (rtc_ind_r (fun s => exists since, coherent since s)); [eexists; apply fresh_coherent|].
    intros s1 s2 _ Hs [since HC]. by eapply coherent_step. }
  destruct HC as [since HC]. destruct (coh_reading since s HC m u) as (H1 & H2 & _); [rewrite E; set_solver|].
  destruct c as [d|]; cbn; [|done]. destruct (coh_data since s HC m d Ec) as (u' & Hu' & Hle). congruence.
Qed.

(** Two resets overlap: the mapper built first is installed last; a lookup after
    both still discovers afresh. *)
Module Overlap.
Definition used : shared := mkShared {[0%nat := Some 0%nat]} 0 0 0 ∅ [].
Definition built : shared :=
  mkShared (<[2%nat := None]> (<[1%nat := None]> {[0%nat := Some 0%nat]})) 0 0 1 ({[2%nat]} ∪ ({[1%nat]} ∪ ∅)) [].
Definition second : shared := mkShared (cache built) 2 1 2 (building built ∖ {[2%nat]}) [].
Definition final : shared := mkShared (cache built) 1 2 3 (building second ∖ {[1%nat]}) [(1, 2)]%nat.

Lemma to_used : rtc mapper_step fresh_mapper used.
Proof.
  eapply rtc_l; [apply ms_read|]. apply rtc_once. exact (ms_use (mkShared {[0%nat := None]} 0 0 0 ∅ [(0, 0)]%nat) 0 0 [] [] None eq_refl eq_refl).
Qed.
Lemma to_built : rtc mapper_step used built.
Proof.
  eapply rtc_l; [exact (ms_build used 1 eq_refl)|]. eapply rtc_l; [apply (ms_build _ 2); reflexivity|]. apply rtc_once. apply ms_tick.
Qed.
Lemma to_second : rtc mapper_step built second.
Proof. eapply rtc_l; [apply (ms_swap built 2); by apply elem_of_union_l, elem_of_singleton|]. apply rtc_once. apply ms_tick. Qed.
Lemma to_final : rtc mapper_step second final.
Proof.
  eapply rtc_l; [apply (ms_swap second 1); apply elem_of_difference; cbn; split; [|by intros ?%elem_of_singleton]|].
  { apply elem_of_union_r, elem_of_union_l. by apply elem_of_singleton. }
  eapply rtc_l; [apply ms_read|]. apply rtc_once. apply ms_tick.
Qed.
End Overlap.

Lemma lookup_after_reset_fresh_witness : (2 <= lookup_data (now Overlap.final) None)%nat.
Proof.
  apply (lookup_after_reset_fresh Overlap.final [] [] 1 2 None).
  - transitivity Overlap.used; [exact Overlap.to_used|]. transitivity Overlap.built; [exact Overlap.to_built|].
    transitivity Overlap.second; [exact Overlap.to_second|exact Overlap.to_final].
  - reflexivity.
  - reflexivity.
Defined.
