(* ===== verification/Operator.v ===== *)
(** * The outer reconcile loop: [ClusterMeshReconciler.Reconcile]

    A reconcile, followed by the recovery from stale discovery data on every
    registered cluster and by the choice of the requeue delay. The REST mappers of
    the clusters are shared objects that [Reset] changes in place; clients look up
    kinds in them while the reconcile runs. They are part of the world, one cell per
    cluster (class [MapperStore]). *)

From Stdlib Require Import String.
From S2P Require Import Prelude Types ValidationMesh Kube PeerReconciler Registry Controller Restart.
Open Scope Z_scope.
Open Scope go_scope.

(** [errors.As(err, &noMatch)]: wrapped and joined errors are searched. *)
Definition carriesNoKindMatch (err : controller_error) : bool :=
  match err with
  | FetchingMesh cause | AddingFinalizer cause | RemovingFinalizer cause
  | UpdatingOverlapStatus cause | UpdatingStatus cause | ListingNodes _ cause => bool_decide (cause = NoKindMatch)
  | BuildingPeers _ _ _ => false
  | ReconcilingPair _ _ causes => existsb (fun e => bool_decide (cause_of e = NoKindMatch)) causes
  end.

(** The mappers of the clusters ([GetRESTMapper]), by name, and
    [apiutil.NewDynamicRESTMapper] with the configuration of a cluster. *)
Class MapperStore (W M : Type) : Type := {
  mappers : W -> gmap string (anyMapper (M := M));
  setMapper : string -> anyMapper (M := M) -> W -> W;
  NewDynamicRESTMapper : string -> ST W (option M);
}.

Section Operator.
Context {C W M : Type} `{PeerAPI C W} `{!ControllerAPI C W} `{!MapperStore W M}.
Context (registry : ClusterRegistry C) (message : mesh_error -> string).

(** [GetRESTMapper] of the cluster of that name. *)
Definition mapperOf (n : string) (w : W) : anyMapper (M := M) := default NilMapper (mappers w !! n).

Definition isNil (m : anyMapper (M := M)) : bool :=
  match m with NilMapper => true | _ => false end.

(** A [directCluster] has no mapper. *)
Definition directGetRESTMapper {K} (d : directCluster K) : anyMapper (M := M) := NilMapper.

(** [Clusters]: all names, in any order. *)
Definition Clusters : ST W (list string) := rangeClusters (reg_clusters registry).

(** The clusters whose mapper is not nil, in any order. *)
Definition Mappers : ST W (list string) :=
  names ← rangeClusters (reg_clusters registry);
  (fun w => (base.filter (fun n => isNil (mapperOf n w) = false) names, w)) : ST W (list string).

(** The body of the loop over [r.Registry.Mappers()]: the object is reset in place. *)
Definition refreshMapper (err : option controller_error) (n : string) : ST W unit := fun w =>
  let '((_, m), w') := RefreshMapperOnNoMatch (NewDynamicRESTMapper n) carriesNoKindMatch err (mapperOf n w) w in
  (tt, setMapper n m w').

Definition Reconcile (namespace name : string) : ST W (Z * option controller_error) :=
  r ← reconcile registry message namespace name;
  names ← Mappers;
  _ ← st_iter (refreshMapper r.2) names;
  mret (selectResult r.1 r.2).

End Operator.

(** A write to one mapper changes no other, and neither building a mapper nor
    ranging over the clusters changes any; the servers do not notice. *)
Class MapperLaws (W M : Type) {C : Type} `{PeerAPILaws C W} `{!ControllerAPI C W} `{!MapperStore W M} : Type := {
  mappers_set n m w : mappers (setMapper n m w) = <[n := m]> (mappers w);
  mappers_new n w : mappers (NewDynamicRESTMapper n w).2 = mappers w;
  mappers_range m w : mappers (rangeClusters m w).2 = mappers w;
  setMapper_quiet n m w : world_ok w -> quiet w (setMapper n m w);
  NewDynamicRESTMapper_quiet n w : world_ok w -> quiet w (NewDynamicRESTMapper n w).2;
}.

(** ** Recovery *)

Section Recovery.
Context {C W M : Type} {api : PeerAPI C W} {laws : PeerAPILaws C W}.
Context {capi : ControllerAPI C W} {claws : ControllerLaws C W}.
Context {store : MapperStore W M} {mlaws : MapperLaws W M}.
Context (registry : ClusterRegistry C) (message : mesh_error -> string).

(** [m'] is what one reset of cluster [n]'s mapper [m] leaves: a mapper built
    during the reset, or the old one when it cannot be built. *)
Definition refreshed (n : string) (m m' : anyMapper (M := M)) : Prop :=
  match m with
  | ResettableMapper r =>
      exists w : W, m' = ResettableMapper (match (NewDynamicRESTMapper n w).1 with Some f => mkResettable f | None => r end)
  | _ => m' = m
  end.

(** The Kubernetes errors in the chain of a controller error. *)
Inductive wraps : controller_error -> kube_error -> Prop :=
| wraps_fetch k : wraps (FetchingMesh k) k
| wraps_add k : wraps (AddingFinalizer k) k
| wraps_remove k : wraps (RemovingFinalizer k) k
| wraps_overlap k : wraps (UpdatingOverlapStatus k) k
| wraps_status k : wraps (UpdatingStatus k) k
| wraps_nodes cluster k : wraps (ListingNodes cluster k) k
| wraps_pair src tgt causes e : e ∈ causes -> wraps (ReconcilingPair src tgt causes) (cause_of e).

Lemma carriesNoKindMatch_iff e : carriesNoKindMatch e = true <-> wraps e NoKindMatch.
Proof.
  split.
  - destruct e; cbn; rewrite ?bool_decide_eq_true; [intros ->; constructor..|done|].
    intros (x & Hx%list_elem_of_In & E)%existsb_exists. apply bool_decide_eq_true in E. rewrite <- E. by constructor.
  - inversion 1 as [| | | | | |src tgt causes x Hx]; subst; cbn; try done.
    apply existsb_exists. exists x. split; [by apply list_elem_of_In|]. by apply bool_decide_eq_true.
Qed.

(** The error asks for fresh discovery data. *)
Definition stale_discovery (err : option controller_error) : bool :=
  match err with Some e => carriesNoKindMatch e | None => false end.

Lemma mapperOf_set k m n (w : W) : mapperOf n (setMapper k m w) = if decide (k = n) then m else mapperOf n w.
Proof.
  unfold mapperOf. rewrite mappers_set. case_decide as E; [subst; by rewrite lookup_insert_eq|by rewrite lookup_insert_ne].
Qed.

Lemma refreshMapper_mappers k err n w :
  mapperOf n (refreshMapper err k w).2 =
  if decide (k = n) then (RefreshMapperOnNoMatch (NewDynamicRESTMapper k) carriesNoKindMatch err (mapperOf k w) w).1.2
  else mapperOf n w.
Proof.
  unfold refreshMapper. assert (Hm : mappers (RefreshMapperOnNoMatch (NewDynamicRESTMapper k) carriesNoKindMatch err (mapperOf k w) w).2 = mappers w).
  { unfold RefreshMapperOnNoMatch. destruct err as [e|], (mapperOf k w) as [|m|r]; try done;
      destruct (carriesNoKindMatch e); try done. cbn [negb]. unfold Reset. st_run.
    pose proof (mappers_new k w) as Hn. by destruct (NewDynamicRESTMapper k w) as [[f|] w1]. }
  destruct (RefreshMapperOnNoMatch _ _ err _ w) as [[b m] w1]. cbn [fst snd] in *. rewrite mapperOf_set.
  case_decide; [done|]. unfold mapperOf. by rewrite Hm.
Qed.

Lemma Refresh_mapper n err m w :
  let m' := (RefreshMapperOnNoMatch (NewDynamicRESTMapper n) carriesNoKindMatch err m w).1.2 in
  if stale_discovery err then refreshed n m m' else m' = m.
Proof.
  unfold RefreshMapperOnNoMatch, stale_discovery. destruct err as [e|]; [|done].
  destruct m as [|p|r]; cbn [refreshed]; destruct (carriesNoKindMatch e); try done. cbn [negb].
  unfold Reset. st_run. exists w. by destruct (NewDynamicRESTMapper n w) as [[f|] w1].
Qed.

Lemma refreshLoop_mappers err names w n :
  NoDup names ->
  let w' := (st_iter (refreshMapper err) names w).2 in
  if decide (n ∈ names)
  then if stale_discovery err then refreshed n (mapperOf n w) (mapperOf n w') else mapperOf n w' = mapperOf n w
  else mapperOf n w' = mapperOf n w.
Proof.
  revert w; induction names as [|k names IH]; intros w Hnd; [done|].
  apply list.NoDup_cons in Hnd as [Hk Hnd]. cbn [st_iter]. rewrite st_bind_run.
  pose proof (Refresh_mapper k err (mapperOf k w) w) as HR. pose proof (refreshMapper_mappers k err n w) as HM.
  specialize (IH (refreshMapper err k w).2 Hnd). cbn zeta in IH, HR |- *. destruct (decide (n = k)) as [->|Hn].
  - rewrite decide_False in IH by done. rewrite decide_True in HM by done. rewrite decide_True by left.
    rewrite IH, HM. exact HR.
  - rewrite decide_False in HM by congruence. rewrite HM in IH. destruct (decide (n ∈ names)).
    + rewrite decide_True by by right. exact IH.
    + rewrite decide_False by by rewrite not_elem_of_cons. exact IH.
Qed.

Lemma Reconcile_mappers ns name w :
  let inner := reconcile registry message ns name w in
  let outer := Reconcile registry message ns name w in
  outer.1 = selectResult inner.1.1 inner.1.2 /\
  forall n,
    if stale_discovery inner.1.2 && bool_decide (is_Some (Client registry n))
    then refreshed n (mapperOf n inner.2) (mapperOf n outer.2)
    else mapperOf n outer.2 = mapperOf n inner.2.
Proof.
  intros inner outer. subst outer. unfold Reconcile. rewrite st_bind_run. fold inner. cbn beta.
  unfold Mappers. rewrite !st_bind_run. cbn [fst snd].
  pose proof (rangeClusters_perm (reg_clusters registry) inner.2) as Hperm.
  pose proof (mappers_range (reg_clusters registry) inner.2) as Hm.
  destruct (rangeClusters (reg_clusters registry) inner.2) as [all w1]. cbn [fst snd] in *.
  rewrite !st_ret_run. cbn [fst snd].
  assert (Hw1 : forall n, mapperOf n w1 = mapperOf n inner.2) by (intros n; unfold mapperOf; by rewrite Hm).
  set (names := base.filter (fun n => isNil (mapperOf n w1) = false) all).
  assert (Hnd : NoDup names).
  { apply list.NoDup_filter. rewrite Hperm. apply NoDup_fst_map_to_list. }
  split; [done|]. intros n. pose proof (refreshLoop_mappers inner.1.2 names w1 n Hnd) as HL. cbn zeta in HL.
  assert (Hin : n ∈ names <-> is_Some (Client registry n) /\ isNil (mapperOf n w1) = false).
  { unfold names. rewrite list_elem_of_filter, Hperm, list_elem_of_fmap. unfold Client. split.
    - intros [Hi ([k c] & -> & Hk%elem_of_map_to_list)]. cbn. by rewrite Hk.
    - intros [[c Hc] Hi]. split; [done|]. destruct (reg_clusters registry !! n) as [c'|] eqn:E; [|done].
      exists (n, c'). split; [done|]. by apply elem_of_map_to_list. }
  rewrite Hw1 in HL, Hin. set (w2 := (st_iter _ _ w1).2) in *.
  destruct (stale_discovery inner.1.2); cbn [andb]; [|by destruct (decide (n ∈ names))].
  case_bool_decide as Hc; case_decide as Hn; try done.
  - rewrite HL. destruct (mapperOf n inner.2) as [|p|r] eqn:Em; try done.
    exfalso. apply Hn, Hin. done.
  - exfalso. apply Hc. by apply Hin.
Qed.

(** C17. Recovery from stale discovery data: if the reconcile fails with an error
    that carries a NoKindMatchError, however deep it is wrapped or joined, the mapper
    of every registered cluster is reset (rebuilt, or kept when it cannot be built,
    and left alone when it cannot be reset), and the request is retried with the
    backoff of the work queue; after any other outcome no mapper is reset. The result
    is the one selected for the outcome, and resetting touches no other mapper. *)
Theorem Reconcile_refreshes_mappers ns name w :
  let inner := reconcile registry message ns name w in
  let outer := Reconcile registry message ns name w in
  outer.1 = selectResult inner.1.1 inner.1.2 /\
  (forall e, inner.1.2 = Some e -> wraps e NoKindMatch ->
     outer.1 = (0, Some e) /\
     forall n c, Client registry n = Some c -> refreshed n (mapperOf n inner.2) (mapperOf n outer.2)) /\
  (forall n, Client registry n = None -> mapperOf n outer.2 = mapperOf n inner.2) /\
  ((forall e, inner.1.2 = Some e -> ~ wraps e NoKindMatch) -> forall n, mapperOf n outer.2 = mapperOf n inner.2).
Proof.
  intros inner outer. destruct (Reconcile_mappers ns name w) as [E1 E2]. fold inner outer in E1, E2.
  split; [done|]. split; [|split].
  - intros e He Hw%carriesNoKindMatch_iff. unfold stale_discovery in E2. rewrite He in E1, E2. rewrite Hw in E2.
    split; [done|]. intros n c Hc. specialize (E2 n). by rewrite Hc in E2.
  - intros n Hn. specialize (E2 n). rewrite Hn in E2. by rewrite andb_false_r in E2.
  - intros Hno n. specialize (E2 n). destruct (stale_discovery inner.1.2) eqn:Es; [|done].
    unfold stale_discovery in Es. destruct inner.1.2 as [e|] eqn:He; [|done].
    exfalso. apply (Hno e eq_refl). by apply carriesNoKindMatch_iff.
Qed.

End Recovery.
