(* ===== verification/Healing.v ===== *)
(** * Recovery from stale discovery data

    A client looks kinds up in the REST mapper of its cluster. While the mapper does
    not know the kind [Peer], say because the CRD was installed after the operator
    had asked, every request about peers is answered by a NoKindMatchError. This file
    composes the parts that deal with it: the loop that stops at such a cluster
    ([Outage]), the reset of the mappers ([Operator], [Restart]) and the reconcile of
    a calm mesh ([Convergence]): the second reconcile converges. *)

From Stdlib Require Import String.
From S2P Require Import Prelude GoStrings GoNet Types Kilonode ValidationMesh ValidationNode Naming Builder.
From S2P Require Import Kube PeerReconciler Registry Controller Convergence Retry Outage Fleet Steady Restart Operator.
Open Scope Z_scope.
Open Scope go_scope.

(** ** Requests and resets *)

Section Healing.
Context {C W M : Type} {api : PeerAPI C W} {laws : PeerAPILaws C W}.
Context {capi : ControllerAPI C W} {claws : ControllerLaws C W} {C_eq : EqDecision C}.
Context {store : MapperStore W M} {mlaws : MapperLaws W M}.
Context (registry : ClusterRegistry C) (message : mesh_error -> string).
Context (mesh : ClusterMesh) (nodes : C -> list Node) (living : list string).
(** Whether a lookup of the kind [Peer] succeeds. *)
Context (knows : M -> bool).

(** The mapper of cluster [n] can be reset and knows the kind. *)
Definition fresh (n : string) (w : W) : Prop :=
  exists r, mapperOf n w = ResettableMapper r /\ knows (current r) = true.

(** The servers are calm and the kind is served everywhere; requests about peers are
    answered by those clusters ([answers]) whose mapper knows the kind. Lookups do
    not change what a mapper knows; a new mapper knows what is served now. *)
Record discovering (answers : C -> W -> bool) (I : W -> Prop) : Prop := {
  ds_calm : forall up : C -> bool,
    calm_on (up := fun c => up c = true) nodes living (fun w => I w /\ forall c, answers c w = up c);
  ds_refuses : forall c sel w, I w -> answers c w = false -> (List c sel w).1 = Err NoKindMatch;
  ds_nodes : forall c w, I w -> (ListNodes c w).1 = Ok (nodes c);
  ds_get : forall w, I w -> exists m, (GetMesh (mesh_Namespace mesh) (mesh_Name mesh) w).1 = Ok m /\ live mesh m;
  ds_valid : forall w items, I w -> (ListMeshes (Some (mesh_Namespace mesh)) w).1 = Ok items -> ValidateMeshNetworks items = None;
  ds_resettable : forall n c w, I w -> Client registry n = Some c -> exists r, mapperOf n w = ResettableMapper r;
  ds_answers : forall n c w, I w -> Client registry n = Some c -> fresh n w -> answers c w = true;
  ds_new : forall n w, I w -> I (NewDynamicRESTMapper n w).2 /\
    exists f, (NewDynamicRESTMapper n w).1 = Some f /\ knows f = true;
  ds_set : forall n r w, I w -> I (setMapper n (ResettableMapper r) w);
}.

Context (answers : C -> W -> bool) (I : W -> Prop) (HS : discovering answers I).

Abbreviation as_now w := (fun w' => I w' /\ forall c, answers c w' = answers c w).

Lemma calm_now w : calm_on (up := fun c => answers c w = true) nodes living (as_now w).
Proof. apply (ds_calm _ _ HS (fun c => answers c w)). Qed.

Lemma discovering_ok w : I w -> world_ok w.
Proof. intros Hw. by apply (calm_ok _ _ _ (calm_now w)). Qed.

Lemma refreshMapper_fresh err n c w :
  stale_discovery err = true -> I w -> Client registry n = Some c ->
  let w' := (refreshMapper err n w).2 in
  I w' /\ (forall c, peers c w' = peers c w) /\ fresh n w' /\ forall k, fresh k w -> fresh k w'.
Proof.
  intros Herr Hw Hc. destruct (ds_resettable _ _ HS n c w Hw Hc) as [r Er].
  destruct (ds_new _ _ HS n w Hw) as [H1 [f [Ef Hf]]].
  destruct (NewDynamicRESTMapper_quiet n w (discovering_ok w Hw)) as (_ & _ & P1).
  assert (E : refreshMapper err n w = (tt, setMapper n (ResettableMapper (mkResettable f)) (NewDynamicRESTMapper n w).2)).
  { unfold refreshMapper, RefreshMapperOnNoMatch. rewrite Er. unfold stale_discovery in Herr.
    destruct err as [e|]; [|done]. rewrite Herr. cbn [negb]. unfold Reset. st_run.
    destruct (NewDynamicRESTMapper n w) as [o w1]. cbn [fst snd] in *. by subst o. }
  pose proof (mappers_new n w) as Hm. rewrite E. cbn [snd]. set (w1 := (NewDynamicRESTMapper n w).2) in *.
  destruct (setMapper_quiet n (ResettableMapper (mkResettable f)) w1 (discovering_ok w1 H1)) as (_ & _ & P2).
  assert (Hn : fresh n (setMapper n (ResettableMapper (mkResettable f)) w1)).
  { exists (mkResettable f). split; [|done]. by rewrite mapperOf_set, decide_True. }
  split; [by apply (ds_set _ _ HS)|]. split; [intros c'; by rewrite P2|]. split; [done|].
  intros k (rk & Ek & Hk). destruct (decide (n = k)) as [<-|Hne]; [done|]. exists rk. split; [|done].
  rewrite mapperOf_set, decide_False by done. rewrite <- Ek. unfold mapperOf. by rewrite Hm.
Qed.

Lemma refreshAll_fresh err names w :
  stale_discovery err = true -> I w -> (forall n, n ∈ names -> is_Some (Client registry n)) ->
  let w' := (st_iter (refreshMapper err) names w).2 in
  I w' /\ (forall c, peers c w' = peers c w) /\ (forall n, n ∈ names -> fresh n w') /\ forall k, fresh k w -> fresh k w'.
Proof.
  intros Herr. revert w; induction names as [|n names IH]; intros w Hw Hn; cbn [st_iter].
  { split; [done|]. split; [done|]. split; [by intros n ?%not_elem_of_nil|done]. }
  rewrite st_bind_run. destruct (Hn n ltac:(left)) as [c Hc].
  destruct (refreshMapper_fresh err n c w Herr Hw Hc) as (I1 & P1 & F1 & K1).
  destruct (IH _ I1) as (I2 & P2 & F2 & K2); [intros; apply Hn; by right|]. cbn zeta in *.
  split; [done|]. split; [intros c'; by rewrite P2, P1|]. split; [|by auto].
  intros k [->|Hk]%elem_of_cons; [by apply K2|by apply F2].
Qed.

(** Resetting mappers, or not, writes no peer. *)
Lemma Reconcile_peers ns name w :
  world_ok (reconcile registry message ns name w).2 ->
  forall c, peers c (Reconcile registry message ns name w).2 = peers c (reconcile registry message ns name w).2.
Proof.
  unfold Reconcile. rewrite st_bind_run. set (inner := reconcile registry message ns name w). intros Hok.
  unfold Mappers. rewrite !st_bind_run.
  destruct (rangeClusters_quiet (reg_clusters registry) inner.2 Hok) as (O1 & _ & P1).
  destruct (rangeClusters _ inner.2) as [all w1]. cbn [fst snd] in *. rewrite st_ret_run. cbn [snd].
  generalize (base.filter (fun n => isNil (mapperOf n w1) = false) all) as names. intros names.
  apply (st_iter_inv (fun w' => world_ok w' /\ forall c, peers c w' = peers c inner.2)); [|done].
  intros n w' _ [Hw' Hp]. unfold refreshMapper.
  assert (HR : quiet w' (RefreshMapperOnNoMatch (NewDynamicRESTMapper n) carriesNoKindMatch inner.1.2 (mapperOf n w') w').2).
  { unfold RefreshMapperOnNoMatch. destruct inner.1.2 as [e|], (mapperOf n w') as [|m|r]; try (by split; [|split]);
      destruct (carriesNoKindMatch e); try (by split; [|split]). cbn [negb]. unfold Reset. st_run.
    pose proof (NewDynamicRESTMapper_quiet n w' Hw') as Hq. by destruct (NewDynamicRESTMapper n w') as [[f|] w2]. }
  destruct HR as (O2 & _ & P2). destruct (RefreshMapperOnNoMatch _ _ _ _ w') as [[b m] w2]. cbn [fst snd] in *.
  destruct (setMapper_quiet n m w2 O2) as (O3 & _ & P3). split; [done|]. intros c. by rewrite P3, P2.
Qed.

Context (Hliving : mesh_Name mesh ∈ living).
Context (Hport : forall s, s ∈ mesh_Clusters mesh -> 0 <= entry_WireguardPort s < 65536).
Context (HD : distinct_peers registry mesh nodes).

Abbreviation claims w := (forall n c, Client registry n = Some c -> unclaimed registry mesh nodes c w).
Abbreviation run := (Reconcile registry message (mesh_Namespace mesh) (mesh_Name mesh)).

(** The first run finds a stale mapper and resets them all. *)
Lemma run_stale w :
  I w -> claims w -> blocked registry mesh (fun c => answers c w = true) ->
  (exists e, (run w).1 = (0, Some e) /\ wraps e NoKindMatch) /\
  I (run w).2 /\ claims (run w).2 /\ forall n c, Client registry n = Some c -> fresh n (run w).2.
Proof.
  intros Hw Hu Hb. destruct (ds_get _ _ HS w Hw) as (m & Eg & Hl).
  assert (Hnow : as_now w w) by done.
  pose proof (calm_GetMesh _ _ _ (calm_now w) (mesh_Namespace mesh) (mesh_Name mesh) w Hnow) as I1.
  destruct (GetMesh _ _ w) as [r w1] eqn:E. cbn [fst snd] in *. subst r.
  destruct (reconcile_outage registry message NoKindMatch nodes living (as_now w) (mesh_Namespace mesh) (mesh_Name mesh) m w w1 (calm_now w)) as (e & Er & HB & HX); try done.
  - intros c sel w' [Hw' Ha] Hn. apply (ds_refuses _ _ HS); [done|]. rewrite Ha. by destruct (answers c w).
  - by apply (live_deleting mesh m).
  - by apply (live_finalizer mesh m).
  - intros items w2 EL. rewrite (live_namespace mesh m Hl) in EL. apply (ds_valid _ _ HS w1); [apply I1|by rewrite EL].
  - by rewrite (live_name mesh m Hl).
  - intros s. rewrite (live_clusters mesh m Hl). apply Hport.
  - by apply (distinct_live registry mesh nodes m Hl).
  - intros n c Hc. apply (unclaimed_live registry mesh nodes m c w Hl). by eapply Hu.
  - destruct Hb as (s & t & cs & c & Hs & Ht & H). exists s, t, cs, c. by rewrite (live_clusters mesh m Hl).
  - assert (Hwrap : wraps e NoKindMatch).
    { destruct HB as (before & s & tgts & HB). destruct (bo_cut _ _ _ _ _ _ _ _ _ _ _ _ HB)
        as [cs w0 k _ _ [H0 _] E0|b e' [b' t a c _ _ _ _ _]].
      - by rewrite (ds_nodes _ _ HS) in E0.
      - apply (wraps_pair _ _ _ (ListingAllPeers NoKindMatch)). left. }
    assert (Hst : stale_discovery (Some e) = true) by by apply carriesNoKindMatch_iff.
    unfold Reconcile. rewrite st_bind_run. set (inner := reconcile _ _ _ _ w) in *.
    destruct HX as [[I2 _] U2]. unfold Mappers. rewrite !st_bind_run.
    pose proof (rangeClusters_perm (reg_clusters registry) inner.2) as Hperm.
    pose proof (mappers_range (reg_clusters registry) inner.2) as Hm.
    destruct (rangeClusters_quiet (reg_clusters registry) inner.2 (discovering_ok _ I2)) as (_ & _ & P3).
    pose proof (calm_rangeClusters _ _ _ (calm_now inner.2) (reg_clusters registry) inner.2 (conj I2 (fun _ => eq_refl))) as [I3 _].
    destruct (rangeClusters _ inner.2) as [all w3]. cbn [fst snd] in *.
    set (names := base.filter (fun n => isNil (mapperOf n w3) = false) all). rewrite st_ret_run. cbn [fst snd].
    assert (Hnames : forall n, n ∈ names <-> is_Some (Client registry n)).
    { intros n. unfold names. rewrite list_elem_of_filter, Hperm, list_elem_of_fmap. unfold Client. split.
      - intros [_ ([k c] & -> & Hk%elem_of_map_to_list)]. cbn. by rewrite Hk.
      - intros [c Hc]. split; [by destruct (ds_resettable _ _ HS n c w3 I3 Hc) as [r ->]|].
        destruct (reg_clusters registry !! n) as [c'|] eqn:Ec; [|done]. exists (n, c'). split; [done|]. by apply elem_of_map_to_list. }
    rewrite Er. cbn [fst snd]. destruct (refreshAll_fresh (Some e) names w3 Hst I3) as (I4 & P4 & F4 & _); [by intros n ?%Hnames|].
    split; [by exists e|]. split; [done|]. split; [|intros n c Hc; apply F4, Hnames; by exists c].
    intros n c Hc. apply (unclaimed_same registry mesh nodes c inner.2); [by rewrite P4, P3|].
    destruct (U2 n c Hc) as [U3 U4]. destruct m, mesh, Hl as [E1 E2 E3 _ _]. simpl in *. subst. by constructor.
Qed.

Context (Hinj : forall n n' c, Client registry n = Some c -> Client registry n' = Some c -> n = n').

(** A run with fresh mappers converges. *)
Lemma run_fresh w :
  I w -> claims w -> (forall n c, Client registry n = Some c -> answers c w = true) ->
  mesh_converged registry mesh nodes (run w).2 /\ ghost_free registry living (run w).2.
Proof.
  intros Hw Hu Ha. destruct (ds_get _ _ HS w Hw) as (m & Eg & Hl).
  assert (Hnow : as_now w w) by done.
  pose proof (calm_GetMesh _ _ _ (calm_now w) (mesh_Namespace mesh) (mesh_Name mesh) w Hnow) as I1.
  destruct (GetMesh _ _ w) as [r w1] eqn:E. cbn [fst snd] in *. subst r.
  destruct (reconcile_calm registry message nodes living (as_now w) (mesh_Namespace mesh) (mesh_Name mesh) m w w1 (calm_now w)) as (HC & HG & _ & _ & HO & _); try done.
  - by apply (live_deleting mesh m).
  - by apply (live_finalizer mesh m).
  - intros items w2 EL. rewrite (live_namespace mesh m Hl) in EL. apply (ds_valid _ _ HS w1); [apply I1|by rewrite EL].
  - by rewrite (live_name mesh m Hl).
  - intros s. rewrite (live_clusters mesh m Hl). apply Hport.
  - by apply (distinct_live registry mesh nodes m Hl).
  - intros n c Hc. apply (unclaimed_live registry mesh nodes m c w Hl). by eapply Hu.
  - pose proof (Reconcile_peers (mesh_Namespace mesh) (mesh_Name mesh) w HO) as HP. split.
    + apply (mesh_converged_same registry mesh nodes (reconcile registry message (mesh_Namespace mesh) (mesh_Name mesh) w).2); [done|].
      by apply (converged_live registry mesh nodes m).
    + intros n c y p Hc Hp. rewrite HP in Hp. by eapply HG.
Qed.

End Healing.

(** C4. Recovery from stale discovery data needs two reconciles. Let the servers be
    calm and serve the kind [Peer] everywhere, while some mappers do not know it, among
    them that of a target of the mesh. Then the first reconcile fails, its error
    carries the NoKindMatchError and is retried, and it resets the mappers, so that
    every registered cluster answers; the second leaves the whole mesh converged, with
    no peer of a dead mesh anywhere. *)
Theorem Reconcile_self_heals {C W M : Type} {api : PeerAPI C W} {laws : PeerAPILaws C W}
    {capi : ControllerAPI C W} {claws : ControllerLaws C W} {C_eq : EqDecision C}
    {store : MapperStore W M} {mlaws : MapperLaws W M}
    (registry : ClusterRegistry C) message mesh nodes living (knows : M -> bool) answers I w :
  discovering registry mesh nodes living knows answers I ->
  mesh_Name mesh ∈ living ->
  (forall s, s ∈ mesh_Clusters mesh -> 0 <= entry_WireguardPort s < 65536) ->
  (forall n n' c, Client registry n = Some c -> Client registry n' = Some c -> n = n') ->
  distinct_peers registry mesh nodes ->
  I w -> (forall n c, Client registry n = Some c -> unclaimed registry mesh nodes c w) ->
  blocked registry mesh (fun c => answers c w = true) ->
  let run := Reconcile registry message (mesh_Namespace mesh) (mesh_Name mesh) in
  let first := run w in
  let second := run first.2 in
  (exists e, first.1 = (0, Some e) /\ wraps e NoKindMatch) /\
  (forall n c, Client registry n = Some c -> answers c first.2 = true) /\
  mesh_converged registry mesh nodes second.2 /\ ghost_free registry living second.2.
Proof.
  intros HS Hliv Hport Hinj HD Hw Hu Hb run first second.
  destruct (run_stale registry message mesh nodes living knows answers I HS Hliv Hport HD w Hw Hu Hb) as (HE & I1 & U1 & F1).
  assert (Ha : forall n c, Client registry n = Some c -> answers c first.2 = true).
  { intros n c Hc. apply (ds_answers _ _ _ _ _ _ _ HS n); [done|done|by eapply F1]. }
  split; [done|]. split; [done|].
  by apply (run_fresh registry message mesh nodes living knows answers I HS Hliv Hport HD Hinj).
Qed.

(** ** A server behind caching mappers *)

Module Cached.
Import Memory.

(** The mapper of a cluster says whether it knows the kind [Peer]. *)
Record cworld : Type := mkCached {
  c_mem : Memory.world;
  c_mappers : gmap string (anyMapper (M := bool));
}.

Definition known (c : string) (w : cworld) : bool :=
  match default NilMapper (c_mappers w !! c) with
  | NilMapper => true
  | PlainMapper k => k
  | ResettableMapper r => current r
  end.

Definition lift {A} (f : ST Memory.world A) : ST cworld A := fun w =>
  let '(r, m) := f (c_mem w) in (r, mkCached m (c_mappers w)).

Definition cached {A} (c : string) (f : ST Memory.world (result kube_error A)) : ST cworld (result kube_error A) := fun w =>
  if known c w then lift f w else (Err NoKindMatch, w).
Arguments cached : simpl never.

#[export] Instance cached_api : PeerAPI string cworld := {
  List c sel := cached c (Memory.listPeers c sel);
  Create c p := cached c (Memory.create c p);
  Update c p := cached c (Memory.update c p);
  Delete c p := cached c (Memory.delete_ c p);
  range m w := (map_to_list m, w);
}.

Lemma cached_inv {A} c (f : ST Memory.world (result kube_error A)) w r w' :
  cached c f w = (r, w') ->
  c_mappers w' = c_mappers w /\
  ((r = Err NoKindMatch /\ w' = w) \/ f (c_mem w) = (r, c_mem w')).
Proof.
  unfold cached, lift. destruct (known c w); [|by intros [= <- <-]; auto].
  destruct (f (c_mem w)) as [r0 m]. intros [= <- <-]. auto.
Qed.

Lemma cached_mem {A} c (f : ST Memory.world (result kube_error A)) w :
  c_mem (cached c f w).2 = c_mem w \/ c_mem (cached c f w).2 = (f (c_mem w)).2.
Proof. unfold cached, lift. destruct (known c w); [|by left]. destruct (f (c_mem w)). by right. Qed.

Ltac by_memory law :=
  match goal with
  | |- context [c_mem (snd (cached ?c ?f ?w))] => destruct (cached_mem c f w) as [->| ->]; [auto|eapply law; eauto]
  end.

Ltac by_reply law :=
  intros; cbn in *; match goal with
  | E : cached ?c ?f ?w = _ |- _ =>
      apply cached_inv in E as (_ & [(?Hr & ?Hw)|E]); [by simplify_eq; auto|eapply law; eauto]
  end.

#[export] Program Instance cached_laws : PeerAPILaws string cworld := {
  peers c w := objects c (c_mem w); seen c w := was c (c_mem w); synced _ _ := True; world_ok w := ok (c_mem w);
}.
Next Obligation. intros c sel w H. cbn. by_memory (@List_ok _ _ _ Memory.laws). Qed.
Next Obligation. intros c p w H. cbn. by_memory (@Create_ok _ _ _ Memory.laws). Qed.
Next Obligation. intros c p w H. cbn. by_memory (@Update_ok _ _ _ Memory.laws). Qed.
Next Obligation. intros c p w H. cbn. by_memory (@Delete_ok _ _ _ Memory.laws). Qed.
Next Obligation. done. Qed.
Next Obligation. intros c w x p H Hx. by apply (@peers_name _ _ _ Memory.laws c (c_mem w)). Qed.
Next Obligation. intros c sel w c'. cbn. by_memory (@List_peers _ _ _ Memory.laws). Qed.
Next Obligation. done. Qed.
Next Obligation. done. Qed.
Next Obligation. done. Qed.
Next Obligation. by_reply (@List_seen _ _ _ Memory.laws). Qed.
Next Obligation. by_reply (@List_NoDup _ _ _ Memory.laws). Qed.
Next Obligation. by_reply (@List_synced _ _ _ Memory.laws). Qed.
Next Obligation. intros c sel w p c' H. cbn. by_memory (@List_keeps _ _ _ Memory.laws). Qed.
Next Obligation. intros c q w p c' H Hp. cbn. by_memory (@Create_keeps _ _ _ Memory.laws). Qed.
Next Obligation. intros c q w p c' H Hp. cbn. by_memory (@Update_keeps _ _ _ Memory.laws). Qed.
Next Obligation. intros c q w p c' H Hp. cbn. by_memory (@Delete_keeps _ _ _ Memory.laws). Qed.
Next Obligation. done. Qed.
Next Obligation. intros c w p cur H Hp Hc E. by eapply (@seen_version _ _ _ Memory.laws c (c_mem w)). Qed.
Next Obligation. intros c w p H Hp. by eapply (@seen_versioned _ _ _ Memory.laws c (c_mem w)). Qed.
Next Obligation. intros c w x p H Hx. by eapply (@peers_seen _ _ _ Memory.laws c (c_mem w)). Qed.
Next Obligation. intros c sel w c' p. cbn. by_memory (@List_history _ _ _ Memory.laws). Qed.
Next Obligation. done. Qed.
Next Obligation. intros c q w c' p. cbn. by_memory (@Create_history _ _ _ Memory.laws). Qed.
Next Obligation. intros c q w c' p. cbn. by_memory (@Update_history _ _ _ Memory.laws). Qed.
Next Obligation. intros c q w c' p. cbn. by_memory (@Delete_history _ _ _ Memory.laws). Qed.
Next Obligation. by_reply (@Create_Ok _ _ _ Memory.laws). Qed.
Next Obligation. by_reply (@Create_Err _ _ _ Memory.laws). Qed.
Next Obligation. by_reply (@Update_Ok _ _ _ Memory.laws). Qed.
Next Obligation. by_reply (@Update_Err _ _ _ Memory.laws). Qed.
Next Obligation. by_reply (@Delete_Ok _ _ _ Memory.laws). Qed.
Next Obligation. by_reply (@Delete_Err _ _ _ Memory.laws). Qed.
Next Obligation. by_reply (@Delete_NotFound _ _ _ Memory.laws). Qed.
Next Obligation. intros c c' p w Hc. cbn. by_memory (@Create_other _ _ _ Memory.laws). Qed.
Next Obligation. intros c c' p w Hc. cbn. by_memory (@Update_other _ _ _ Memory.laws). Qed.
Next Obligation. intros c c' p w Hc. cbn. by_memory (@Delete_other _ _ _ Memory.laws). Qed.

Import MemoryController.

#[export] Instance cached_capi : ControllerAPI string cworld := {
  ListNodes c := lift (ListNodes c);
  GetMesh ns name := lift (GetMesh ns name);
  ListMeshes ns := lift (ListMeshes (C := string) ns);
  UpdateMesh m := lift (UpdateMesh (C := string) m);
  UpdateMeshStatus m := lift (UpdateMeshStatus (C := string) m);
  rangeClusters m w := ((map_to_list m).*1, w);
  unmarshalDiscovered _ := None;
}.

Lemma lift_quiet {A} (f : ST Memory.world A) w :
  quiet (C := string) (c_mem w) (f (c_mem w)).2 -> quiet (C := string) w (lift f w).2.
Proof. unfold lift. by destruct (f (c_mem w)) as [r m]. Qed.

Lemma quiet_same w ms : world_ok (C := string) w -> quiet (C := string) w (mkCached (c_mem w) ms).
Proof. by split. Qed.

#[export] Program Instance cached_claws : ControllerLaws string cworld := {}.
Next Obligation. intros c w H. apply lift_quiet. by apply ListNodes_quiet. Qed.
Next Obligation. intros ns n w H. apply lift_quiet. by apply GetMesh_quiet. Qed.
Next Obligation. intros ns w H. apply lift_quiet. by apply (ListMeshes_quiet (C := string)). Qed.
Next Obligation. intros x w H. apply lift_quiet. by apply (UpdateMesh_quiet (C := string)). Qed.
Next Obligation. intros x w H. apply lift_quiet. by apply (UpdateMeshStatus_quiet (C := string)). Qed.
Next Obligation. intros m w H. by split. Qed.
Next Obligation. done. Qed.
Next Obligation.
  intros ns name w m w' E. apply (f_equal fst) in E. simpl in E.
  apply (GetMesh_name ns name (c_mem w) m (c_mem w)). simpl. by rewrite E.
Qed.

(** The kind is served now: a new mapper will know it. *)
#[export] Instance cached_store : MapperStore cworld bool := {
  mappers := c_mappers;
  setMapper n m w := mkCached (c_mem w) (<[n := m]> (c_mappers w));
  NewDynamicRESTMapper n w := (Some true, w);
}.

#[export] Program Instance cached_mlaws : MapperLaws cworld bool (C := string) := {}.
Next Obligation. done. Qed.
Next Obligation. done. Qed.
Next Obligation. done. Qed.
Next Obligation. intros n m w H. by apply quiet_same. Qed.
Next Obligation. intros n w H. by split. Qed.

(** *** A calm server *)

Section Discovering.
Context (registry : ClusterRegistry string) (ns : gmap string (list Node)).
Context (P : list ClusterMesh -> Prop) (living : list string).
Context (Hliving : forall ms, P ms -> mesh_Name <$> ms = living).

Definition memory_ok : Memory.world -> Prop := MemoryCalm.holding ns P.

Definition cached_ok (w : cworld) : Prop :=
  memory_ok (c_mem w) /\
  forall n c, Client registry n = Some c -> exists r, mapperOf n w = ResettableMapper r.

Lemma inner_calm : calm (MemoryCalm.nodes_in ns) living memory_ok.
Proof. by apply MemoryCalm.holding_calm. Qed.

Lemma cached_keeps {A} c (f : ST Memory.world (result kube_error A)) up w :
  (memory_ok (c_mem w) -> memory_ok (f (c_mem w)).2) ->
  cached_ok w /\ (forall c', known c' w = up c') ->
  cached_ok (cached c f w).2 /\ (forall c', known c' (cached c f w).2 = up c').
Proof.
  intros Hf [[Hw Hr] Hk]. unfold cached, lift. destruct (known c w); [|done].
  specialize (Hf Hw). by destruct (f (c_mem w)) as [r m].
Qed.

Lemma lift_keeps {A} (f : ST Memory.world A) up w :
  (memory_ok (c_mem w) -> memory_ok (f (c_mem w)).2) ->
  cached_ok w /\ (forall c', known c' w = up c') ->
  cached_ok (lift f w).2 /\ (forall c', known c' (lift f w).2 = up c').
Proof. intros Hf [[Hw Hr] Hk]. unfold lift. specialize (Hf Hw). by destruct (f (c_mem w)) as [r m]. Qed.

(** A cluster that is up passes the request on. *)
Lemma cached_up {A} c (f : ST Memory.world (result kube_error A)) up w :
  (forall c', known c' w = up c') -> up c = true -> (cached c f w).1 = (f (c_mem w)).1.
Proof. intros Hk Hc. unfold cached, lift. rewrite Hk, Hc. by destruct (f (c_mem w)). Qed.

Lemma cached_calm up :
  calm_on (up := fun c => up c = true) (MemoryCalm.nodes_in ns) living
    (fun w => cached_ok w /\ forall c, known c w = up c).
Proof.
  pose proof inner_calm as HM. constructor.
  - intros w [[[Hw _] _] _]. done.
  - done.
  - intros c sel w Hw. split; [apply cached_keeps; [apply HM|done]|]. intros Hc.
    destruct (calm_List _ _ _ HM c sel (c_mem w) (proj1 (proj1 Hw))) as [_ H]. destruct (H Logic.I) as [l El].
    exists l. cbn. by rewrite (cached_up c _ up w (proj2 Hw) Hc).
  - intros c p w Hw Hg. split; [apply cached_keeps; [intros Hm; by apply HM|done]|]. intros Hc Hn.
    destruct (calm_Create _ _ _ HM c p (c_mem w) (proj1 (proj1 Hw)) Hg) as [_ H]. destruct (H Logic.I Hn) as [u Eu].
    exists u. cbn. by rewrite (cached_up c _ up w (proj2 Hw) Hc).
  - intros c p w Hw Hl. split; [apply cached_keeps; [intros Hm; by apply HM|done]|]. intros Hc cur Hcur Hv.
    destruct (calm_Update _ _ _ HM c p (c_mem w) (proj1 (proj1 Hw)) Hl) as [_ H]. destruct (H Logic.I cur Hcur Hv) as [u Eu].
    exists u. cbn. by rewrite (cached_up c _ up w (proj2 Hw) Hc).
  - intros c p w Hw. split; [apply cached_keeps; [apply HM|done]|]. intros Hc Hn.
    destruct (calm_Delete _ _ _ HM c p (c_mem w) (proj1 (proj1 Hw))) as [_ H]. destruct (H Logic.I Hn) as [u Eu].
    exists u. cbn. by rewrite (cached_up c _ up w (proj2 Hw) Hc).
  - done.
  - done.
  - intros c w Hw. split; [apply lift_keeps; [apply HM|done]|]. left. destruct Hw as [[(_ & <- & _) _] _]. done.
  - intros a b w Hw. apply lift_keeps; [apply HM|done].
  - intros o w Hw. apply lift_keeps; [apply HM|done].
  - intros w [[(_ & _ & Hms) _] _]. eexists. split; [done|by apply Hliving].
Qed.

End Discovering.

(** The only mesh is [mesh], with any status. *)
Definition only_mesh (mesh : ClusterMesh) (ms : list ClusterMesh) : Prop := exists x, ms = [x] /\ live mesh x.

Lemma only_mesh_names mesh ms : only_mesh mesh ms -> mesh_Name <$> ms = [mesh_Name mesh].
Proof. intros (x & -> & Hx). cbn. by rewrite (live_name _ _ Hx). Qed.

Lemma cached_discovering registry mesh ns :
  ValidateMeshNetworks [mesh] = None -> (forall n c, Client registry n = Some c -> n = c) ->
  discovering registry mesh (MemoryCalm.nodes_in ns) [mesh_Name mesh] (fun k => k) known
    (cached_ok registry ns (only_mesh mesh)).
Proof.
  intros Hvalid Hnames. constructor.
  - apply cached_calm, only_mesh_names.
  - intros c sel w _ Hk. cbn. unfold cached. by rewrite Hk.
  - intros c w [(_ & <- & _) _]. done.
  - intros w [(_ & _ & x & Ex & Hx) _]. exists x. split; [|done]. cbn. rewrite Ex. cbn [List.find].
    by rewrite (live_namespace _ _ Hx), (live_name _ _ Hx), bool_decide_true.
  - intros w items [(_ & _ & x & Ex & Hx) _]. cbn. rewrite Ex. cbn [base.filter list_filter].
    rewrite (live_namespace _ _ Hx), decide_True by done. intros [= <-].
    destruct x, mesh, Hx as [E1 E2 E3 _ _]. simpl in *. by subst.
  - intros n c w [_ H]. apply H.
  - intros n c w [_ Hr] Hc (r & Er & Hk). rewrite (Hnames n c Hc) in Er. unfold known.
    change (default NilMapper (c_mappers w !! c)) with (mapperOf c w). by rewrite Er.
  - intros n w Hw. split; [done|]. by exists true.
  - intros n r w [Hw Hr]. split; [done|]. intros k c Hc. rewrite mapperOf_set. case_decide; [by exists r|by eapply Hr].
Qed.

(** *** The two-cluster mesh, with a stale mapper for cluster b *)

Import Controller.Scenario Convergence.Witness.

Definition mapper (k : bool) : anyMapper (M := bool) := ResettableMapper (mkResettable k).
Definition stale_b : cworld := mkCached (start [two]) {["a" := mapper true; "b" := mapper false; "c" := mapper true]}.

Lemma everywhere_names n c : Client everywhere n = Some c -> n = c.
Proof.
  unfold Client, everywhere. cbn [reg_clusters]. destruct (_ !! n) as [e|] eqn:E; [|done]. intros [= ->].
  by repeat (apply lookup_insert_Some in E as [[<- <-]|[_ E]]; [done|]); apply lookup_singleton_Some in E as [<- <-].
Qed.

Lemma stale_b_ok : cached_ok everywhere nodes (only_mesh two) stale_b.
Proof.
  split.
  - split; [apply Controller.Witness.mesh_start_ok|]. split; [done|]. exists two. by split; [|constructor].
  - intros n c Hc. pose proof (everywhere_names n c Hc) as <-. unfold Client, everywhere in Hc. cbn [reg_clusters] in Hc.
    destruct (_ !! n) as [e|] eqn:E; [|done].
    repeat (apply lookup_insert_Some in E as [[<- _]|[_ E]]; [by eexists|]).
    apply lookup_singleton_Some in E as [<- _]. by eexists.
Qed.

(** *** A three-cluster mesh, with the same stale mapper *)

Definition three : ClusterMesh := mesh "ns" [a; b; c].
Definition three_b : cworld := mkCached (start [three]) {["a" := mapper true; "b" := mapper false; "c" := mapper true]}.

Lemma three_distinct : distinct_peers everywhere three nodes_of.
Proof. apply (fleet_distinct everywhere nodes_of [three]); [..|left|]; apply (bool_decide_unpack _); by vm_compute. Qed.

Definition three_ok (w : cworld) : Prop :=
  cached_ok everywhere nodes (only_mesh three) w /\ forall c, known c w = negb (bool_decide (c = "b")).

Lemma three_b_ok : three_ok three_b.
Proof.
  split; [split|].
  - split; [apply Controller.Witness.mesh_start_ok|]. split; [done|]. exists three. by split; [|constructor].
  - exact (proj2 stale_b_ok).
  - intros x. unfold known, three_b. cbn [c_mappers]. destruct (decide (x = "b")) as [->|Hx]; [done|].
    rewrite bool_decide_false by done. destruct (_ !! x) as [m|] eqn:E; [|done].
    by repeat (apply lookup_insert_Some in E as [[<- <-]|[_ E]]; [done|]); apply lookup_singleton_Some in E as [<- <-].
Qed.

(** *** A converged mesh that is deleted while cluster b is out of reach *)

Definition leaving : ClusterMesh := deleting Rested.two1.
Definition leaving_b : cworld := mkCached Rested.world2 (c_mappers stale_b).
Definition leaving_ok (w : cworld) : Prop :=
  cached_ok everywhere nodes (fun ms => ms = [leaving]) w /\ forall c, known c w = negb (bool_decide (c = "b")).

Lemma leaving_b_ok : leaving_ok leaving_b.
Proof. split; [split; [exact Rested.world2_steady|exact (proj2 stale_b_ok)]|exact (proj2 three_b_ok)]. Qed.

End Cached.

#[export] Existing Instances Cached.cached_api Cached.cached_laws Cached.cached_capi Cached.cached_claws
  Cached.cached_store Cached.cached_mlaws.

(** The first run reaches neither cluster; after the second, both have their peers. *)
Lemma Reconcile_self_heals_witness :
  mesh_converged Controller.Scenario.everywhere Convergence.Witness.two Convergence.Witness.nodes_of
    (Reconcile Controller.Scenario.everywhere (fun _ => "overlap") "ns" "m"
      (Reconcile Controller.Scenario.everywhere (fun _ => "overlap") "ns" "m" Cached.stale_b).2).2.
Proof.
  apply (Reconcile_self_heals Controller.Scenario.everywhere (fun _ => "overlap") Convergence.Witness.two
    Convergence.Witness.nodes_of [mesh_Name Convergence.Witness.two] (fun k => k) Cached.known
    (Cached.cached_ok Controller.Scenario.everywhere Controller.Scenario.nodes (Cached.only_mesh Convergence.Witness.two)) Cached.stale_b).
  - apply Cached.cached_discovering; [vm_compute; reflexivity|exact Cached.everywhere_names].
  - left.
  - intros s [->|[->|[]%not_elem_of_nil]%elem_of_cons]%elem_of_cons; cbn; lia.
  - exact Convergence.Witness.everywhere_injective.
  - exact Convergence.Witness.two_distinct.
  - exact Cached.stale_b_ok.
  - intros n c _. assert (E : peers c Cached.stale_b = ∅) by reflexivity.
    constructor; intros *; rewrite E, lookup_empty; discriminate.
  - exists Controller.Scenario.a, Controller.Scenario.b, "a", "b".
    split; [left|]. split; [right; left|]. split; [discriminate|]. split; [reflexivity|]. split; [reflexivity|].
    vm_compute. discriminate.
Defined.

(** Cluster b refuses: cluster c gets no peer of a either, although it answers. *)
Lemma reconcile_stops_at_outage_witness :
  let r := reconcile Controller.Scenario.everywhere (fun _ => "overlap") "ns" "m" Cached.three_b in
  (exists e before s tgts,
    selectResult r.1.1 r.1.2 = (0, Some e) /\
    broken_off Controller.Scenario.everywhere Cached.three Convergence.Witness.nodes_of
      (up := fun c => negb (bool_decide (c = "b")) = true) NoKindMatch Cached.three_ok
      (mesh_Clusters Cached.three) Cached.three_b r.2 e before s tgts) /\
  peers "c" r.2 !! Name "m" "a" "na" = None.
Proof.
  split.
  - apply (reconcile_stops_at_outage Controller.Scenario.everywhere (fun _ => "overlap")
      (fun c => negb (bool_decide (c = "b")) = true) _ NoKindMatch Convergence.Witness.nodes_of [mesh_Name Cached.three]
      Cached.three_ok "ns" "m" Cached.three Cached.three_b Cached.three_b).
    + apply (Cached.cached_calm Controller.Scenario.everywhere Controller.Scenario.nodes (Cached.only_mesh Cached.three)), Cached.only_mesh_names.
    + intros c sel w [_ Hk] Hc. cbn. unfold Cached.cached. rewrite Hk. by destruct (negb _).
    + exact Cached.three_b_ok.
    + reflexivity.
    + reflexivity.
    + reflexivity.
    + intros items w2 [= <- _]. vm_compute. reflexivity.
    + left.
    + intros s [->|[->|[->|[]%not_elem_of_nil]%elem_of_cons]%elem_of_cons]%elem_of_cons; cbn; lia.
    + exact Cached.three_distinct.
    + intros n c _. assert (E : peers c Cached.three_b = ∅) by reflexivity.
      constructor; intros *; rewrite E, lookup_empty; discriminate.
    + exists Controller.Scenario.a, Controller.Scenario.b, "a", "b".
      split; [left|]. split; [right; left|]. split; [discriminate|]. split; [reflexivity|]. split; [reflexivity|].
      vm_compute. discriminate.
  - vm_compute. reflexivity.
Defined.

(** The peer of cluster b on a is removed, that of cluster a on b stays. *)
Lemma deletion_abandons_outage_witness :
  let r := reconcile Controller.Scenario.everywhere (fun _ => "overlap") "ns" "m" Cached.leaving_b in
  peers "b" r.2 = peers "b" Cached.leaving_b /\
  is_Some (peers "b" r.2 !! Name "m" "a" "na") /\
  is_Some (peers "a" Cached.leaving_b !! Name "m" "b" "nb") /\ peers "a" r.2 !! Name "m" "b" "nb" = None.
Proof.
  split.
  - apply (deletion_abandons_outage Controller.Scenario.everywhere (fun _ => "overlap")
      (fun c => negb (bool_decide (c = "b")) = true) _ NoKindMatch Convergence.Witness.nodes_of [mesh_Name Cached.leaving]
      Cached.leaving_ok "ns" "m" Cached.leaving Cached.leaving_b Cached.leaving_b).
    + apply (Cached.cached_calm Controller.Scenario.everywhere Controller.Scenario.nodes (fun ms => ms = [Cached.leaving])).
      intros ms ->. reflexivity.
    + intros c sel w [_ Hk] Hc. cbn. unfold Cached.cached. rewrite Hk. by destruct (negb _).
    + exact Cached.leaving_b_ok.
    + vm_compute. reflexivity.
    + reflexivity.
    + vm_compute. reflexivity.
    + discriminate.
  - split; [|split].
    + apply (bool_decide_unpack _). vm_compute. reflexivity.
    + apply (bool_decide_unpack _). vm_compute. reflexivity.
    + vm_compute. reflexivity.
Defined.
