(* ===== verification/Watches.v ===== *)
(** * Watches: which events lead to a reconcile

    [SetupWithManager] of the two controllers ([clustermesh_controller.go],
    [watcher.go]). The predicates of controller-runtime are parameters with their
    documented behaviour; the handlers are the map functions of the repository. *)

From Stdlib Require Import String.
From S2P Require Import Prelude GoStrings Types Kilonode ValidationNode Naming Builder Kube Registry Controller Convergence Restart.
Open Scope Z_scope.
Open Scope go_scope.

(** ** Events and predicates *)

Inductive event (O : Type) : Type :=
| CreateEvent (o : O)
| UpdateEvent (old new : O)
| DeleteEvent (o : O)
| GenericEvent (o : O).
Arguments CreateEvent {O} o.
Arguments UpdateEvent {O} old new.
Arguments DeleteEvent {O} o.
Arguments GenericEvent {O} o.

Definition predicate (O : Type) : Type := event O -> bool.

(** [predicate.Funcs]: a nil field is [None]. *)
Record Funcs (O : Type) : Type := mkFuncs {
  CreateFunc : option (O -> bool);
  UpdateFunc : option (O -> O -> bool);
  DeleteFunc : option (O -> bool);
  GenericFunc : option (O -> bool);
}.
Arguments mkFuncs {O} _ _ _ _.
Arguments CreateFunc {O} _.
Arguments UpdateFunc {O} _.
Arguments DeleteFunc {O} _.
Arguments GenericFunc {O} _.

(** controller-runtime's predicates. An object type comes with the accessors of
    its metadata. *)
Class PredicateAPI : Type := {
  fromFuncs {O} : Funcs O -> predicate O;
  Or {O} : list (predicate O) -> predicate O;
  GenerationChanged {O} (generation : O -> Z) : predicate O;
  AnnotationChanged {O} (annotations : O -> gmap string string) : predicate O;
}.

Class PredicateLaws `{PredicateAPI} : Prop := {
  (* "implements Predicate": a nil function lets the event pass *)
  fromFuncs_spec {O} (f : Funcs O) e : fromFuncs f e =
    match e with
    | CreateEvent o => match CreateFunc f with Some g => g o | None => true end
    | UpdateEvent a b => match UpdateFunc f with Some g => g a b | None => true end
    | DeleteEvent o => match DeleteFunc f with Some g => g o | None => true end
    | GenericEvent o => match GenericFunc f with Some g => g o | None => true end
    end;
  (* "any of the passed predicates" *)
  Or_spec {O} (ps : list (predicate O)) e : Or ps e = existsb (fun p => p e) ps;
  (* "skip update events that have no change in the object's metadata.generation" *)
  GenerationChanged_spec {O} (g : O -> Z) e : GenerationChanged g e =
    match e with UpdateEvent a b => negb (g b =? g a) | _ => true end;
  (* "skip update events that have no change in the object's annotation" *)
  AnnotationChanged_spec {O} (g : O -> gmap string string) e : AnnotationChanged g e =
    match e with UpdateEvent a b => negb (bool_decide (g b = g a)) | _ => true end;
}.

(** A Node with its generation. *)
Record NodeObject : Type := mkNodeObject {
  no_Generation : Z;
  no_Node : Node;
}.

(** ** The watches of a controller *)

Inductive watch : Type :=
| ForMeshes (p : predicate ClusterMesh)
| RawNodes (cluster : string) (p : predicate NodeObject)
| MappedSecrets.

Record controllerSpec : Type := mkControllerSpec {
  cs_Name : string;
  cs_Watches : list watch;
}.

Section Setup.
Context `{PredicateAPI} {C W : Type} `{PeerAPI C W} `{!ControllerAPI C W}.

(** The event filter of the clustermesh controller. *)
Definition ignoreDeletes : predicate ClusterMesh :=
  fromFuncs (mkFuncs None None (Some (fun _ => false)) None).

(** The predicate of its node watches. *)
Definition structuralChange : predicate NodeObject :=
  Or [GenerationChanged no_Generation; AnnotationChanged (fun o => node_Annotations (no_Node o))].

(** [Complete] builds the controller: a parameter. *)
Context (Complete : controllerSpec -> ST W (result kube_error unit)).

Inductive setup_error : Type :=
| BuildingClustermeshController (cause : kube_error)
| BuildingChangeWatcher (cause : kube_error).

(** [ClusterMeshReconciler.SetupWithManager]: one node watch per registered
    cluster, in the order of the map. *)
Definition clustermeshSpec (names : list string) : controllerSpec :=
  mkControllerSpec "clustermesh" (ForMeshes ignoreDeletes :: ((fun n => RawNodes n structuralChange) <$> names)).

Definition SetupReconciler (registry : ClusterRegistry C) : ST W (result setup_error controllerSpec) :=
  names ← rangeClusters (All registry);
  let? _ := Complete (clustermeshSpec names) catch e => mret (Err (BuildingClustermeshController e));
  mret (Ok (clustermeshSpec names)).

(** [ChangeWatcher.SetupWithManager]. *)
Definition changeWatcherSpec : controllerSpec :=
  mkControllerSpec "change-watcher" [ForMeshes (fun _ => true); MappedSecrets].

Definition SetupChangeWatcher : ST W (result setup_error controllerSpec) :=
  let? _ := Complete changeWatcherSpec catch e => mret (Err (BuildingChangeWatcher e));
  mret (Ok changeWatcherSpec).

End Setup.

(** ** Node events *)

(** The requests a controller's watches make of a node event on [cluster], with the
    meshes as the handler lists them. *)
Definition nodeRequests (spec : controllerSpec) (cluster : string) (e : event NodeObject)
    (meshes : result kube_error (list ClusterMesh)) : list (string * string) :=
  cs_Watches spec ≫= fun w =>
    match w with
    | RawNodes n p => if decide (n = cluster) then (if p e then nodeToClusterMeshRequests n meshes else []) else []
    | _ => []
    end.

Section NodeEvents.
Context `{PredicateLaws} {C W : Type} {api : PeerAPI C W} {laws : PeerAPILaws C W}.
Context {capi : ControllerAPI C W} {claws : ControllerLaws C W}.
Context (Complete : controllerSpec -> ST W (result kube_error unit)).

(** An update that changes neither the generation nor an annotation. *)
Definition unstructural (e : event NodeObject) : Prop :=
  exists old new, e = UpdateEvent old new /\ no_Generation old = no_Generation new /\
    node_Annotations (no_Node old) = node_Annotations (no_Node new).

Lemma structuralChange_iff e : structuralChange e = true <-> ~ unstructural e.
Proof.
  unfold structuralChange. rewrite Or_spec. cbn [existsb]. rewrite GenerationChanged_spec, AnnotationChanged_spec.
  destruct e as [o|old new|o|o]; cbn [orb]; [|split| |]; try (split; [by intros _ (? & ? & ? & _)|done]).
  - rewrite orb_false_r. intros Hc (? & ? & [= <- <-] & E1 & E2). rewrite E1, E2, Z.eqb_refl in Hc.
    by rewrite bool_decide_eq_true_2 in Hc.
  - intros Hn. destruct (Z.eqb_spec (no_Generation new) (no_Generation old)) as [E1|]; [|done].
    destruct (bool_decide_reflect (node_Annotations (no_Node new) = node_Annotations (no_Node old))) as [E2|]; [|done].
    exfalso. apply Hn. by exists old, new.
Qed.

Lemma requests_lists cluster meshes ns name :
  (ns, name) ∈ nodeToClusterMeshRequests cluster (Ok meshes) <->
  exists m, m ∈ meshes /\ mesh_Namespace m = ns /\ mesh_Name m = name /\ cluster ∈ (entry_Name <$> mesh_Clusters m).
Proof.
  unfold nodeToClusterMeshRequests. rewrite list_elem_of_fmap.
  assert (Hx : forall m, existsb (fun e => bool_decide (entry_Name e = cluster)) (mesh_Clusters m) = true <->
    cluster ∈ (entry_Name <$> mesh_Clusters m)).
  { intros m. rewrite existsb_exists, list_elem_of_fmap. setoid_rewrite bool_decide_eq_true.
    split; intros (e & H1 & H2); exists e; [by rewrite list_elem_of_In|]. by rewrite <- list_elem_of_In. }
  split.
  - intros (m & [= -> ->] & [Hm%Hx Hin]%list_elem_of_filter). by exists m.
  - intros (m & Hin & <- & <- & Hm%Hx). exists m. split; [done|]. by apply list_elem_of_filter.
Qed.

(** The requests of a node event, once the controller is set up. *)
Lemma nodeRequests_iff registry spec w w' cluster e meshes ns name :
  SetupReconciler Complete registry w = (Ok spec, w') ->
  (ns, name) ∈ nodeRequests spec cluster e (Ok meshes) <->
  is_Some (Client registry cluster) /\ ~ unstructural e /\
  exists m, m ∈ meshes /\ mesh_Namespace m = ns /\ mesh_Name m = name /\ cluster ∈ (entry_Name <$> mesh_Clusters m).
Proof.
  unfold SetupReconciler. rewrite st_bind_run. pose proof (rangeClusters_perm (All registry) w) as Hperm.
  destruct (rangeClusters (All registry) w) as [names w1]. cbn [fst snd] in *. rewrite st_bind_run.
  destruct (Complete _ w1) as [[u|er] w2]; cbn [fst snd]; [|done]. rewrite st_ret_run. intros [= <- _].
  assert (Hn : cluster ∈ names <-> is_Some (Client registry cluster)).
  { rewrite Hperm, list_elem_of_fmap. unfold Client, All. split.
    - intros ([k c] & -> & Hk%elem_of_map_to_list). cbn. by rewrite Hk.
    - destruct (reg_clusters registry !! cluster) as [c|] eqn:E; [|by intros []]. intros _. exists (cluster, c).
      split; [done|]. by apply elem_of_map_to_list. }
  rewrite <- requests_lists, <- structuralChange_iff, <- Hn. unfold nodeRequests. cbn [cs_Watches clustermeshSpec].
  rewrite bind_cons. cbn [app]. rewrite list_elem_of_bind. split.
  - intros (x & Hx & (n & -> & Hin)%list_elem_of_fmap). cbn beta iota in Hx.
    case_decide as En; [subst n|by apply not_elem_of_nil in Hx].
    destruct (structuralChange e); [done|by apply not_elem_of_nil in Hx].
  - intros (Hin & Hs & Hr). exists (RawNodes cluster structuralChange). split; [|apply list_elem_of_fmap; by exists cluster].
    by rewrite decide_True, Hs.
Qed.

(** C23. Which node events lead to which reconciles: once the controller is set up, an
    event on a node of a cluster enqueues a mesh exactly if the cluster is in the
    registry, the mesh lists it, and the event is not an update that leaves the
    generation and the annotations as they were. *)
Theorem node_event_enqueues registry spec w w' cluster e meshes ns name :
  SetupReconciler Complete registry w = (Ok spec, w') ->
  (ns, name) ∈ nodeRequests spec cluster e (Ok meshes) <->
  is_Some (Client registry cluster) /\ ~ unstructural e /\
  exists m, m ∈ meshes /\ mesh_Namespace m = ns /\ mesh_Name m = name /\ cluster ∈ (entry_Name <$> mesh_Clusters m).
Proof. apply nodeRequests_iff. Qed.

(** What an event says about the nodes of its cluster. *)
Definition happens (e : event NodeObject) (l l' : list Node) : Prop :=
  match e with
  | CreateEvent o => exists l1 l2, l = l1 ++ l2 /\ l' = l1 ++ no_Node o :: l2
  | UpdateEvent a b => exists l1 l2, l = l1 ++ no_Node a :: l2 /\ l' = l1 ++ no_Node b :: l2 /\
      node_Name (no_Node a) = node_Name (no_Node b)
  | DeleteEvent o => exists l1 l2, l = l1 ++ no_Node o :: l2 /\ l' = l1 ++ l2
  | GenericEvent _ => l' = l
  end.

(** The predicates do not look at the PodCIDRs and the addresses of a node: an update
    of these alone passes unseen. *)
Definition unseen (e : event NodeObject) : Prop :=
  unstructural e /\
  exists old new, e = UpdateEvent old new /\
    (node_PodCIDRs (no_Node old) <> node_PodCIDRs (no_Node new) \/ node_Addresses (no_Node old) <> node_Addresses (no_Node new)).

(** An update that is neither structural nor unseen changes nothing. *)
Lemma unstructural_same e l l' : unstructural e -> happens e l l' -> l' = l \/ unseen e.
Proof.
  intros Hu He. pose proof Hu as (old & new & -> & _ & Ha). destruct He as (l1 & l2 & -> & -> & Hn).
  destruct (decide (node_PodCIDRs (no_Node old) = node_PodCIDRs (no_Node new))) as [Hp|];
    [|right; split; [done|]; eexists _, _; eauto].
  destruct (decide (node_Addresses (no_Node old) = node_Addresses (no_Node new))) as [Hd|];
    [|right; split; [done|]; eexists _, _; eauto].
  left. destruct old as [? []], new as [? []]. simpl in *. by subst.
Qed.

(** C22. Which changes of nodes reach a reconcile. Let a node of a registered cluster
    be created, updated or deleted, and let this change what some mesh wants on one
    of its clusters. Then the watches, with their predicates, enqueue the mesh, but
    for two cases: the handler could not list the meshes, which drops the event; or
    the event is an update that leaves generation and annotations as they were and
    changes only PodCIDRs or addresses. These wait for the periodic reconcile. *)
Theorem node_event_complete registry spec w w' cluster cl e listed nodes nodes' mesh s t c :
  SetupReconciler Complete registry w = (Ok spec, w') -> Client registry cluster = Some cl ->
  happens e (nodes cl) (nodes' cl) ->
  (forall n c', n <> cluster -> Client registry n = Some c' -> nodes' c' = nodes c') ->
  (forall meshes, listed = Ok meshes -> mesh ∈ meshes) ->
  s ∈ mesh_Clusters mesh -> t ∈ mesh_Clusters mesh -> Client registry (entry_Name t) = Some c ->
  wanted registry mesh nodes' c s <> wanted registry mesh nodes c s ->
  (mesh_Namespace mesh, mesh_Name mesh) ∈ nodeRequests spec cluster e listed \/
  (exists err, listed = Err err) \/ unseen e.
Proof.
  intros Hset Hcl He Hsame Hin Hs Ht Hc Hchanged. destruct listed as [meshes|err]; [|by right; left; exists err].
  specialize (Hin meshes eq_refl). rewrite (nodeRequests_iff registry spec w w' cluster e meshes) by done.
  destruct (decide (cluster ∈ (entry_Name <$> mesh_Clusters mesh))) as [Hl|Hl].
  2:{ exfalso. apply Hchanged. apply (wanted_elsewhere registry nodes nodes' cluster mesh s t c); [|done..].
      intros x Hx <-. by apply Hl, list_elem_of_fmap_2. }
  destruct (structuralChange e) eqn:Est.
  { left. split; [by eexists|]. split; [by apply structuralChange_iff|]. by exists mesh. }
  assert (Hu : unstructural e).
  { destruct e as [o|old new|o|o]; unfold structuralChange in Est; rewrite Or_spec in Est; cbn [existsb] in Est;
      rewrite GenerationChanged_spec, AnnotationChanged_spec in Est; cbn in Est; try done.
    rewrite orb_false_r in Est. apply orb_false_elim in Est as [E1%negb_false_iff%Z.eqb_eq E2%negb_false_iff%bool_decide_eq_true].
    by exists old, new. }
  destruct (unstructural_same e _ _ Hu He) as [E|Hun]; [exfalso|by right; right]. apply Hchanged.
  assert (Hall : forall n x, Client registry n = Some x -> nodes' x = nodes x).
  { intros n x Hx. destruct (decide (n = cluster)) as [->|Hn]; [congruence|by eapply Hsame]. }
  apply wanted_same_nodes; eauto.
Qed.

(** *** Address changes *)

(** [new] is [old] with other addresses. *)
Definition readdressed (old new : NodeObject) : Prop :=
  no_Generation old = no_Generation new /\ node_Name (no_Node old) = node_Name (no_Node new) /\
  node_Annotations (no_Node old) = node_Annotations (no_Node new) /\ node_PodCIDRs (no_Node old) = node_PodCIDRs (no_Node new).

(** Addresses play no part in the choice of nodes. *)
Lemma readdressed_accepted old new s :
  readdressed old new -> ValidateNode (no_Node old) s = None <-> ValidateNode (no_Node new) s = None.
Proof.
  intros (_ & _ & Ha & Hp). rewrite !ValidateNode_None. destruct old as [? []], new as [? []]. simpl in *. subst.
  split; intros [H1 H2 H3 H4]; constructor; assumption.
Qed.

Lemma readdressed_filtered old new s l1 l2 :
  readdressed old new ->
  no_Node old ∈ (filterNodes (l1 ++ no_Node old :: l2) s).1.1 ->
  exists f1 f2, (filterNodes (l1 ++ no_Node old :: l2) s).1.1 = f1 ++ no_Node old :: f2 /\
    (filterNodes (l1 ++ no_Node new :: l2) s).1.1 = f1 ++ no_Node new :: f2.
Proof.
  intros Hr. rewrite !filterNodes_valid. intros [[Hdup Hv] _]%list_elem_of_filter.
  assert (E : FindDuplicateWGIPs (l1 ++ no_Node new :: l2) = FindDuplicateWGIPs (l1 ++ no_Node old :: l2)).
  { unfold FindDuplicateWGIPs. rewrite !foldl_app. cbn [foldl]. do 2 f_equal. unfold findDuplicateStep, annotation.
    destruct Hr as (_ & -> & -> & _). done. }
  rewrite E. set (dup := FindDuplicateWGIPs _) in *.
  set (P := fun n => dup !! node_Name n = None /\ ValidateNode n s = None).
  exists (base.filter P l1), (base.filter P l2). rewrite !list.filter_app, !list.filter_cons.
  rewrite decide_True by done. rewrite decide_True; [done|]. unfold P.
  split; [by destruct Hr as (_ & <- & _)|]. by apply (readdressed_accepted old new s Hr).
Qed.

Lemma unstructural_requests registry spec w w' cluster e listed :
  SetupReconciler Complete registry w = (Ok spec, w') -> unstructural e -> nodeRequests spec cluster e listed = [].
Proof.
  intros Hset Hu. destruct listed as [meshes|err].
  - destruct (nodeRequests spec cluster e (Ok meshes)) as [|[ns name] l] eqn:E; [done|exfalso].
    assert (Hin : (ns, name) ∈ nodeRequests spec cluster e (Ok meshes)) by (rewrite E; left).
    by apply (nodeRequests_iff registry spec w w') in Hin as (_ & ? & _).
  - unfold nodeRequests. clear Hset. induction (cs_Watches spec) as [|x l IH]; [done|]. rewrite bind_cons, IH, app_nil_r.
    destruct x as [p|n p|]; try done. case_decide; [|done]. by destruct (p e).
Qed.

(** C40. An address change is not noticed. Let the update of a node that is peered
    change nothing but its addresses, and with them the endpoint of the node. Then the
    peer built for the node is another one, of the same name and with the new endpoint
    (before discovered endpoints are looked at); and the watches enqueue nothing, for
    this mesh or any other, so that the old endpoint stays until another event or the
    periodic reconcile. *)
Theorem node_address_update_unnoticed registry spec w w' cluster listed old new nodes nodes' mesh s cs l1 l2 :
  SetupReconciler Complete registry w = (Ok spec, w') -> readdressed old new ->
  s ∈ mesh_Clusters mesh -> Client registry (entry_Name s) = Some cs -> 0 <= entry_WireguardPort s < 65536 ->
  nodes cs = l1 ++ no_Node old :: l2 -> nodes' cs = l1 ++ no_Node new :: l2 ->
  no_Node old ∈ (filterNodes (nodes cs) s).1.1 ->
  resolvePeerEndpoint (no_Node old) (entry_WireguardPort s) <> resolvePeerEndpoint (no_Node new) (entry_WireguardPort s) ->
  nodeRequests spec cluster (UpdateEvent old new) listed = [] /\
  exists i d d', desired_of registry mesh nodes s !! i = Some d /\ desired_of registry mesh nodes' s !! i = Some d' /\
    peer_Name d = Name (mesh_Name mesh) (entry_Name s) (node_Name (no_Node old)) /\ peer_Name d' = peer_Name d /\
    resolvePeerEndpoint (no_Node new) (entry_WireguardPort s) = Ok (spec_Endpoint (peer_Spec d')) /\
    spec_Endpoint (peer_Spec d') <> spec_Endpoint (peer_Spec d).
Proof.
  intros Hset Hr Hs Hcs Hport Hl Hl' Hin Hep. split.
  { eapply unstructural_requests; [done|]. exists old, new. by destruct Hr as (? & _ & ? & _). }
  rewrite Hl in Hin. destruct (readdressed_filtered old new s l1 l2 Hr Hin) as (f1 & f2 & E & E').
  assert (Hb : forall nodes0 f n, (filterNodes (nodes0 cs) s).1.1 = f1 ++ n :: f ->
    exists d extra, desired_of registry mesh nodes0 s !! length f1 = Some d /\
      BuildPeer (mesh_Name mesh) s n extra (meshPersistentKeepalive mesh) = Ok d).
  { intros nodes0 f n En. unfold desired_of. rewrite Hcs, En. unfold buildDesiredPeers.
    destruct (buildLoop_Ok (mesh_Name mesh) s (f1 ++ n :: f) (CollectAnchorCIDRs s (f1 ++ n :: f)) (meshPersistentKeepalive mesh))
      as (ps & -> & Hlen & Hnth); [done|intros m Hm; rewrite <- En in Hm; by eapply filterNodes_eligible|].
    destruct (lookup_lt_is_Some_2 ps (length f1)) as [d Hd]; [rewrite Hlen, length_app; simpl; lia|].
    exists d. eexists. split; [done|]. eapply Hnth; [|exact Hd]. by apply list_lookup_middle. }
  rewrite <- Hl in E. rewrite <- Hl' in E'.
  destruct (Hb nodes f2 _ E) as (d & x & Hd & B), (Hb nodes' f2 _ E') as (d' & x' & Hd' & B').
  apply BuildPeer_Ok in B as (? & ? & ? & ? & ep & _ & _ & _ & R & ->).
  apply BuildPeer_Ok in B' as (? & ? & ? & ? & ep' & _ & _ & _ & R' & ->).
  eexists (length f1), _, _. split; [exact Hd|]. split; [exact Hd'|]. split; [done|]. split; [|split; [done|]].
  - cbn. by destruct Hr as (_ & -> & _).
  - cbn. intros ->. by rewrite R, R' in Hep.
Qed.

End NodeEvents.

(** ** Secret events *)

Section SecretEvents.
Context {W : Type} {wapi : WatcherAPI W} {wlaws : WatcherLaws W}.

Lemma ref_for_ext rv rv' ns c :
  (forall ref, entry_KubeconfigSecretRef c = Some ref -> rv ns (ref_Name ref) = rv' ns (ref_Name ref)) ->
  ref_for rv ns c = ref_for rv' ns c.
Proof. unfold ref_for. destruct (entry_KubeconfigSecretRef c) as [ref|]; [|done]. intros H. by rewrite H. Qed.

Lemma all_refs_ext rv rv' meshes :
  (forall m c ref, m ∈ meshes -> c ∈ mesh_Clusters m -> entry_KubeconfigSecretRef c = Some ref ->
     rv (mesh_Namespace m) (ref_Name ref) = rv' (mesh_Namespace m) (ref_Name ref)) ->
  all_refs rv meshes = all_refs rv' meshes.
Proof.
  unfold all_refs. induction meshes as [|m meshes IH]; intros H; [done|]. rewrite !bind_cons. f_equal.
  - apply list_fmap_ext. intros i c Hc%list_elem_of_lookup_2. apply ref_for_ext. intros ref. by apply H; [left|].
  - apply IH. intros m' c ref Hm'. apply H. by right.
Qed.

(** C24. Which Secret events reach the change watcher. When one Secret changes
    (created, updated or deleted), the watch enqueues something, or the references
    behind the fingerprint are the same before and after, or the handler could not
    list the meshes. In that last case it enqueues nothing, whatever has changed: the
    event is lost, and a rotated kubeconfig goes unnoticed until another event. *)
Theorem secret_event_complete J J' rv rv' ns name meshes w0 w w' :
  (forall items w1, WatchedMeshes (Some ns) w0 = (Ok items, w1) ->
     forall m, m ∈ meshes -> mesh_Namespace m = ns -> m ∈ items) ->
  versions J rv -> versions J' rv' -> J w -> J' w' ->
  (forall a b, (a, b) <> (ns, name) -> rv a b = rv' a b) ->
  ((secretToClusterMesh ns name w0).1 <> [] \/
   (collectRefs meshes w).1 = (collectRefs meshes w').1 \/
   exists e, (WatchedMeshes (Some ns) w0).1 = Err e) /\
  forall e, (WatchedMeshes (Some ns) w0).1 = Err e -> (secretToClusterMesh ns name w0).1 = [].
Proof.
  intros Hall HV HV' Hw Hw' Hsame. unfold secretToClusterMesh. rewrite st_bind_run.
  destruct (WatchedMeshes (Some ns) w0) as [[items|e] w1]; cbn [fst snd].
  2:{ rewrite st_ret_run. split; [right; right; by exists e|done]. }
  rewrite st_ret_run. cbn [fst]. split; [|done]. specialize (Hall items w1 eq_refl).
  set (requests := items ≫= _). destruct (decide (requests = [])) as [Hnone|]; [right; left|by left].
  rewrite (collectRefs_refs J rv meshes w), (collectRefs_refs J' rv' meshes w') by done. f_equal.
  apply all_refs_ext. intros m c ref Hm Hc Href. apply Hsame. intros [= Ens En].
  apply (not_elem_of_nil (mesh_Namespace m, mesh_Name m)). rewrite <- Hnone.
  apply list_elem_of_bind. exists m. split; [|by apply Hall]. apply list_elem_of_bind. exists c. split; [|done].
  rewrite Href, decide_True by done. left.
Qed.

End SecretEvents.

(** ** The predicates, as documented *)

#[export] Instance documented_predicates : PredicateAPI := {
  fromFuncs O f e :=
    match e with
    | CreateEvent o => match CreateFunc f with Some g => g o | None => true end
    | UpdateEvent a b => match UpdateFunc f with Some g => g a b | None => true end
    | DeleteEvent o => match DeleteFunc f with Some g => g o | None => true end
    | GenericEvent o => match GenericFunc f with Some g => g o | None => true end
    end;
  Or O ps e := existsb (fun p => p e) ps;
  GenerationChanged O g e := match e with UpdateEvent a b => negb (g b =? g a) | _ => true end;
  AnnotationChanged O g e := match e with UpdateEvent a b => negb (bool_decide (g b = g a)) | _ => true end;
}.

#[export] Instance documented_laws : PredicateLaws.
Proof. by constructor. Qed.

(** ** Concrete instances *)

Module Readdressed.
Import Controller.Scenario.

(** The node of cluster b before and after its external address changes. *)
Definition before : NodeObject := mkNodeObject 1 (node "nb" "2").
Definition after : NodeObject :=
  mkNodeObject 1 (mkNode "nb" (node_Annotations (node "nb" "2")) (node_PodCIDRs (node "nb" "2"))
    [mkNodeAddress NodeExternalIP "198.51.100.7"]).
Definition nodes_with (l : list Node) (c : string) : list Node :=
  if decide (c = "b") then l else Convergence.Witness.nodes_of c.

(** The reconciler set up on clusters a, b and c. *)
Definition spec : controllerSpec := clustermeshSpec (rangeClusters (All everywhere) (start [])).1.

End Readdressed.

Lemma node_address_update_unnoticed_witness :
  nodeRequests Readdressed.spec "b" (UpdateEvent Readdressed.before Readdressed.after) (Ok [Convergence.Witness.two]) = [] /\
  exists i d d',
    desired_of Controller.Scenario.everywhere Convergence.Witness.two (Readdressed.nodes_with [no_Node Readdressed.before]) Controller.Scenario.b !! i = Some d /\
    desired_of Controller.Scenario.everywhere Convergence.Witness.two (Readdressed.nodes_with [no_Node Readdressed.after]) Controller.Scenario.b !! i = Some d' /\
    spec_Endpoint (peer_Spec d') <> spec_Endpoint (peer_Spec d).
Proof.
  destruct (node_address_update_unnoticed (fun _ w => (Ok tt, w)) Controller.Scenario.everywhere Readdressed.spec
    (Controller.Scenario.start []) (Controller.Scenario.start []) "b" (Ok [Convergence.Witness.two]) Readdressed.before Readdressed.after
    (Readdressed.nodes_with [no_Node Readdressed.before]) (Readdressed.nodes_with [no_Node Readdressed.after])
    Convergence.Witness.two Controller.Scenario.b "b" [] []) as (H1 & i & d & d' & Hd & Hd' & _ & _ & _ & H2).
  - vm_compute. reflexivity.
  - repeat split.
  - right. left.
  - reflexivity.
  - cbn. lia.
  - reflexivity.
  - reflexivity.
  - vm_compute. left.
  - vm_compute. discriminate.
  - split; [exact H1|]. exists i, d, d'. split; [exact Hd|]. split; [exact Hd'|exact H2].
Defined.

(** Node nb goes away; the peers of cluster b on a change, and the mesh is enqueued. *)
Lemma node_event_complete_witness :
  ("ns", "m") ∈ nodeRequests Readdressed.spec "b" (DeleteEvent Readdressed.before) (Ok [Convergence.Witness.two]).
Proof.
  destruct (node_event_complete (fun _ w => (Ok tt, w)) Controller.Scenario.everywhere Readdressed.spec
    (Controller.Scenario.start []) (Controller.Scenario.start []) "b" "b" (DeleteEvent Readdressed.before) (Ok [Convergence.Witness.two])
    (Readdressed.nodes_with [no_Node Readdressed.before]) (Readdressed.nodes_with []) Convergence.Witness.two
    Controller.Scenario.b Controller.Scenario.a "a") as [H|[[e He]|[(? & ? & He & _) _]]].
  - vm_compute. reflexivity.
  - reflexivity.
  - exists [], []. split; reflexivity.
  - intros n c' Hn Hc. unfold Readdressed.nodes_with. rewrite !decide_False; [reflexivity|..];
      intros ->; apply Hn; exact (Convergence.Witness.everywhere_injective n "b" "b" Hc eq_refl).
  - intros meshes [= <-]. left.
  - right. left.
  - left.
  - reflexivity.
  - vm_compute. discriminate.
  - exact H.
  - discriminate He.
  - discriminate He.
Defined.

Lemma node_event_enqueues_witness :
  ("ns", "m") ∈ nodeRequests (clustermeshSpec (rangeClusters (All Controller.Scenario.everywhere) (Controller.Scenario.start [])).1)
    "b" (DeleteEvent Readdressed.before) (Ok [Convergence.Witness.two]).
Proof.
  apply (node_event_enqueues (fun _ w => (Ok tt, w)) Controller.Scenario.everywhere
    (clustermeshSpec (rangeClusters (All Controller.Scenario.everywhere) (Controller.Scenario.start [])).1)
    (Controller.Scenario.start []) (Controller.Scenario.start []) "b" (DeleteEvent Readdressed.before)
    [Convergence.Witness.two] "ns" "m"); [vm_compute; reflexivity|].
  split; [by eexists|]. split; [by intros (? & ? & ? & _)|]. exists Convergence.Witness.two. split; [left|].
  do 2 (split; [reflexivity|]). right. left.
Defined.

(** Another Secret of the namespace is rotated. *)
Module Rotation.
Definition old : Store.store := Store.mkStore [mesh_of "t1" "hub"] {[("t1", "admin") := "7"; ("t1", "other") := "8"]}.
Definition new : Store.store := Store.mkStore [mesh_of "t1" "hub"] {[("t1", "admin") := "7"; ("t1", "other") := "9"]}.
End Rotation.

Lemma secret_event_complete_witness :
  (collectRefs [mesh_of "t1" "hub"] Rotation.old).1 = (collectRefs [mesh_of "t1" "hub"] Rotation.new).1.
Proof.
  destruct (secret_event_complete (fun w => w = Rotation.old) (fun w => w = Rotation.new)
    (fun ns n => default "" (Store.st_secrets Rotation.old !! (ns, n))) (fun ns n => default "" (Store.st_secrets Rotation.new !! (ns, n))) "t1" "other" [mesh_of "t1" "hub"]
    Rotation.new Rotation.old Rotation.new) as [[H|[H|[e He]]] _].
  - intros items w1 [= <- _] m Hm _. exact Hm.
  - apply Store.store_versions.
  - apply Store.store_versions.
  - reflexivity.
  - reflexivity.
  - intros a b Hne. unfold Rotation.old, Rotation.new. cbn [Store.st_secrets]. f_equal.
    destruct (decide ((a, b) = ("t1", "admin"))) as [->|Ha]; [reflexivity|].
    rewrite !lookup_insert_ne, !lookup_singleton_ne by congruence. reflexivity.
  - exfalso. apply H. reflexivity.
  - exact H.
  - discriminate He.
Defined.
