(* ===== verification/Fingerprint.v ===== *)
(** * Fingerprint: what equal fingerprints say

    The start fingerprint is a SHA-256 sum of the JSON text of the references to the
    kubeconfig Secrets. The text determines the references; so equal fingerprints are
    fingerprints of the same references, or a collision of SHA-256 on two texts. *)

From Stdlib Require Import Ascii String.
From S2P Require Import Prelude GoStrings GoNet Sha256 Naming Types Kube Restart.
Open Scope Z_scope.
Open Scope go_scope.

(** ** The JSON text of ASCII strings *)

Definition ascii_only (s : string) : Prop := Str.forallb (fun c => byte_of c <? 128) s = true.

(** The escaped characters of a string, one after the other. *)
Fixpoint escaped (s : string) : string :=
  match s with EmptyString => EmptyString | String c s' => json_ascii (byte_of c) +:+ escaped s' end.

Lemma ascii_only_cons c s : ascii_only (String c s) <-> 0 <= byte_of c < 128 /\ ascii_only s.
Proof.
  unfold ascii_only. cbn [Str.forallb]. rewrite andb_true_iff, Z.ltb_lt.
  assert (0 <= byte_of c) by (unfold byte_of; lia). naive_solver lia.
Qed.

Lemma json_string_escaped s : ascii_only s -> json_string s = str1 quote +:+ escaped s +:+ str1 quote.
Proof.
  intros Hs. unfold json_string. do 2 f_equal. induction s as [|c s IH]; [done|].
  apply ascii_only_cons in Hs as [[_ Hc] Hs]. cbn [bytes_of_string length json_runes escaped].
  apply Z.ltb_lt in Hc. rewrite Hc. f_equal. by apply IH.
Qed.

(** The escape of a character, or the closing quote. *)
Definition code (b : option Z) : string := from_option json_ascii (str1 quote) b.

Lemma append_prefix (a b x y : string) : a +:+ x = b +:+ y -> String.prefix a b || String.prefix b a = true.
Proof.
  revert b; induction a as [|c a IH]; intros [|d b] E; try done. cbn in E. injection E as <- E.
  cbn [String.prefix]. destruct (ascii_dec c c); [|done]. by apply IH.
Qed.

(** No code is the beginning of another one. *)
Lemma code_prefix_free b b' x y :
  (forall z, b = Some z -> 0 <= z < 128) -> (forall z, b' = Some z -> 0 <= z < 128) ->
  code b +:+ x = code b' +:+ y -> b = b'.
Proof.
  intros Hb Hb' E%append_prefix.
  assert (Hall : forallb (fun b => forallb (fun b' =>
    implb (String.prefix (code b) (code b') || String.prefix (code b') (code b)) (bool_decide (b = b')))
    (None :: (Some <$> seqZ 0 128))) (None :: (Some <$> seqZ 0 128)) = true) by by vm_compute.
  assert (Hin : forall o : option Z, (forall z, o = Some z -> 0 <= z < 128) -> List.In o (None :: (Some <$> seqZ 0 128))).
  { intros [z|] Ho; [right|by left]. apply list_elem_of_In, list_elem_of_fmap_2, elem_of_seqZ. by apply Ho. }
  rewrite List.forallb_forall in Hall. specialize (Hall b (Hin b Hb)). rewrite List.forallb_forall in Hall.
  specialize (Hall b' (Hin b' Hb')). rewrite E in Hall. exact (bool_decide_eq_true_1 _ Hall).
Qed.

Lemma escaped_inj s s' x y :
  ascii_only s -> ascii_only s' -> escaped s +:+ str1 quote +:+ x = escaped s' +:+ str1 quote +:+ y -> s = s' /\ x = y.
Proof.
  revert s'; induction s as [|c s IH]; intros [|d s'] Hs Hs' E.
  - by injection E as ->.
  - apply ascii_only_cons in Hs' as [Hd _]. cbn [escaped] in E. rewrite Str.app_assoc in E.
    by apply (code_prefix_free None (Some (byte_of d))) in E; [..|intros z [= <-]].
  - apply ascii_only_cons in Hs as [Hc _]. cbn [escaped] in E. rewrite Str.app_assoc in E.
    by apply (code_prefix_free (Some (byte_of c)) None) in E; [..|intros z [= <-]|].
  - apply ascii_only_cons in Hs as [Hc Hs]. apply ascii_only_cons in Hs' as [Hd Hs'].
    cbn [escaped] in E. rewrite !Str.app_assoc in E. assert (Ecd : byte_of c = byte_of d).
    { pose proof (code_prefix_free (Some (byte_of c)) (Some (byte_of d)) _ _ ltac:(by intros z [= <-]) ltac:(by intros z [= <-]) E) as E'.
      by injection E'. }
    apply byte_of_inj in Ecd as ->. apply Str.app_inj_l in E. by destruct (IH s' Hs Hs' E) as [-> ->].
Qed.

Lemma json_string_inj s s' x y :
  ascii_only s -> ascii_only s' -> json_string s +:+ x = json_string s' +:+ y -> s = s' /\ x = y.
Proof.
  intros Hs Hs'. rewrite !json_string_escaped, !Str.app_assoc by done. intros E%Str.app_inj_l. by apply escaped_inj.
Qed.

(** ** The JSON text of references *)

Definition ascii_ref (r : clusterRef) : Prop :=
  ascii_only (cr_Name r) /\ ascii_only (cr_SecretNamespace r) /\ ascii_only (cr_SecretName r) /\ ascii_only (cr_SecretRV r).

Lemma json_ref_inj r r' x y : ascii_ref r -> ascii_ref r' -> json_ref r +:+ x = json_ref r' +:+ y -> r = r' /\ x = y.
Proof.
  intros (H1 & H2 & H3 & H4) (H1' & H2' & H3' & H4'). unfold json_ref. rewrite !Str.app_assoc.
  intros E. do 3 apply Str.app_inj_l in E. apply json_string_inj in E as [E1 E]; [|done..].
  do 3 apply Str.app_inj_l in E. apply json_string_inj in E as [E2 E]; [|done..].
  do 3 apply Str.app_inj_l in E. apply json_string_inj in E as [E3 E]; [|done..].
  do 3 apply Str.app_inj_l in E. apply json_string_inj in E as [E4 E]; [|done..].
  apply Str.app_inj_l in E. destruct r, r'. cbn in *. by subst.
Qed.

Lemma json_refs_cons r r2 refs : json_refs (r :: r2 :: refs) = json_ref r +:+ "," +:+ json_refs (r2 :: refs).
Proof. done. Qed.

Lemma json_refs_inj l l' :
  Forall ascii_ref l -> Forall ascii_ref l' -> l <> [] -> l' <> [] -> json_refs l = json_refs l' -> l = l'.
Proof.
  intros Hl; revert l'; induction Hl as [|r l Hr Hl IH]; intros l' Hl' Hn Hn' E; [done|].
  destruct Hl' as [|r' l' Hr' Hl']; [done|]. destruct l as [|r2 l], l' as [|r2' l'].
  - by apply json_ref_inj in E as [-> _].
  - rewrite json_refs_cons in E. by apply json_ref_inj in E as [_ E].
  - rewrite json_refs_cons in E. by apply json_ref_inj in E as [_ E].
  - rewrite !json_refs_cons in E. apply json_ref_inj in E as [-> E]; [|done..]. f_equal.
    apply Str.app_inj_l in E. by apply IH.
Qed.

Lemma Marshal_inj l l' : Forall ascii_ref l -> Forall ascii_ref l' -> Marshal l = Marshal l' -> l = l'.
Proof.
  intros Hl Hl'. destruct l as [|r l], l' as [|r' l']; try done.
  intros E%(Str.app_inj_l "[" (json_refs (r :: l)) (json_refs (r' :: l'))). by apply json_refs_inj.
Qed.

(** ** Fingerprints *)

Definition digest (l : list clusterRef) : string := EncodeToString (Sum256 (bytes_of_string (Marshal l))).

(** The same references up to order; or SHA-256 gives one sum for the two texts. *)
Definition same_refs (l l' : list clusterRef) : Prop :=
  l ≡ₚ l' \/
  exists o o', o ≡ₚ l /\ o' ≡ₚ l' /\ Marshal o <> Marshal o' /\
    Sum256 (bytes_of_string (Marshal o)) = Sum256 (bytes_of_string (Marshal o')).

Lemma digest_same_refs o o' l l' :
  Forall ascii_ref l -> Forall ascii_ref l' -> o ≡ₚ l -> o' ≡ₚ l' -> digest o = digest o' -> same_refs l l'.
Proof.
  intros Hl Hl' Ho Ho' E%EncodeToString_inj; [|apply Sum256_bytes..].
  destruct (decide (Marshal o = Marshal o')) as [Em|Em]; [left|right; by exists o, o'].
  apply Marshal_inj in Em; [|by rewrite Ho|by rewrite Ho']. by rewrite <- Ho, Em.
Qed.
