(* ===== verification/Crd.v ===== *)
(** * [internal/crd/install.go]: installing the ClusterMesh CRD

    The embedded manifest, the API server, the clock and the ticker are parameters.
    [Crd.InstallOrUpdate_returns] derives the number of polls that the wait can make
    from its deadline: the [n]-th tick comes no earlier than [n] periods after the
    ticker was made, and a request whose context is past its deadline fails. *)

From Stdlib Require Import String.
From S2P Require Import Prelude Types Kube.
Open Scope Z_scope.
Open Scope go_scope.

Record CRD (Spec : Type) : Type := mkCRD {
  crd_ResourceVersion : string;
  crd_Spec : Spec;
  crd_Conditions : list (string * string);
}.
Arguments mkCRD {Spec} _ _ _.
Arguments crd_ResourceVersion {Spec} _.
Arguments crd_Spec {Spec} _.
Arguments crd_Conditions {Spec} _.

(** ** Contexts and tickers *)

(** Times in milliseconds. A context has a deadline or none. *)
Record context : Type := mkContext { ctx_Deadline : option Z }.
Definition Background : context := mkContext None.

(** [context.WithTimeout] at the time [now]: the earlier deadline holds. *)
Definition WithTimeout (parent : context) (now timeout : Z) : context :=
  mkContext (Some (match ctx_Deadline parent with Some d => Z.min d (now + timeout) | None => now + timeout end)).

(** The case of the [select] statement that runs. *)
Inductive selected : Type :=
| Done
| Tick.

Class CrdAPI (Spec W : Type) : Type := {
  GetCRD : context -> ST W (result kube_error (CRD Spec));
  CreateCRD : context -> CRD Spec -> ST W (result kube_error unit);
  UpdateCRD : context -> CRD Spec -> ST W (result kube_error unit);
  (* time.Now *)
  Now : W -> Z;
  Ticker : Type;
  (* time.NewTicker *)
  NewTicker : Z -> ST W Ticker;
  (* select over the context and the ticker's channel *)
  select : context -> Ticker -> ST W selected;
  (* when a ticker was made, and how many of its ticks have been received: only the
     laws speak of these *)
  created : Ticker -> Z;
  received : Ticker -> W -> Z;
}.

(** What Go documents. [select] is free to choose when both channels are ready, and a
    context may be cancelled before its deadline. *)
Class CrdLaws (Spec W : Type) `{CrdAPI Spec W} (pollInterval : Z) : Prop := {
  NewTicker_fresh w :
    Now w <= created (NewTicker pollInterval w).1 /\
    received (NewTicker pollInterval w).1 (NewTicker pollInterval w).2 = 0;
  (* ticks are a period apart, or more *)
  select_tick t ctx w :
    (select ctx t w).1 = Tick ->
    received t w < received t (select ctx t w).2 /\
    created t + pollInterval * received t (select ctx t w).2 <= Now (select ctx t w).2;
  (* a request receives no tick *)
  GetCRD_received t ctx w : received t (GetCRD ctx w).2 = received t w;
  (* a request fails once its context is past the deadline *)
  GetCRD_expired ctx d w :
    ctx_Deadline ctx = Some d -> d <= Now w -> exists e, (GetCRD ctx w).1 = Err e;
}.

Inductive crd_error : Type :=
| UnmarshalCRD
| CreateClient
| GettingCRD (cause : kube_error)
| CreatingCRD (cause : kube_error)
| UpdatingCRD (cause : kube_error)
| PollingCRD (cause : kube_error)
| WaitTimedOut.

Definition waitTimeout_ms : Z := 30000.
Definition pollInterval_ms : Z := 500.

(** The polls that fit before the deadline. *)
Definition maxPolls : nat := Z.to_nat (waitTimeout_ms / pollInterval_ms).

Section Install.
Context {Spec W : Type} `{CrdAPI Spec W}.

Definition established (crd : CRD Spec) : bool :=
  existsb (fun c => bool_decide (c.1 = "Established" /\ c.2 = "True")) (crd_Conditions crd).

(** The polling loop; [None] is a loop still running when the fuel is spent. *)
Fixpoint waitLoop (ctx : context) (ticker : Ticker) (fuel : nat) : ST W (option (result crd_error unit)) :=
  match fuel with
  | O => mret None
  | S fuel' =>
      chosen ← select ctx ticker;
      match chosen with
      | Done => mret (Some (Err WaitTimedOut))
      | Tick =>
          let? crd := GetCRD ctx catch err => mret (Some (Err (PollingCRD err)));
          if established crd then mret (Some (Ok tt)) else waitLoop ctx ticker fuel'
      end
  end.

Definition waitForCRD (parent : context) : ST W (option (result crd_error unit)) := fun w =>
  let ctx := WithTimeout parent (Now w) waitTimeout_ms in
  (ticker ← NewTicker pollInterval_ms; waitLoop ctx ticker maxPolls) w.

(** [desired.ResourceVersion = existing.ResourceVersion]. *)
Definition atVersion (desired existing : CRD Spec) : CRD Spec :=
  mkCRD (crd_ResourceVersion existing) (crd_Spec desired) (crd_Conditions desired).

(** [parsed] is the result of [parseCRD], [client] of [NewForConfig]. *)
Definition InstallOrUpdate (ctx : context) (parsed : option (CRD Spec)) (client : bool)
    : ST W (option (result crd_error unit)) :=
  match parsed with
  | None => mret (Some (Err UnmarshalCRD))
  | Some desired =>
      if negb client then mret (Some (Err CreateClient))
      else
        existing ← GetCRD ctx;
        match existing with
        | Err NotFound =>
            let? _ := CreateCRD ctx desired catch err => mret (Some (Err (CreatingCRD err)));
            waitForCRD ctx
        | Err err => mret (Some (Err (GettingCRD err)))
        | Ok existing =>
            let? _ := UpdateCRD ctx (atVersion desired existing) catch err => mret (Some (Err (UpdatingCRD err)));
            waitForCRD ctx
        end
  end.

(** ** What installing promises *)

(** [n] polls in a row saw a CRD without the condition. *)
Inductive polled (ctx : context) (t : Ticker) : nat -> W -> W -> Prop :=
| polled_none w : polled ctx t 0 w w
| polled_more n w w1 crd w2 w3 :
    select ctx t w = (Tick, w1) -> GetCRD ctx w1 = (Ok crd, w2) ->
    ("Established", "True") ∉ crd_Conditions crd -> polled ctx t n w2 w3 ->
    polled ctx t (S n) w w3.

(** The poll that ends the wait, or the end of the context. *)
Inductive awaited (ctx : context) (t : Ticker) (w : W) : result crd_error unit -> W -> Prop :=
| awaited_established w1 crd w2 :
    select ctx t w = (Tick, w1) -> GetCRD ctx w1 = (Ok crd, w2) ->
    ("Established", "True") ∈ crd_Conditions crd -> awaited ctx t w (Ok tt) w2
| awaited_failed w1 e w2 :
    select ctx t w = (Tick, w1) -> GetCRD ctx w1 = (Err e, w2) -> awaited ctx t w (Err (PollingCRD e)) w2
| awaited_expired w1 :
    select ctx t w = (Done, w1) -> awaited ctx t w (Err WaitTimedOut) w1.

(** The CRD is written: created if there is none, else updated at its version. *)
Inductive written (ctx : context) (desired : CRD Spec) (w : W) : result crd_error unit -> W -> Prop :=
| written_created w1 w2 :
    GetCRD ctx w = (Err NotFound, w1) -> CreateCRD ctx desired w1 = (Ok tt, w2) -> written ctx desired w (Ok tt) w2
| written_updated existing w1 w2 :
    GetCRD ctx w = (Ok existing, w1) ->
    UpdateCRD ctx (mkCRD (crd_ResourceVersion existing) (crd_Spec desired) (crd_Conditions desired)) w1 = (Ok tt, w2) ->
    written ctx desired w (Ok tt) w2
| written_unread e w1 :
    GetCRD ctx w = (Err e, w1) -> e <> NotFound -> written ctx desired w (Err (GettingCRD e)) w1
| written_uncreated e w1 w2 :
    GetCRD ctx w = (Err NotFound, w1) -> CreateCRD ctx desired w1 = (Err e, w2) ->
    written ctx desired w (Err (CreatingCRD e)) w2
| written_rejected existing e w1 w2 :
    GetCRD ctx w = (Ok existing, w1) ->
    UpdateCRD ctx (mkCRD (crd_ResourceVersion existing) (crd_Spec desired) (crd_Conditions desired)) w1 = (Err e, w2) ->
    written ctx desired w (Err (UpdatingCRD e)) w2.

(** How an installation ends. After the CRD is written, it is polled with a context
    that ends within [waitTimeout]. *)
Inductive installed (ctx : context) (parsed : option (CRD Spec)) (client : bool) (w : W) : result crd_error unit -> W -> Prop :=
| installed_unparsed : parsed = None -> installed ctx parsed client w (Err UnmarshalCRD) w
| installed_clientless desired :
    parsed = Some desired -> client = false -> installed ctx parsed client w (Err CreateClient) w
| installed_unwritten desired e w1 :
    parsed = Some desired -> client = true -> written ctx desired w (Err e) w1 ->
    installed ctx parsed client w (Err e) w1
| installed_awaited desired w1 deadline t w2 n w3 r w4 :
    parsed = Some desired -> client = true -> written ctx desired w (Ok tt) w1 ->
    deadline <= Now w1 + 30000 -> NewTicker 500 w1 = (t, w2) ->
    (n < 60)%nat -> polled (mkContext (Some deadline)) t n w2 w3 ->
    awaited (mkContext (Some deadline)) t w3 r w4 ->
    installed ctx parsed client w r w4.

Lemma established_iff crd : established crd = true <-> ("Established", "True") ∈ crd_Conditions crd.
Proof.
  unfold established. rewrite existsb_exists. setoid_rewrite bool_decide_eq_true. split.
  - intros ([a b] & Hin & E). cbn in E. destruct E as [-> ->]. by rewrite list_elem_of_In.
  - intros Hin. exists ("Established", "True"). by rewrite <- list_elem_of_In.
Qed.

Context {laws : CrdLaws Spec W pollInterval_ms}.

(** With [fuel] more ticks the deadline is reached: the wait ends within [fuel] polls. *)
Lemma waitLoop_ends d t fuel w :
  (0 < fuel)%nat -> d <= created t + pollInterval_ms * (received t w + Z.of_nat fuel) ->
  exists n w1 r w2, (n < fuel)%nat /\ polled (mkContext (Some d)) t n w w1 /\ awaited (mkContext (Some d)) t w1 r w2 /\
    waitLoop (mkContext (Some d)) t fuel w = (Some r, w2).
Proof.
  set (ctx := mkContext (Some d)). revert w; induction fuel as [|fuel IH]; intros w Hf Hd; [lia|].
  cbn [waitLoop]. rewrite st_bind_run. destruct (select ctx t w) as [[|] w1] eqn:Es; cbn [fst snd].
  { rewrite st_ret_run. exists 0%nat, w, (Err WaitTimedOut), w1.
    split; [lia|]. split; [constructor|]. split; [by constructor|done]. }
  pose proof (select_tick t ctx w) as Ht. rewrite Es in Ht. cbn [fst snd] in Ht. destruct (Ht eq_refl) as [Hr Hn].
  st_run. destruct (GetCRD ctx w1) as [[crd|e] w2] eqn:Eg; cbn [fst snd].
  2:{ exists 0%nat, w, (Err (PollingCRD e)), w2. split; [lia|]. split; [constructor|]. split; [by econstructor|done]. }
  destruct (established crd) eqn:Ee.
  { rewrite st_ret_run. exists 0%nat, w, (Ok tt), w2. split; [lia|]. split; [constructor|].
    split; [|done]. eapply awaited_established; [done..|]. by apply established_iff. }
  assert (Hlate : Now w1 < d).
  { destruct (Z_lt_le_dec (Now w1) d) as [|Hle]; [done|]. by destruct (GetCRD_expired ctx d w1 eq_refl Hle) as [e' E']; rewrite Eg in E'. }
  pose proof (GetCRD_received t ctx w1) as Hg. rewrite Eg in Hg. cbn [snd] in Hg. unfold pollInterval_ms in *.
  destruct (IH w2) as (n & w3 & r & w4 & Hlt & Hp & Ha & E); [lia|lia|].
  exists (S n), w3, r, w4. split; [lia|]. split; [|done]. econstructor; [done..| |done].
  intros Hin%established_iff. by rewrite Ee in Hin.
Qed.

Lemma waitForCRD_ends ctx w :
  exists d t w1 n w2 r w3, d <= Now w + 30000 /\ NewTicker 500 w = (t, w1) /\ (n < 60)%nat /\
    polled (mkContext (Some d)) t n w1 w2 /\ awaited (mkContext (Some d)) t w2 r w3 /\ waitForCRD ctx w = (Some r, w3).
Proof.
  unfold waitForCRD. destruct (NewTicker_fresh w) as [Hc Hr]. rewrite st_bind_run.
  destruct (NewTicker pollInterval_ms w) as [t w1] eqn:Et. cbn [fst snd] in *.
  set (d := match ctx_Deadline ctx with Some d => Z.min d (Now w + waitTimeout_ms) | None => Now w + waitTimeout_ms end).
  assert (Hd : d <= Now w + 30000) by (unfold d, waitTimeout_ms; destruct (ctx_Deadline ctx); lia).
  destruct (waitLoop_ends d t maxPolls w1) as (n & w2 & r & w3 & Hn & Hp & Ha & E).
  - change maxPolls with 60%nat. lia.
  - change (Z.of_nat maxPolls) with 60. unfold pollInterval_ms. lia.
  - exists d, t, w1, n, w2, r, w3. by repeat split.
Qed.

(** C34. Installing the CRD ends, and its result tells what happened. Whatever the API
    server and the ticker do, at most 60 polls fit before the deadline, so that
    [InstallOrUpdate] returns. Success means that the CRD was created, or updated at
    the version read, and that a later poll saw it established; an error is the one
    of the call that failed, or the timeout if the context ended first; a poll that
    saw an established CRD is never passed over. *)
Theorem InstallOrUpdate_returns ctx parsed client w :
  exists r w', InstallOrUpdate ctx parsed client w = (Some r, w') /\ installed ctx parsed client w r w'.
Proof.
  unfold InstallOrUpdate. destruct parsed as [desired|]; [|eexists _, _; split; [done|by constructor]].
  destruct client; [|eexists _, _; split; [done|by econstructor]]. cbn [negb].
  assert (Hwait : forall w1, written ctx desired w (Ok tt) w1 ->
    exists r w', waitForCRD ctx w1 = (Some r, w') /\ installed ctx (Some desired) true w r w').
  { intros w1 Hw. destruct (waitForCRD_ends ctx w1) as (d & t & w2 & n & w3 & r & w4 & ? & ? & ? & ? & ? & E).
    exists r, w4. split; [done|]. by eapply installed_awaited. }
  rewrite st_bind_run. destruct (GetCRD ctx w) as [[old|e] w1] eqn:Eg; cbn [fst snd].
  - rewrite st_bind_run. destruct (UpdateCRD ctx _ w1) as [[[]|e] w2] eqn:Eu; cbn [fst snd].
    + apply Hwait. by eapply written_updated.
    + eexists _, _; split; [done|]. eapply installed_unwritten; [done..|]. by eapply written_rejected.
  - destruct (decide (e = NotFound)) as [->|Hne].
    + rewrite st_bind_run. destruct (CreateCRD ctx desired w1) as [[[]|e] w2] eqn:Ec; cbn [fst snd].
      * apply Hwait. by eapply written_created.
      * eexists _, _; split; [done|]. eapply installed_unwritten; [done..|]. by eapply written_uncreated.
    + assert (Hi : installed ctx (Some desired) true w (Err (GettingCRD e)) w1).
      { eapply installed_unwritten; [done..|]. by apply written_unread. }
      exists (Err (GettingCRD e)), w1. split; [by destruct e|done].
Qed.

End Install.

(** ** A concrete cluster *)

(** The clock and the ticks received; the CRD is established [delay] ms after the
    start. A request takes 10 ms. *)
Module Poll.

Record state : Type := mkState {
  now : Z;
  ticks : Z;
  delay : Z;
}.

Definition wait (s : state) : state := mkState (now s + 10) (ticks s) (delay s).
Definition past (ctx : context) (s : state) : bool :=
  match ctx_Deadline ctx with Some d => bool_decide (d <= now s) | None => false end.

#[export] Instance api : CrdAPI unit state := {
  GetCRD ctx s :=
    (if past ctx s then Err (OtherError "context deadline exceeded")
     else Ok (mkCRD "1" tt (if decide (delay s <= now s) then [("NamesAccepted", "True"); ("Established", "True")] else [])), wait s);
  CreateCRD _ _ s := (Ok tt, wait s);
  UpdateCRD _ crd s := (if decide (crd_ResourceVersion crd = "1") then Ok tt else Err Conflict, wait s);
  Now := now;
  Ticker := Z;
  NewTicker _ s := (now s, mkState (now s) 0 (delay s));
  select ctx t s :=
    if past ctx s then (Done, s) else (Tick, mkState (Z.max (now s) (t + 500 * (ticks s + 1))) (ticks s + 1) (delay s));
  created t := t;
  received _ s := ticks s;
}.

#[export] Instance laws : CrdLaws unit state pollInterval_ms.
Proof.
  split.
  - intros w. cbn. lia.
  - intros t ctx w. cbn. destruct (past ctx w); cbn; [done|]. unfold pollInterval_ms. lia.
  - done.
  - intros ctx d w E Hd. cbn. unfold past. rewrite E, bool_decide_eq_true_2 by done. by eexists.
Qed.

(** Established after a second; never established. *)
Example soon : InstallOrUpdate Background (Some (mkCRD "" tt [])) true (mkState 0 0 1000) = (Some (Ok tt), mkState 1030 2 1000).
Proof. by vm_compute. Qed.
Example never :
  (InstallOrUpdate Background (Some (mkCRD "" tt [])) true (mkState 0 0 100000)).1 =
  Some (Err (PollingCRD (OtherError "context deadline exceeded"))).
Proof. by vm_compute. Qed.

End Poll.

#[local] Existing Instances Poll.api Poll.laws.

(** The stored CRD is updated and found established. *)
Lemma InstallOrUpdate_returns_witness :
  installed Background (Some (mkCRD "" tt [])) true (Poll.mkState 0 0 1000) (Ok tt) (Poll.mkState 1030 2 1000).
Proof.
  destruct (InstallOrUpdate_returns Background (Some (mkCRD "" tt [])) true (Poll.mkState 0 0 1000)) as (r & w' & E & Hi).
  assert (E' := E). rewrite Poll.soon in E'. injection E' as <- <-. exact Hi.
Defined.
