(* ===== verification/Startup.v ===== *)
(** * [cmd/main.go]: flags and set-up

    The command line (with the part of Go's [flag] package it uses), the options of
    the manager, and the order of the set-up steps with their errors. The manager of
    controller-runtime and the cluster configuration are parameters ([ManagerAPI]).
    What happens after the start is in [Life.v]. *)

From Stdlib Require Import Ascii String.
From S2P Require Import Prelude GoStrings Types Kube Registry Controller Restart Crd Watches.
Open Scope Z_scope.
Open Scope go_scope.

(** ** The command line *)

(** [zapOpts], and the flags other packages register, are a [Zap]. *)
Record runtimeOpts (Zap : Type) : Type := mkRuntimeOpts {
  metricsAddr : string;
  probeAddr : string;
  metricsCertPath : string;
  metricsCertName : string;
  metricsCertKey : string;
  webhookCertPath : string;
  webhookCertName : string;
  webhookCertKey : string;
  enableLeaderElection : bool;
  secureMetrics : bool;
  enableHTTP2 : bool;
  zapOpts : Zap;
}.
Arguments mkRuntimeOpts {Zap} _ _ _ _ _ _ _ _ _ _ _ _.
Arguments metricsAddr {Zap} _.
Arguments probeAddr {Zap} _.
Arguments metricsCertPath {Zap} _.
Arguments metricsCertName {Zap} _.
Arguments metricsCertKey {Zap} _.
Arguments webhookCertPath {Zap} _.
Arguments webhookCertName {Zap} _.
Arguments webhookCertKey {Zap} _.
Arguments enableLeaderElection {Zap} _.
Arguments secureMetrics {Zap} _.
Arguments enableHTTP2 {Zap} _.
Arguments zapOpts {Zap} _.

(** [flag.Value]: whether it is a boolean flag, and [Set]. *)
Record flagValue (T : Type) : Type := mkFlag {
  flag_bool : bool;
  flag_set : string -> T -> option T;
}.
Arguments mkFlag {T} _ _.
Arguments flag_bool {T} _.
Arguments flag_set {T} _.

(** [strconv.ParseBool]. *)
Definition ParseBool (s : string) : option bool :=
  if bool_decide (s ∈ ["1"; "t"; "T"; "TRUE"; "true"; "True"]) then Some true
  else if bool_decide (s ∈ ["0"; "f"; "F"; "FALSE"; "false"; "False"]) then Some false
  else None.

(** Splits at the first equals sign. *)
Fixpoint cutEquals (s : string) : string * option string :=
  match s with
  | EmptyString => (EmptyString, None)
  | String c rest =>
      if Ascii.eqb c "=" then (EmptyString, Some rest)
      else let '(name, value) := cutEquals rest in (String c name, value)
  end.

(** One argument as [FlagSet.parseOne] reads it. *)
Inductive argument : Type :=
| NotAFlag
| BadSyntax
| FlagArg (name : string) (value : option string).

Definition flagName (name : string) : argument :=
  match name with
  | EmptyString => BadSyntax
  | String c rest =>
      if Ascii.eqb c "-" || Ascii.eqb c "=" then BadSyntax
      else let '(n, value) := cutEquals rest in FlagArg (String c n) value
  end.

Definition readArgument (s : string) : argument :=
  match s with
  | String "-" (String "-" EmptyString) => NotAFlag
  | String "-" (String "-" name) => flagName name
  | String "-" (String c rest) => flagName (String c rest)
  | _ => NotAFlag
  end.

(** The values, or the exit code of the process. *)
Inductive flags (T : Type) : Type :=
| Parsed (t : T)
| FlagExit (code : Z).
Arguments Parsed {T} t.
Arguments FlagExit {T} code.

(** [flag.Parse] with [ExitOnError]. *)
Fixpoint parseArgs {T} (formal : string -> option (flagValue T)) (t : T) (args : list string) : flags T :=
  match args with
  | [] => Parsed t
  | s :: rest =>
      match readArgument s with
      | NotAFlag => Parsed t
      | BadSyntax => FlagExit 2
      | FlagArg name value =>
          match formal name with
          | None => FlagExit (if bool_decide (name = "help" \/ name = "h") then 0 else 2)
          | Some f =>
              match value with
              | Some v => match flag_set f v t with Some t' => parseArgs formal t' rest | None => FlagExit 2 end
              | None =>
                  if flag_bool f then
                    match flag_set f "true" t with Some t' => parseArgs formal t' rest | None => FlagExit 2 end
                  else
                    match rest with
                    | [] => FlagExit 2
                    | v :: rest' => match flag_set f v t with Some t' => parseArgs formal t' rest' | None => FlagExit 2 end
                    end
              end
          end
      end
  end.

Section Flags.
Context {Zap : Type} (otherFlags : string -> option (flagValue Zap)) (zap0 : Zap).

Definition StringVar (set : runtimeOpts Zap -> string -> runtimeOpts Zap) : flagValue (runtimeOpts Zap) :=
  mkFlag false (fun s o => Some (set o s)).
Definition BoolVar (set : runtimeOpts Zap -> bool -> runtimeOpts Zap) : flagValue (runtimeOpts Zap) :=
  mkFlag true (fun s o => set o <$> ParseBool s).
Definition OtherVar (f : flagValue Zap) : flagValue (runtimeOpts Zap) :=
  mkFlag (flag_bool f) (fun s '(mkRuntimeOpts a b c d e f1 g h i j k z) =>
    mkRuntimeOpts a b c d e f1 g h i j k <$> flag_set f s z).

(** The flags of [parseFlags]. *)
Definition formalFlags (name : string) : option (flagValue (runtimeOpts Zap)) :=
  if bool_decide (name = "metrics-bind-address") then
    Some (StringVar (fun '(mkRuntimeOpts a b c d e f g h i j k z) s => mkRuntimeOpts s b c d e f g h i j k z))
  else if bool_decide (name = "health-probe-bind-address") then
    Some (StringVar (fun '(mkRuntimeOpts a b c d e f g h i j k z) s => mkRuntimeOpts a s c d e f g h i j k z))
  else if bool_decide (name = "leader-elect") then
    Some (BoolVar (fun '(mkRuntimeOpts a b c d e f g h i j k z) s => mkRuntimeOpts a b c d e f g h s j k z))
  else if bool_decide (name = "metrics-secure") then
    Some (BoolVar (fun '(mkRuntimeOpts a b c d e f g h i j k z) s => mkRuntimeOpts a b c d e f g h i s k z))
  else if bool_decide (name = "webhook-cert-path") then
    Some (StringVar (fun '(mkRuntimeOpts a b c d e f g h i j k z) s => mkRuntimeOpts a b c d e s g h i j k z))
  else if bool_decide (name = "webhook-cert-name") then
    Some (StringVar (fun '(mkRuntimeOpts a b c d e f g h i j k z) s => mkRuntimeOpts a b c d e f s h i j k z))
  else if bool_decide (name = "webhook-cert-key") then
    Some (StringVar (fun '(mkRuntimeOpts a b c d e f g h i j k z) s => mkRuntimeOpts a b c d e f g s i j k z))
  else if bool_decide (name = "metrics-cert-path") then
    Some (StringVar (fun '(mkRuntimeOpts a b c d e f g h i j k z) s => mkRuntimeOpts a b s d e f g h i j k z))
  else if bool_decide (name = "metrics-cert-name") then
    Some (StringVar (fun '(mkRuntimeOpts a b c d e f g h i j k z) s => mkRuntimeOpts a b c s e f g h i j k z))
  else if bool_decide (name = "metrics-cert-key") then
    Some (StringVar (fun '(mkRuntimeOpts a b c d e f g h i j k z) s => mkRuntimeOpts a b c d s f g h i j k z))
  else if bool_decide (name = "enable-http2") then
    Some (BoolVar (fun '(mkRuntimeOpts a b c d e f g h i j k z) s => mkRuntimeOpts a b c d e f g h i j s z))
  else OtherVar <$> otherFlags name.

Definition defaultOpts : runtimeOpts Zap :=
  mkRuntimeOpts "0" ":8081" "" "tls.crt" "tls.key" "" "tls.crt" "tls.key" false true false zap0.

Definition parseFlags (args : list string) : flags (runtimeOpts Zap) := parseArgs formalFlags defaultOpts args.

(** The command line that asks for the given options. *)
Definition boolText (b : bool) : string := if b then "true" else "false".
Definition flagArgs (o : runtimeOpts Zap) : list string :=
  ["--metrics-bind-address=" +:+ metricsAddr o; "--health-probe-bind-address=" +:+ probeAddr o;
   "--leader-elect=" +:+ boolText (enableLeaderElection o); "--metrics-secure=" +:+ boolText (secureMetrics o);
   "--webhook-cert-path=" +:+ webhookCertPath o; "--webhook-cert-name=" +:+ webhookCertName o;
   "--webhook-cert-key=" +:+ webhookCertKey o; "--metrics-cert-path=" +:+ metricsCertPath o;
   "--metrics-cert-name=" +:+ metricsCertName o; "--metrics-cert-key=" +:+ metricsCertKey o;
   "--enable-http2=" +:+ boolText (enableHTTP2 o)].

Lemma ParseBool_text b : ParseBool (boolText b) = Some b.
Proof. by destruct b. Qed.

Lemma parseArgs_step {T} (formal : string -> option (flagValue T)) t s rest name v f t' :
  readArgument s = FlagArg name (Some v) -> formal name = Some f -> flag_set f v t = Some t' ->
  parseArgs formal t (s :: rest) = parseArgs formal t' rest.
Proof. intros E1 E2 E3. cbn [parseArgs]. by rewrite E1, E2, E3. Qed.

Lemma BoolVar_text set b o : flag_set (BoolVar set) (boolText b) o = Some (set o b).
Proof. unfold BoolVar. cbn [flag_set]. by rewrite ParseBool_text. Qed.

(** C33. Every configuration can be given on the command line: rendering options as
    flags and parsing them gives the options back, whatever the values contain, and
    leaves the flags of other packages at their defaults; positional arguments
    after them are ignored. *)
Theorem parseFlags_roundtrip o extra :
  zapOpts o = zap0 -> (forall s, head extra = Some s -> readArgument s = NotAFlag) ->
  parseFlags (flagArgs o ++ extra) = Parsed o.
Proof.
  intros Hz Hx. unfold parseFlags, flagArgs. cbn [app].
  do 11 (erewrite parseArgs_step; [|reflexivity|reflexivity|first [apply BoolVar_text|reflexivity]]).
  unfold defaultOpts. destruct o. cbn in Hz |- *. subst.
  destruct extra as [|s extra]; [done|]. cbn. by rewrite (Hx s).
Qed.

End Flags.

(** ** The options of the manager *)

(** [tls.Config], as far as it is set. *)
Record tlsConfig : Type := mkTlsConfig { NextProtos : list string }.

Definition disableHTTP2 (c : tlsConfig) : tlsConfig := mkTlsConfig ["http/1.1"].

(** The options of the webhook server and of the metrics server; [None]: the
    field is left at its zero value. *)
Record certOptions : Type := mkCert { CertDir : string; CertName : string; KeyName : string }.

Record webhookOptions : Type := mkWebhookOptions {
  wh_TLSOpts : list (tlsConfig -> tlsConfig);
  wh_Cert : option certOptions;
}.

Record metricsOptions : Type := mkMetricsOptions {
  ms_BindAddress : string;
  ms_SecureServing : bool;
  ms_TLSOpts : list (tlsConfig -> tlsConfig);
  (* FilterProvider: authentication and authorization *)
  ms_Filtered : bool;
  ms_Cert : option certOptions;
}.

Record managerOptions : Type := mkManagerOptions {
  mo_Metrics : metricsOptions;
  mo_Webhook : webhookOptions;
  mo_HealthProbeBindAddress : string;
  mo_LeaderElection : bool;
  mo_LeaderElectionID : string;
}.

Definition leaderElectionID : string := "f27237f1.squat.ai".

(** The options [newManager] builds. *)
Definition newManagerOptions {Zap} (opts : runtimeOpts Zap) : managerOptions :=
  let tlsOpts := if negb (enableHTTP2 opts) then [disableHTTP2] else [] in
  let webhookServerOptions :=
    mkWebhookOptions tlsOpts
      (if negb (bool_decide (webhookCertPath opts = ""))
       then Some (mkCert (webhookCertPath opts) (webhookCertName opts) (webhookCertKey opts)) else None) in
  let metricsServerOptions :=
    mkMetricsOptions (metricsAddr opts) (secureMetrics opts) tlsOpts (secureMetrics opts)
      (if negb (bool_decide (metricsCertPath opts = ""))
       then Some (mkCert (metricsCertPath opts) (metricsCertName opts) (metricsCertKey opts)) else None) in
  mkManagerOptions metricsServerOptions webhookServerOptions (probeAddr opts) (enableLeaderElection opts) leaderElectionID.

(** The TLS configuration a server ends up with. *)
Definition applyTLS (tlsOpts : list (tlsConfig -> tlsConfig)) (c : tlsConfig) : tlsConfig :=
  foldl (fun c f => f c) c tlsOpts.

(** Unless HTTP/2 is asked for, both servers are left with HTTP/1.1 alone, whatever
    configuration they start from; with it, their configuration is not touched. *)
Lemma newManagerOptions_protocols {Zap} (opts : runtimeOpts Zap) c :
  let o := newManagerOptions opts in
  let left := if enableHTTP2 opts then c else mkTlsConfig ["http/1.1"] in
  applyTLS (ms_TLSOpts (mo_Metrics o)) c = left /\ applyTLS (wh_TLSOpts (mo_Webhook o)) c = left.
Proof. unfold newManagerOptions. by destruct (enableHTTP2 opts). Qed.

(** ** Set-up *)

(** What the manager has been given, in order. *)
Inductive runnable (C : Type) : Type :=
| ClusterRunnable (name : string) (c : C)
| ReconcilerOf (registry : ClusterRegistry C) (spec : controllerSpec)
| WatcherOf (StartFingerprint : string) (spec : controllerSpec)
| HealthzCheck
| ReadyzCheck.
Arguments ClusterRunnable {C} name c.
Arguments ReconcilerOf {C} registry spec.
Arguments WatcherOf {C} StartFingerprint spec.
Arguments HealthzCheck {C}.
Arguments ReadyzCheck {C}.

Record Manager (C : Type) : Type := mkManager {
  mgr_Options : managerOptions;
  mgr_Runnables : list (runnable C);
}.
Arguments mkManager {C} _ _.
Arguments mgr_Options {C} _.
Arguments mgr_Runnables {C} _.

Class ManagerAPI (Cfg C W : Type) : Type := {
  (* client.New *)
  NewClient : Cfg -> ST W (result kube_error unit);
  (* ctrl.NewManager *)
  NewManager : Cfg -> managerOptions -> ST W (result kube_error unit);
  (* mgr.Add of a cluster *)
  AddCluster : string -> C -> ST W (result kube_error unit);
  (* builder.Complete *)
  CompleteController : controllerSpec -> ST W (result kube_error unit);
  AddHealthzCheck : ST W (result kube_error unit);
  AddReadyzCheck : ST W (result kube_error unit);
  (* mgr.Start: returns when the context is cancelled or a runnable fails *)
  StartManager : Manager C -> ST W (result kube_error unit);
}.

Inductive start_error : Type :=
| NamespaceRequired
| InstallingCRD (cause : crd_error)
| BuildingPreClient (cause : kube_error)
| ListingMeshes (cause : kube_error)
| CreatingManager (cause : kube_error)
| RegisteringCluster (name : string) (cause : kube_error)
| RegisteringReconciler (cause : setup_error)
| BuildingFingerprintClient (cause : kube_error)
| ComputingFingerprint (cause : kube_error)
| RegisteringWatcher (cause : setup_error)
| SettingHealthCheck (cause : kube_error)
| SettingReadyCheck (cause : kube_error)
| ManagerExited (cause : kube_error).

Definition podNamespaceEnv : string := "POD_NAMESPACE".

(** [env]: the environment; [os.Getenv] is empty for a variable that is not set. *)
Definition readNamespace (env : gmap string string) : result start_error string :=
  let ns := default "" (env !! podNamespaceEnv) in
  if bool_decide (ns = "") then Err NamespaceRequired else Ok ns.

Section Run.
Context {Zap Cfg C W S : Type} `{PredicateAPI}.
Context `{!CrdAPI S W} `{!ClusterAPI Cfg C W} `{!ControllerAPI C W} `{!WatcherAPI W} `{!ManagerAPI Cfg C W}.
Context (otherFlags : string -> option (flagValue Zap)) (zap0 : Zap).

(** [buildInitialRegistry], with its client and list. *)
Definition initialRegistry (cfg : Cfg) : ST W (result start_error (ClusterRegistry C)) :=
  let? _ := NewClient cfg catch e => mret (Err (BuildingPreClient e));
  meshes ← WatchedMeshes None;
  let? registry := buildInitialRegistry meshes cfg catch e => mret (Err (ListingMeshes e));
  mret (Ok registry).

Definition newManager (cfg : Cfg) (opts : runtimeOpts Zap) : ST W (result start_error (Manager C)) :=
  let? _ := NewManager cfg (newManagerOptions opts) catch e => mret (Err (CreatingManager e));
  mret (Ok (mkManager (newManagerOptions opts) [])).

Definition add (mgr : Manager C) (r : runnable C) : Manager C :=
  mkManager (mgr_Options mgr) (mgr_Runnables mgr ++ [r]).

(** The loop over [registry.All()]. *)
Fixpoint addClusters (registry : ClusterRegistry C) (names : list string) (mgr : Manager C)
    : ST W (result start_error (Manager C)) :=
  match names with
  | [] => mret (Ok mgr)
  | name :: rest =>
      match Get registry name with
      | None => addClusters registry rest mgr
      | Some c =>
          let? _ := AddCluster name c catch e => mret (Err (RegisteringCluster name e));
          addClusters registry rest (add mgr (ClusterRunnable name c))
      end
  end.

Definition wireReconciler (mgr : Manager C) (registry : ClusterRegistry C) : ST W (result start_error (Manager C)) :=
  let? spec := SetupReconciler CompleteController registry catch e => mret (Err (RegisteringReconciler e));
  mret (Ok (add mgr (ReconcilerOf registry spec))).

Definition wireChangeWatcher (cfg : Cfg) (mgr : Manager C) : ST W (result start_error (Manager C)) :=
  let? _ := NewClient cfg catch e => mret (Err (BuildingFingerprintClient e));
  let? fingerprint := ComputeFingerprint catch e => mret (Err (ComputingFingerprint e));
  let? spec := SetupChangeWatcher CompleteController catch e => mret (Err (RegisteringWatcher e));
  mret (Ok (add mgr (WatcherOf fingerprint spec))).

(** The steps of [run] from the registry to the ready check. *)
Definition wire (cfg : Cfg) (opts : runtimeOpts Zap) : ST W (result start_error (Manager C)) :=
  let? registry := initialRegistry cfg catch e => mret (Err e);
  let? mgr := newManager cfg opts catch e => mret (Err e);
  names ← rangeClusters (All registry);
  let? mgr := addClusters registry names mgr catch e => mret (Err e);
  let? mgr := wireReconciler mgr registry catch e => mret (Err e);
  let? mgr := wireChangeWatcher cfg mgr catch e => mret (Err e);
  let? _ := AddHealthzCheck catch e => mret (Err (SettingHealthCheck e));
  let mgr := add mgr HealthzCheck in
  let? _ := AddReadyzCheck catch e => mret (Err (SettingReadyCheck e));
  mret (Ok (add mgr ReadyzCheck)).

(** How [run] ends: the process exits with a code (a bad flag, no cluster
    configuration), or [run] returns an error or nil. [RunWaiting]: the fuel of the
    wait for the CRD is spent. *)
Inductive run_result : Type :=
| RunExit (code : Z)
| RunReturn (err : option start_error)
| RunWaiting.

(** [cfg]: the result of [GetConfigOrDie]; [parsed] and [client] as for
    [InstallOrUpdate]. The context of the signal handler has no deadline. *)
Definition run (args : list string) (env : gmap string string) (cfg : option Cfg) (parsed : option (CRD S)) (client : bool)
    : ST W run_result :=
  match parseFlags otherFlags zap0 args with
  | FlagExit code => mret (RunExit code)
  | Parsed opts =>
      match readNamespace env with
      | Err e => mret (RunReturn (Some e))
      | Ok namespace =>
          match cfg with
          | None => mret (RunExit 1)
          | Some cfg =>
              installed ← InstallOrUpdate Background parsed client;
              match installed with
              | None => mret RunWaiting
              | Some (Err e) => mret (RunReturn (Some (InstallingCRD e)))
              | Some (Ok _) =>
                  let? mgr := wire cfg opts catch e => mret (RunReturn (Some e));
                  let? _ := StartManager mgr catch e => mret (RunReturn (Some (ManagerExited e)));
                  mret (RunReturn None)
              end
          end
      end
  end.

(** [main]: the exit code. *)
Definition exitCode (r : run_result) : option Z :=
  match r with
  | RunExit code => Some code
  | RunReturn None => Some 0
  | RunReturn (Some _) => Some 1
  | RunWaiting => None
  end.

End Run.

(** ** What is started *)

Section Started.
Context {Zap Cfg C W S : Type} `{PredicateAPI}.
Context {crdapi : CrdAPI S W} {clapi : ClusterAPI Cfg C W} {capi : ControllerAPI C W}.
Context {wapi : WatcherAPI W} {mapi : ManagerAPI Cfg C W}.
Context (otherFlags : string -> option (flagValue Zap)) (zap0 : Zap).
(** The iteration over the clusters visits each once. *)
Context (Hrange : forall (m : gmap string C) (w : W), (rangeClusters m w).1 ≡ₚ (map_to_list m).*1).

(** A manager ready to start: every cluster of the registry runs in it, the
    reconciler uses that registry and watches the nodes of each of its clusters, the
    change watcher compares with a fingerprint, and both checks are there. The
    registry was built from a list of the meshes, the fingerprint computed later. *)
Record complete (cfg : Cfg) (opts : runtimeOpts Zap) (mgr : Manager C) : Prop := {
  complete_options : mgr_Options mgr = newManagerOptions opts;
  complete_runnables : exists registry names names' fp,
    mgr_Runnables mgr = (omap (fun n => ClusterRunnable n <$> Get registry n) names) ++
      [ReconcilerOf registry (clustermeshSpec names'); WatcherOf fp changeWatcherSpec; HealthzCheck; ReadyzCheck] /\
    names ≡ₚ (map_to_list (reg_clusters registry)).*1 /\ names' ≡ₚ names /\
    (exists wl items wb, WatchedMeshes None wl = (Ok items, wb) /\ registry = (Build (mergeClusterEntries items) cfg wb).1) /\
    (exists wf, (computeFingerprint wf).1 = Ok fp);
}.

Lemma addClusters_Ok registry names mgr w mgr' w' :
  addClusters registry names mgr w = (Ok mgr', w') ->
  mgr_Options mgr' = mgr_Options mgr /\
  mgr_Runnables mgr' = mgr_Runnables mgr ++ omap (fun n => ClusterRunnable n <$> Get registry n) names.
Proof.
  revert mgr w; induction names as [|n names IH]; intros mgr w; cbn [addClusters omap list_omap].
  { rewrite st_ret_run. intros [= <- _]. by rewrite app_nil_r. }
  destruct (Get registry n) as [c|] eqn:Ec; cbn [fmap option_fmap option_map]; [|apply IH].
  rewrite st_bind_run. destruct (AddCluster n c w) as [[u|e] w1]; cbn [fst snd]; [|by rewrite st_ret_run].
  intros [-> ->]%IH. cbn [add mgr_Options mgr_Runnables]. by rewrite <- app_assoc.
Qed.

Lemma initialRegistry_Ok cfg w registry w' :
  initialRegistry cfg w = (Ok registry, w') ->
  exists wl items wb, WatchedMeshes None wl = (Ok items, wb) /\ registry = (Build (mergeClusterEntries items) cfg wb).1.
Proof.
  unfold initialRegistry. rewrite st_bind_run. destruct (NewClient cfg w) as [[u|e] w1]; cbn [fst snd]; [|by rewrite st_ret_run].
  rewrite st_bind_run. destruct (WatchedMeshes None w1) as [[items|e] w2] eqn:E; cbn [fst snd]; rewrite st_bind_run.
  - unfold buildInitialRegistry. rewrite st_bind_run, st_ret_run. cbn [fst snd]. rewrite st_ret_run. intros [= <- _].
    by exists w1, items, w2.
  - cbn [buildInitialRegistry]. by rewrite !st_ret_run.
Qed.

Lemma wireReconciler_Ok mgr registry w mgr' w' :
  wireReconciler mgr registry w = (Ok mgr', w') ->
  exists names, mgr' = add mgr (ReconcilerOf registry (clustermeshSpec names)) /\ names ≡ₚ (map_to_list (reg_clusters registry)).*1.
Proof.
  unfold wireReconciler, SetupReconciler. rewrite !st_bind_run. pose proof (Hrange (All registry) w) as Hp.
  destruct (rangeClusters (All registry) w) as [names w1]. cbn [fst snd] in *.
  destruct (CompleteController _ w1) as [[u|e] w2]; cbn [fst snd]; rewrite !st_ret_run; cbn [fst snd]; rewrite ?st_ret_run; [|done].
  intros [= <- _]. by exists names.
Qed.

Lemma wireChangeWatcher_Ok cfg mgr w mgr' w' :
  wireChangeWatcher cfg mgr w = (Ok mgr', w') ->
  exists fp wf, mgr' = add mgr (WatcherOf fp changeWatcherSpec) /\ (computeFingerprint wf).1 = Ok fp.
Proof.
  unfold wireChangeWatcher, SetupChangeWatcher, ComputeFingerprint. rewrite st_bind_run.
  destruct (NewClient cfg w) as [[u|e] w1]; cbn [fst snd]; [|by rewrite st_ret_run].
  rewrite st_bind_run. destruct (computeFingerprint w1) as [[fp|e] w2] eqn:E; cbn [fst snd]; [|by rewrite st_ret_run].
  rewrite !st_bind_run. destruct (CompleteController _ w2) as [[u'|e] w3]; cbn [fst snd]; rewrite !st_ret_run; cbn [fst snd];
    rewrite ?st_ret_run; [|done]. intros [= <- _]. exists fp, w1. by rewrite E.
Qed.

Lemma wire_complete cfg (opts : runtimeOpts Zap) w mgr w' : wire cfg opts w = (Ok mgr, w') -> complete cfg opts mgr.
Proof.
  unfold wire, newManager. rewrite st_bind_run.
  destruct (initialRegistry cfg w) as [[registry|e] w1] eqn:E1; cbn [fst snd]; [|by rewrite st_ret_run].
  rewrite !st_bind_run. destruct (NewManager _ _ w1) as [[u|e] w2]; cbn [fst snd]; rewrite st_ret_run; cbn [fst snd]; [|by rewrite st_ret_run].
  rewrite st_bind_run. pose proof (Hrange (All registry) w2) as Hp.
  destruct (rangeClusters (All registry) w2) as [names w3]. cbn [fst snd] in *. rewrite st_bind_run.
  destruct (addClusters _ _ _ w3) as [[m1|e] w4] eqn:E4; cbn [fst snd]; [|by rewrite st_ret_run]. rewrite st_bind_run.
  destruct (wireReconciler m1 registry w4) as [[m2|e] w5] eqn:E5; cbn [fst snd]; [|by rewrite st_ret_run]. rewrite st_bind_run.
  destruct (wireChangeWatcher cfg m2 w5) as [[m3|e] w6] eqn:E6; cbn [fst snd]; [|by rewrite st_ret_run]. rewrite st_bind_run.
  destruct (AddHealthzCheck w6) as [[u7|e] w7]; cbn [fst snd]; [|by rewrite st_ret_run]. rewrite st_bind_run.
  destruct (AddReadyzCheck w7) as [[u8|e] w8]; cbn [fst snd]; [|by rewrite st_ret_run]. rewrite st_ret_run. intros [= <- _].
  apply addClusters_Ok in E4 as [O4 R4]. apply wireReconciler_Ok in E5 as (names' & -> & Hn).
  apply wireChangeWatcher_Ok in E6 as (fp & wf & -> & Hf). apply initialRegistry_Ok in E1.
  constructor; [by cbn; rewrite O4|]. exists registry, names, names', fp. cbn [add mgr_Runnables]. rewrite R4. cbn [mgr_Runnables app].
  rewrite <- !app_assoc. cbn [app]. split; [done|]. split; [done|]. split; [by rewrite Hn|]. split; [done|by exists wf].
Qed.

(** The errors of the set-up are not those of the running manager. *)
Definition setup_failure (e : start_error) : Prop :=
  match e with ManagerExited _ => False | _ => True end.

Lemma addClusters_Err registry names mgr w e w' :
  addClusters registry names mgr w = (Err e, w') -> setup_failure e.
Proof.
  revert mgr w; induction names as [|n names IH]; intros mgr w; cbn [addClusters]; [done|].
  destruct (Get registry n) as [c|]; [|apply IH].
  rewrite st_bind_run. destruct (AddCluster n c w) as [[u|e'] w1]; cbn [fst snd]; [apply IH|by intros [= <- _]].
Qed.

Lemma wire_Err cfg (opts : runtimeOpts Zap) w e w' : wire cfg opts w = (Err e, w') -> setup_failure e.
Proof.
  unfold wire. rewrite st_bind_run. destruct (initialRegistry cfg w) as [[registry|e1] w1] eqn:E1; cbn [fst snd].
  2:{ intros [= <- _]. revert E1. unfold initialRegistry. rewrite st_bind_run.
      destruct (NewClient cfg w) as [[u|e2] w2]; cbn [fst snd]; [|by intros [= <- _]]. rewrite st_bind_run.
      destruct (WatchedMeshes None w2) as [[items|e2] w3]; cbn [fst snd]; rewrite st_bind_run; cbn [buildInitialRegistry];
        [rewrite st_bind_run, st_ret_run; done|by intros [= <- _]]. }
  unfold newManager. rewrite !st_bind_run.
  destruct (NewManager _ _ w1) as [[u|e2] w2]; cbn [fst snd]; rewrite st_ret_run; cbn [fst snd]; [|by intros [= <- _]].
  rewrite !st_bind_run.
  destruct (addClusters _ _ _ _) as [[m1|e4] w4] eqn:E4; cbn [fst snd]; [|intros [= <- _]; by eapply addClusters_Err].
  rewrite st_bind_run. unfold wireReconciler, SetupReconciler. rewrite !st_bind_run.
  destruct (CompleteController _ _) as [[u5|e5] w5]; cbn [fst snd]; rewrite !st_ret_run; cbn [fst snd]; rewrite ?st_ret_run; [|by intros [= <- _]].
  cbn [fst snd]. unfold wireChangeWatcher, SetupChangeWatcher, ComputeFingerprint. rewrite !st_bind_run.
  destruct (NewClient cfg w5) as [[u6|e6] w6]; cbn [fst snd]; [|by intros [= <- _]]. rewrite !st_bind_run.
  destruct (computeFingerprint w6) as [[fp|e7] w7]; cbn [fst snd]; [|by intros [= <- _]]. rewrite !st_bind_run.
  destruct (CompleteController _ w7) as [[u8|e8] w8]; cbn [fst snd]; rewrite !st_ret_run; cbn [fst snd]; rewrite ?st_ret_run; [|by intros [= <- _]].
  cbn [fst snd]. rewrite st_bind_run.
  destruct (AddHealthzCheck w8) as [[u9|e9] w9]; cbn [fst snd]; [|by intros [= <- _]]. rewrite st_bind_run.
  by destruct (AddReadyzCheck w9) as [[u10|e10] w10]; cbn [fst snd]; [|intros [= <- _]].
Qed.

(** C18. Nothing starts half-built: if [run] gets as far as starting the manager,
    the flags were parsed, the namespace was set, the CRD had been installed and
    established, and the manager holds every cluster of the registry built from the
    ClusterMeshes, the reconciler on that registry with a node watch per cluster,
    the change watcher with a start fingerprint, and both health checks. *)
Theorem run_starts_complete_manager args env cfg parsed client w r w' :
  run otherFlags zap0 args env cfg parsed client w = (r, w') ->
  r = RunReturn None \/ (exists e, r = RunReturn (Some (ManagerExited e))) ->
  exists opts ns cfg' mgr w1 w2,
    parseFlags otherFlags zap0 args = Parsed opts /\ readNamespace env = Ok ns /\ ns <> "" /\ cfg = Some cfg' /\
    InstallOrUpdate Background parsed client w = (Some (Ok tt), w1) /\ wire cfg' opts w1 = (Ok mgr, w2) /\
    complete cfg' opts mgr /\ (StartManager mgr w2).2 = w' /\
    (r = RunReturn None <-> (StartManager mgr w2).1 = Ok tt).
Proof.
  unfold run. intros E Hr. destruct (parseFlags _ _ args) as [opts|code]; [|injection E as <- _; by destruct Hr as [?|[? ?]]].
  destruct (readNamespace env) as [ns|e] eqn:En; [|injection E as <- _; unfold readNamespace in En;
    destruct (bool_decide _); [injection En as <-|done]; by destruct Hr as [?|[? ?]]].
  destruct cfg as [cfg|]; [|injection E as <- _; by destruct Hr as [?|[? ?]]].
  rewrite st_bind_run in E. destruct (InstallOrUpdate Background parsed client w) as [[[u|e]|] w1]; cbn [fst snd] in E;
    [|injection E as <- _; by destruct Hr as [?|[? ?]]..].
  rewrite st_bind_run in E. destruct (wire cfg opts w1) as [[mgr|e] w2] eqn:Ew; cbn [fst snd] in E.
  2:{ exfalso. injection E as <- _. destruct Hr as [?|[e' [= ->]]]; [done|]. by apply wire_Err in Ew. }
  exists opts, ns, cfg, mgr, w1, w2. destruct u. split; [done|]. split; [done|]. split.
  { unfold readNamespace in En. case_bool_decide; [done|]. by injection En as <-. }
  do 3 (split; [done|]). split; [by eapply wire_complete|]. rewrite st_bind_run in E.
  destruct (StartManager mgr w2) as [[[]|e] w3]; cbn [fst snd] in *; injection E as <- <-; done.
Qed.

End Started.

(** ** A change during start-up *)

(** A store that changes once, while the manager is created. *)
Module Boot.

Record tape : Type := mkTape {
  t_now : Store.store;
  t_next : Store.store;
}.

#[export] Instance watcher_api : WatcherAPI tape := {
  WatchedMeshes ns t := ((WatchedMeshes ns (t_now t)).1, t);
  GetSecretVersion ns name t := ((GetSecretVersion ns name (t_now t)).1, t);
  sortByName := sortByName (W := Store.store);
}.

(** A configuration and a cluster are names; only the local cluster can be built. *)
#[export] Instance cluster_api : ClusterAPI string string tape := {
  GetSecret _ _ t := (Err NotFound, t);
  RESTConfigFromKubeConfig _ := None;
  NewCluster cfg t := (Ok cfg, t);
}.

#[export] Instance controller_api : ControllerAPI string tape := {
  ListNodes _ t := (Ok [], t);
  GetMesh _ _ t := (Err NotFound, t);
  ListMeshes _ t := (Ok (Store.st_meshes (t_now t)), t);
  UpdateMesh _ t := (Ok tt, t);
  UpdateMeshStatus _ t := (Ok tt, t);
  rangeClusters m t := ((map_to_list m).*1, t);
  unmarshalDiscovered _ := None;
}.

(** The CRD is established, and no time passes. *)
#[export] Instance crd_api : CrdAPI unit tape := {
  GetCRD _ t := (Ok (mkCRD "1" tt [("Established", "True")]), t);
  CreateCRD _ _ t := (Ok tt, t);
  UpdateCRD _ _ t := (Ok tt, t);
  Now _ := 0;
  Ticker := unit;
  NewTicker _ t := (tt, t);
  select _ _ t := (Tick, t);
  created _ := 0;
  received _ _ := 0;
}.

#[export] Instance manager_api : ManagerAPI string string tape := {
  NewClient _ t := (Ok tt, t);
  NewManager _ _ t := (Ok tt, mkTape (t_next t) (t_next t));
  AddCluster _ _ t := (Ok tt, t);
  CompleteController _ t := (Ok tt, t);
  AddHealthzCheck t := (Ok tt, t);
  AddReadyzCheck t := (Ok tt, t);
  StartManager _ t := (Ok tt, t);
}.

Definition no_flags : string -> option (flagValue unit) := fun _ => None.
Definition opts : runtimeOpts unit := defaultOpts tt.

Definition hub : ClusterMesh :=
  mkClusterMesh "tenant" "m" 1 false [] [mkClusterEntry "hub" true None ["10.0.0.0/16"] 51820 0] [] [].
Definition empty : Store.store := Store.mkStore [] ∅.
Definition one : Store.store := Store.mkStore [hub] ∅.

Definition fingerprint {W} `{WatcherAPI W} (w : W) : string :=
  match (computeFingerprint w).1 with Ok f => f | Err _ => "" end.

(** The registry a manager's reconciler uses. *)
Definition registry_of (mgr : Manager string) : option (ClusterRegistry string) :=
  head (omap (fun r => match r with ReconcilerOf reg _ => Some reg | _ => None end) (mgr_Runnables mgr)).

(** The set-up, and what the change watcher says after it. *)
Definition boot (t : tape) : option (list string * list string * result kube_error bool) :=
  match wire "in-cluster" opts t with
  | (Ok mgr, t') =>
      let fp := head (omap (fun r => match r with WatcherOf fp _ => Some fp | _ => None end) (mgr_Runnables mgr)) in
      Some ((mergeClusterEntries (Store.st_meshes (t_now t'))) ≫= (fun e => [entry_Name (src_Entry e)]),
            default [] ((fun reg => (map_to_list (reg_clusters reg)).*1) <$> registry_of mgr),
            (watcherReconcile (default "" fp) t').1)
  | (Err _, _) => None
  end.

End Boot.

#[export] Existing Instances Boot.watcher_api Boot.cluster_api Boot.controller_api Boot.crd_api Boot.manager_api.

(** A mesh created during start-up can be missed for good. If it appears after
    the list the registry is built from and before the start fingerprint is
    computed, the set-up succeeds with a registry that lacks its cluster, and the
    change watcher, whose fingerprint already includes the mesh, asks for no
    restart; had it appeared before, the registry would hold the cluster. *)
Theorem startup_race :
  Boot.boot (Boot.mkTape Boot.empty Boot.one) = Some (["hub"], [], Ok false) /\
  Boot.boot (Boot.mkTape Boot.one Boot.one) = Some (["hub"], ["hub"], Ok false).
Proof. split; vm_compute; reflexivity. Qed.

(** ** Concrete instances *)

Lemma parseFlags_roundtrip_witness :
  parseFlags Boot.no_flags tt
    (flagArgs (mkRuntimeOpts ":8443" ":9090" "/certs" "a=b.crt" "--x" "" "tls.crt" "tls.key" true false true tt) ++ ["rest"]) =
  Parsed (mkRuntimeOpts ":8443" ":9090" "/certs" "a=b.crt" "--x" "" "tls.crt" "tls.key" true false true tt).
Proof.
  apply (parseFlags_roundtrip Boot.no_flags tt).
  - reflexivity.
  - intros s [= <-]. reflexivity.
Defined.

Module Started.
Definition env : gmap string string := {["POD_NAMESPACE" := "kilo"]}.
Definition tape : Boot.tape := Boot.mkTape Boot.one Boot.one.
Definition crd : option (CRD unit) := Some (mkCRD "" tt []).
Definition outcome : run_result * Boot.tape :=
  run (Cfg := string) (C := string) Boot.no_flags tt ["--leader-elect"] env (Some "in-cluster") crd true tape.
End Started.

Lemma run_starts_complete_manager_witness :
  exists opts mgr, parseFlags Boot.no_flags tt ["--leader-elect"] = Parsed opts /\
    complete (C := string) (W := Boot.tape) "in-cluster" opts mgr.
Proof.
  destruct (run_starts_complete_manager (Cfg := string) (C := string) Boot.no_flags tt ltac:(done) ["--leader-elect"] Started.env
    (Some "in-cluster") Started.crd true Started.tape (RunReturn None) Started.tape)
    as (opts & ns & cfg & mgr & w1 & w2 & H1 & _ & _ & H2 & _ & _ & H3 & _).
  - vm_compute. reflexivity.
  - left. reflexivity.
  - injection H2 as <-. exists opts, mgr. split; [exact H1|exact H3].
Defined.
