(* ===== verification/Life.v ===== *)
(** * Life: from start-up to restart

    The operator builds its registry once. The change watcher ([watcher.go]) ends the
    process when the references behind the start fingerprint change, and the pod is
    started again. The steps here are those of the process ([ComputeFingerprint] at
    the start, [secretToClusterMesh] for Secret events, [watcherReconcile] for queued
    requests) and those of its environment: changes, each with its event. *)

From Stdlib Require Import String.
From stdpp Require Import relations.
From S2P Require Import Prelude GoStrings Types Kube Restart Watches Fingerprint.
Open Scope Z_scope.
Open Scope go_scope.

(** ** What the watcher reads *)

(** The meshes, and the Secrets with their resource versions. *)
Class MeshCache (W : Type) : Type := {
  meshes_of : W -> list ClusterMesh;
  version_of : W -> string -> string -> option string;
}.

Definition unchanged `{MeshCache W} (w w' : W) : Prop :=
  meshes_of w' = meshes_of w /\ forall ns n, version_of w' ns n = version_of w ns n.

(** Reads change nothing. A list that succeeds has all meshes, in some order; a
    Secret that exists is found. *)
Class CacheLaws (W : Type) `{WatcherAPI W} `{MeshCache W} : Prop := {
  list_all w items w' : WatchedMeshes None w = (Ok items, w') -> items ≡ₚ meshes_of w;
  list_namespace ns w items w' :
    WatchedMeshes (Some ns) w = (Ok items, w') -> items ≡ₚ base.filter (fun m => mesh_Namespace m = ns) (meshes_of w);
  list_unchanged ns w : unchanged w (WatchedMeshes ns w).2;
  get_version ns n w :
    (GetSecretVersion ns n w).1 = match version_of w ns n with Some rv => Ok rv | None => Err NotFound end;
  get_unchanged ns n w : unchanged w (GetSecretVersion ns n w).2;
}.

(** ** Events *)

(** What the API server reports: an event on a mesh, or on a Secret. *)
Inductive occurrence : Type :=
| MeshEvent (e : event ClusterMesh)
| SecretEvent (namespace name : string).

Definition meshOf (e : event ClusterMesh) : ClusterMesh :=
  match e with CreateEvent m | DeleteEvent m | GenericEvent m | UpdateEvent _ m => m end.

Section Events.
Context {W : Type} {wapi : WatcherAPI W}.

(** The requests one watch makes. *)
Definition watchRequests (o : occurrence) (x : watch) : ST W (list (string * string)) :=
  match x, o with
  | ForMeshes p, MeshEvent e => mret (if p e then [(mesh_Namespace (meshOf e), mesh_Name (meshOf e))] else [])
  | MappedSecrets, SecretEvent namespace name => secretToClusterMesh namespace name
  | _, _ => mret []
  end.

Definition deliver (spec : controllerSpec) (o : occurrence) : ST W (list (string * string)) :=
  st_collect (watchRequests o) (cs_Watches spec).

(** A Secret event whose handler cannot list the meshes. *)
Definition unlisted (o : occurrence) (w : W) : bool :=
  match o with
  | SecretEvent namespace _ => match (WatchedMeshes (Some namespace) w).1 with Err _ => true | Ok _ => false end
  | MeshEvent _ => false
  end.

(** ** The process *)

(** A running process: the state its registry was built from, its start fingerprint,
    the events on their way, the queue of the change watcher, and whether an event
    was dropped since the start. *)
Record process : Type := mkProcess {
  pr_Built : W;
  pr_StartFingerprint : string;
  pr_Events : list occurrence;
  pr_Queue : list (string * string);
  pr_Missed : bool;
}.

(** [Built]: the ClusterMeshes for the registry are listed. *)
Inductive phase : Type :=
| Down
| Built (built : W)
| Up (p : process).

(** An event for a running process; before that, nothing is watched. *)
Definition notify (o : occurrence) (ph : phase) : phase :=
  match ph with
  | Up p => Up (mkProcess (pr_Built p) (pr_StartFingerprint p) (pr_Events p ++ [o]) (pr_Queue p) (pr_Missed p))
  | _ => ph
  end.

(** The start fingerprint is computed; the watches report what is there, [events]. *)
Definition startUp (built : W) (events : list occurrence) : ST W phase :=
  let? fp := ComputeFingerprint catch _ => mret Down;
  mret (Up (mkProcess built fp events [] false)).

(** An event is handled; [rest] are the other ones. *)
Definition onEvent (p : process) (o : occurrence) (rest : list occurrence) : ST W phase := fun w =>
  let '(requests, w') := deliver changeWatcherSpec o w in
  (Up (mkProcess (pr_Built p) (pr_StartFingerprint p) rest (pr_Queue p ++ requests) (pr_Missed p || unlisted o w)), w').

(** A request is reconciled; [rest] are the other ones. An error requeues it, a
    cancelled context ends the process. *)
Definition onRequest (p : process) (rest : list (string * string)) : ST W phase :=
  let? changed := watcherReconcile (pr_StartFingerprint p) catch _ => mret (Up p);
  if (changed : bool) then mret Down
  else mret (Up (mkProcess (pr_Built p) (pr_StartFingerprint p) (pr_Events p) rest (pr_Missed p))).

Context `{!MeshCache W}.

(** One step. [atomic]: meshes and Secrets stay as they are between the list for the
    registry and the start fingerprint. *)
Inductive step (atomic : bool) : phase * W -> phase * W -> Prop :=
| step_mesh ph w w' e :
    (atomic = true -> forall b, ph <> Built b) ->
    (forall ns n, version_of w' ns n = version_of w ns n) ->
    step atomic (ph, w) (notify (MeshEvent e) ph, w')
| step_secret ph w w' ns n :
    (atomic = true -> forall b, ph <> Built b) ->
    meshes_of w' = meshes_of w ->
    (forall a b, (a, b) <> (ns, n) -> version_of w' a b = version_of w a b) ->
    step atomic (ph, w) (notify (SecretEvent ns n) ph, w')
| step_other ph w w' :
    unchanged w w' -> step atomic (ph, w) (ph, w')
| step_build w items w' :
    WatchedMeshes None w = (Ok items, w') -> step atomic (Down, w) (Built w, w')
| step_start b events w s' :
    startUp b events w = s' -> step atomic (Built b, w) s'
| step_event p o e1 e2 w s' :
    pr_Events p = e1 ++ o :: e2 -> onEvent p o (e1 ++ e2) w = s' -> step atomic (Up p, w) s'
| step_request p r q1 q2 w s' :
    pr_Queue p = q1 ++ r :: q2 -> onRequest p (q1 ++ q2) w = s' -> step atomic (Up p, w) s'
| step_crash ph w :
    step atomic (ph, w) (Down, w).

(** ** The references of a state *)

Definition rv_of (w : W) (ns n : string) : string := default "" (version_of w ns n).
Definition refs_of (w : W) : list clusterRef := all_refs (rv_of w) (meshes_of w).

Context {wlaws : WatcherLaws W} {claws : CacheLaws W}.

#[local] Instance unchanged_preorder : PreOrder (unchanged (W := W)).
Proof. split; [done|]. intros a b c [H1 H2] [H3 H4]. split; [congruence|]. intros. by rewrite H4. Qed.





(** *** Delivery *)






(** ** The invariant *)













End Events.

(** ** A concrete cache *)

Module Cached.

(** A store, and whether lists succeed. *)
Record cache : Type := mkCache {
  ca_store : Store.store;
  ca_up : bool;
}.

#[export] Instance api : WatcherAPI cache := {
  WatchedMeshes ns c := (if ca_up c then (WatchedMeshes ns (ca_store c)).1 else Err (OtherError "unavailable"), c);
  GetSecretVersion ns n c := ((GetSecretVersion ns n (ca_store c)).1, c);
  sortByName := sortByName (W := Store.store);
}.

#[export] Instance api_laws : WatcherLaws cache.
Proof. split; [exact Store.store_laws.(@sortByName_perm _ _)|exact Store.store_laws.(@sortByName_sorted _ _)]. Qed.

#[export] Instance content : MeshCache cache := {
  meshes_of c := Store.st_meshes (ca_store c);
  version_of c ns n := Store.st_secrets (ca_store c) !! (ns, n);
}.

#[export] Instance laws : CacheLaws cache.
Proof.
  split; intros; try done.
  - cbn in *. destruct (ca_up w); [|done]. by simplify_eq/=.
  - cbn in *. destruct (ca_up w); [|done]. by simplify_eq/=.
Qed.

Definition hub : ClusterMesh := mesh_of "t1" "hub".
Definition with_secrets (l : list (string * string * string)) : cache := mkCache (Store.mkStore [hub] (list_to_map l)) true.
Definition down (c : cache) : cache := mkCache (ca_store c) false.

(** The kubeconfig at version 7; rotated; and with another Secret beside it. *)
Definition c0 : cache := with_secrets [("t1", "admin", "7")].
Definition c1 : cache := with_secrets [("t1", "admin", "9")].
Definition none : cache := mkCache (Store.mkStore [] ∅) true.

Definition fp (c : cache) : string := match (ComputeFingerprint c).1 with Ok f => f | Err _ => "" end.
Definition running (b : cache) (events : list occurrence) (queue : list (string * string)) (missed : bool) : process :=
  mkProcess b (fp b) events queue missed.

Lemma boots c events atomic :
  ca_up c = true -> ComputeFingerprint c = (Ok (fp c), c) ->
  rtc (step atomic) (Down, c) (Up (running c events [] false), c).
Proof.
  intros Hup Hf. eapply rtc_l; [eapply (step_build _ c (meshes_of c) c); cbn; by rewrite Hup|]. apply rtc_once.
  apply (step_start _ _ events). unfold startUp. by rewrite st_bind_run, Hf.
Qed.

Lemma boots0 atomic : rtc (step atomic) (Down, c0) (Up (running c0 [] [] false), c0).
Proof. apply boots; [done|by vm_compute]. Qed.



(** The first exception of [quiet_registry_current]: the list fails while the event of
    the rotation is handled. The process stays up, quiet, with the old kubeconfig. *)
Lemma rotation_missed :
  rtc (step true) (Down, c0) (Up (running c0 [] [] true), c1) /\ ~ refs_of c0 ≡ₚ refs_of c1.
Proof.
  split.
  - etrans; [exact (boots0 true)|].
    eapply rtc_l; [apply (step_secret true _ c0 c1 "t1" "admin"); [by intros _ b|done|]|].
    { intros a b Hn. cbn. by rewrite !lookup_insert_ne by congruence. }
    eapply rtc_l; [by apply (step_other true _ c1 (down c1))|].
    eapply rtc_l; [eapply (step_event true _ (SecretEvent "t1" "admin") [] []); [done|vm_compute; reflexivity]|].
    apply rtc_once. by apply step_other.
  - intros Hp%Permutation_length_1_inv. by vm_compute in Hp.
Qed.

(** Without [atomic]: a mesh created between the list for the registry and the start
    fingerprint. The process handles its first event and finds nothing to do, with a
    registry that lacks the cluster. *)
Lemma created_too_early :
  rtc (step false) (Down, none) (Up (mkProcess none (fp c0) [] [] false), c0) /\ ~ refs_of none ≡ₚ refs_of c0.
Proof.
  split.
  - eapply rtc_l; [by eapply (step_build false none)|].
    eapply rtc_l; [apply (step_mesh false (Built none) none (mkCache (Store.mkStore [hub] ∅) true) (CreateEvent hub)); done|].
    eapply rtc_l; [apply (step_secret false (Built none) _ c0 "t1" "admin"); [done|done|]|].
    { intros a b Hn. cbn. by rewrite !lookup_insert_ne by congruence. }
    eapply rtc_l; [eapply (step_start false none [MeshEvent (CreateEvent hub)]); vm_compute; reflexivity|].
    eapply rtc_l; [eapply (step_event false _ (MeshEvent (CreateEvent hub)) [] []); [done|vm_compute; reflexivity]|].
    apply rtc_once. eapply (step_request false _ ("t1", "m") [] []); [done|vm_compute; reflexivity].
  - intros Hp%Permutation_length. by vm_compute in Hp.
Qed.

End Cached.

#[local] Existing Instances Cached.api Cached.api_laws Cached.content Cached.laws.

